(* ===== verification/_CoqProject ===== *)
-Q . S2P
Prelude.v
K8s.v
Api.v
Defaults.v
Status.v
Names.v
Expectations.v
Core.v
Quota.v
World.v
Control.v
RefManager.v
Schema.v
Controller.v
Reconciler.v
PodPlan.v
ServicePlan.v
Cleanup.v
Accounting.v
Events.v
SchemaLib.v
Slurm.v
SlurmSpec.v
Pbspro.v
PbsproSpec.v
Main.v
StatusInv.v
Lifecycle.v
Fakes.v
Converge.v
Triples.v
Safety.v
SafetySchemas.v
InitContainers.v
SafetyMain.v
SlurmNodes.v
Gate.v
DeepCopy.v
Informers.v
Clients.v
Logging.v
Entry.v
Settled.v
Steady.v
SteadySchemas.v
Passes.v
ExpectationsConc.v
Listers.v
Clientset.v
Counters.v
