(* ===== verification/Prelude.v ===== *)
(** * kubecluster: a verification development

    The repository is a Kubernetes operator in Go. A user declares a KubeCluster (a
    slurm or a PBS Pro cluster: replica types, each with a number of replicas and a
    pod template); the operator keeps its pods, services, config map and pod group as
    declared, follows their status, and cleans up. This library models the program
    as Rocq functions and proves what its parts promise. It is read next to src/.

    ** The program and where it is modelled

    - apis/kubecluster.org/v1alpha1: the KubeCluster (Api.v), its defaults and its
      validation (Defaults.v).
    - pkg/util/status.go: the conditions of a cluster, a state machine (Status.v).
    - pkg/common, pkg/core, pkg/util: names, labels and keys (Names.v), the helpers
      on pods, services, ports, limits and statuses (Core.v), resource lists and the
      minimal resources of a pod group (Quota.v).
    - pkg/controller/expectation: how many creations and deletions a controller
      still expects to see, as functions on a store (Expectations.v) and as the
      goroutines run it, one atomic action at a time (ExpectationsConc.v).
    - pkg/controller/control: the requests for pods, services, config maps and pod
      groups (Control.v), the fakes of the tests (Fakes.v) and the claiming of orphans
      (RefManager.v).
    - pkg/common/{schema,interface,metric}.go, pkg/metrics, register_cluster_schema.go:
      the interfaces between the controller and its parts, the counters and the
      registry of schemas (Schema.v); how the counters are registered (Counters.v).
    - pkg/controller/ctrlcommon: the generic controller, from the pod of one index to
      the whole reconciliation of a cluster (Controller.v).
    - pkg/controller/cluster_controller.go: the KubeCluster reconciler and the entry
      point [Reconcile] (Reconciler.v).
    - pkg/controller/cluster_schema/slurm_schema: Slurm.v; pbspro_schema: Pbspro.v;
      what the two share, with the random strings of pkg/util/random.go: SchemaLib.v;
      their init containers: InitContainers.v.
    - pkg/common/util/{reconciler,reconcile_generic}.go: the watch predicates (Events.v).
    - cmd/main.go: [setupController] (Main.v), and [main] from the flags to the end of
      the process (Entry.v).
    - pkg/util/logger.go: the fields of the log entries (Logging.v).
    - Generated code: the deep copies of zz_generated.deepcopy.go, over a memory in which
      pointers alias (DeepCopy.v); under pkg/client the typed client and its fake
      (Clients.v), how they are made from a configuration (Clientset.v), the listers
      (Listers.v) and the informer factory with its goroutines (Informers.v).

    A reconciliation runs through them in this order: [Reconcile] reads the
    KubeCluster, validates and defaults it; [ReconcileKubeCluster] lists its pods and
    services, winds a finished or suspended cluster down, checks its limits, syncs the
    pod group, and then has the schema fill the config map, creates and removes pods
    and services replica type by replica type, and writes the status. The events of
    the objects it created lower the expectations it raised and lead to the next
    reconciliation.

    ** How it is modelled

    K8s.v holds what is not in the repository and is used by it: quantities, label
    selectors, owner references and API errors are a class [K8s], with the documented
    behaviour the proofs need in [K8sLaws] and a concrete instance; the core API
    objects are records with the fields the sources use. World.v has the state of a
    reconciliation ([World]: API server, log of requests, events, counters,
    expectations, and the KubeCluster every function changes through one pointer) and
    the monad [M] of functions that return an error, whose effects persist when a call
    fails or panics. The API server is any state with an answer to each request
    ([ApiServer]): a theorem holds for every server, every failure and every
    interference of other clients; [MemServer] is a server in memory for examples.
    What Go leaves open is a parameter too: the order of a loop over a map
    ([GoRange], a permutation that may differ from loop to loop), the order of equal
    elements in a sort ([GoSort]), the clock, and the random source ([GoRand]).

    Conventions. A pointer is an option, and reading through nil is [Panic], as is
    indexing out of range. Integers are Z, with [int32] and [int64] written out where
    the code can wrap; int is 64 bits. A nil map and an empty one are the same, except
    for the requests and limits of a container, where the code tells them apart.
    ToLower, EqualFold and TrimSpace are those of ASCII text. Log lines are left out.

    Fuel. The loops of Go are structural recursions, but for two that wait for a
    random source: the second slurm port and RandStr. They take fuel, and without it end in
    [out_of_fuel], an error of its own ([EUnfinished]) that no call of the code gives and
    that only says that the loop still runs; a caller of the model goes on with it as
    with any error. [genSlurmRandomPort_terminates] proves that one round more than
    there are readings of the clock that repeat the first port is enough;
    [RandStr_ends] (SafetySchemas.v) that RandStr ends when every number of the source
    has a letter among the bits it holds. The theorem that nothing panics assumes
    neither: it holds for any fuel and any random source.

    Concurrency. A reconciliation is one sequence of calls: controller-runtime gives a
    KubeCluster to one worker at a time, and what others do is in the answers of the
    server. Where goroutines of the process share memory they are interleaved: the
    expectations (ExpectationsConc.v: threads are trees of atomic actions, a schedule
    picks the next one) and the informer factory (Informers.v: a step relation of calls
    that hold the lock, and of goroutines that end).

    ** What the theorems show

    - PodPlan.v, Accounting.v, ServicePlan.v: exactly which requests a replica type
      leads to, in which order; that a created pod is found again, that a settled type
      asks for nothing, that the expectations raised are those of the requests, and that
      a service selects the pod of its index.
    - Converge.v, Settled.v: two passes settle a type, and a cluster: what the first asks
      for is what the second needs to ask for nothing. Steady.v follows a whole
      reconciliation of a settled cluster down to its four requests, for any schema that
      keeps [MarksStatus]; SteadySchemas.v shows both schemas keep it. Passes.v puts
      two whole reconciliations together: the first asks for what is missing, the
      second, once that exists, comes to its reads and the update of the status.
    - Cleanup.v: which pods are torn down and when the KubeCluster is deleted; that a
      finished or suspended cluster creates nothing; when a cluster over its limits is
      marked Failed, and when it never is.
    - Lifecycle.v: what a request leads to, gate by gate; that writing the config map
      leaves the pods of the same reconciliation without an owner.
    - StatusInv.v: an invariant of the whole system, over any sequence of
      reconciliations, events, requests of other clients and restarts: the conditions the
      server stores are well formed.
    - Triples.v, Safety.v, SafetySchemas.v, SafetyMain.v: a logic of what a function may
      be given so that it does not panic, over the generic controller, the schemas and
      the controller of main: no reachable state makes a reconciliation or an event
      predicate panic. The template of the init containers is that of InitContainers.v.
    - Gate.v: whatever happens, the gate in front of a reconciliation is always open.
    - Main.v: the controller main sets up keeps the contract [ControllerSpec] that the
      theorems above assume of a controller. SlurmSpec.v and PbsproSpec.v show the same
      of the schemas, and what their config maps, ports and statuses are; SlurmNodes.v
      reads the nodes back from slurm.conf; InitContainers.v, what the init container
      waits for. Entry.v: when the process ends, and with which exit code.
    - Events.v, Expectations.v, ExpectationsConc.v: the events settle the expectations;
      the store refines an abstract ledger; raising and lowering from many threads adds
      up, and a question asked meanwhile was right at some moment.
    - DeepCopy.v: a copy is equal and shares no memory, but for one pointer. Informers.v:
      one goroutine for each type, and what Shutdown waits for.
    - Status.v, RefManager.v, Core.v, Defaults.v, Names.v, Quota.v, Fakes.v, Logging.v,
      Clients.v, Clientset.v, Listers.v, Counters.v: the components taken by themselves.

    ** Not modelled

    What only registers types with apimachinery: the scheme, the OpenAPI definitions and
    the fake clientset. controller-runtime itself (the manager and its watches), the REST
    client, the caches and the registry of prometheus are parameters where the code uses
    them, as are the template and YAML decoding of init containers, the validity check of
    label values, and the printing and parsing of quantities ([QuantityFormat]). The
    interfaces of pkg/util/quota/interfaces.go have no implementation in the repository.
    The texts of log lines are left out. *)

From stdpp Require Export base gmap strings list fin_maps numbers pretty.
From Stdlib Require Export ZArith Ascii Lia Sorted.

Open Scope string_scope.
Open Scope Z_scope.

(** ** Results of Go calls

    A call of a Go function that returns [(T, error)] either returns a value,
    returns a non-nil error, or panics (nil dereference, index out of range). *)
Inductive result (E A : Type) : Type :=
| Ok (a : A)
| Err (e : E)
| Panic.
Arguments Ok {E A} a.
Arguments Err {E A} e.
Arguments Panic {E A}.

Definition result_bind {E A B} (r : result E A) (f : A → result E B) : result E B :=
  match r with
  | Ok a => f a
  | Err e => Err e
  | Panic => Panic
  end.

Definition is_Ok {E A} (r : result E A) : bool :=
  match r with Ok _ => true | _ => false end.

(** Dereferencing a Go pointer: [nil] panics. *)
Definition deref {E A} (p : option A) : result E A :=
  match p with Some a => Ok a | None => Panic end.

Declare Scope go_scope.
Delimit Scope go_scope with go.
Notation "'let!' x := r 'in' k" := (result_bind r (λ x, k))
  (at level 10, x binder, r at level 100, k at level 200,
   format "'let!'  x  :=  r  'in' '//' k") : go_scope.
Open Scope go_scope.

(** A [for _, x := range xs] loop whose body may return early with an error. *)
Fixpoint result_foldl {E A S} (f : S → A → result E S) (s : S) (xs : list A) : result E S :=
  match xs with
  | [] => Ok s
  | x :: xs => let! s' := f s x in result_foldl f s' xs
  end.

(** A loop that only checks: it passes when every element passes. *)
Lemma result_foldl_check {E A} (f : A → result E unit) (xs : list A) :
  result_foldl (λ _ x, f x) tt xs = Ok tt ↔ Forall (λ x, f x = Ok tt) xs.
Proof.
  induction xs as [|x xs IH]; simpl; [done|]. rewrite Forall_cons, <-IH.
  destruct (f x) as [[]| |]; simpl; split; [by auto|by intros [_ ?]|done|by intros []|done|by intros []].
Qed.

Lemma result_foldl_no_panic {E A S} (f : S → A → result E S) (s : S) (xs : list A) :
  (∀ s x, x ∈ xs → f s x ≠ Panic) → result_foldl f s xs ≠ Panic.
Proof.
  revert s. induction xs as [|x xs IH]; intros s Hf; simpl; [done|].
  destruct (f s x) as [s'| |] eqn:E'; simpl; [|done|].
  - apply IH. intros. apply Hf. by right.
  - destruct (Hf s x); [by left|done].
Qed.

(** A loop that meets an element it panics on, and returns no error, panics. *)
Lemma result_foldl_panic {E A S} (f : S → A → result E S) (s : S) (xs : list A) x :
  (∀ s y e, f s y ≠ Err e) → x ∈ xs → (∀ s, f s x = Panic) → result_foldl f s xs = Panic.
Proof.
  intros Herr Hx Hp. revert s. induction xs as [|y xs IH]; intros s; [by apply elem_of_nil in Hx|].
  simpl. destruct (f s y) as [s'|e|] eqn:E'; simpl; [|by destruct (Herr s y e)|done].
  apply elem_of_cons in Hx as [<-|Hx]; [by rewrite Hp in E'|by apply IH].
Qed.

(** A loop with an invariant on the elements done so far. *)
Lemma result_foldl_ind {E A S} (f : S → A → result E S) (P : list A → S → Prop) (s : S) (xs : list A) :
  P [] s →
  (∀ done x s, P done s → x ∈ xs → ∃ s', f s x = Ok s' ∧ P (done ++ [x]) s')%list →
  ∃ s', result_foldl f s xs = Ok s' ∧ P xs s'.
Proof.
  intros H0 Hstep.
  assert (∀ done rest s, (done ++ rest)%list = xs → P done s →
    ∃ s', result_foldl f s rest = Ok s' ∧ P xs s') as Hgo; [|by apply (Hgo [] xs s)].
  clear H0 s. intros dn rest. revert dn. induction rest as [|x rest IH]; intros dn s Heq Hd; simpl.
  - rewrite app_nil_r in Heq. subst. eauto.
  - destruct (Hstep dn x s Hd) as (s' & -> & Hd'); [subst; set_solver|]. simpl.
    apply (IH (dn ++ [x])%list); [|done]. by rewrite <-app_assoc.
Qed.

(** ** Sorting

    [sort.Slice] leaves its slice sorted by the given order and is not stable:
    which permutation it picks among equal elements is not specified. *)
Class GoSort := sort_Slice : ∀ {A : Type}, (A → A → bool) → list A → list A.

(** [less] is a strict weak order, as [sort.Slice] requires. *)
Record strict_weak {A} (less : A → A → bool) : Prop := {
  sw_irrefl a : less a a = false;
  sw_trans a b c : less a b = true → less b c = true → less a c = true;
  sw_neg_trans a b c : less b a = false → less c b = false → less c a = false
}.

Class GoSortLaws (S : GoSort) : Prop := {
  sort_Slice_perm {A} (less : A → A → bool) (l : list A) : sort_Slice less l ≡ₚ l;
  sort_Slice_sorted {A} (less : A → A → bool) (l : list A) :
    strict_weak less → StronglySorted (λ a b, less b a = false) (sort_Slice less l)
}.

Fixpoint insert_sorted {A} (less : A → A → bool) (x : A) (l : list A) : list A :=
  match l with
  | [] => [x]
  | y :: l => if less y x then y :: insert_sorted less x l else x :: y :: l
  end.

Definition insertion_sort : GoSort :=
  λ A less, foldr (insert_sorted less) [].

Lemma insert_sorted_perm {A} (less : A → A → bool) x l : insert_sorted less x l ≡ₚ x :: l.
Proof.
  induction l as [|y l IH]; simpl; [done|]. destruct (less y x); [|done].
  rewrite IH. constructor.
Qed.

Lemma insert_sorted_sorted {A} (less : A → A → bool) x l :
  strict_weak less → StronglySorted (λ a b, less b a = false) l →
  StronglySorted (λ a b, less b a = false) (insert_sorted less x l).
Proof.
  intros Hsw. induction 1 as [|y l Hl IH Hy]; simpl; [by repeat constructor|].
  destruct (less y x) eqn:E.
  - constructor; [done|]. rewrite insert_sorted_perm. constructor; [|done].
    destruct (less x y) eqn:E'; [|done].
    pose proof (sw_trans _ Hsw x y x E' E). by rewrite (sw_irrefl _ Hsw) in *.
  - repeat constructor; [done..|]. eapply Forall_impl; [done|]. simpl.
    intros z Hz. by eapply (sw_neg_trans _ Hsw).
Qed.

Lemma insertion_sort_laws : GoSortLaws insertion_sort.
Proof.
  split; intros A less l; unfold sort_Slice, insertion_sort.
  - induction l as [|x l IH]; simpl; [done|]. by rewrite insert_sorted_perm, IH.
  - intros Hsw. induction l as [|x l IH]; simpl; [constructor|]. by apply insert_sorted_sorted.
Qed.

(** ** Ranging over a map

    A [for k, v := range m] loop visits the entries of a map in an order the
    language does not fix, not even between two loops over one map: the [n]-th
    loop visits [range n m]. *)
Class GoRange := range : ∀ {A : Type}, nat → gmap string A → list (string * A).

Class GoRangeLaws (R : GoRange) : Prop := {
  range_perm {A} n (m : gmap string A) : range n m ≡ₚ map_to_list m
}.

Definition key_range : GoRange := λ A n m, map_to_list m.
Lemma key_range_laws : GoRangeLaws key_range.
Proof. by split. Qed.

Section range.
Context `{R : GoRange} {RL : GoRangeLaws R} {A B : Type}.

Lemma elem_of_range n (m : gmap string A) k v : (k, v) ∈ range n m ↔ m !! k = Some v.
Proof. by rewrite range_perm, elem_of_map_to_list. Qed.

Lemma NoDup_range n (m : gmap string A) : NoDup (range n m).*1.
Proof. rewrite range_perm. apply NoDup_fst_map_to_list. Qed.

Lemma foldl_insert_lookup (f : string → A → B) (l : list (string * A)) (r : gmap string B) k :
  NoDup l.*1 →
  foldl (λ r kv, <[kv.1 := f kv.1 kv.2]> r) r l !! k =
    match list_to_map (M := gmap string A) l !! k with Some v => Some (f k v) | None => r !! k end.
Proof.
  revert r. induction l as [|[k' v] l IH]; intros r Hnd; simpl; [by rewrite lookup_empty|].
  apply NoDup_cons in Hnd as [Hk' Hnd]. rewrite IH by done. simpl.
  destruct (decide (k' = k)) as [->|Hne].
  - rewrite lookup_insert_eq, not_elem_of_list_to_map_1 by done. by rewrite lookup_insert_eq.
  - by rewrite !lookup_insert_ne by done.
Qed.

Lemma list_to_map_range n (m : gmap string A) : list_to_map (range n m) = m.
Proof.
  rewrite <-(list_to_map_to_list m) at 2. apply list_to_map_proper.
  - apply NoDup_range.
  - apply range_perm.
Qed.

(** A loop that writes [f k v] at every key of [m]. *)
Lemma range_write n (f : string → A → B) (m : gmap string A) (r : gmap string B) k :
  foldl (λ r kv, <[kv.1 := f kv.1 kv.2]> r) r (range n m) !! k =
    match m !! k with Some v => Some (f k v) | None => r !! k end.
Proof. rewrite foldl_insert_lookup by apply NoDup_range. by rewrite list_to_map_range. Qed.

Lemma foldl_fill_lookup (f : A → B) (l : list (string * A)) (r : gmap string B) k :
  NoDup l.*1 →
  foldl (λ r kv, match r !! kv.1 with Some _ => r | None => <[kv.1 := f kv.2]> r end) r l !! k =
    match r !! k with Some v => Some v | None => f <$> list_to_map (M := gmap string A) l !! k end.
Proof.
  revert r. induction l as [|[k' v] l IH]; intros r Hnd; simpl; [by rewrite lookup_empty; destruct (_ !! _)|].
  apply NoDup_cons in Hnd as [Hk' Hnd]. rewrite IH by done. simpl.
  destruct (decide (k' = k)) as [->|Hne].
  - rewrite lookup_insert_eq. destruct (r !! k) eqn:E; [by rewrite E|]. by rewrite lookup_insert_eq.
  - rewrite lookup_insert_ne by done. destruct (r !! k'); [done|]. by rewrite lookup_insert_ne.
Qed.

(** A loop that writes [f v] at the keys of [m] that are not there yet. *)
Lemma range_fill n (f : A → B) (m : gmap string A) (r : gmap string B) k :
  foldl (λ r kv, match r !! kv.1 with Some _ => r | None => <[kv.1 := f kv.2]> r end)
    r (range n m) !! k =
    match r !! k with Some v => Some v | None => f <$> m !! k end.
Proof. rewrite foldl_fill_lookup by apply NoDup_range. by rewrite list_to_map_range. Qed.
End range.

(** ** Automation *)

(** Closes an equation between closed terms by evaluating both sides. *)
Ltac by_vm :=
  match goal with |- @eq ?T ?a ?b => vm_cast_no_check (@eq_refl T b) end.

(** ** Machine integers *)

(** Two's complement wrap-around at width [w]. *)
Definition wrapS (w : Z) (z : Z) : Z := (z + 2 ^ (w - 1)) mod 2 ^ w - 2 ^ (w - 1).
Definition int32 (z : Z) : Z := wrapS 32 z.
Definition int64 (z : Z) : Z := wrapS 64 z.

Definition in_int32 (z : Z) : Prop := -2147483648 ≤ z ≤ 2147483647.
Definition in_int64 (z : Z) : Prop := -9223372036854775808 ≤ z ≤ 9223372036854775807.

Lemma int32_id z : in_int32 z → int32 z = z.
Proof.
  unfold in_int32, int32, wrapS. intros ?. change (2 ^ (32 - 1)) with 2147483648.
  change (2 ^ 32) with 4294967296. rewrite Z.mod_small; lia.
Qed.

Lemma int64_id z : in_int64 z → int64 z = z.
Proof.
  unfold in_int64, int64, wrapS. intros ?. change (2 ^ (64 - 1)) with 9223372036854775808.
  change (2 ^ 64) with 18446744073709551616. rewrite Z.mod_small; lia.
Qed.

Lemma int32_range z : in_int32 (int32 z).
Proof.
  unfold in_int32, int32, wrapS. change (2 ^ (32 - 1)) with 2147483648.
  change (2 ^ 32) with 4294967296.
  pose proof (Z.mod_pos_bound (z + 2147483648) 4294967296). lia.
Qed.

Lemma int64_range z : in_int64 (int64 z).
Proof.
  unfold in_int64, int64, wrapS. change (2 ^ (64 - 1)) with 9223372036854775808.
  change (2 ^ 64) with 18446744073709551616.
  pose proof (Z.mod_pos_bound (z + 9223372036854775808) 18446744073709551616). lia.
Qed.

(** Wrapping can be postponed to the end of a chain of additions. *)
Lemma int32_add_l a b : int32 (int32 a + b) = int32 (a + b).
Proof.
  unfold int32, wrapS. f_equal.
  replace ((a + 2 ^ (32 - 1)) mod 2 ^ 32 - 2 ^ (32 - 1) + b + 2 ^ (32 - 1))
    with ((a + 2 ^ (32 - 1)) mod 2 ^ 32 + b) by lia.
  rewrite Zplus_mod_idemp_l. f_equal. lia.
Qed.

Lemma int64_add_l a b : int64 (int64 a + b) = int64 (a + b).
Proof.
  unfold int64, wrapS. f_equal.
  replace ((a + 2 ^ (64 - 1)) mod 2 ^ 64 - 2 ^ (64 - 1) + b + 2 ^ (64 - 1))
    with ((a + 2 ^ (64 - 1)) mod 2 ^ 64 + b) by lia.
  rewrite Zplus_mod_idemp_l. f_equal. lia.
Qed.

Lemma int64_add_r a b : int64 (a + int64 b) = int64 (a + b).
Proof. by rewrite Z.add_comm, int64_add_l, Z.add_comm. Qed.

Fixpoint Zsum (l : list Z) : Z :=
  match l with [] => 0 | z :: l => z + Zsum l end.

Lemma Zsum_app (l1 l2 : list Z) : Zsum (l1 ++ l2)%list = Zsum l1 + Zsum l2.
Proof. induction l1 as [|z l1 IH]; simpl; lia. Qed.

Lemma Zsum_perm l1 l2 : l1 ≡ₚ l2 → Zsum l1 = Zsum l2.
Proof. induction 1; simpl; lia. Qed.

(** A sum accumulated at 32 bits is the wrapped sum. *)
Lemma foldl_int32_sum {A} (f : A → Z) (l : list A) (z : Z) :
  foldl (λ acc x, int32 (acc + f x)) (int32 z) l = int32 (z + Zsum (f <$> l)).
Proof.
  revert z. induction l as [|x l IH]; intros z; simpl.
  - f_equal. lia.
  - rewrite int32_add_l, IH. f_equal. rewrite Z.add_assoc. done.
Qed.

(** ** Go strings

    A Go string is its bytes. [ToLower] and [EqualFold] are the ASCII part of
    the Unicode functions: a byte above 127 is left alone. *)

Definition lower_char (c : ascii) : ascii :=
  let n := N_of_ascii c in
  if (65 <=? n)%N && (n <=? 90)%N then ascii_of_N (n + 32) else c.

Fixpoint string_map (f : ascii → ascii) (s : string) : string :=
  match s with
  | EmptyString => EmptyString
  | String c s => String (f c) (string_map f s)
  end.

Definition ToLower : string → string := string_map lower_char.

(** [strings.EqualFold] *)
Definition EqualFold (s t : string) : bool := bool_decide (ToLower s = ToLower t).

(** [strings.Replace(s, "x", "y", -1)] for one-byte strings. *)
Definition ReplaceAllChar (x y : ascii) : string → string :=
  string_map (λ c, if decide (c = x) then y else c).

Definition slash : ascii := "/"%char.
Definition dash : ascii := "-"%char.

(** [c] occurs in [s]. *)
Fixpoint has_char (c : ascii) (s : string) : bool :=
  match s with
  | EmptyString => false
  | String d s => bool_decide (c = d) || has_char c s
  end.

(** [strconv.Itoa] *)
Definition Itoa (z : Z) : string := pretty z.

Definition digit_value (c : ascii) : option Z :=
  let n := Z.of_N (N_of_ascii c) in
  if (48 <=? n) && (n <=? 57) then Some (n - 48) else None.

Fixpoint parse_digits (acc : Z) (s : string) : option Z :=
  match s with
  | EmptyString => Some acc
  | String c s => d ← digit_value c; parse_digits (acc * 10 + d) s
  end.

(** The magnitude: at least one digit and nothing else. *)
Definition parse_magnitude (s : string) : option Z :=
  match s with EmptyString => None | _ => parse_digits 0 s end.

Definition parse_signed (s : string) : option Z :=
  match s with
  | EmptyString => None
  | String c t =>
      if decide (c = "-"%char) then Z.opp <$> parse_magnitude t
      else if decide (c = "+"%char) then parse_magnitude t
      else parse_magnitude s
  end.

(** [strconv.Atoi]: an optional sign, digits, and the range of a 64-bit [int];
    [None] stands for the returned [*NumError]. *)
Definition Atoi (s : string) : option Z :=
  z ← parse_signed s;
  if bool_decide (-9223372036854775808 ≤ z) && bool_decide (z ≤ 9223372036854775807)
  then Some z else None.

(** *** Facts about strings *)

#[global] Arguments String.append _ _ : simpl nomatch.

Lemma string_app_nil_r s : s +:+ "" = s.
Proof. induction s as [|c s IH]; simpl; congruence. Qed.

Lemma string_app_assoc s1 s2 s3 : (s1 +:+ s2) +:+ s3 = s1 +:+ (s2 +:+ s3).
Proof. induction s1 as [|c s IH]; simpl; congruence. Qed.

Lemma string_app_inv_l s s1 s2 : s +:+ s1 = s +:+ s2 → s1 = s2.
Proof. induction s as [|c s IH]; simpl; [done|]. intros [=]. auto. Qed.

Lemma string_app_length s1 s2 :
  String.length (s1 +:+ s2) = (String.length s1 + String.length s2)%nat.
Proof. induction s1 as [|c s IH]; simpl; congruence. Qed.

Lemma string_map_app f s1 s2 : string_map f (s1 +:+ s2) = string_map f s1 +:+ string_map f s2.
Proof. induction s1 as [|c s IH]; simpl; congruence. Qed.

Lemma string_map_id f s : (∀ c, has_char c s = true → f c = c) → string_map f s = s.
Proof.
  induction s as [|c s IH]; simpl; intros Hf; [done|]. f_equal.
  - apply Hf. by rewrite bool_decide_true.
  - apply IH. intros d Hd. apply Hf. by rewrite Hd, orb_true_r.
Qed.

Lemma has_char_app c s1 s2 : has_char c (s1 +:+ s2) = has_char c s1 || has_char c s2.
Proof. induction s1 as [|d s IH]; simpl; [done|]. by rewrite IH, orb_assoc. Qed.

Lemma ReplaceAllChar_id x y s : has_char x s = false → ReplaceAllChar x y s = s.
Proof.
  intros Hx. apply string_map_id. intros c Hc. case_decide; subst; congruence.
Qed.

Lemma lower_char_idem c : lower_char (lower_char c) = lower_char c.
Proof.
  unfold lower_char. set (n := N_of_ascii c).
  destruct ((65 <=? n)%N && (n <=? 90)%N) eqn:Hn.
  - apply andb_true_iff in Hn as [H1%N.leb_le H2%N.leb_le].
    rewrite N_ascii_embedding by lia.
    replace (n + 32 <=? 90)%N with false by (symmetry; apply N.leb_gt; lia).
    by rewrite andb_false_r.
  - fold n. by rewrite Hn.
Qed.

Lemma string_map_map f g s : string_map f (string_map g s) = string_map (λ c, f (g c)) s.
Proof. induction s as [|c s IH]; simpl; congruence. Qed.

Lemma string_map_ext f g s : (∀ c, f c = g c) → string_map f s = string_map g s.
Proof. intros Hfg. induction s as [|c s IH]; simpl; congruence. Qed.

Lemma ToLower_idem s : ToLower (ToLower s) = ToLower s.
Proof. unfold ToLower. rewrite string_map_map. apply string_map_ext, lower_char_idem. Qed.

(** Splitting at the last occurrence of a byte is unique: if the two tails do
    not contain [c], the parts agree. *)
Lemma string_split_last c a b a' b' :
  has_char c b = false → has_char c b' = false →
  a +:+ String c b = a' +:+ String c b' → a = a' ∧ b = b'.
Proof.
  intros Hb Hb'. revert a'. induction a as [|x a IH]; intros [|x' a']; simpl.
  - by intros [= ->].
  - intros [= -> ->]. rewrite has_char_app in Hb. simpl in Hb.
    by rewrite bool_decide_true, orb_true_r in Hb by done.
  - intros [= -> <-]. rewrite has_char_app in Hb'. simpl in Hb'.
    by rewrite bool_decide_true, orb_true_r in Hb' by done.
  - intros [= -> [-> ->]%IH]. done.
Qed.

(** *** Decimal numerals *)

Lemma digit_value_pretty x : (x < 10)%N → digit_value (pretty_N_char x) = Some (Z.of_N x).
Proof.
  intros ?. assert (x = 0 ∨ x = 1 ∨ x = 2 ∨ x = 3 ∨ x = 4 ∨ x = 5 ∨ x = 6
    ∨ x = 7 ∨ x = 8 ∨ x = 9)%N as Hx by lia. by repeat destruct Hx as [->|Hx]; subst.
Qed.

Lemma parse_digits_pretty x s :
  parse_digits 0 (pretty_N_go x s) = parse_digits (Z.of_N x) s.
Proof.
  revert s. induction (N.lt_wf_0 x) as [x _ IH]; intros s.
  destruct (decide (x = 0)%N) as [->|Hx]; [by rewrite pretty_N_go_0|].
  rewrite pretty_N_go_step by lia. rewrite IH by (apply N.div_lt; lia). simpl.
  rewrite digit_value_pretty by (apply N.mod_lt; lia). simpl. f_equal.
  rewrite N2Z.inj_div, N2Z.inj_mod. pose proof (Z.div_mod (Z.of_N x) 10). lia.
Qed.

Lemma parse_magnitude_pretty (x : N) : parse_magnitude (pretty x) = Some (Z.of_N x).
Proof.
  unfold pretty, pretty_N. case_decide as Hx; [by subst|].
  pose proof (parse_digits_pretty x "") as Hp. simpl in Hp. unfold parse_magnitude.
  destruct (pretty_N_go x "") eqn:E; [|done].
  simpl in Hp. injection Hp as Hp. lia.
Qed.

(** The characters of a numeral. *)
Lemma pretty_N_has_char c (x : N) : has_char c (pretty x) = true → is_Some (digit_value c).
Proof.
  assert (∀ s, has_char c (pretty_N_go x s) = true →
    is_Some (digit_value c) ∨ has_char c s = true) as Hgo.
  { induction (N.lt_wf_0 x) as [x _ IH]; intros s.
    destruct (decide (x = 0)%N) as [->|Hx]; [rewrite pretty_N_go_0; auto|].
    rewrite pretty_N_go_step by lia. intros [?|Hs]%IH; [by left| |by apply N.div_lt; lia].
    simpl in Hs. apply orb_true_iff in Hs as [->%bool_decide_eq_true|?]; [|by right].
    left. rewrite digit_value_pretty by (apply N.mod_lt; lia). eauto. }
  unfold pretty, pretty_N. case_decide as Hx.
  - simpl. rewrite orb_false_r. intros ->%bool_decide_eq_true. by eexists.
  - intros [?|?]%Hgo; [done|]. by simpl in *.
Qed.

Lemma Itoa_no_char c z :
  0 ≤ z → digit_value c = None → has_char c (Itoa z) = false.
Proof.
  intros Hz Hc. destruct (has_char c (Itoa z)) eqn:E; [|done]. exfalso.
  assert (has_char c (pretty (Z.to_N z)) = true) as [d Hd]%pretty_N_has_char; [|congruence].
  rewrite <-E. unfold Itoa. destruct z; simpl; [done..|lia].
Qed.

Lemma Itoa_inj z1 z2 : Itoa z1 = Itoa z2 → z1 = z2.
Proof. apply pretty_Z_inj. Qed.

Lemma parse_signed_pretty_N (n : N) : parse_signed (pretty n) = Some (Z.of_N n).
Proof.
  pose proof (λ c, pretty_N_has_char c n) as Hc. rewrite <-(parse_magnitude_pretty n).
  destruct (pretty n) as [|c s] eqn:E; [done|].
  assert (is_Some (digit_value c)) as [d Hd].
  { apply Hc. simpl. by rewrite bool_decide_true. }
  unfold parse_signed. repeat case_decide; subst; by vm_compute in Hd.
Qed.

(** Parsing a printed number gives the number back. *)
Lemma Atoi_Itoa z : in_int64 z → Atoi (Itoa z) = Some z.
Proof.
  intros Hz. unfold Itoa, Atoi.
  assert (parse_signed (pretty z) = Some z) as ->.
  { destruct z as [|p|p]; [done|exact (parse_signed_pretty_N (Npos p))|].
    change (pretty (Z.neg p)) with (String "-"%char (pretty (Npos p))). simpl.
    by rewrite parse_magnitude_pretty. }
  simpl. unfold in_int64 in Hz. rewrite !bool_decide_true by lia. done.
Qed.
