(* ===== verification/K8s.v ===== *)
(** * The Kubernetes libraries the sources call

    apimachinery, client-go and the API types are not part of the repository.
    The class [K8s] names the operations of them that the sources use, the
    class [K8sLaws] states what their documentation promises of them, and the
    records below are the structs the sources read and write, with the fields
    they use. [K8s_example] is a concrete instance of both classes, on which
    the witnesses of the development evaluate the definitions. *)

From S2P Require Import Prelude.

(** ** Metadata *)

Abbreviation Time := Z (only parsing).
Abbreviation labels_t := (gmap string string) (only parsing).

Record OwnerReference := {
  or_APIVersion : string;
  or_Kind : string;
  or_Name : string;
  or_UID : string;
  or_Controller : option bool;
  or_BlockOwnerDeletion : option bool
}.

#[global] Instance OwnerReference_eq_dec : EqDecision OwnerReference.
Proof. solve_decision. Defined.

Record ObjectMeta := {
  om_Name : string;
  om_Namespace : string;
  om_UID : string;
  om_ResourceVersion : string;
  om_Labels : gmap string string;
  om_Annotations : gmap string string;
  om_Finalizers : list string;
  om_OwnerReferences : list OwnerReference;
  om_CreationTimestamp : Time;
  om_DeletionTimestamp : option Time
}.

#[global] Instance ObjectMeta_eq_dec : EqDecision ObjectMeta.
Proof. solve_decision. Defined.

(** [metav1.ObjectMeta{}] *)
Definition ObjectMeta_zero : ObjectMeta := {|
  om_Name := ""; om_Namespace := ""; om_UID := ""; om_ResourceVersion := "";
  om_Labels := ∅; om_Annotations := ∅; om_Finalizers := []; om_OwnerReferences := [];
  om_CreationTimestamp := 0; om_DeletionTimestamp := None |}.

Definition om_set_Name (n : string) (m : ObjectMeta) : ObjectMeta := {|
  om_Name := n; om_Namespace := om_Namespace m; om_UID := om_UID m;
  om_ResourceVersion := om_ResourceVersion m; om_Labels := om_Labels m;
  om_Annotations := om_Annotations m; om_Finalizers := om_Finalizers m;
  om_OwnerReferences := om_OwnerReferences m;
  om_CreationTimestamp := om_CreationTimestamp m;
  om_DeletionTimestamp := om_DeletionTimestamp m |}.

Definition om_set_Labels (l : gmap string string) (m : ObjectMeta) : ObjectMeta := {|
  om_Name := om_Name m; om_Namespace := om_Namespace m; om_UID := om_UID m;
  om_ResourceVersion := om_ResourceVersion m; om_Labels := l;
  om_Annotations := om_Annotations m; om_Finalizers := om_Finalizers m;
  om_OwnerReferences := om_OwnerReferences m;
  om_CreationTimestamp := om_CreationTimestamp m;
  om_DeletionTimestamp := om_DeletionTimestamp m |}.

Definition om_set_Annotations (a : gmap string string) (m : ObjectMeta) : ObjectMeta := {|
  om_Name := om_Name m; om_Namespace := om_Namespace m; om_UID := om_UID m;
  om_ResourceVersion := om_ResourceVersion m; om_Labels := om_Labels m;
  om_Annotations := a; om_Finalizers := om_Finalizers m;
  om_OwnerReferences := om_OwnerReferences m;
  om_CreationTimestamp := om_CreationTimestamp m;
  om_DeletionTimestamp := om_DeletionTimestamp m |}.

Definition om_set_OwnerReferences (r : list OwnerReference) (m : ObjectMeta) : ObjectMeta := {|
  om_Name := om_Name m; om_Namespace := om_Namespace m; om_UID := om_UID m;
  om_ResourceVersion := om_ResourceVersion m; om_Labels := om_Labels m;
  om_Annotations := om_Annotations m; om_Finalizers := om_Finalizers m;
  om_OwnerReferences := r;
  om_CreationTimestamp := om_CreationTimestamp m;
  om_DeletionTimestamp := om_DeletionTimestamp m |}.

(** ** Library operations *)

Class K8s := {
  (** [resource.Quantity] *)
  Quantity : Type;
  q_zero : Quantity;
  q_Add : Quantity → Quantity → Quantity;
  q_Sub : Quantity → Quantity → Quantity;
  q_Neg : Quantity → Quantity;
  q_Cmp : Quantity → Quantity → Z;
  (** the errors the API clients return, and [k8s.io/apimachinery/pkg/api/errors] *)
  ApiError : Type;
  api_Error : ApiError → string;
  api_IsNotFound : ApiError → bool;
  api_IsTimeout : ApiError → bool;
  api_IsInvalid : ApiError → bool;
  (** [labels.SelectorFromValidatedSet(set).Matches(labels)] *)
  selector_Matches : gmap string string → gmap string string → bool;
  (** [metav1.GetControllerOf] and [metav1.IsControlledBy], on the object's
      owner references and the owner's UID *)
  GetControllerOf : list OwnerReference → option OwnerReference;
  IsControlledBy : list OwnerReference → string → bool;
  (** [cache.DeletionHandlingMetaNamespaceKeyFunc]; [None] is its error *)
  MetaNamespaceKeyFunc : ObjectMeta → option string;
  (** [validation.IsDNS1035Label]: the error messages *)
  IsDNS1035Label : string → list string;
  (** [apimachineryvalidation.NameIsDNS1035Label(name, prefix)] *)
  NameIsDNS1035Label : string → bool → list string
}.

(** Two quantities are the same amount when [Cmp] says so: a quantity also
    remembers how it was written. *)
#[global] Instance Quantity_equiv `{K8s} : Equiv Quantity := λ a b, q_Cmp a b = 0.

(** What the documentation of these libraries promises. *)
Class K8sLaws (K : K8s) : Prop := {
  q_Add_comm a b : q_Add a b ≡ q_Add b a;
  q_Add_assoc a b c : q_Add a (q_Add b c) ≡ q_Add (q_Add a b) c;
  q_Add_zero a : q_Add a q_zero ≡ a;
  q_Add_equiv a a' b b' : a ≡ a' → b ≡ b' → q_Add a b ≡ q_Add a' b';
  q_Sub_Add a b : q_Sub (q_Add a b) b ≡ a;
  q_Sub_zero a : q_Sub q_zero a ≡ q_Neg a;
  q_Cmp_refl a : q_Cmp a a = 0;
  q_Cmp_anti a b : q_Cmp b a = - q_Cmp a b;
  q_Cmp_trans a b c : q_Cmp a b ≤ 0 → q_Cmp b c ≤ 0 → q_Cmp a c ≤ 0;
  selector_Matches_spec sel ls : selector_Matches sel ls = true ↔ sel ⊆ ls;
  GetControllerOf_spec refs :
    GetControllerOf refs = head (filter (λ r, or_Controller r = Some true) refs);
  IsControlledBy_spec refs uid :
    IsControlledBy refs uid = true ↔
    ∃ r, GetControllerOf refs = Some r ∧ or_UID r = uid;
  MetaNamespaceKeyFunc_spec m :
    MetaNamespaceKeyFunc m =
      Some (if decide (om_Namespace m = "") then om_Name m
            else om_Namespace m +:+ "/" +:+ om_Name m)
}.

(** ** Errors

    An error a controller function returns is either what an API client
    returned, or a text made by [fmt.Errorf] or [errors.New]: none of the
    sources' calls that format an API error into a text use the wrapping verb,
    so such a text is no longer recognised by [errors.IsNotFound] and the like.

    [EUnfinished] is no error of the program: a loop that waits for a random source has
    not come to its end within its fuel, and the function has not returned. No caller
    of such a loop handles errors on the way to [Reconcile], so that a reconciliation in
    this state ends with [EUnfinished] in the model. *)
Inductive error `{K8s} : Type :=
| EApi (e : ApiError)
| EText (msg : string)
| EUnfinished.

Section errors.
Context `{K : K8s}.

(** [err.Error()] *)
Definition err_string (e : error) : string :=
  match e with EApi a => api_Error a | EText m => m | EUnfinished => EmptyString end.

Definition IsNotFound (e : error) : bool :=
  match e with EApi a => api_IsNotFound a | EText _ | EUnfinished => false end.
Definition IsTimeout (e : error) : bool :=
  match e with EApi a => api_IsTimeout a | EText _ | EUnfinished => false end.
Definition IsInvalid (e : error) : bool :=
  match e with EApi a => api_IsInvalid a | EText _ | EUnfinished => false end.
End errors.

Abbreviation res A := (result error A) (only parsing).

(** ** Core API objects *)

(** [v1.ResourceList]; a nil list and an empty one are told apart where the
    code does so. *)
Abbreviation ResourceList := (gmap string Quantity) (only parsing).

Section objects.
Context `{K : K8s}.

Record ContainerPort := { cp_Name : string; cp_ContainerPort : Z }.

Record EnvVar := {
  env_Name : string;
  env_Value : string;
  (** [ValueFrom.FieldRef.FieldPath] *)
  env_FieldPath : option string
}.

Record VolumeMount := {
  vm_Name : string;
  vm_MountPath : string;
  vm_SubPath : string;
  vm_ReadOnly : bool
}.

Inductive VolumeSource :=
| VolConfigMap (name : string) (defaultMode : Z)
| VolEmptyDir
| VolOther (descr : string).

Record Volume := { vol_Name : string; vol_Source : VolumeSource }.

Record SecurityContext := { sc_RunAsUser : option Z; sc_Other : string }.

Record Container := {
  c_Name : string;
  c_Image : string;
  c_Command : list string;
  c_Ports : list ContainerPort;
  c_Env : list EnvVar;
  c_Requests : option ResourceList;
  c_Limits : option ResourceList;
  c_VolumeMounts : list VolumeMount;
  c_SecurityContext : option SecurityContext
}.

Record PodSpec := {
  ps_Containers : list Container;
  ps_InitContainers : list Container;
  ps_Volumes : list Volume;
  ps_RestartPolicy : string;
  ps_SchedulerName : string;
  ps_PriorityClassName : string;
  ps_HostNetwork : bool;
  ps_NodeName : string;
  ps_Hostname : string;
  ps_DNSPolicy : string;
  ps_Overhead : option ResourceList
}.

Record PodTemplateSpec := { pt_Meta : ObjectMeta; pt_Spec : PodSpec }.

(** [v1.PodPhase]; a pod that was just created has the empty phase. *)
Inductive PodPhase :=
| PodPhaseUnset | PodPending | PodRunning | PodSucceeded | PodFailed | PodUnknown.

Inductive ConditionStatus := ConditionTrue | ConditionFalse | ConditionUnknown.

Record ContainerStateTerminated := {
  ct_ExitCode : Z; ct_Reason : string; ct_Message : string }.
Record ContainerStateWaiting := { cw_Reason : string; cw_Message : string }.

Record ContainerStatus := {
  cs_Name : string;
  cs_Waiting : option ContainerStateWaiting;
  cs_Terminated : option ContainerStateTerminated;
  cs_RestartCount : Z
}.

Record PodCondition := {
  pc_Status : ConditionStatus;
  pc_Reason : string;
  pc_Message : string;
  pc_LastTransitionTime : Time
}.

Record PodStatus := {
  pst_Phase : PodPhase;
  pst_Conditions : list PodCondition;
  pst_InitContainerStatuses : list ContainerStatus;
  pst_ContainerStatuses : list ContainerStatus
}.

Definition PodStatus_zero : PodStatus := {|
  pst_Phase := PodPhaseUnset; pst_Conditions := [];
  pst_InitContainerStatuses := []; pst_ContainerStatuses := [] |}.

Record Pod := { pod_Meta : ObjectMeta; pod_Spec : PodSpec; pod_Status : PodStatus }.

Record ServicePort := { sp_Name : string; sp_Port : Z }.

Record Service := {
  svc_Meta : ObjectMeta;
  svc_ClusterIP : string;
  svc_Selector : gmap string string;
  svc_Ports : list ServicePort
}.

Record ConfigMap := {
  cm_Meta : ObjectMeta;
  cm_Data : gmap string string;
  cm_BinaryData : gmap string string
}.

(** The two [PodGroup] kinds: volcano's and scheduler-plugins'. *)
Record VolcanoPodGroupSpec := {
  vpg_MinMember : Z;
  vpg_Queue : string;
  vpg_PriorityClassName : string;
  vpg_MinResources : ResourceList
}.
Record SchedulerPluginsPodGroupSpec := {
  spg_MinMember : Z;
  spg_MinResources : ResourceList;
  spg_ScheduleTimeoutSeconds : option Z
}.
Inductive PodGroup :=
| VolcanoPodGroup (meta : ObjectMeta) (spec : VolcanoPodGroupSpec) (phase : string)
| SchedulerPluginsPodGroup (meta : ObjectMeta) (spec : SchedulerPluginsPodGroupSpec).

Definition PodSpec_set_Containers (cs : list Container) (s : PodSpec) : PodSpec := {|
  ps_Containers := cs; ps_InitContainers := ps_InitContainers s;
  ps_Volumes := ps_Volumes s; ps_RestartPolicy := ps_RestartPolicy s;
  ps_SchedulerName := ps_SchedulerName s;
  ps_PriorityClassName := ps_PriorityClassName s; ps_HostNetwork := ps_HostNetwork s;
  ps_NodeName := ps_NodeName s; ps_Hostname := ps_Hostname s;
  ps_DNSPolicy := ps_DNSPolicy s; ps_Overhead := ps_Overhead s |}.

Definition PodSpec_set_InitContainers (cs : list Container) (s : PodSpec) : PodSpec := {|
  ps_Containers := ps_Containers s; ps_InitContainers := cs;
  ps_Volumes := ps_Volumes s; ps_RestartPolicy := ps_RestartPolicy s;
  ps_SchedulerName := ps_SchedulerName s;
  ps_PriorityClassName := ps_PriorityClassName s; ps_HostNetwork := ps_HostNetwork s;
  ps_NodeName := ps_NodeName s; ps_Hostname := ps_Hostname s;
  ps_DNSPolicy := ps_DNSPolicy s; ps_Overhead := ps_Overhead s |}.

Definition PodSpec_set_Volumes (vs : list Volume) (s : PodSpec) : PodSpec := {|
  ps_Containers := ps_Containers s; ps_InitContainers := ps_InitContainers s;
  ps_Volumes := vs; ps_RestartPolicy := ps_RestartPolicy s;
  ps_SchedulerName := ps_SchedulerName s;
  ps_PriorityClassName := ps_PriorityClassName s; ps_HostNetwork := ps_HostNetwork s;
  ps_NodeName := ps_NodeName s; ps_Hostname := ps_Hostname s;
  ps_DNSPolicy := ps_DNSPolicy s; ps_Overhead := ps_Overhead s |}.

Definition PodSpec_set_RestartPolicy (r : string) (s : PodSpec) : PodSpec := {|
  ps_Containers := ps_Containers s; ps_InitContainers := ps_InitContainers s;
  ps_Volumes := ps_Volumes s; ps_RestartPolicy := r;
  ps_SchedulerName := ps_SchedulerName s;
  ps_PriorityClassName := ps_PriorityClassName s; ps_HostNetwork := ps_HostNetwork s;
  ps_NodeName := ps_NodeName s; ps_Hostname := ps_Hostname s;
  ps_DNSPolicy := ps_DNSPolicy s; ps_Overhead := ps_Overhead s |}.

Definition PodSpec_set_SchedulerName (n : string) (s : PodSpec) : PodSpec := {|
  ps_Containers := ps_Containers s; ps_InitContainers := ps_InitContainers s;
  ps_Volumes := ps_Volumes s; ps_RestartPolicy := ps_RestartPolicy s;
  ps_SchedulerName := n;
  ps_PriorityClassName := ps_PriorityClassName s; ps_HostNetwork := ps_HostNetwork s;
  ps_NodeName := ps_NodeName s; ps_Hostname := ps_Hostname s;
  ps_DNSPolicy := ps_DNSPolicy s; ps_Overhead := ps_Overhead s |}.

Definition PodSpec_set_NodeName (n : string) (s : PodSpec) : PodSpec := {|
  ps_Containers := ps_Containers s; ps_InitContainers := ps_InitContainers s;
  ps_Volumes := ps_Volumes s; ps_RestartPolicy := ps_RestartPolicy s;
  ps_SchedulerName := ps_SchedulerName s;
  ps_PriorityClassName := ps_PriorityClassName s; ps_HostNetwork := ps_HostNetwork s;
  ps_NodeName := n; ps_Hostname := ps_Hostname s;
  ps_DNSPolicy := ps_DNSPolicy s; ps_Overhead := ps_Overhead s |}.

Definition PodSpec_set_DNSPolicy (p : string) (s : PodSpec) : PodSpec := {|
  ps_Containers := ps_Containers s; ps_InitContainers := ps_InitContainers s;
  ps_Volumes := ps_Volumes s; ps_RestartPolicy := ps_RestartPolicy s;
  ps_SchedulerName := ps_SchedulerName s;
  ps_PriorityClassName := ps_PriorityClassName s; ps_HostNetwork := ps_HostNetwork s;
  ps_NodeName := ps_NodeName s; ps_Hostname := ps_Hostname s;
  ps_DNSPolicy := p; ps_Overhead := ps_Overhead s |}.

Definition PodTemplateSpec_map_Spec (f : PodSpec → PodSpec) (t : PodTemplateSpec) :
    PodTemplateSpec :=
  {| pt_Meta := pt_Meta t; pt_Spec := f (pt_Spec t) |}.
Definition PodTemplateSpec_map_Meta (f : ObjectMeta → ObjectMeta) (t : PodTemplateSpec) :
    PodTemplateSpec :=
  {| pt_Meta := f (pt_Meta t); pt_Spec := pt_Spec t |}.
End objects.

(** [metav1.Object]: the objects with metadata. *)
Class HasMeta (A : Type) := meta_of : A → ObjectMeta.
#[global] Instance Pod_HasMeta `{K8s} : HasMeta Pod := pod_Meta.
#[global] Instance Service_HasMeta `{K8s} : HasMeta Service := svc_Meta.
#[global] Instance ConfigMap_HasMeta : HasMeta ConfigMap := cm_Meta.

(** [v1.EventTypeNormal] and [v1.EventTypeWarning] *)
Inductive EventType := EventNormal | EventWarning.

(** What [record.EventRecorder.Eventf] is called with, less the object. *)
Record Event := { ev_Type : EventType; ev_Reason : string; ev_Message : string }.

#[global] Instance PodPhase_eq_dec : EqDecision PodPhase.
Proof. solve_decision. Defined.
#[global] Instance ConditionStatus_eq_dec : EqDecision ConditionStatus.
Proof. solve_decision. Defined.

(** ** A concrete instance *)

(** The errors of the instance: [metav1.StatusReason] and a message. *)
Record StatusError := { se_Reason : string; se_Message : string }.

Definition dns1035_char (first : bool) (c : ascii) : bool :=
  let n := N_of_ascii c in
  (((97 <=? n) && (n <=? 122))
   || (negb first && (((48 <=? n) && (n <=? 57)) || (n =? 45))))%N.

Fixpoint dns1035_rest (s : string) : bool :=
  match s with
  | EmptyString => true
  | String c EmptyString => dns1035_char false c && negb (bool_decide (c = dash))
  | String c s => dns1035_char false c && dns1035_rest s
  end.

Definition dns1035_label (s : string) : bool :=
  match s with
  | EmptyString => false
  | String c t => dns1035_char true c && dns1035_rest t
                  && (Nat.leb (String.length s) 63)
  end.

Definition K8s_example : K8s := {|
  Quantity := Z;
  q_zero := 0;
  q_Add := Z.add;
  q_Sub := Z.sub;
  q_Neg := Z.opp;
  q_Cmp a b := match Z.compare a b with Lt => -1 | Eq => 0 | Gt => 1 end;
  ApiError := StatusError;
  api_Error := se_Message;
  api_IsNotFound e := bool_decide (se_Reason e = "NotFound");
  api_IsTimeout e := bool_decide (se_Reason e = "Timeout");
  api_IsInvalid e := bool_decide (se_Reason e = "Invalid");
  selector_Matches sel ls := bool_decide (sel ⊆ ls);
  GetControllerOf refs := head (filter (λ r, or_Controller r = Some true) refs);
  IsControlledBy refs uid :=
    match head (filter (λ r, or_Controller r = Some true) refs) with
    | Some r => bool_decide (or_UID r = uid)
    | None => false
    end;
  MetaNamespaceKeyFunc m :=
    Some (if decide (om_Namespace m = "") then om_Name m
          else om_Namespace m +:+ "/" +:+ om_Name m);
  IsDNS1035Label s := if dns1035_label s then [] else ["a DNS-1035 label must consist of lower case alphanumeric characters or '-'"];
  NameIsDNS1035Label s _ := if dns1035_label s then [] else ["a DNS-1035 label must consist of lower case alphanumeric characters or '-'"]
|}.

#[global] Instance Quantity_equivalence `{K : K8s} {KL : K8sLaws K} : Equivalence (≡@{Quantity}).
Proof.
  split; unfold equiv, Quantity_equiv.
  - intros a. apply q_Cmp_refl.
  - intros a b Hab. rewrite q_Cmp_anti. lia.
  - intros a b c Hab Hbc.
    assert (q_Cmp a c ≤ 0) by (apply (q_Cmp_trans a b c); lia).
    assert (q_Cmp c a ≤ 0) by (apply (q_Cmp_trans c b a); rewrite q_Cmp_anti; lia).
    rewrite (q_Cmp_anti a c) in *. lia.
Qed.

#[global] Instance q_Add_proper `{K : K8s} {KL : K8sLaws K} :
  Proper ((≡) ==> (≡) ==> (≡)) (q_Add (K8s := K)).
Proof. intros a a' Ha b b' Hb. by apply q_Add_equiv. Qed.

#[global] Instance q_Add_Comm `{K : K8s} {KL : K8sLaws K} : Comm (≡@{Quantity}) q_Add := q_Add_comm.
#[global] Instance q_Add_Assoc `{K : K8s} {KL : K8sLaws K} : Assoc (≡@{Quantity}) q_Add := q_Add_assoc.

Lemma compare_eq0 (a b : Z) :
  match Z.compare a b with Lt => -1 | Eq => 0 | Gt => 1 end = 0 ↔ a = b.
Proof. destruct (Z.compare_spec a b); lia. Qed.

Lemma K8s_example_laws : K8sLaws K8s_example.
Proof.
  split; unfold equiv, Quantity_equiv; simpl.
  1-6: intros; rewrite ?compare_eq0 in *; lia.
  - intros. by rewrite Z.compare_refl.
  - intros. rewrite (Z.compare_antisym a b). by destruct (a ?= b).
  - intros a b c.
    destruct (Z.compare_spec a b) as [?|?|?], (Z.compare_spec b c) as [?|?|?],
      (Z.compare_spec a c) as [?|?|?]; lia.
  - intros. by rewrite bool_decide_eq_true.
  - done.
  - intros refs uid. destruct (head _) as [r|]; [rewrite bool_decide_eq_true|]; split.
    + by exists r.
    + by intros (? & [= <-] & ?).
    + done.
    + by intros (? & ? & ?).
  - done.
Qed.
