(* ===== verification/Api.v ===== *)
(** * The KubeCluster API types

    apis/kubecluster.org/v1alpha1, [cluster_types.go] and [common_types.go]. *)

From S2P Require Import Prelude K8s.

(** ** Constants *)

Definition KubeClusterKind : string := "KubeCluster".
Definition ControllerNameLabel : string := "kubeclusetr.org/controller-name".
Definition ClusterNameLabel : string := "kubeclusetr.org/clusetr-name".
Definition ClusterDefaultContainerName : string := "kubenode".
Definition ClusterTypeLabel : string := "kubeclusetr.org/clusetr-type".
Definition ReplicaIndexLabel : string := "kubeclusetr.org/replica-index".
Definition ReplicaTypeLabel : string := "kubeclusetr.org/replica-type".
Definition ClusterRoleLabel : string := "kubeclusetr.org/clusetr-role".

(** ** Types *)

(** [type ReplicaType string], [type ClusterType string] *)
Abbreviation ReplicaType := string (only parsing).
Abbreviation ClusterType := string (only parsing).

Record ReplicaStatus := {
  rs_Active : Z;
  rs_Activating : Z;
  rs_Failed : Z;
  rs_Selector : string
}.

Definition ReplicaStatus_zero : ReplicaStatus :=
  {| rs_Active := 0; rs_Activating := 0; rs_Failed := 0; rs_Selector := "" |}.

Inductive ClusterConditionType :=
| ClusterCreated | ClusterRunning | ClusterRestarting | ClusterSuspended | ClusterFailed.

#[global] Instance ClusterConditionType_eq_dec : EqDecision ClusterConditionType.
Proof. solve_decision. Defined.

Record ClusterCondition := {
  cc_Type : ClusterConditionType;
  cc_Status : ConditionStatus;
  cc_Reason : string;
  cc_Message : string;
  cc_LastUpdateTime : Time;
  cc_LastTransitionTime : Time
}.

Inductive CleanKubeNodePolicy :=
| CleanKubeNodePolicyUndefined | CleanKubeNodePolicyAll
| CleanKubeNodePolicyRunning | CleanKubeNodePolicyNone
| CleanKubeNodePolicyOther (s : string).

#[global] Instance CleanKubeNodePolicy_eq_dec : EqDecision CleanKubeNodePolicy.
Proof. solve_decision. Defined.

(** [type RestartPolicy string]: the four constants, the empty string of an
    unset field and any other text a user may write. *)
Inductive RestartPolicy :=
| RestartPolicyUnset | RestartPolicyAlways | RestartPolicyOnFailure
| RestartPolicyNever | RestartPolicyExitCode | RestartPolicyOther (s : string).

#[global] Instance RestartPolicy_eq_dec : EqDecision RestartPolicy.
Proof. solve_decision. Defined.

(** The string value of the policy. *)
Definition RestartPolicy_string (p : RestartPolicy) : string :=
  match p with
  | RestartPolicyUnset => ""
  | RestartPolicyAlways => "Always"
  | RestartPolicyOnFailure => "OnFailure"
  | RestartPolicyNever => "Never"
  | RestartPolicyExitCode => "ExitCode"
  | RestartPolicyOther s => s
  end.

Record ClusterStatus := {
  st_Conditions : list ClusterCondition;
  (** [map[ReplicaType]*ReplicaStatus]; the code never stores a nil pointer *)
  st_ReplicaStatuses : gmap string ReplicaStatus;
  st_StartTime : option Time;
  st_LastReconcileTime : option Time;
  st_CompletionTime : option Time
}.

#[global] Instance ReplicaStatus_eq_dec : EqDecision ReplicaStatus.
Proof. solve_decision. Defined.
#[global] Instance ClusterCondition_eq_dec : EqDecision ClusterCondition.
Proof. solve_decision. Defined.
#[global] Instance ClusterStatus_eq_dec : EqDecision ClusterStatus.
Proof. solve_decision. Defined.

Section types.
Context `{K : K8s}.

Record ReplicaSpec := {
  r_Replicas : option Z;
  r_Template : PodTemplateSpec;
  r_RestartPolicy : RestartPolicy
}.

Record SchedulingPolicy := {
  sp_MinAvailable : option Z;
  sp_Queue : string;
  sp_MinResources : option ResourceList;
  sp_PriorityClass : string;
  sp_ScheduleTimeoutSeconds : option Z
}.

Record RunPolicy := {
  rp_CleanKubeNodePolicy : option CleanKubeNodePolicy;
  rp_TTLSecondsAfterFinished : option Z;
  rp_ActiveDeadlineSeconds : option Z;
  rp_BackoffLimit : option Z;
  rp_SchedulingPolicy : option SchedulingPolicy;
  rp_Suspend : option bool
}.

Record ClusterSpec := {
  sp_ClusterType : ClusterType;
  (** [map[ReplicaType]*ReplicaSpec]; [None] is a nil pointer *)
  sp_ClusterReplicaSpec : gmap string (option ReplicaSpec);
  sp_MainContainer : string;
  sp_RunPolicy : RunPolicy
}.

Record KubeCluster := {
  kc_Meta : ObjectMeta;
  kc_Spec : ClusterSpec;
  kc_Status : ClusterStatus
}.

Definition ReplicaSpec_set_Replicas (n : option Z) (s : ReplicaSpec) : ReplicaSpec :=
  {| r_Replicas := n; r_Template := r_Template s; r_RestartPolicy := r_RestartPolicy s |}.
Definition ReplicaSpec_set_Template (t : PodTemplateSpec) (s : ReplicaSpec) : ReplicaSpec :=
  {| r_Replicas := r_Replicas s; r_Template := t; r_RestartPolicy := r_RestartPolicy s |}.

Definition RunPolicy_set_Clean (p : option CleanKubeNodePolicy) (r : RunPolicy) : RunPolicy := {|
  rp_CleanKubeNodePolicy := p;
  rp_TTLSecondsAfterFinished := rp_TTLSecondsAfterFinished r;
  rp_ActiveDeadlineSeconds := rp_ActiveDeadlineSeconds r;
  rp_BackoffLimit := rp_BackoffLimit r;
  rp_SchedulingPolicy := rp_SchedulingPolicy r;
  rp_Suspend := rp_Suspend r |}.

Definition KubeCluster_set_Spec (s : ClusterSpec) (k : KubeCluster) : KubeCluster :=
  {| kc_Meta := kc_Meta k; kc_Spec := s; kc_Status := kc_Status k |}.
Definition KubeCluster_set_Meta (m : ObjectMeta) (k : KubeCluster) : KubeCluster :=
  {| kc_Meta := m; kc_Spec := kc_Spec k; kc_Status := kc_Status k |}.
Definition KubeCluster_set_Status (s : ClusterStatus) (k : KubeCluster) : KubeCluster :=
  {| kc_Meta := kc_Meta k; kc_Spec := kc_Spec k; kc_Status := s |}.
Definition ClusterSpec_set_ReplicaSpec (m : gmap string (option ReplicaSpec)) (s : ClusterSpec) :
    ClusterSpec :=
  {| sp_ClusterType := sp_ClusterType s; sp_ClusterReplicaSpec := m;
     sp_MainContainer := sp_MainContainer s; sp_RunPolicy := sp_RunPolicy s |}.
End types.

Definition Status_set_Conditions (c : list ClusterCondition) (s : ClusterStatus) : ClusterStatus := {|
  st_Conditions := c; st_ReplicaStatuses := st_ReplicaStatuses s;
  st_StartTime := st_StartTime s; st_LastReconcileTime := st_LastReconcileTime s;
  st_CompletionTime := st_CompletionTime s |}.
Definition Status_set_ReplicaStatuses (r : gmap string ReplicaStatus) (s : ClusterStatus) :
    ClusterStatus := {|
  st_Conditions := st_Conditions s; st_ReplicaStatuses := r;
  st_StartTime := st_StartTime s; st_LastReconcileTime := st_LastReconcileTime s;
  st_CompletionTime := st_CompletionTime s |}.
Definition Status_set_StartTime (t : option Time) (s : ClusterStatus) : ClusterStatus := {|
  st_Conditions := st_Conditions s; st_ReplicaStatuses := st_ReplicaStatuses s;
  st_StartTime := t; st_LastReconcileTime := st_LastReconcileTime s;
  st_CompletionTime := st_CompletionTime s |}.
Definition Status_set_LastReconcileTime (t : option Time) (s : ClusterStatus) : ClusterStatus := {|
  st_Conditions := st_Conditions s; st_ReplicaStatuses := st_ReplicaStatuses s;
  st_StartTime := st_StartTime s; st_LastReconcileTime := t;
  st_CompletionTime := st_CompletionTime s |}.
Definition Status_set_CompletionTime (t : option Time) (s : ClusterStatus) : ClusterStatus := {|
  st_Conditions := st_Conditions s; st_ReplicaStatuses := st_ReplicaStatuses s;
  st_StartTime := st_StartTime s; st_LastReconcileTime := st_LastReconcileTime s;
  st_CompletionTime := t |}.

(** ** A concrete cluster

    A slurm cluster with one controller and two workers, on which the witnesses
    evaluate the definitions. *)
Module Sample.
#[export] Existing Instance K8s_example.

Definition container : Container := {|
  c_Name := "kubenode"; c_Image := "rockylinux:8"; c_Command := []; c_Ports := [];
  c_Env := []; c_Requests := Some {[ "cpu" := 2 ]}; c_Limits := None;
  c_VolumeMounts := []; c_SecurityContext := None |}.

Definition podSpec : PodSpec := {|
  ps_Containers := [container]; ps_InitContainers := []; ps_Volumes := [];
  ps_RestartPolicy := ""; ps_SchedulerName := ""; ps_PriorityClassName := "";
  ps_HostNetwork := false; ps_NodeName := ""; ps_Hostname := ""; ps_DNSPolicy := "";
  ps_Overhead := None |}.

Definition template : PodTemplateSpec := {| pt_Meta := ObjectMeta_zero; pt_Spec := podSpec |}.

Definition replica (n : option Z) (p : RestartPolicy) : ReplicaSpec :=
  {| r_Replicas := n; r_Template := template; r_RestartPolicy := p |}.

Definition runPolicy : RunPolicy := {|
  rp_CleanKubeNodePolicy := None; rp_TTLSecondsAfterFinished := None;
  rp_ActiveDeadlineSeconds := None; rp_BackoffLimit := None;
  rp_SchedulingPolicy := None; rp_Suspend := None |}.

Definition meta : ObjectMeta := {|
  om_Name := "c1"; om_Namespace := "default"; om_UID := "uid-1"; om_ResourceVersion := "7";
  om_Labels := ∅; om_Annotations := ∅; om_Finalizers := []; om_OwnerReferences := [];
  om_CreationTimestamp := 100; om_DeletionTimestamp := None |}.

Definition status : ClusterStatus := {|
  st_Conditions := []; st_ReplicaStatuses := ∅; st_StartTime := None;
  st_LastReconcileTime := None; st_CompletionTime := None |}.

Definition cluster : KubeCluster := {|
  kc_Meta := meta;
  kc_Spec := {|
    sp_ClusterType := "slurm";
    sp_ClusterReplicaSpec :=
      {[ "Controller" := Some (replica None RestartPolicyNever);
         "Worker" := Some (replica (Some 2) RestartPolicyOnFailure) ]};
    sp_MainContainer := "";
    sp_RunPolicy := runPolicy |};
  kc_Status := status |}.
End Sample.
