(* ===== verification/Defaults.v ===== *)
(** * Defaulting and validation of a KubeCluster

    apis/kubecluster.org/v1alpha1: [cluster_defaults.go], [defauting_utils.go]
    and [cluster_validation.go].

    A Go map is a [gmap]; a [range] over it visits its entries in an order the
    language does not fix, so a function whose result may depend on that order
    takes the list of entries as the run visits them. *)

From S2P Require Import Prelude K8s Api.

Section defaults.
Context `{K : K8s}.

(** ** defauting_utils.go *)

Definition GetDefaultContainerIndex (spec : PodSpec) (defaultContainerName : string) : nat :=
  match list_find (λ c, c_Name c = defaultContainerName) (ps_Containers spec) with
  | Some (i, _) => i
  | None => 0%nat
  end.

(** [spec.Containers[containerIndex]] panics when there is no such container. *)
Definition HasDefaultPort (spec : PodSpec) (containerIndex : nat) (defaultPortName : string) :
    res bool :=
  match ps_Containers spec !! containerIndex with
  | Some c => Ok (existsb (λ p, bool_decide (cp_Name p = defaultPortName)) (c_Ports c))
  | None => Panic
  end.

Definition Container_add_Port (p : ContainerPort) (c : Container) : Container := {|
  c_Name := c_Name c; c_Image := c_Image c; c_Command := c_Command c;
  c_Ports := c_Ports c ++ [p]; c_Env := c_Env c; c_Requests := c_Requests c;
  c_Limits := c_Limits c; c_VolumeMounts := c_VolumeMounts c;
  c_SecurityContext := c_SecurityContext c |}.

Definition SetDefaultPort (spec : PodSpec) (defaultPortName : string) (defaultPort : Z)
    (defaultContainerIndex : nat) : res PodSpec :=
  match ps_Containers spec !! defaultContainerIndex with
  | Some c =>
      Ok (PodSpec_set_Containers
            (<[defaultContainerIndex :=
                Container_add_Port {| cp_Name := defaultPortName; cp_ContainerPort := defaultPort |} c]>
               (ps_Containers spec)) spec)
  | None => Panic
  end.

Definition SetDefaultRestartPolicy (replicaSpec : option ReplicaSpec)
    (defaultRestartPolicy : RestartPolicy) : option ReplicaSpec :=
  match replicaSpec with
  | Some s =>
      if decide (r_RestartPolicy s = RestartPolicyUnset) then
        Some {| r_Replicas := r_Replicas s; r_Template := r_Template s;
                r_RestartPolicy := defaultRestartPolicy |}
      else Some s
  | None => None
  end.

Definition setDefaultReplicas (replicas : Z) (replicaSpec : option ReplicaSpec) :
    option ReplicaSpec :=
  match replicaSpec with
  | Some s =>
      match r_Replicas s with
      | None => Some (ReplicaSpec_set_Replicas (Some replicas) s)
      | Some _ => Some s
      end
  | None => None
  end.

(** The first key the run visits that equals [typ] up to case but is not
    [typ] is renamed to [typ]. *)
Fixpoint SetTypeNameToCamelCase (keys : list ReplicaType)
    (replicaSpecs : gmap string (option ReplicaSpec)) (typ : ReplicaType) :
    gmap string (option ReplicaSpec) :=
  match keys with
  | [] => replicaSpecs
  | t :: keys =>
      if EqualFold t typ && negb (bool_decide (t = typ)) then
        match replicaSpecs !! t with
        | Some spec => <[typ := spec]> (delete t replicaSpecs)
        | None => <[typ := None]> (delete t replicaSpecs)
        end
      else SetTypeNameToCamelCase keys replicaSpecs typ
  end.

(** ** cluster_defaults.go *)

Definition SetDefaults_KubeCluster (kcluster : KubeCluster) : KubeCluster :=
  let spec := kc_Spec kcluster in
  let rp := sp_RunPolicy spec in
  KubeCluster_set_Spec
    {| sp_ClusterType := sp_ClusterType spec;
       sp_ClusterReplicaSpec := setDefaultReplicas 1 <$> sp_ClusterReplicaSpec spec;
       sp_MainContainer :=
         if decide (sp_MainContainer spec = "") then ClusterDefaultContainerName
         else sp_MainContainer spec;
       sp_RunPolicy :=
         match rp_CleanKubeNodePolicy rp with
         | None => RunPolicy_set_Clean (Some CleanKubeNodePolicyAll) rp
         | Some _ => rp
         end |} kcluster.

Definition SetDefaults_KubeClusterList (items : list KubeCluster) : list KubeCluster :=
  SetDefaults_KubeCluster <$> items.

(** ** cluster_validation.go *)

(** [fmt.Sprintf("%v", errs)] of a slice of strings *)
Definition fmt_strings (l : list string) : string := "[" +:+ String.concat " " l +:+ "]".

(** The loop over the containers of one replica: the number of containers
    with the default name, or the error of the first one without an image. *)
Fixpoint countDefaultContainers (rType : ReplicaType) (defaultContainerName : string)
    (cs : list Container) (numNamedkubenode : Z) : res Z :=
  match cs with
  | [] => Ok numNamedkubenode
  | c :: cs =>
      if decide (c_Image c = "") then
        Err (EText ("KubeCluster is not valid: Image is undefined in the container of " +:+ rType))
      else
        countDefaultContainers rType defaultContainerName cs
          (if decide (c_Name c = defaultContainerName)
           then numNamedkubenode + 1 else numNamedkubenode)
  end.

Definition validateReplica (defaultContainerName : string)
    (rType : ReplicaType) (value : option ReplicaSpec) : res unit :=
  match IsDNS1035Label (ToLower rType) with
  | (_ :: _) as errs => Err (EText (String.concat ";" errs))
  | [] =>
      match value with
      | None => Err (EText ("KubeCluster is not valid: containers definition expected in " +:+ rType))
      | Some v =>
          match ps_Containers (pt_Spec (r_Template v)) with
          | [] => Err (EText ("KubeCluster is not valid: containers definition expected in " +:+ rType))
          | cs =>
              let! numNamedkubenode := countDefaultContainers rType defaultContainerName cs 0 in
              if decide (numNamedkubenode = 0) then
                Err (EText ("KubeClusterSpec is not valid: There is no container named "
                  +:+ ClusterDefaultContainerName +:+ " in " +:+ rType))
              else Ok tt
          end
      end
  end.

(** [entries] are the entries of [spec.ClusterReplicaSpec] in visiting order. *)
Definition validateV1alphaClusterSpecs (entries : list (string * option ReplicaSpec))
    (spec : ClusterSpec) : res unit :=
  if decide (sp_ClusterType spec = "") then
    Err (EText "KubeCluster is not valid: cluster type expected")
  else if decide (size (sp_ClusterReplicaSpec spec) = 0%nat) then
    Err (EText "KubeCluster is not valid")
  else
    let defaultContainerName :=
      if decide (sp_MainContainer spec = "") then ClusterDefaultContainerName
      else sp_MainContainer spec in
    result_foldl (λ _ entry, validateReplica defaultContainerName entry.1 entry.2)
      tt entries.

Definition ValidateV1alphaCluster (entries : list (string * option ReplicaSpec))
    (cluster : KubeCluster) : res unit :=
  match NameIsDNS1035Label (om_Name (kc_Meta cluster)) false with
  | (_ :: _) as errs => Err (EText ("TFCluster name is invalid: " +:+ fmt_strings errs))
  | [] =>
      let! _ := validateV1alphaClusterSpecs entries (kc_Spec cluster) in
      Ok tt
  end.

(** ** Defaulting: lemmas *)

Lemma setDefaultReplicas_idem n o :
  setDefaultReplicas n (setDefaultReplicas n o) = setDefaultReplicas n o.
Proof. destruct o as [[[?|] ??]|]; done. Qed.

(** A cluster is defaulted when the fields the controller dereferences are set. *)
Definition defaulted (k : KubeCluster) : Prop :=
  sp_MainContainer (kc_Spec k) ≠ "" ∧
  is_Some (rp_CleanKubeNodePolicy (sp_RunPolicy (kc_Spec k))) ∧
  ∀ rt s, sp_ClusterReplicaSpec (kc_Spec k) !! rt = Some (Some s) → is_Some (r_Replicas s).

Lemma SetDefaults_defaulted k : defaulted (SetDefaults_KubeCluster k).
Proof.
  split_and!; simpl.
  - by case_decide.
  - destruct (rp_CleanKubeNodePolicy (sp_RunPolicy (kc_Spec k))) eqn:E; simpl;
      [by rewrite E|by eexists].
  - intros rt s. rewrite lookup_fmap. destruct (_ !! rt) as [[[[?|] ??]|]|]; simpl; naive_solver.
Qed.

Lemma SetDefaults_fixpoint k : defaulted k → SetDefaults_KubeCluster k = k.
Proof.
  destruct k as [m [ty rs mc rp] st]. intros (Hmc & Hc & Hr). unfold SetDefaults_KubeCluster.
  simpl in *. rewrite decide_False by done.
  destruct (rp_CleanKubeNodePolicy rp) eqn:E; [|by destruct Hc].
  unfold KubeCluster_set_Spec. simpl. do 2 f_equal.
  rewrite <-(map_fmap_id rs) at 2. apply map_fmap_ext. intros rt [s|] Hs; [|done]. simpl.
  destruct (Hr rt s Hs) as [n Hn]. by rewrite Hn.
Qed.

(** ** Validation: lemmas *)

Definition replica_ok (defaultContainerName : string)
    (rType : ReplicaType) (value : option ReplicaSpec) : Prop :=
  IsDNS1035Label (ToLower rType) = [] ∧
  ∃ v, value = Some v ∧
    (∀ c, c ∈ ps_Containers (pt_Spec (r_Template v)) → c_Image c ≠ "") ∧
    (∃ c, c ∈ ps_Containers (pt_Spec (r_Template v)) ∧ c_Name c = defaultContainerName).

Lemma countDefaultContainers_spec rt d cs n m :
  countDefaultContainers rt d cs n = Ok m ↔
  (∀ c, c ∈ cs → c_Image c ≠ "") ∧ m = n + Z.of_nat (length (filter (λ c, c_Name c = d) cs)).
Proof.
  revert n. induction cs as [|c cs IH]; intros n; simpl.
  { split; [intros [= ->]; split; [by intros ? ?%elem_of_nil|lia]|].
    intros [_ ->]. f_equal. lia. }
  case_decide as Hi.
  { split; [done|]. intros [Hc _]. destruct (Hc c); [left|done]. }
  rewrite IH, filter_cons. split.
  - intros [Hc ->]. split; [set_solver|]. repeat case_decide; simpl in *; lia || done.
  - intros [Hc ->]. split; [set_solver|]. repeat case_decide; simpl in *; lia || done.
Qed.

Lemma filter_length_pos {A} (P : A → Prop) `{!∀ x, Decision (P x)} (l : list A) :
  Z.of_nat (length (filter P l)) ≠ 0 ↔ ∃ x, x ∈ l ∧ P x.
Proof.
  split.
  - intros Hl. destruct (filter P l) as [|x xs] eqn:E; [done|].
    exists x. assert (x ∈ filter P l) as Hx by (rewrite E; left).
    apply list_elem_of_filter in Hx. naive_solver.
  - intros (x & Hx & HP). assert (x ∈ filter P l) as Hf by by apply list_elem_of_filter.
    destruct (filter P l); [by apply elem_of_nil in Hf|done].
Qed.

Lemma validateReplica_spec d rt v : validateReplica d rt v = Ok tt ↔ replica_ok d rt v.
Proof.
  unfold validateReplica, replica_ok.
  destruct (IsDNS1035Label (ToLower rt)) as [|e es]; [|split; [done|by intros [? _]]].
  destruct v as [v|]; [|split; [done|naive_solver]].
  assert (∀ cs, (let! n := countDefaultContainers rt d cs 0 in
           if decide (n = 0) then Err (EText ("KubeClusterSpec is not valid: There is no container named "
                  +:+ ClusterDefaultContainerName +:+ " in " +:+ rt)) else Ok tt) = Ok tt ↔
          (∀ c, c ∈ cs → c_Image c ≠ "") ∧ (∃ c, c ∈ cs ∧ c_Name c = d)) as Hcs.
  { intros cs. rewrite <-(filter_length_pos (λ c, c_Name c = d)).
    destruct (countDefaultContainers rt d cs 0) as [n| |] eqn:E; simpl.
    - apply countDefaultContainers_spec in E as [Hi ->].
      case_decide; split; naive_solver lia.
    - split; [done|]. intros [Hi _].
      pose proof (proj2 (countDefaultContainers_spec rt d cs 0 _) (conj Hi eq_refl)). congruence.
    - split; [done|]. intros [Hi _].
      pose proof (proj2 (countDefaultContainers_spec rt d cs 0 _) (conj Hi eq_refl)). congruence. }
  destruct (ps_Containers (pt_Spec (r_Template v))) as [|c cs] eqn:E.
  - split; [done|]. intros [_ (v' & [= <-] & _ & c & Hc & _)].
    rewrite E in Hc. by apply elem_of_nil in Hc.
  - rewrite Hcs. split.
    + intros Hok. split; [done|]. exists v. by rewrite E.
    + intros [_ (v' & [= <-] & Hok)]. by rewrite E in Hok.
Qed.

Lemma countDefaultContainers_no_panic rt d cs n : countDefaultContainers rt d cs n ≠ Panic.
Proof. revert n. induction cs as [|c cs IH]; intros n; simpl; [done|]. by case_decide. Qed.

Lemma validateReplica_no_panic d rt v : validateReplica d rt v ≠ Panic.
Proof.
  unfold validateReplica. destruct (IsDNS1035Label _); [|done]. destruct v as [v|]; [|done].
  destruct (ps_Containers _) as [|c cs]; [done|].
  pose proof (countDefaultContainers_no_panic rt d (c :: cs) 0).
  destruct (countDefaultContainers rt d (c :: cs) 0); simpl; [by case_decide|done|done].
Qed.

(** ** Renaming a replica type to its canonical case *)

Definition needs_rename (typ t : ReplicaType) : bool :=
  EqualFold t typ && negb (bool_decide (t = typ)).

Lemma SetTypeNameToCamelCase_none keys m typ :
  (∀ t, t ∈ keys → needs_rename typ t = false) → SetTypeNameToCamelCase keys m typ = m.
Proof.
  induction keys as [|t keys IH]; intros Hk; simpl; [done|].
  fold (needs_rename typ t). rewrite (Hk t) by left. apply IH. intros. apply Hk. by right.
Qed.

Lemma SetTypeNameToCamelCase_some keys m typ :
  (∃ t, t ∈ keys ∧ needs_rename typ t = true) →
  ∃ t, t ∈ keys ∧ needs_rename typ t = true ∧
    SetTypeNameToCamelCase keys m typ = <[typ := default None (m !! t)]> (delete t m).
Proof.
  induction keys as [|t keys IH]; intros (t' & Hin & Hr); [by apply elem_of_nil in Hin|].
  simpl. fold (needs_rename typ t). destruct (needs_rename typ t) eqn:E.
  - exists t. split_and!; [left|done|]. by destruct (m !! t).
  - apply elem_of_cons in Hin as [->|Hin]; [congruence|].
    destruct IH as (u & ? & ? & ?); [by eauto|]. exists u. split_and!; [by right|done..].
Qed.

(** ** What validation accepts *)

Lemma validation_iff (entries : list (string * option ReplicaSpec))
    (k : KubeCluster) :
  entries ≡ₚ map_to_list (sp_ClusterReplicaSpec (kc_Spec k)) →
  ValidateV1alphaCluster entries k ≠ Panic ∧
  (ValidateV1alphaCluster entries k = Ok tt ↔
    NameIsDNS1035Label (om_Name (kc_Meta k)) false = [] ∧
    sp_ClusterType (kc_Spec k) ≠ "" ∧
    sp_ClusterReplicaSpec (kc_Spec k) ≠ ∅ ∧
    map_Forall
      (replica_ok (if decide (sp_MainContainer (kc_Spec k) = "") then ClusterDefaultContainerName
                   else sp_MainContainer (kc_Spec k)))
      (sp_ClusterReplicaSpec (kc_Spec k))).
Proof.
  intros Hp. unfold ValidateV1alphaCluster.
  destruct (NameIsDNS1035Label _ _) as [|e es]; [|split; [done|split; [done|by intros [? _]]]].
  unfold validateV1alphaClusterSpecs. set (d := if decide _ then _ else _ : string).
  case_decide as Ht; simpl; [split; [done|split; [done|by intros (_ & ? & _)]]|].
  case_decide as Hs; simpl.
  { apply map_size_empty_iff in Hs. split; [done|split; [done|by intros (_ & _ & ? & _)]]. }
  rewrite map_size_empty_iff in Hs. rewrite map_Forall_to_list, <-Hp.
  set (f := λ x : string * option ReplicaSpec, validateReplica d x.1 x.2).
  change (λ (_ : ()) entry, validateReplica d entry.1 entry.2) with (λ (_ : ()) x, f x).
  assert (result_foldl (λ _ x, f x) tt entries = Ok tt ↔
          Forall (uncurry (replica_ok d)) entries) as Hiff.
  { rewrite result_foldl_check. apply Forall_iff. intros [rt v]. apply validateReplica_spec. }
  pose proof (result_foldl_no_panic (λ _ x, f x) tt entries
    (λ _ x _, validateReplica_no_panic d x.1 x.2)) as Hnp.
  destruct (result_foldl (λ _ x, f x) tt entries) as [[]| |]; simpl; [|split..]; naive_solver.
Qed.

(** ** Properties *)

(** C38 (validation). Whatever order the run visits the replicas in, validation
    never panics, and it accepts a KubeCluster exactly when its name passes the
    DNS-1035 check, the cluster type is given, there is at least one replica
    type and every replica type has a valid name and a template all of whose
    containers have an image and one of which has the main container's name. *)
Theorem ValidateV1alphaCluster_iff (entries : list (string * option ReplicaSpec))
    (k : KubeCluster) :
  entries ≡ₚ map_to_list (sp_ClusterReplicaSpec (kc_Spec k)) →
  ValidateV1alphaCluster entries k ≠ Panic ∧
  (ValidateV1alphaCluster entries k = Ok tt ↔
    NameIsDNS1035Label (om_Name (kc_Meta k)) false = [] ∧
    sp_ClusterType (kc_Spec k) ≠ "" ∧
    sp_ClusterReplicaSpec (kc_Spec k) ≠ ∅ ∧
    map_Forall
      (replica_ok (if decide (sp_MainContainer (kc_Spec k) = "") then ClusterDefaultContainerName
                   else sp_MainContainer (kc_Spec k)))
      (sp_ClusterReplicaSpec (kc_Spec k))).
Proof. apply validation_iff. Qed.

(** C39 (defaulting). Defaulting changes three things. The name of the main container
    becomes the default name exactly when it is empty, and is kept otherwise. The
    clean-up policy becomes All exactly when there is none, and is kept otherwise (the
    comment in the code says None), like every other field of the run policy. A replica
    type whose spec has no count gets the count 1 and is otherwise kept, one with a count
    or without a spec is kept, and no type comes or goes. The type of the cluster, its
    metadata and its status are kept; afterwards all the defaulted fields are set, and
    defaulting again changes nothing. *)
Theorem SetDefaults_KubeCluster_spec (k : KubeCluster) :
  let k' := SetDefaults_KubeCluster k in
  defaulted k' ∧
  SetDefaults_KubeCluster k' = k' ∧
  kc_Meta k' = kc_Meta k ∧ kc_Status k' = kc_Status k ∧
  sp_ClusterType (kc_Spec k') = sp_ClusterType (kc_Spec k) ∧
  (sp_MainContainer (kc_Spec k) = "" → sp_MainContainer (kc_Spec k') = ClusterDefaultContainerName) ∧
  (sp_MainContainer (kc_Spec k) ≠ "" → sp_MainContainer (kc_Spec k') = sp_MainContainer (kc_Spec k)) ∧
  sp_RunPolicy (kc_Spec k') =
    RunPolicy_set_Clean
      (Some (default CleanKubeNodePolicyAll (rp_CleanKubeNodePolicy (sp_RunPolicy (kc_Spec k)))))
      (sp_RunPolicy (kc_Spec k)) ∧
  (∀ rt, sp_ClusterReplicaSpec (kc_Spec k') !! rt =
     match sp_ClusterReplicaSpec (kc_Spec k) !! rt with
     | Some (Some s) => Some (Some (ReplicaSpec_set_Replicas (Some (default 1 (r_Replicas s))) s))
     | o => o
     end).
Proof.
  intros k'. split_and!; [apply SetDefaults_defaulted| |done|done|done|..].
  - apply SetDefaults_fixpoint, SetDefaults_defaulted.
  - intros Hm. simpl. by rewrite decide_True.
  - intros Hm. simpl. by rewrite decide_False.
  - simpl. destruct (sp_RunPolicy (kc_Spec k)) as [[c|] ? ? ? ? ?]; reflexivity.
  - intros rt. simpl. rewrite lookup_fmap.
    by destruct (sp_ClusterReplicaSpec (kc_Spec k) !! rt) as [[[[n|] ??]|]|].
Qed.

(** Canonical replica type names: when exactly one replica type differs from
    [typ] only by its case and [typ] itself is absent, renaming moves that
    type's spec to [typ] in any visiting order, and touches no other type;
    when no type differs from [typ] by its case, nothing changes. *)
Theorem SetTypeNameToCamelCase_spec (keys : list string) (m : gmap string (option ReplicaSpec))
    (typ t : string) (spec : option ReplicaSpec) :
  keys ≡ₚ (map_to_list m).*1 →
  m !! typ = None → m !! t = Some spec → EqualFold t typ = true → 
  (∀ u, u ∈ dom m → EqualFold u typ = true → u = t) →
  let m' := SetTypeNameToCamelCase keys m typ in
  m' !! typ = Some spec ∧ m' !! t = None ∧
  (∀ u, u ≠ typ → u ≠ t → m' !! u = m !! u) ∧
  (∀ keys', keys' ≡ₚ (map_to_list m').*1 → SetTypeNameToCamelCase keys' m' typ = m').
Proof.
  intros Hk Htyp Ht Hf Huniq m'.
  assert (t ≠ typ) as Hne by congruence.
  assert (∀ u, u ∈ keys ↔ is_Some (m !! u)) as Hdom.
  { intros u. rewrite Hk, list_elem_of_fmap. split.
    - intros ([? v] & -> & ?%elem_of_map_to_list). by eexists.
    - intros [v Hv]. exists (u, v). by rewrite elem_of_map_to_list. }
  destruct (SetTypeNameToCamelCase_some keys m typ) as (u & Hu & Hr & Hm').
  { exists t. split; [by apply Hdom; eexists|]. unfold needs_rename.
    by rewrite Hf, bool_decide_false by done. }
  assert (u = t) as ->.
  { apply Huniq; [by apply elem_of_dom, Hdom|]. by apply andb_true_iff in Hr as [? _]. }
  fold m' in Hm'. rewrite Ht in Hm'. simpl in Hm'. rewrite Hm'.
  split_and!.
  - by rewrite lookup_insert_eq.
  - by rewrite lookup_insert_ne, lookup_delete_eq.
  - intros v ??. by rewrite lookup_insert_ne, lookup_delete_ne.
  - intros keys' Hk'. apply SetTypeNameToCamelCase_none. intros v Hv. unfold needs_rename.
    destruct (decide (v = typ)) as [->|Hvt]; [by rewrite bool_decide_true, andb_false_r|].
    destruct (EqualFold v typ) eqn:Ef; [|done]. exfalso.
    rewrite Hk', list_elem_of_fmap in Hv. destruct Hv as ([? w] & -> & Hv).
    apply elem_of_map_to_list in Hv. simpl in *.
    rewrite lookup_insert_ne in Hv by done. apply lookup_delete_Some in Hv as [? Hv].
    destruct (Huniq s); [by apply elem_of_dom_2 in Hv|done|congruence].
Qed.
End defaults.

Section witnesses.
Import Sample.

Definition sample_specs : gmap string (option ReplicaSpec) :=
  sp_ClusterReplicaSpec (kc_Spec cluster).

Lemma ValidateV1alphaCluster_iff_witness :
  ValidateV1alphaCluster (map_to_list sample_specs) cluster ≠ Panic ∧
  ValidateV1alphaCluster (map_to_list sample_specs) cluster = Ok tt.
Proof.
  destruct (ValidateV1alphaCluster_iff (map_to_list sample_specs) cluster) as [H1 H2];
    [reflexivity|].
  split; [exact H1|]. by_vm.
Defined.

Lemma SetTypeNameToCamelCase_spec_witness :
  SetTypeNameToCamelCase ["worker"; "Server"] 
    {[ "worker" := Some (replica None RestartPolicyNever); "Server" := None ]} "Worker" !! "Worker"
  = Some (Some (replica None RestartPolicyNever)).
Proof.
  eapply (SetTypeNameToCamelCase_spec ["worker"; "Server"] _ "Worker" "worker").
  - apply NoDup_Permutation; [by apply (bool_decide_unpack _); vm_compute
      |by apply NoDup_fst_map_to_list|].
    intros u. vm_compute (map_to_list _). set_solver.
  - reflexivity.
  - reflexivity.
  - reflexivity.
  - intros u Hu. rewrite dom_insert_L, dom_singleton_L in Hu.
    by apply elem_of_union in Hu as [->%elem_of_singleton| ->%elem_of_singleton].
Defined.
End witnesses.
