(* ===== verification/Status.v ===== *)
(** * Cluster conditions

    pkg/util/status.go. The conditions of a KubeCluster are a state machine
    driven by [UpdateClusterConditions]: [cond_step] is one update and
    [cond_reach] the condition lists updates can lead to from the empty one. *)

From S2P Require Import Prelude K8s Api.

Definition ClusterCreatedReason : string := "Created".
Definition ClusterRunningReason : string := "Running".
Definition ClusterFailedReason : string := "Failed".
Definition ClusterRestartingReason : string := "Restarting".
Definition ClusterFailedValidationReason : string := "FailedValidation".
Definition ClusterSuspendedReason : string := "Suspended".
Definition ClusterResumedReason : string := "Resumed".

Definition NewReason (kind reason : string) : string := kind +:+ reason.

Definition isStatusConditionTrue (status : ClusterStatus) (condType : ClusterConditionType) : bool :=
  existsb (λ c, bool_decide (cc_Type c = condType) && bool_decide (cc_Status c = ConditionTrue))
    (st_Conditions status).

Definition IsFailed (status : ClusterStatus) : bool := isStatusConditionTrue status ClusterFailed.
Definition IsFinished (status : ClusterStatus) : bool := IsFailed status.
Definition IsRunning (status : ClusterStatus) : bool := isStatusConditionTrue status ClusterRunning.
Definition IsSuspended (status : ClusterStatus) : bool :=
  isStatusConditionTrue status ClusterSuspended.

(** The two times are the two readings of the clock. *)
Definition newCondition (now now' : Time) (conditionType : ClusterConditionType)
    (conditionStatus : ConditionStatus) (reason message : string) : ClusterCondition := {|
  cc_Type := conditionType;
  cc_Status := conditionStatus;
  cc_LastUpdateTime := now;
  cc_LastTransitionTime := now';
  cc_Reason := reason;
  cc_Message := message |}.

Definition getCondition (status : ClusterStatus) (condType : ClusterConditionType) :
    option ClusterCondition :=
  snd <$> list_find (λ c, cc_Type c = condType) (st_Conditions status).

Definition set_cc_Status (s : ConditionStatus) (c : ClusterCondition) : ClusterCondition := {|
  cc_Type := cc_Type c; cc_Status := s; cc_Reason := cc_Reason c; cc_Message := cc_Message c;
  cc_LastUpdateTime := cc_LastUpdateTime c; cc_LastTransitionTime := cc_LastTransitionTime c |}.

Definition set_cc_LastTransitionTime (t : Time) (c : ClusterCondition) : ClusterCondition := {|
  cc_Type := cc_Type c; cc_Status := cc_Status c; cc_Reason := cc_Reason c;
  cc_Message := cc_Message c; cc_LastUpdateTime := cc_LastUpdateTime c;
  cc_LastTransitionTime := t |}.

Fixpoint filterOutCondition (conditions : list ClusterCondition) (condType : ClusterConditionType) :
    list ClusterCondition :=
  match conditions with
  | [] => []
  | c :: conditions =>
      let rest := filterOutCondition conditions condType in
      if bool_decide (condType = ClusterRestarting) && bool_decide (cc_Type c = ClusterRunning)
      then rest
      else if bool_decide (condType = ClusterRunning) && bool_decide (cc_Type c = ClusterRestarting)
      then rest
      else if bool_decide (cc_Type c = condType) then rest
      else if bool_decide (condType = ClusterFailed) && bool_decide (cc_Type c = ClusterRunning)
      then set_cc_Status ConditionFalse c :: rest
      else c :: rest
  end.

Definition setCondition (status : ClusterStatus) (condition : ClusterCondition) : ClusterStatus :=
  if IsFailed status then status
  else
    let currentCond := getCondition status (cc_Type condition) in
    let same_status :=
      match currentCond with
      | Some c => bool_decide (cc_Status c = cc_Status condition)
      | None => false
      end in
    let same_reason :=
      match currentCond with
      | Some c => bool_decide (cc_Reason c = cc_Reason condition)
      | None => false
      end in
    if same_status && same_reason then status
    else
      let condition :=
        match currentCond with
        | Some c =>
            if same_status then set_cc_LastTransitionTime (cc_LastTransitionTime c) condition
            else condition
        | None => condition
        end in
      let newConditions := filterOutCondition (st_Conditions status) (cc_Type condition) in
      Status_set_Conditions (newConditions ++ [condition]) status.

Definition UpdateClusterConditions (now now' : Time) (status : ClusterStatus)
    (conditionType : ClusterConditionType) (conditionStatus : ConditionStatus)
    (reason message : string) : ClusterStatus :=
  setCondition status (newCondition now now' conditionType conditionStatus reason message).

(** ** Lemmas *)

(** What an update of [t] makes of a condition of another type. *)
Definition drops (t u : ClusterConditionType) : Prop :=
  u = t ∨ (t = ClusterRestarting ∧ u = ClusterRunning) ∨ (t = ClusterRunning ∧ u = ClusterRestarting).

Definition demote (t : ClusterConditionType) (c : ClusterCondition) : ClusterCondition :=
  if decide (t = ClusterFailed ∧ cc_Type c = ClusterRunning) then set_cc_Status ConditionFalse c
  else c.

#[global] Instance drops_dec t u : Decision (drops t u).
Proof. unfold drops. apply _. Defined.

(** [filterOutCondition] is a filter followed by a map. *)
Lemma filterOutCondition_eq cs t :
  filterOutCondition cs t = demote t <$> filter (λ c, ¬ drops t (cc_Type c)) cs.
Proof.
  induction cs as [|c cs IH]; [done|]. simpl. rewrite filter_cons, IH.
  assert (∀ u v : ClusterConditionType, bool_decide (u = v) = if decide (u = v) then true else false)
    as Hb by done.
  destruct (cc_Type c) eqn:E, t; unfold drops, demote; simpl; rewrite ?E;
    repeat case_decide; simpl; try done; naive_solver.
Qed.

Lemma demote_type t c : cc_Type (demote t c) = cc_Type c.
Proof. unfold demote. by case_decide. Qed.

Lemma filterOutCondition_types cs t :
  cc_Type <$> filterOutCondition cs t = filter (λ u, ¬ drops t u) (cc_Type <$> cs).
Proof.
  rewrite filterOutCondition_eq. induction cs as [|c cs IH]; [done|].
  rewrite fmap_cons. destruct (decide (drops t (cc_Type c))) as [Hd|Hd].
  - rewrite !filter_cons_False by tauto. done.
  - rewrite !filter_cons_True by done. rewrite fmap_cons, fmap_cons, demote_type, IH. done.
Qed.

Lemma isStatusConditionTrue_spec st t :
  isStatusConditionTrue st t = true ↔
  ∃ c, c ∈ st_Conditions st ∧ cc_Type c = t ∧ cc_Status c = ConditionTrue.
Proof.
  unfold isStatusConditionTrue. rewrite existsb_exists.
  setoid_rewrite andb_true_iff. setoid_rewrite bool_decide_eq_true.
  by setoid_rewrite list_elem_of_In.
Qed.

Lemma getCondition_Some st t c :
  getCondition st t = Some c → c ∈ st_Conditions st ∧ cc_Type c = t.
Proof.
  unfold getCondition. intros ([i c'] & (Hl & Ht & _)%list_find_Some & ->)%fmap_Some. simpl.
  split; [|done]. apply list_elem_of_lookup. eauto.
Qed.

Lemma getCondition_None st t :
  getCondition st t = None ↔ t ∉ (cc_Type <$> st_Conditions st).
Proof.
  unfold getCondition. rewrite fmap_None, list_find_None, Forall_forall.
  rewrite list_elem_of_fmap. naive_solver.
Qed.

(** The three outcomes of [UpdateClusterConditions]. *)
Lemma UpdateClusterConditions_cases now now' st t s r m :
  let st' := UpdateClusterConditions now now' st t s r m in
  (IsFailed st = true ∧ st' = st) ∨
  (IsFailed st = false ∧ st' = st ∧
     ∃ c, getCondition st t = Some c ∧ cc_Status c = s ∧ cc_Reason c = r) ∨
  (IsFailed st = false ∧
     (∀ c, getCondition st t = Some c → ¬ (cc_Status c = s ∧ cc_Reason c = r)) ∧
     ∃ ltt,
       (ltt = match getCondition st t with
              | Some c => if decide (cc_Status c = s) then cc_LastTransitionTime c else now'
              | None => now' end) ∧
       st' = Status_set_Conditions
         (filterOutCondition (st_Conditions st) t ++ [newCondition now ltt t s r m]) st).
Proof.
  unfold UpdateClusterConditions, setCondition. simpl.
  destruct (IsFailed st) eqn:Hf; [by left|right].
  destruct (getCondition st t) as [c|] eqn:Hg; simpl.
  - destruct (decide (cc_Status c = s)) as [Hs|Hs];
      [rewrite bool_decide_true by done|rewrite bool_decide_false by done]; simpl.
    + destruct (decide (cc_Reason c = r)) as [Hr|Hr];
        [rewrite bool_decide_true by done|rewrite bool_decide_false by done]; simpl.
      * left. eauto 10.
      * right. split_and!; [done|naive_solver|]. eexists. split; done.
    + right. split_and!; [done|naive_solver|]. eexists. split; done.
  - right. split_and!; [done|done|]. eexists. split; done.
Qed.

(** ** The state machine *)

Inductive cond_step : ClusterStatus → ClusterStatus → Prop :=
| cond_update now now' st t s r m :
    cond_step st (UpdateClusterConditions now now' st t s r m).

(** The status a cluster is created with has no conditions; the other fields of
    the status change freely between updates. *)
Inductive cond_reach : ClusterStatus → Prop :=
| cond_init st : st_Conditions st = [] → cond_reach st
| cond_next st st' : cond_reach st → cond_step st st' → cond_reach st'
| cond_other st st' : cond_reach st → st_Conditions st' = st_Conditions st → cond_reach st'.

(** The invariant: one condition per type, Running and Restarting exclude each
    other, and a failed cluster is not running. *)
Record conditions_wf (st : ClusterStatus) : Prop := {
  wf_nodup : NoDup (cc_Type <$> st_Conditions st);
  wf_exclusive : ClusterRunning ∈ (cc_Type <$> st_Conditions st) →
                 ClusterRestarting ∉ (cc_Type <$> st_Conditions st);
  wf_failed : IsFailed st = true → IsRunning st = false
}.

Lemma conditions_wf_ext st st' :
  st_Conditions st' = st_Conditions st → conditions_wf st → conditions_wf st'.
Proof.
  intros Heq [H1 H2 H3]. split; rewrite ?Heq; [done..|].
  unfold IsFailed, IsRunning, isStatusConditionTrue in *. by rewrite Heq.
Qed.

Lemma append_not_running cs t s r m now ltt st :
  IsFailed st = false →
  IsFailed (Status_set_Conditions (filterOutCondition cs t ++ [newCondition now ltt t s r m]) st) = true →
  st_Conditions st = cs →
  IsRunning (Status_set_Conditions (filterOutCondition cs t ++ [newCondition now ltt t s r m]) st) = false.
Proof.
  intros Hf Hf' <-. apply not_true_iff_false. unfold IsRunning, IsFailed in *.
  rewrite isStatusConditionTrue_spec in *. simpl in *.
  destruct Hf' as (c & Hc & Ht & Hs). intros (d & Hd & Htd & Hsd).
  rewrite elem_of_app, list_elem_of_singleton in Hc, Hd.
  assert (∀ e, e ∈ filterOutCondition (st_Conditions st) t → cc_Type e = ClusterFailed →
    cc_Status e ≠ ConditionTrue) as Hold.
  { intros e He Hte Hse. rewrite filterOutCondition_eq, list_elem_of_fmap in He.
    destruct He as (e' & -> & He'). apply list_elem_of_filter in He' as [_ He'].
    rewrite demote_type in Hte. unfold demote in Hse. rewrite Hte in Hse.
    case_decide as Hdd; [naive_solver|]. apply not_true_iff_false in Hf. apply Hf.
    apply isStatusConditionTrue_spec. eauto. }
  destruct Hc as [Hc| ->]; [by destruct (Hold c)|]. simpl in Ht. subst t.
  destruct Hd as [Hd| ->]; [|done].
  rewrite filterOutCondition_eq, list_elem_of_fmap in Hd.
  destruct Hd as (d' & -> & _). rewrite demote_type in Htd. unfold demote in Hsd.
  rewrite Htd in Hsd. by rewrite decide_True in Hsd by done.
Qed.

Lemma UpdateClusterConditions_wf now now' st t s r m :
  conditions_wf st → conditions_wf (UpdateClusterConditions now now' st t s r m).
Proof.
  intros Hwf. destruct (UpdateClusterConditions_cases now now' st t s r m)
    as [[_ ->]|[(_ & -> & _)|(Hf & _ & ltt & _ & ->)]]; [done..|].
  destruct Hwf as [Hnd Hex _]. split.
  - simpl. rewrite fmap_app, filterOutCondition_types. apply NoDup_app. split_and!.
    + by apply NoDup_filter.
    + intros u Hu Hu'. simpl in Hu'. apply list_elem_of_singleton in Hu' as ->.
      apply list_elem_of_filter in Hu as [Hd _]. destruct Hd. by left.
    + apply NoDup_singleton.
  - simpl. rewrite fmap_app, filterOutCondition_types. simpl.
    rewrite !elem_of_app, !list_elem_of_singleton, !list_elem_of_filter.
    intros [[Hd Hr]|E]; intros [[Hd' Hr']|E']; unfold drops in *; subst; naive_solver.
  - intros Hf'. by apply append_not_running.
Qed.

Lemma conditions_wf_nil st : st_Conditions st = [] → conditions_wf st.
Proof.
  intros E. split.
  - rewrite E. constructor.
  - rewrite E. set_solver.
  - unfold IsRunning, isStatusConditionTrue. by rewrite E.
Qed.

(** Setting a condition to True makes it True, unless the cluster has failed. *)
Lemma UpdateClusterConditions_true now now' st t r m :
  IsFailed st = false ∨ t = ClusterFailed →
  isStatusConditionTrue (UpdateClusterConditions now now' st t ConditionTrue r m) t = true.
Proof.
  intros Hst. destruct (UpdateClusterConditions_cases now now' st t ConditionTrue r m)
    as [[Hf ->]|[(_ & -> & c & Hc & Hs & _)|(_ & _ & ltt & _ & ->)]].
  - destruct Hst as [Hst| ->]; [congruence|exact Hf].
  - apply isStatusConditionTrue_spec. apply getCondition_Some in Hc as [? ?]. eauto.
  - apply isStatusConditionTrue_spec. eexists. simpl. rewrite elem_of_app, list_elem_of_singleton.
    split; [by right|]. done.
Qed.

(** The condition is there afterwards, as requested. *)
Lemma UpdateClusterConditions_new now now' st t s r m :
  IsFailed st = false →
  ∃ c, getCondition (UpdateClusterConditions now now' st t s r m) t = Some c ∧
    cc_Status c = s ∧ cc_Reason c = r.
Proof.
  intros Hf. destruct (UpdateClusterConditions_cases now now' st t s r m)
    as [[? _]|[(_ & -> & Hc)|(_ & _ & ltt & _ & ->)]]; [congruence|done|].
  exists (newCondition now ltt t s r m). split; [|done]. unfold getCondition. simpl.
  rewrite list_find_app_r.
  - simpl. by rewrite decide_True by done.
  - apply list_find_None, Forall_forall. intros c Hc Ht.
    assert (t ∈ (cc_Type <$> filterOutCondition (st_Conditions st) t)) as Hin
      by (apply list_elem_of_fmap; by exists c).
    rewrite filterOutCondition_types, list_elem_of_filter in Hin. unfold drops in Hin. naive_solver.
Qed.

(** An update of another type neither fails a cluster nor repairs it. *)
Lemma UpdateClusterConditions_failed now now' st t s r m :
  t ≠ ClusterFailed → IsFailed (UpdateClusterConditions now now' st t s r m) = IsFailed st.
Proof.
  intros Ht. destruct (UpdateClusterConditions_cases now now' st t s r m)
    as [[Hf ->]|[(Hf & -> & _)|(Hf & _ & ltt & _ & ->)]]; [done..|]. rewrite Hf.
  apply not_true_iff_false. intros (c & Hc & Htc & Hsc)%isStatusConditionTrue_spec. simpl in Hc.
  rewrite filterOutCondition_eq in Hc.
  apply elem_of_app in Hc as [Hc| ->%list_elem_of_singleton]; [|done].
  apply list_elem_of_fmap in Hc as (d & -> & Hd). apply list_elem_of_filter in Hd as [_ Hd].
  rewrite demote_type in Htc. unfold demote in Hsc. rewrite decide_False in Hsc by tauto.
  apply not_true_iff_false in Hf. apply Hf, isStatusConditionTrue_spec. eauto.
Qed.

(** A cluster said to be running is not said to be restarting. *)
Lemma UpdateClusterConditions_not_restarting now now' st s r m :
  conditions_wf st → IsFailed st = false →
  ClusterRestarting ∉ (cc_Type <$>
    st_Conditions (UpdateClusterConditions now now' st ClusterRunning s r m)).
Proof.
  intros Hwf Hf. destruct (UpdateClusterConditions_cases now now' st ClusterRunning s r m)
    as [[? _]|[(_ & -> & c & Hc & _)|(_ & _ & ltt & _ & ->)]]; [congruence|..].
  - apply (wf_exclusive _ Hwf). apply getCondition_Some in Hc as [Hc <-].
    apply list_elem_of_fmap. eauto.
  - simpl. rewrite fmap_app, filterOutCondition_types, elem_of_app, list_elem_of_filter.
    simpl. rewrite list_elem_of_singleton. unfold drops. naive_solver.
Qed.

(** ** Properties *)

(** Conditions are well formed. Every condition list that updates can produce
    has at most one condition of each type, never holds both a Running and a
    Restarting condition, and never says of a cluster both that it failed and
    that it is running. *)
Theorem conditions_wf_reach (st : ClusterStatus) : cond_reach st → conditions_wf st.
Proof.
  induction 1 as [st Hst|st st' _ IH Hstep|st st' _ IH Heq].
  - by apply conditions_wf_nil.
  - destruct Hstep. by apply UpdateClusterConditions_wf.
  - by eapply conditions_wf_ext.
Qed.

Definition failed_status (now : Time) (st : ClusterStatus) : ClusterStatus :=
  UpdateClusterConditions now now st ClusterFailed ConditionTrue "r" "m".

Lemma conditions_wf_reach_witness :
  conditions_wf (failed_status 5 (UpdateClusterConditions 1 1 Sample.status ClusterRunning
                                    ConditionTrue "KubeClusterRunning" "up")).
Proof.
  apply conditions_wf_reach. eapply cond_next; [|constructor].
  eapply cond_next; [|constructor]. apply cond_init. reflexivity.
Defined.

(** C35 (Failed is terminal). Once a cluster has the Failed condition, no sequence of
    updates changes its conditions again. *)
Theorem failed_absorbing (st st' : ClusterStatus) :
  IsFailed st = true → rtc cond_step st st' → st' = st.
Proof.
  intros Hf Hs. induction Hs as [|st st1 st2 Hstep _ IH]; [done|].
  destruct Hstep as [now now' st t s r m].
  assert (UpdateClusterConditions now now' st t s r m = st) as Heq.
  { unfold UpdateClusterConditions, setCondition. by rewrite Hf. }
  rewrite Heq in IH. by rewrite (IH Hf).
Qed.

Lemma failed_absorbing_witness :
  UpdateClusterConditions 9 9 (failed_status 5 Sample.status) ClusterRunning ConditionTrue "r" "m"
  = failed_status 5 Sample.status.
Proof.
  apply (failed_absorbing (failed_status 5 Sample.status)); [reflexivity|].
  eapply rtc_once. constructor.
Defined.

(** C36 (what an update does). Let the conditions be well formed and the cluster not have
    failed. When the condition of type [t] has the requested status and reason already,
    an update changes nothing at all. Otherwise it leaves the conditions of the other
    types, in order and as they were, followed by a new condition of type [t] with the
    requested status, reason and message; except that an update of Running drops a
    Restarting condition and the other way round, and that one of Failed turns a Running
    condition to False. The update time of the new condition is the first reading of
    the clock, and its transition time the second, but when the status stays, in which
    case it is that of the old condition; the rest of the status stays. In every case
    the condition has the requested status and reason afterwards, Running and Restarting
    exclude each other, and a cluster that is set to have failed is not running. *)
Theorem UpdateClusterConditions_spec (now now' : Time) (st : ClusterStatus)
    (t : ClusterConditionType) (s : ConditionStatus) (r m : string) :
  conditions_wf st → IsFailed st = false →
  let st' := UpdateClusterConditions now now' st t s r m in
  let same c0 := cc_Status c0 = s ∧ cc_Reason c0 = r in
  (∀ c0, getCondition st t = Some c0 → same c0 → st' = st) ∧
  ((∀ c0, getCondition st t = Some c0 → ¬ same c0) →
     st' = Status_set_Conditions
       ((demote t <$> filter (λ c, ¬ drops t (cc_Type c)) (st_Conditions st)) ++
        [{| cc_Type := t; cc_Status := s; cc_Reason := r; cc_Message := m; cc_LastUpdateTime := now;
            cc_LastTransitionTime :=
              match getCondition st t with
              | Some c0 => if decide (cc_Status c0 = s) then cc_LastTransitionTime c0 else now'
              | None => now'
              end |}]) st) ∧
  (∃ c, getCondition st' t = Some c ∧ same c) ∧
  (t = ClusterRunning → getCondition st' ClusterRestarting = None) ∧
  (t = ClusterRestarting → getCondition st' ClusterRunning = None) ∧
  (t = ClusterFailed → s = ConditionTrue → IsRunning st' = false).
Proof.
  intros Hwf Hf st' same. unfold same. clear same.
  assert (conditions_wf st') as Hwf' by by apply UpdateClusterConditions_wf.
  assert (∃ c, getCondition st' t = Some c ∧ cc_Status c = s ∧ cc_Reason c = r) as Hnew
    by by apply UpdateClusterConditions_new.
  assert (t ∈ (cc_Type <$> st_Conditions st')) as Hin.
  { destruct Hnew as (c & [Hc <-]%getCondition_Some & _). apply list_elem_of_fmap. by exists c. }
  pose proof (wf_exclusive _ Hwf') as Hex. split_and!; [| |done| | |].
  - intros c0 Hc0 Hs. unfold st'. destruct (UpdateClusterConditions_cases now now' st t s r m)
      as [[? _]|[(_ & -> & _)|(_ & Hno & _)]]; [congruence|done|]. by destruct (Hno c0).
  - intros Hno. destruct (UpdateClusterConditions_cases now now' st t s r m)
      as [[? _]|[(_ & _ & c & Hc & Hs)|(_ & _ & ltt & -> & Heq)]]; [congruence|by destruct (Hno c)|].
    unfold st'. by rewrite Heq, filterOutCondition_eq.
  - intros ->. apply getCondition_None. by apply Hex.
  - intros ->. apply getCondition_None. intros ?. by apply Hex.
  - intros -> ->. apply (wf_failed _ Hwf'), UpdateClusterConditions_true. by right.
Qed.

(** A running cluster that fails. *)
Definition running_status : ClusterStatus :=
  UpdateClusterConditions 1 1 Sample.status ClusterRunning ConditionTrue "KubeClusterRunning" "up".

Lemma UpdateClusterConditions_spec_witness :
  IsRunning running_status = true ∧
  st_Conditions (UpdateClusterConditions 2 3 running_status ClusterFailed ConditionTrue "r" "m") =
    [set_cc_Status ConditionFalse (newCondition 1 1 ClusterRunning ConditionTrue "KubeClusterRunning" "up");
     newCondition 2 3 ClusterFailed ConditionTrue "r" "m"].
Proof.
  split; [reflexivity|].
  destruct (UpdateClusterConditions_spec 2 3 running_status ClusterFailed ConditionTrue "r" "m")
    as (_ & Hnew & _).
  - apply UpdateClusterConditions_wf, conditions_wf_nil. reflexivity.
  - reflexivity.
  - rewrite Hnew; [reflexivity|]. intros c0 Hc0. discriminate Hc0.
Defined.
