(* ===== verification/Names.v ===== *)
(** * Names, labels and keys

    pkg/common/controller.go and pkg/core/utils.go (names of pods and
    services), pkg/util/labels/labels.go (labels), pkg/controller/expectation/util.go
    and pkg/common/util/reconcile_generic.go (expectation keys), and the list
    helpers of pkg/common/util.go. *)

From S2P Require Import Prelude K8s Api.

Definition ControllerName : string := "kubecluster-controller".

(** pkg/common/controller.go: [GenGeneralName] *)
Definition GenGeneralName (clusterName : string) (rtype : ReplicaType) (index : string) : string :=
  let n := clusterName +:+ "-" +:+ ToLower rtype +:+ "-" +:+ index in
  ReplaceAllChar slash dash n.

(** pkg/core/utils.go *)
Definition MaxInt (x y : Z) : Z := if decide (x < y) then y else x.
Definition core_GenGeneralName (clusterName rtype index : string) : string :=
  let n := clusterName +:+ "-" +:+ ToLower rtype +:+ "-" +:+ index in
  ReplaceAllChar slash dash n.

(** ** labels.go *)

(** [None] stands for the error, either of a missing label or of [Atoi]. *)
Definition ReplicaIndex (labels : gmap string string) : option Z :=
  match labels !! ReplicaIndexLabel with
  | None => None
  | Some v => Atoi v
  end.

Definition SetReplicaIndexStr (labels : gmap string string) (idx : string) : gmap string string :=
  <[ReplicaIndexLabel := idx]> labels.
Definition SetReplicaIndex (labels : gmap string string) (idx : Z) : gmap string string :=
  SetReplicaIndexStr labels (Itoa idx).
Definition GenReplicaTypeLabel (rtype : ReplicaType) : string := ToLower rtype.
Definition SetReplicaType (labels : gmap string string) (rt : string) : gmap string string :=
  <[ReplicaTypeLabel := rt]> labels.
Definition SetClusterRole (labels : gmap string string) (role : string) : gmap string string :=
  <[ClusterRoleLabel := role]> labels.
Definition SetClusterType (labels : gmap string string) (clusterType : string) : gmap string string :=
  <[ClusterTypeLabel := clusterType]> labels.

Definition GenLabels (controllerName clusterType : string) : gmap string string :=
  let clusterType := ReplaceAllChar slash dash clusterType in
  {[ ControllerNameLabel := controllerName; ClusterNameLabel := clusterType ]}.

(** ** expectation/util.go *)

Definition GenExpectationPodsKey (clusterKey replicaType : string) : string :=
  clusterKey +:+ "/" +:+ ToLower replicaType +:+ "/pods".
Definition GenExpectationServicesKey (clusterKey replicaType : string) : string :=
  clusterKey +:+ "/" +:+ ToLower replicaType +:+ "/services".
Definition GenExpectationConfigMapKey (clusterKey : string) : string :=
  clusterKey +:+ "/configmap".
Definition GenPreSatisfiedKey (clusterKey : string) : string :=
  clusterKey +:+ "/presatisfied".
Definition GenExpectationGenericKey (clusterKey replicaType pl : string) : string :=
  clusterKey +:+ "/" +:+ ToLower replicaType +:+ "/" +:+ pl.

(** ** pkg/common/util.go *)

Section lists.
Context `{K : K8s}.

(** Pointers into a slice are the elements, in order; a nil slice is the
    empty one. *)
Definition ConvertServiceList (l : list Service) : list Service := l.

Definition KubeClusterControlledPodList (l : list Pod) (cluster : ObjectMeta) : list Pod :=
  filter (λ p, IsControlledBy (om_OwnerReferences (pod_Meta p)) (om_UID cluster) = true) l.

Definition GetReplicaTypes (entries : list (string * option ReplicaSpec)) : list ReplicaType :=
  entries.*1.

Definition ConvertPodListWithFilter (l : list Pod) (pass : option (Pod → bool)) : list Pod :=
  match pass with
  | Some f => filter (λ p, f p = true) l
  | None => l
  end.
End lists.

(** ** Lemmas *)

Lemma string_cons_app c s : String c s = String c "" +:+ s.
Proof. done. Qed.

Lemma string_app_assoc4 a b c d : a +:+ b +:+ c +:+ d = (a +:+ b +:+ c) +:+ d.
Proof. by rewrite !string_app_assoc. Qed.

Lemma lower_char_slash c : lower_char c = slash ↔ c = slash.
Proof. destruct c as [[] [] [] [] [] [] [] []]; vm_compute; split; congruence. Qed.

Lemma has_char_ToLower_slash s : has_char slash (ToLower s) = has_char slash s.
Proof.
  induction s as [|c s IH]; simpl; [done|]. fold (ToLower s). rewrite IH. f_equal.
  apply bool_decide_ext. pose proof (lower_char_slash c). naive_solver.
Qed.

Lemma GenGeneralName_unfold cn rt idx :
  has_char slash rt = false → has_char slash idx = false →
  GenGeneralName cn rt idx = ReplaceAllChar slash dash cn +:+ "-" +:+ ToLower rt +:+ "-" +:+ idx.
Proof.
  intros Hrt Hi. unfold GenGeneralName. unfold ReplaceAllChar at 1. rewrite !string_map_app.
  fold (ReplaceAllChar slash dash). fold (ReplaceAllChar slash dash cn).
  rewrite (ReplaceAllChar_id slash dash (ToLower rt)) by by rewrite has_char_ToLower_slash.
  by rewrite (ReplaceAllChar_id slash dash idx).
Qed.

Lemma expectation_key_inj ck ck' rt rt' suf :
  has_char slash rt = false → has_char slash rt' = false →
  ck +:+ "/" +:+ ToLower rt +:+ suf = ck' +:+ "/" +:+ ToLower rt' +:+ suf →
  ck = ck' ∧ ToLower rt = ToLower rt'.
Proof.
  intros Hrt Hrt' Heq.
  assert (ck +:+ "/" +:+ ToLower rt = ck' +:+ "/" +:+ ToLower rt') as Heq'.
  { revert Heq. rewrite !string_app_assoc4. clear. generalize (ck +:+ "/" +:+ ToLower rt) (ck' +:+ "/" +:+ ToLower rt').
    intros a b Hab. assert (String.length a = String.length b) as Hlen.
    { apply (f_equal String.length) in Hab. rewrite !string_app_length in Hab. lia. }
    revert b Hab Hlen. induction a as [|c a IH]; intros [|d b]; simpl; try done.
    intros [= -> Hab] [= ?]. f_equal. by apply IH. }
  apply string_split_last in Heq'; [done|by rewrite has_char_ToLower_slash..].
Qed.

(** ** Properties *)

(** Pod names identify replicas. Within one cluster, two replicas have the same
    generated name only when they have the same index and the same type up to
    case: distinct replicas get distinct pods and services. *)
Theorem GenGeneralName_inj (cluster rt rt' : string) (i i' : Z) :
  has_char slash rt = false → has_char slash rt' = false → 0 ≤ i → 0 ≤ i' →
  GenGeneralName cluster rt (Itoa i) = GenGeneralName cluster rt' (Itoa i') →
  ToLower rt = ToLower rt' ∧ i = i'.
Proof.
  intros Hrt Hrt' Hi Hi'.
  rewrite !GenGeneralName_unfold by (done || by apply Itoa_no_char).
  intros Heq%string_app_inv_l%(string_app_inv_l "-").
  change ("-" +:+ ?x) with (String dash x) in Heq.
  apply string_split_last in Heq as [? ?%Itoa_inj]; [done|by apply Itoa_no_char..].
Qed.

Lemma GenGeneralName_inj_witness :
  GenGeneralName "c1" "Worker" (Itoa 1) ≠ GenGeneralName "c1" "Worker" (Itoa 12).
Proof.
  intros H. apply (GenGeneralName_inj "c1" "Worker" "Worker" 1 12) in H; [|done..].
  destruct H as [_ H]. discriminate H.
Defined.

(** Expectation keys do not collide. For cluster keys and replica types without
    a slash in the type, the pods key, the services key and the per-cluster keys
    are pairwise different, and each determines the cluster key and the
    lower-cased replica type. *)
Theorem expectation_keys_distinct (ck ck' rt rt' : string) :
  has_char slash rt = false → has_char slash rt' = false →
  (GenExpectationPodsKey ck rt = GenExpectationPodsKey ck' rt' →
     ck = ck' ∧ ToLower rt = ToLower rt') ∧
  (GenExpectationServicesKey ck rt = GenExpectationServicesKey ck' rt' →
     ck = ck' ∧ ToLower rt = ToLower rt') ∧
  GenExpectationPodsKey ck rt ≠ GenExpectationServicesKey ck' rt' ∧
  GenExpectationPodsKey ck rt ≠ GenExpectationConfigMapKey ck' ∧
  GenExpectationPodsKey ck rt ≠ GenPreSatisfiedKey ck' ∧
  GenExpectationServicesKey ck rt ≠ GenPreSatisfiedKey ck' ∧
  GenExpectationPodsKey ck rt = GenExpectationGenericKey ck rt "pods".
Proof.
  intros Hrt Hrt'.
  assert (∀ s t, has_char slash s = false → has_char slash t = false →
    ∀ a b, a +:+ String slash s = b +:+ String slash t → s = t) as Hsuf.
  { intros s t ?? a b Hab. by apply string_split_last in Hab as [_ ?]. }
  unfold GenExpectationPodsKey, GenExpectationServicesKey, GenExpectationConfigMapKey,
    GenPreSatisfiedKey, GenExpectationGenericKey.
  split_and!; [by apply expectation_key_inj|by apply expectation_key_inj| | | | |done];
    rewrite ?string_app_assoc4; by intros ?%Hsuf.
Qed.

Lemma expectation_keys_distinct_witness :
  GenExpectationPodsKey "default/c1" "Worker" ≠ GenExpectationServicesKey "default/c1" "Worker".
Proof. apply (expectation_keys_distinct "default/c1" "default/c1" "Worker" "Worker"); done. Defined.

(** Index labels round trip: the index written into the labels of a replica is
    the index read back from them, and the type and cluster type labels can be
    set in any order around it. *)
Theorem ReplicaIndex_SetReplicaIndex (labels : gmap string string) (i : Z) (rt ct role : string) :
  in_int64 i →
  ReplicaIndex (SetReplicaIndex labels i) = Some i ∧
  ReplicaIndex (SetClusterRole (SetClusterType (SetReplicaIndex (SetReplicaType labels rt) i) ct) role)
    = Some i ∧
  SetClusterRole (SetClusterType (SetReplicaIndex (SetReplicaType labels rt) i) ct) role
    !! ReplicaTypeLabel = Some rt.
Proof.
  intros Hi. unfold ReplicaIndex, SetClusterRole, SetClusterType, SetReplicaType, SetReplicaIndex,
    SetReplicaIndexStr. split_and!.
  - rewrite lookup_insert_eq. by apply Atoi_Itoa.
  - rewrite !lookup_insert_ne, lookup_insert_eq by done. by apply Atoi_Itoa.
  - by rewrite !lookup_insert_ne, lookup_insert_eq by done.
Qed.

Lemma ReplicaIndex_SetReplicaIndex_witness :
  ReplicaIndex (SetReplicaIndex ∅ 17) = Some 17.
Proof. apply (ReplicaIndex_SetReplicaIndex ∅ 17 "" "" ""). unfold in_int64. lia. Defined.
