(* ===== verification/Expectations.v ===== *)
(** * Controller expectations

    pkg/controller/expectation/expectation.go, and [SatisfiedExpectations] of
    pkg/common/util/reconciler.go.

    The expectations live in a client-go [cache.Store]: the class [ExpStore]
    names the storage operations the code uses and [ExpStoreLaws] what client-go
    documents of them; [gmap_ExpStore] is an instance. The store holds values
    of interface type, so an object of it is either a pointer to
    expectations or a boolean. *)

From S2P Require Import Prelude K8s Api Names.

Record ControlleeExpectations := {
  ce_add : Z;
  ce_del : Z;
  ce_key : string;
  ce_timestamp : Time
}.

(** The dynamic types of the stored objects that the code tests for. *)
Inductive store_obj :=
| ObjExpectations (e : ControlleeExpectations)
| ObjBool (b : bool).

(** ** client-go's [cache.Store] *)

Class ExpStore := {
  exp_store : Type;
  es_new : exp_store;
  es_put : string → store_obj → exp_store → exp_store;
  es_del : string → exp_store → exp_store;
  es_GetByKey : string → exp_store → option store_obj
}.

Class ExpStoreLaws (S : ExpStore) : Prop := {
  es_get_new k : es_GetByKey k es_new = None;
  es_get_put k k' o s :
    es_GetByKey k (es_put k' o s) = if decide (k' = k) then Some o else es_GetByKey k s;
  es_get_del k k' s :
    es_GetByKey k (es_del k' s) = if decide (k' = k) then None else es_GetByKey k s
}.

Definition gmap_ExpStore : ExpStore := {|
  exp_store := gmap string store_obj;
  es_new := ∅;
  es_put k o s := <[k := o]> s;
  es_del k s := delete k s;
  es_GetByKey k s := s !! k |}.

Lemma gmap_ExpStore_laws : ExpStoreLaws gmap_ExpStore.
Proof.
  split; simpl.
  - apply lookup_empty.
  - intros. by rewrite lookup_insert.
  - intros. by rewrite lookup_delete.
Qed.

(** ** expectation.go *)

(** 5 minutes, in nanoseconds *)
Definition ExpectationsTimeout : Z := 5 * 60 * 1000000000.

Section expectations.
Context `{K : K8s} `{S : ExpStore}.

Definition ExpKeyFunc (obj : store_obj) : res string :=
  match obj with
  | ObjExpectations e => Ok (ce_key e)
  | ObjBool _ => Err (EText "could not find key for obj")
  end.

(** [cache.Store.Add] of a store made with [ExpKeyFunc] *)
Definition store_Add (obj : store_obj) (r : exp_store) : res exp_store :=
  let! key := ExpKeyFunc obj in Ok (es_put key obj r).

(** The type assertion [exp.( *ControlleeExpectations )] panics on another type. *)
Definition GetExpectations (r : exp_store) (controllerKey : string) :
    res (option ControlleeExpectations) :=
  match es_GetByKey controllerKey r with
  | Some (ObjExpectations e) => Ok (Some e)
  | Some (ObjBool _) => Panic
  | None => Ok None
  end.

Definition DeleteExpectations (controllerKey : string) (r : exp_store) : exp_store :=
  match es_GetByKey controllerKey r with
  | Some exp => match ExpKeyFunc exp with Ok key => es_del key r | _ => r end
  | None => r
  end.

Definition Fulfilled (e : ControlleeExpectations) : bool :=
  bool_decide (ce_add e ≤ 0) && bool_decide (ce_del e ≤ 0).

Definition isExpired (now : Time) (e : ControlleeExpectations) : bool :=
  bool_decide (now - ce_timestamp e > ExpectationsTimeout).

Definition SatisfiedExpectations (now : Time) (r : exp_store) (controllerKey : string) : res bool :=
  let! exp := GetExpectations r controllerKey in
  Ok match exp with
     | Some exp =>
         if Fulfilled exp then true else if isExpired now exp then true else false
     | None => true
     end.

Definition SetExpectations (now : Time) (controllerKey : string) (add del : Z) (r : exp_store) :
    res exp_store :=
  let exp := {| ce_add := add; ce_del := del; ce_key := controllerKey; ce_timestamp := now |} in
  store_Add (ObjExpectations exp) r.

Definition ExpectCreations (now : Time) (controllerKey : string) (adds : Z) (r : exp_store) :
    res exp_store := SetExpectations now controllerKey adds 0 r.
Definition ExpectDeletions (now : Time) (controllerKey : string) (dels : Z) (r : exp_store) :
    res exp_store := SetExpectations now controllerKey 0 dels r.

(** [ControlleeExpectations.Add]: two atomic 64-bit additions. *)
Definition ce_Add (add del : Z) (e : ControlleeExpectations) : ControlleeExpectations := {|
  ce_add := int64 (ce_add e + add); ce_del := int64 (ce_del e + del);
  ce_key := ce_key e; ce_timestamp := ce_timestamp e |}.

Definition ce_GetExpectations (e : ControlleeExpectations) : Z * Z := (ce_add e, ce_del e).

(** The counters are updated through the stored pointer: the object stays
    under its key. *)
Definition RaiseExpectations (controllerKey : string) (add del : Z) (r : exp_store) : res exp_store :=
  let! exp := GetExpectations r controllerKey in
  Ok match exp with
     | Some exp => es_put controllerKey (ObjExpectations (ce_Add add del exp)) r
     | None => r
     end.

Definition LowerExpectations (controllerKey : string) (add del : Z) (r : exp_store) : res exp_store :=
  let! exp := GetExpectations r controllerKey in
  Ok match exp with
     | Some exp =>
         es_put controllerKey (ObjExpectations (ce_Add (int64 (- add)) (int64 (- del)) exp)) r
     | None => r
     end.

Definition CreationObserved (controllerKey : string) (r : exp_store) : res exp_store :=
  LowerExpectations controllerKey 1 0 r.
Definition DeletionObserved (controllerKey : string) (r : exp_store) : res exp_store :=
  LowerExpectations controllerKey 0 1 r.

Definition SetPreSatisfiedExpectations (controllerKey : string) (satisfied : bool) (r : exp_store) :
    exp_store := r.

Definition PreSatisfiedExpectations (r : exp_store) (controllerKey : string) : bool :=
  match es_GetByKey controllerKey r with
  | Some (ObjBool preSatisfied) => preSatisfied
  | Some (ObjExpectations _) => false
  | None => false
  end.

Definition NewControllerExpectations : exp_store := es_new.

(** ** pkg/common/util/reconciler.go: [SatisfiedExpectations] *)

(** The loop over the replica types. Each check may read the clock: the
    [tick]-th reading is [clock tick]. *)
Fixpoint satisfied_types (clock : nat → Time) (tick : nat) (exp : exp_store)
    (clusterKey : string) (replicaTypes : list ReplicaType) : res bool :=
  match replicaTypes with
  | [] => Ok true
  | rtype :: replicaTypes =>
      let! pods :=
        SatisfiedExpectations (clock tick) exp (GenExpectationPodsKey clusterKey rtype) in
      if negb pods then Ok false
      else
        let! services :=
          SatisfiedExpectations (clock (1 + tick)%nat) exp
            (GenExpectationServicesKey clusterKey rtype) in
        if negb services then Ok false
        else satisfied_types clock (2 + tick) exp clusterKey replicaTypes
  end.

Definition util_SatisfiedExpectations (clock : nat → Time) (exp : exp_store)
    (clusterKey : string) (replicaTypes : list ReplicaType) : res bool :=
  if negb (PreSatisfiedExpectations exp (GenPreSatisfiedKey clusterKey)) then Ok false
  else satisfied_types clock 0 exp clusterKey replicaTypes.

(** ** The store as a state machine *)

(** The calls of [ControllerExpectationsInterface] that may change the store. *)
Inductive exp_op :=
| OpSet (now : Time) (key : string) (add del : Z)
| OpExpectCreations (now : Time) (key : string) (adds : Z)
| OpExpectDeletions (now : Time) (key : string) (dels : Z)
| OpRaise (key : string) (add del : Z)
| OpLower (key : string) (add del : Z)
| OpCreationObserved (key : string)
| OpDeletionObserved (key : string)
| OpDelete (key : string)
| OpSetPreSatisfied (key : string) (satisfied : bool).

Definition exp_exec (o : exp_op) (r : exp_store) : res exp_store :=
  match o with
  | OpSet now key add del => SetExpectations now key add del r
  | OpExpectCreations now key adds => ExpectCreations now key adds r
  | OpExpectDeletions now key dels => ExpectDeletions now key dels r
  | OpRaise key add del => RaiseExpectations key add del r
  | OpLower key add del => LowerExpectations key add del r
  | OpCreationObserved key => CreationObserved key r
  | OpDeletionObserved key => DeletionObserved key r
  | OpDelete key => Ok (DeleteExpectations key r)
  | OpSetPreSatisfied key b => Ok (SetPreSatisfiedExpectations key b r)
  end.

Definition exp_run (ops : list exp_op) (r : exp_store) : res exp_store :=
  result_foldl (λ r o, exp_exec o r) r ops.

Lemma exp_run_snoc ops o r r1 r2 :
  exp_run ops r = Ok r1 → exp_exec o r1 = Ok r2 → exp_run (ops ++ [o])%list r = Ok r2.
Proof.
  unfold exp_run. revert r. induction ops as [|o' ops IH]; intros r; simpl.
  - intros [= ->] ->. done.
  - destruct (exp_exec o' r); simpl; [apply IH|done..].
Qed.

(** ** The abstract ledger

    What the store promises: for each key, how many creations and deletions
    are still expected, as unbounded integers, and since when. *)
Record entry := Entry { en_add : Z; en_del : Z; en_since : Time }.

Definition ledger_add (key : string) (a d : Z) (l : gmap string entry) : gmap string entry :=
  alter (λ e, Entry (en_add e + a) (en_del e + d) (en_since e)) key l.

Definition ledger_exec (o : exp_op) (l : gmap string entry) : gmap string entry :=
  match o with
  | OpSet now key add del => <[key := Entry add del now]> l
  | OpExpectCreations now key adds => <[key := Entry adds 0 now]> l
  | OpExpectDeletions now key dels => <[key := Entry 0 dels now]> l
  | OpRaise key add del => ledger_add key add del l
  | OpLower key add del => ledger_add key (- add) (- del) l
  | OpCreationObserved key => ledger_add key (-1) 0 l
  | OpDeletionObserved key => ledger_add key 0 (-1) l
  | OpDelete key => delete key l
  | OpSetPreSatisfied _ _ => l
  end.

Definition ledger_run (ops : list exp_op) (l : gmap string entry) : gmap string entry :=
  foldl (λ l o, ledger_exec o l) l ops.

(** The arguments of an operation are Go [int]s. *)
Definition op_in_range (o : exp_op) : Prop :=
  match o with
  | OpSet _ _ add del => in_int64 add ∧ in_int64 del
  | OpExpectCreations _ _ adds => in_int64 adds
  | OpExpectDeletions _ _ dels => in_int64 dels
  | _ => True
  end.

(** The object a ledger entry is stored as: its own key, and the counters up
    to the 64-bit wrap-around. *)
Definition entry_obj (k : string) (e : entry) : store_obj :=
  ObjExpectations {| ce_add := int64 (en_add e); ce_del := int64 (en_del e);
                     ce_key := k; ce_timestamp := en_since e |}.

(** The store represents the ledger. *)
Definition represents (r : exp_store) (l : gmap string entry) : Prop :=
  ∀ k, es_GetByKey k r = entry_obj k <$> l !! k.
End expectations.

(** ** Refinement lemmas *)

Section refinement.
Context `{K : K8s} `{S : ExpStore} {SL : ExpStoreLaws S}.
Implicit Types (r : exp_store) (l : gmap string entry) (k : string).

Lemma represents_new : represents NewControllerExpectations ∅.
Proof. intros k. by rewrite lookup_empty, es_get_new. Qed.

Lemma represents_put r l k e :
  represents r l → represents (es_put k (entry_obj k e) r) (<[k := e]> l).
Proof.
  intros Hr k'. rewrite es_get_put, lookup_insert. case_decide; [by subst|apply Hr].
Qed.

Lemma represents_GetExpectations r l k :
  represents r l →
  GetExpectations r k =
    Ok ((λ e, {| ce_add := int64 (en_add e); ce_del := int64 (en_del e);
                 ce_key := k; ce_timestamp := en_since e |}) <$> l !! k).
Proof. intros Hr. unfold GetExpectations. rewrite Hr. by destruct (l !! k). Qed.

Lemma represents_Delete r l k :
  represents r l → represents (DeleteExpectations k r) (delete k l).
Proof.
  intros Hr k'. unfold DeleteExpectations. rewrite Hr, lookup_delete.
  destruct (l !! k) as [e|] eqn:Hl; simpl.
  - rewrite es_get_del. case_decide; [done|apply Hr].
  - rewrite Hr. case_decide; [by subst; rewrite Hl|done].
Qed.

Lemma represents_Raise r l k a d :
  represents r l →
  ∃ r', RaiseExpectations k a d r = Ok r' ∧ represents r' (ledger_add k a d l).
Proof.
  intros Hr. unfold RaiseExpectations, ledger_add.
  rewrite (represents_GetExpectations _ _ _ Hr). simpl. eexists. split; [done|].
  destruct (l !! k) as [e|] eqn:Hl; simpl.
  - unfold alter, map_alter. intros k'. rewrite lookup_partial_alter, es_get_put.
    case_decide; [|apply Hr]. subst. rewrite Hl. simpl. unfold entry_obj, ce_Add. simpl.
    by rewrite !int64_add_l.
  - intros k'. rewrite Hr. destruct (decide (k = k')) as [<-|?].
    + by rewrite lookup_alter_eq, Hl.
    + by rewrite lookup_alter_ne.
Qed.

(** Lowering is raising by the negated amounts. *)
Lemma LowerExpectations_Raise k a d r :
  LowerExpectations k a d r = RaiseExpectations k (- a) (- d) r.
Proof.
  unfold LowerExpectations, RaiseExpectations, ce_Add.
  destruct (GetExpectations r k) as [[e|]| |]; simpl; [|done..].
  by rewrite !int64_add_r.
Qed.

Lemma represents_Set r l k a d now :
  in_int64 a → in_int64 d → represents r l →
  ∃ r', SetExpectations now k a d r = Ok r' ∧ represents r' (<[k := Entry a d now]> l).
Proof.
  intros Ha Hd Hr. eexists. split; [done|].
  pose proof (represents_put r l k (Entry a d now) Hr) as Hp.
  unfold entry_obj in Hp. simpl in Hp. by rewrite !int64_id in Hp.
Qed.

(** One operation, by the operation's own lemma. *)
Lemma exp_exec_refines o r l :
  op_in_range o → represents r l →
  ∃ r', exp_exec o r = Ok r' ∧ represents r' (ledger_exec o l).
Proof.
  assert (in_int64 0) as H0 by (unfold in_int64; lia).
  destruct o; simpl; intros Ho Hr;
    unfold ExpectCreations, ExpectDeletions, CreationObserved, DeletionObserved;
    rewrite ?LowerExpectations_Raise;
    first [by apply represents_Raise | by apply represents_Set; naive_solver
          | by eauto using represents_Delete ].
Qed.

Lemma exp_run_refines ops r l :
  Forall op_in_range ops → represents r l →
  ∃ r', exp_run ops r = Ok r' ∧ represents r' (ledger_run ops l).
Proof.
  intros Hops. revert r l. induction Hops as [|o ops Ho _ IH]; intros r l Hr; [by eexists|].
  destruct (exp_exec_refines o r l Ho Hr) as (r' & Hr' & Hrep).
  unfold exp_run. simpl. rewrite Hr'. by apply IH.
Qed.

(** The answer of [SatisfiedExpectations], in terms of the ledger. *)
Definition entry_satisfied (now : Time) (e : entry) : bool :=
  bool_decide (en_add e ≤ 0 ∧ en_del e ≤ 0) || bool_decide (now - en_since e > ExpectationsTimeout).

Lemma represents_Satisfied now r l k :
  represents r l →
  (∀ e, l !! k = Some e → in_int64 (en_add e) ∧ in_int64 (en_del e)) →
  SatisfiedExpectations now r k = Ok (from_option (entry_satisfied now) true (l !! k)).
Proof.
  intros Hr Hb. unfold SatisfiedExpectations. rewrite (represents_GetExpectations _ _ _ Hr).
  destruct (l !! k) as [e|] eqn:Hl; simpl; [|done]. destruct (Hb e eq_refl) as [Ha Hd].
  unfold Fulfilled, isExpired, entry_satisfied. simpl. rewrite !int64_id by done.
  rewrite bool_decide_and. by repeat case_bool_decide.
Qed.

(** *** Observations of one key, interleaved with anything on the other keys *)

Definition op_key (o : exp_op) : string :=
  match o with
  | OpSet _ k _ _ | OpExpectCreations _ k _ | OpExpectDeletions _ k _ | OpRaise k _ _
  | OpLower k _ _ | OpCreationObserved k | OpDeletionObserved k | OpDelete k
  | OpSetPreSatisfied k _ => k
  end.

Definition is_creation (k : string) (o : exp_op) : bool :=
  match o with OpCreationObserved k' => bool_decide (k' = k) | _ => false end.
Definition is_deletion (k : string) (o : exp_op) : bool :=
  match o with OpDeletionObserved k' => bool_decide (k' = k) | _ => false end.

Definition count_ops (p : exp_op → bool) (ops : list exp_op) : Z :=
  Z.of_nat (length (filter (λ o, p o = true) ops)).

(** After the expectations of [k] are set, only watch events touch them. *)
Definition only_observed (k : string) (ops : list exp_op) : Prop :=
  Forall (λ o, op_key o ≠ k ∨ is_creation k o = true ∨ is_deletion k o = true) ops.

Lemma count_ops_cons p o ops :
  count_ops p (o :: ops) = (if p o then 1 else 0) + count_ops p ops.
Proof.
  unfold count_ops. rewrite filter_cons. destruct (p o) eqn:E; simpl; lia.
Qed.

Lemma count_ops_bound p ops : 0 ≤ count_ops p ops ≤ Z.of_nat (length ops).
Proof. unfold count_ops. pose proof (length_filter (λ o, p o = true) ops). lia. Qed.

Lemma ledger_exec_other k o l : op_key o ≠ k → ledger_exec o l !! k = l !! k.
Proof.
  destruct o; simpl; intros Hk; unfold ledger_add;
    first [by rewrite lookup_insert_ne | by rewrite lookup_alter_ne
          | by rewrite lookup_delete_ne | done].
Qed.

Lemma ledger_run_observed k ops l a d t :
  only_observed k ops → l !! k = Some (Entry a d t) →
  ledger_run ops l !! k =
    Some (Entry (a - count_ops (is_creation k) ops) (d - count_ops (is_deletion k) ops) t).
Proof.
  intros Hops. revert l a d. induction Hops as [|o ops Ho _ IH]; intros l a d Hl; simpl.
  { rewrite Hl. do 2 f_equal; unfold count_ops; simpl; lia. }
  rewrite !count_ops_cons. destruct Ho as [Ho|[Ho|Ho]].
  - rewrite (IH _ a d) by by rewrite ledger_exec_other.
    assert (is_creation k o = false ∧ is_deletion k o = false) as [-> ->]; [|done].
    destruct o; simpl in *; repeat case_bool_decide; naive_solver.
  - destruct o; try done. simpl in Ho. apply bool_decide_eq_true in Ho as ->. simpl.
    rewrite bool_decide_true by done. unfold ledger_add.
    rewrite (IH _ (a + -1) (d + 0)) by by rewrite lookup_alter_eq, Hl. do 2 f_equal; lia.
  - destruct o; try done. simpl in Ho. apply bool_decide_eq_true in Ho as ->. simpl.
    rewrite bool_decide_true by done. unfold ledger_add.
    rewrite (IH _ (a + 0) (d + -1)) by by rewrite lookup_alter_eq, Hl. do 2 f_equal; lia.
Qed.

(** *** The pre-satisfied flag *)

Definition no_flags (r : exp_store) : Prop := ∀ k b, es_GetByKey k r ≠ Some (ObjBool b).

Lemma no_flags_put r k e : no_flags r → no_flags (es_put k (ObjExpectations e) r).
Proof. intros Hr k' b. rewrite es_get_put. case_decide; [done|apply Hr]. Qed.

Lemma no_flags_exec o r r' : no_flags r → exp_exec o r = Ok r' → no_flags r'.
Proof.
  intros Hr. destruct o; simpl;
    unfold CreationObserved, DeletionObserved, ExpectCreations, ExpectDeletions;
    rewrite ?LowerExpectations_Raise; unfold SetExpectations, RaiseExpectations, store_Add; simpl;
    [intros [= <-]; by apply no_flags_put ..| | | | | | by intros [= <-]].
  1-4: destruct (GetExpectations r key) as [[e|]| |]; simpl; [|by intros [= <-]|done|done];
    intros [= <-]; by apply no_flags_put.
  intros [= <-]. unfold DeleteExpectations.
  destruct (es_GetByKey key r) as [obj|]; [|done]. destruct (ExpKeyFunc obj); [|done..].
  intros k b. rewrite es_get_del. case_decide; [done|apply Hr].
Qed.

Lemma no_flags_run ops r r' : no_flags r → exp_run ops r = Ok r' → no_flags r'.
Proof.
  revert r. induction ops as [|o ops IH]; intros r Hr; unfold exp_run; simpl; [by intros [= <-]|].
  destruct (exp_exec o r) as [r1| |] eqn:E; simpl; [|done..].
  apply IH. by eapply no_flags_exec.
Qed.

(** Without a flag the gate is closed. *)
Lemma gate_closed ops r (clock : nat → Time) clusterKey replicaTypes :
  exp_run ops NewControllerExpectations = Ok r →
  util_SatisfiedExpectations clock r clusterKey replicaTypes = Ok false.
Proof.
  intros Hrun. assert (no_flags r) as Hf.
  { eapply no_flags_run, Hrun. intros k b. unfold NewControllerExpectations. by rewrite es_get_new. }
  unfold util_SatisfiedExpectations, PreSatisfiedExpectations.
  destruct (es_GetByKey _ r) as [[e|b]|] eqn:E; [done| |done]. by destruct (Hf _ _ E).
Qed.

(** ** Properties *)

(** C28 (the expectation store refines a ledger). Started empty and driven by any
    sequence of calls, the store never fails or panics, holds exactly the
    keys with outstanding expectations, each object under its own key, and its
    counters and times are the ledger's, counters up to the 64-bit wrap-around. *)
Theorem exp_store_refines_ledger (ops : list exp_op) :
  Forall op_in_range ops →
  ∃ r, exp_run ops NewControllerExpectations = Ok r ∧ represents r (ledger_run ops ∅).
Proof. intros Hops. by apply exp_run_refines, represents_new. Qed.

(** C29 (when a controller is woken up). If [a] creations and [d] deletions are
    expected under a key after any history, and then only watch events touch
    that key, in any order and interleaved with any calls on other keys, the
    key is satisfied exactly when at least [a] creations and [d] deletions were
    observed, or more than five minutes passed since the expectations were set. *)
Theorem expectations_satisfied_iff_observed (history ops : list exp_op) (k : string)
    (a d : Z) (t now : Time) :
  Forall op_in_range history → Forall op_in_range ops →
  0 ≤ a ≤ 9223372036854775807 → 0 ≤ d ≤ 9223372036854775807 →
  Z.of_nat (length ops) ≤ 9223372036854775807 →
  only_observed k ops →
  ∃ r, exp_run (history ++ OpSet t k a d :: ops) NewControllerExpectations = Ok r ∧
    SatisfiedExpectations now r k =
      Ok (bool_decide (a ≤ count_ops (is_creation k) ops ∧ d ≤ count_ops (is_deletion k) ops)
          || bool_decide (now - t > ExpectationsTimeout)).
Proof.
  intros Hh Ho Ha Hd Hlen Hobs.
  destruct (exp_run_refines (history ++ OpSet t k a d :: ops) NewControllerExpectations ∅)
    as (r & Hrun & Hr).
  { apply Forall_app. split; [done|]. constructor; [|done]. simpl. unfold in_int64. lia. }
  { apply represents_new. }
  exists r. split; [done|]. unfold ledger_run in Hr. rewrite foldl_app in Hr. simpl in Hr.
  pose proof (ledger_run_observed k ops (<[k:=Entry a d t]> (foldl (λ l o, ledger_exec o l) ∅ history))
    a d t Hobs (lookup_insert_eq _ _ _)) as Hk.
  pose proof (count_ops_bound (is_creation k) ops).
  pose proof (count_ops_bound (is_deletion k) ops).
  rewrite (represents_Satisfied now r _ k Hr); unfold ledger_run in Hk; rewrite Hk.
  - simpl. unfold entry_satisfied. simpl. f_equal. f_equal. apply bool_decide_ext. lia.
  - intros e [= <-]. simpl. unfold in_int64. lia.
Qed.

(** The pre-satisfied gate never opens: in every store the calls can
    produce, the pre-satisfied flag reads false: [SatisfiedExpectations] of the
    reconciler answers false for every cluster and every list of replica types,
    whatever the expectations are. *)
Theorem presatisfied_never_set (ops : list exp_op) (r : exp_store) (clock : nat → Time)
    (clusterKey : string) (replicaTypes : list ReplicaType) :
  exp_run ops NewControllerExpectations = Ok r →
  util_SatisfiedExpectations clock r clusterKey replicaTypes = Ok false.
Proof.
  apply gate_closed.
Qed.
End refinement.

Section witnesses.
#[local] Existing Instance K8s_example.
#[local] Existing Instance gmap_ExpStore.
#[local] Existing Instance gmap_ExpStore_laws.

Definition sample_ops : list exp_op :=
  [OpCreationObserved "ns/c1/worker/pods"; OpExpectDeletions 3 "ns/c2/worker/pods" 1;
   OpCreationObserved "ns/c1/worker/pods"].

Lemma exp_store_refines_ledger_witness :
  ∃ r, exp_run (OpExpectCreations 0 "ns/c1/worker/pods" 2 :: sample_ops)
         NewControllerExpectations = Ok r ∧
    represents r (ledger_run (OpExpectCreations 0 "ns/c1/worker/pods" 2 :: sample_ops) ∅).
Proof.
  apply (exp_store_refines_ledger (OpExpectCreations 0 "ns/c1/worker/pods" 2 :: sample_ops)).
  repeat constructor; simpl; lia.
Defined.

Lemma expectations_satisfied_iff_observed_witness :
  ∃ r, exp_run ([] ++ OpSet 0 "ns/c1/worker/pods" 2 0 :: sample_ops)
         NewControllerExpectations = Ok r ∧
    SatisfiedExpectations 10 r "ns/c1/worker/pods" = Ok true.
Proof.
  destruct (expectations_satisfied_iff_observed [] sample_ops "ns/c1/worker/pods" 2 0 0 10)
    as (r & Hr & Hs); [by constructor|repeat constructor; simpl; lia|lia|lia|simpl; lia| |].
  - constructor; [right; left; reflexivity|]. constructor; [left; discriminate|].
    constructor; [right; left; reflexivity|]. constructor.
  - exists r. exact (conj Hr Hs).
Defined.

Lemma presatisfied_never_set_witness :
  ∃ r, exp_run [OpSetPreSatisfied "ns/c1/presatisfied" true] NewControllerExpectations = Ok r ∧
    util_SatisfiedExpectations (λ _, 0) r "ns/c1" ["Worker"] = Ok false.
Proof.
  eexists. split; [reflexivity|].
  apply (presatisfied_never_set [OpSetPreSatisfied "ns/c1/presatisfied" true]). reflexivity.
Defined.
End witnesses.
