(* ===== verification/Core.v ===== *)
(** * Grouping, counting and limits

    pkg/core/pod.go, service.go, cluster.go and status.go, the pod filters and
    counters of pkg/util/k8sutil/k8sutil.go, and pkg/util/clusterutil/util.go. *)

From S2P Require Import Prelude K8s Api Names.

(** ** Replica slices: pod.go and service.go

    The two files hold the same code for pods and for services; the section is
    that code on objects with labels. *)
Section slices.
Context `{K : K8s} {A : Type} `{HasMeta A}.

Definition label_index (x : A) : option Z := ReplicaIndex (om_Labels (meta_of x)).

Definition FilterForReplicaType (xs : list A) (replicaType : string) : list A :=
  filter (λ x, selector_Matches {[ ReplicaTypeLabel := replicaType ]}
                 (om_Labels (meta_of x)) = true) xs.

Definition CalculateSliceSize (xs : list A) (replicas : Z) : Z :=
  let size :=
    foldl (λ size x,
      match label_index x with
      | None => size
      | Some index => MaxInt size index
      end) 0 xs in
  MaxInt (int64 (size + 1)) replicas.

(** [slices[index] = append(slices[index], x)]; an index outside the slice panics. *)
Definition slice_append (slices : list (list A)) (index : Z) (x : A) : res (list (list A)) :=
  if decide (index < 0) then Panic
  else
    match slices !! Z.to_nat index with
    | None => Panic
    | Some s => Ok (<[Z.to_nat index := (s ++ [x])%list]> slices)
    end.

(** [make] panics on a negative length. *)
Definition make_slices (n : Z) : res (list (list A)) :=
  if decide (n < 0) then Panic else Ok (replicate (Z.to_nat n) []).

Definition GetSlices (xs : list A) (replicas : Z) : res (list (list A)) :=
  let! slices := make_slices (CalculateSliceSize xs replicas) in
  result_foldl (λ slices x,
    match label_index x with
    | None => Ok slices
    | Some index => slice_append slices index x
    end) slices xs.
End slices.

Section core.
Context `{K : K8s}.

Definition FilterPodsForReplicaType (pods : list Pod) (replicaType : string) : res (list Pod) :=
  Ok (FilterForReplicaType pods replicaType).
Definition CalculatePodSliceSize (pods : list Pod) (replicas : Z) : Z :=
  CalculateSliceSize pods replicas.
Definition GetPodSlices (pods : list Pod) (replicas : Z) : res (list (list Pod)) :=
  GetSlices pods replicas.

Definition FilterServicesForReplicaType (services : list Service) (replicaType : string) :
    res (list Service) :=
  Ok (FilterForReplicaType services replicaType).
Definition CalculateServiceSliceSize (services : list Service) (replicas : Z) : Z :=
  CalculateSliceSize services replicas.
Definition GetServiceSlices (services : list Service) (replicas : Z) : res (list (list Service)) :=
  GetSlices services replicas.

Definition SetRestartPolicy (podTemplateSpec : PodTemplateSpec) (spec : ReplicaSpec) :
    PodTemplateSpec :=
  if decide (r_RestartPolicy spec = RestartPolicyExitCode) then
    PodTemplateSpec_map_Spec (PodSpec_set_RestartPolicy "Never") podTemplateSpec
  else
    PodTemplateSpec_map_Spec
      (PodSpec_set_RestartPolicy (RestartPolicy_string (r_RestartPolicy spec))) podTemplateSpec.

(** The ports of the first container with the name; a container without ports
    gives the nil map, which reads as the empty one. *)
Definition GetPortsFromCluster (spec : ReplicaSpec) (defaultContainerName : string) :
    res (gmap string Z) :=
  match list_find (λ c, c_Name c = defaultContainerName)
          (ps_Containers (pt_Spec (r_Template spec))) with
  | Some (_, container) =>
      Ok (foldl (λ ports port, <[cp_Name port := cp_ContainerPort port]> ports)
            ∅ (c_Ports container))
  | None => Err (EText "failed to find the port")
  end.

(** ** cluster.go *)

(** [time.Second] *)
Definition Second : Z := 1000000000.

(** [time.Time.Sub]: the difference, saturated to a [time.Duration]. *)
Definition time_Sub (t u : Time) : Z :=
  Z.max (-9223372036854775808) (Z.min 9223372036854775807 (t - u)).

Definition PastActiveDeadline (now : Time) (runPolicy : RunPolicy) (clusterStatus : ClusterStatus) :
    bool :=
  match rp_ActiveDeadlineSeconds runPolicy, st_StartTime clusterStatus with
  | Some activeDeadlineSeconds, Some start =>
      let duration := time_Sub now start in
      let allowedDuration := int64 (activeDeadlineSeconds * Second) in
      bool_decide (allowedDuration ≤ duration)
  | _, _ => false
  end.

(** The two inner loops over the container statuses of a pod. *)
Definition add_restarts (result : Z) (stats : list ContainerStatus) : Z :=
  foldl (λ result stat, int32 (result + cs_RestartCount stat)) result stats.

Definition pod_restarts (result : Z) (po : Pod) : Z :=
  if decide (pst_Phase (pod_Status po) = PodRunning) then
    add_restarts (add_restarts result (pst_InitContainerStatuses (pod_Status po)))
      (pst_ContainerStatuses (pod_Status po))
  else result.

Definition restarts_counted (p : RestartPolicy) : bool :=
  negb (negb (bool_decide (p = RestartPolicyOnFailure)) &&
        negb (bool_decide (p = RestartPolicyAlways)) &&
        negb (bool_decide (p = RestartPolicyExitCode))).

(** [entries] are the entries of [replicas] in visiting order. *)
Definition PastBackoffLimit (runPolicy : RunPolicy)
    (entries : list (string * option ReplicaSpec)) (pods : list Pod)
    (podFilterFunc : list Pod → string → res (list Pod)) : res bool :=
  match rp_BackoffLimit runPolicy with
  | None => Ok false
  | Some backoffLimit =>
      let! result := result_foldl (λ result entry,
        let! spec := deref entry.2 in
        if negb (restarts_counted (r_RestartPolicy spec)) then Ok result
        else
          let rt := ToLower entry.1 in
          let! pods := podFilterFunc pods rt in
          Ok (foldl pod_restarts result pods)) 0 entries in
      if decide (backoffLimit = 0) then Ok (bool_decide (result > 0))
      else Ok (bool_decide (backoffLimit ≤ result))
  end.

(** [recordContainerStatus], with the events the recorder receives *)
Definition recordContainerStatus (pod : Pod) (status : ContainerStatus) : list Event :=
  match cs_Terminated status with
  | Some terminated =>
      if decide (ct_ExitCode terminated = 0) then []
      else [{| ev_Type := EventWarning; ev_Reason := ct_Reason terminated;
               ev_Message := "Error pod " +:+ om_Name (pod_Meta pod) +:+ " container "
                 +:+ cs_Name status +:+ " exitCode: " +:+ Itoa (ct_ExitCode terminated)
                 +:+ " terminated message: " +:+ ct_Message terminated |}]
  | None => []
  end ++
  match cs_Waiting status with
  | Some wait =>
      if decide (cw_Message wait = "") then []
      else [{| ev_Type := EventWarning; ev_Reason := cw_Reason wait;
               ev_Message := "Error pod " +:+ om_Name (pod_Meta pod) +:+ " container "
                 +:+ cs_Name status +:+ " waiting message: " +:+ cw_Message wait |}]
  | None => []
  end.

(** [status.Conditions[i].LastTransitionTime.After(...)] *)
Definition cond_after (c d : PodCondition) : bool :=
  bool_decide (pc_LastTransitionTime c > pc_LastTransitionTime d).

Definition condition_event (pod : Pod) (condition : PodCondition) : Event :=
  {| ev_Type := EventWarning; ev_Reason := pc_Reason condition;
     ev_Message := "Error pod " +:+ om_Name (pod_Meta pod)
                   +:+ " condition message: " +:+ pc_Message condition |}.

Definition RecordAbnormalPod `{GoSort} (pod : Pod) : list Event :=
  let status := pod_Status pod in
  match pst_ContainerStatuses status with
  | (_ :: _) as stats => stats ≫= recordContainerStatus pod
  | [] =>
      match pst_InitContainerStatuses status with
      | (_ :: _) as stats => stats ≫= recordContainerStatus pod
      | [] =>
          match sort_Slice cond_after (pst_Conditions status) with
          | [] => []
          | condition :: _ =>
              if decide (pc_Status condition = ConditionTrue) then []
              else [condition_event pod condition]
          end
      end
  end.

Definition RecordAbnormalPods `{GoSort} (activePods : list Pod) : list Event :=
  activePods ≫= RecordAbnormalPod.

(** ** status.go *)

Definition InitializeReplicaStatuses (clusterStatus : ClusterStatus) (rtype : ReplicaType) :
    ClusterStatus :=
  Status_set_ReplicaStatuses
    (<[rtype := ReplicaStatus_zero]> (st_ReplicaStatuses clusterStatus)) clusterStatus.

Definition rs_inc_Failed (s : ReplicaStatus) : ReplicaStatus :=
  {| rs_Active := rs_Active s; rs_Activating := rs_Activating s;
     rs_Failed := int32 (rs_Failed s + 1); rs_Selector := rs_Selector s |}.
Definition rs_inc_Active (s : ReplicaStatus) : ReplicaStatus :=
  {| rs_Active := int32 (rs_Active s + 1); rs_Activating := rs_Activating s;
     rs_Failed := rs_Failed s; rs_Selector := rs_Selector s |}.

(** Incrementing a field of [clusterStatus.ReplicaStatuses[rtype]], a nil
    pointer when the type has no entry. *)
Definition bump (f : ReplicaStatus → ReplicaStatus) (rtype : ReplicaType)
    (clusterStatus : ClusterStatus) : res ClusterStatus :=
  let! s := deref (st_ReplicaStatuses clusterStatus !! rtype) in
  Ok (Status_set_ReplicaStatuses (<[rtype := f s]> (st_ReplicaStatuses clusterStatus))
        clusterStatus).

Definition UpdateClusterReplicaStatuses (clusterStatus : ClusterStatus) (rtype : ReplicaType)
    (pod : Pod) : res ClusterStatus :=
  match pst_Phase (pod_Status pod) with
  | PodRunning =>
      match om_DeletionTimestamp (pod_Meta pod) with
      | Some _ => bump rs_inc_Failed rtype clusterStatus
      | None => bump rs_inc_Active rtype clusterStatus
      end
  | PodFailed => bump rs_inc_Failed rtype clusterStatus
  | _ => Ok clusterStatus
  end.

(** ** k8sutil.go *)

Definition IsPodActive (p : Pod) : bool :=
  negb (bool_decide (PodSucceeded = pst_Phase (pod_Status p))) &&
  negb (bool_decide (PodFailed = pst_Phase (pod_Status p))) &&
  bool_decide (om_DeletionTimestamp (pod_Meta p) = None).

Definition FilterActivePods (pods : list Pod) : list Pod :=
  filter (λ p, IsPodActive p = true) pods.

Definition FilterPodCount (pods : list Pod) (phase : PodPhase) : Z :=
  foldl (λ result p,
    if decide (phase = pst_Phase (pod_Status p)) then int32 (result + 1) else result) 0 pods.

Definition GetTotalReplicas (entries : list (string * option ReplicaSpec)) : res Z :=
  result_foldl (λ clusterReplicas entry,
    let! r := deref entry.2 in
    match r_Replicas r with
    | Some n => Ok (int32 (clusterReplicas + n))
    | None => Ok (int32 (clusterReplicas + 1))
    end) 0 entries.

Definition GetTotalFailedReplicas (statuses : list (string * ReplicaStatus)) : Z :=
  foldl (λ totalFailedReplicas s, int32 (totalFailedReplicas + rs_Failed s.2)) 0 statuses.

(** ** clusterutil/util.go *)

Definition IsRetryableExitCode (exitCode : Z) : bool := bool_decide (128 ≤ exitCode).

Definition IsClusterSuspended (runPolicy : option RunPolicy) : bool :=
  match runPolicy with
  | Some runPolicy => default false (rp_Suspend runPolicy)
  | None => false
  end.
End core.

(** ** Slices: lemmas *)

Section slice_lemmas.
Context `{K : K8s} {A : Type} `{HasMeta A}.
Implicit Types (x : A) (xs : list A).

Lemma MaxInt_max a b : MaxInt a b = Z.max a b.
Proof. unfold MaxInt. case_decide; lia. Qed.

(** The largest index label, and 0 when there is none above it. *)
Definition max_index (xs : list A) : Z :=
  foldl (λ size x, match label_index x with None => size | Some i => MaxInt size i end) 0 xs.

Lemma max_index_bounds xs m :
  m ≤ foldl (λ size x, match label_index x with None => size | Some i => MaxInt size i end) m xs ∧
  (∀ x i, x ∈ xs → label_index x = Some i →
    i ≤ foldl (λ size x, match label_index x with None => size | Some i => MaxInt size i end) m xs) ∧
  (∀ b, m ≤ b → (∀ x i, x ∈ xs → label_index x = Some i → i ≤ b) →
    foldl (λ size x, match label_index x with None => size | Some i => MaxInt size i end) m xs ≤ b).
Proof.
  revert m. induction xs as [|y xs IH]; intros m; simpl.
  { split_and!; [lia|by intros ?? ?%elem_of_nil|done]. }
  destruct (label_index y) as [j|] eqn:Hj.
  - rewrite MaxInt_max. destruct (IH (Z.max m j)) as (H1 & H2 & H3). split_and!.
    + lia.
    + intros x i [->|Hx]%elem_of_cons Hi; [simplify_eq; lia|eauto].
    + intros b Hb Hall. apply H3; [|naive_solver set_solver].
      pose proof (Hall y j ltac:(left) Hj). lia.
  - destruct (IH m) as (H1 & H2 & H3). split_and!; [done| |naive_solver set_solver].
    intros x i [->|Hx]%elem_of_cons Hi; [congruence|eauto].
Qed.

(** The labels the code can slice by. *)
Definition index_ok (x : A) : Prop :=
  ∀ i, label_index x = Some i → 0 ≤ i < 9223372036854775807.

Lemma max_index_top xs : (∀ x, x ∈ xs → index_ok x) → max_index xs ≤ 9223372036854775806.
Proof.
  intros Hok. destruct (max_index_bounds xs 0) as (_ & _ & H3). apply H3; [lia|].
  intros x i Hx Hi. pose proof (Hok x Hx i Hi). lia.
Qed.

Lemma CalculateSliceSize_spec xs replicas :
  (∀ x, x ∈ xs → index_ok x) →
  CalculateSliceSize xs replicas = Z.max (max_index xs + 1) replicas ∧
  0 ≤ max_index xs ∧ (∀ x i, x ∈ xs → label_index x = Some i → i ≤ max_index xs).
Proof.
  intros Hok. destruct (max_index_bounds xs 0) as (H1 & H2 & H3).
  fold (max_index xs) in *. split_and!; [|done..].
  unfold CalculateSliceSize. fold (max_index xs). rewrite MaxInt_max, int64_id; [done|].
  pose proof (max_index_top xs Hok). unfold in_int64. lia.
Qed.

(** The objects of replica [i]. *)
Definition of_index (i : nat) (xs : list A) : list A :=
  filter (λ x, label_index x = Some (Z.of_nat i)) xs.

Lemma of_index_snoc i xs x :
  of_index i (xs ++ [x])%list =
  (of_index i xs ++ if decide (label_index x = Some (Z.of_nat i)) then [x] else [])%list.
Proof. unfold of_index. by rewrite filter_app, filter_cons, filter_nil. Qed.

(** Slicing succeeds on such labels, and slice [i] holds the objects of
    replica [i] in their order. *)
Lemma GetSlices_spec xs replicas :
  (∀ x, x ∈ xs → index_ok x) →
  ∃ ss, GetSlices xs replicas = Ok ss ∧
    Z.of_nat (length ss) = Z.max (max_index xs + 1) replicas ∧
    (∀ i s, ss !! i = Some s ↔ (i < length ss)%nat ∧ s = of_index i xs).
Proof.
  intros Hok. destruct (CalculateSliceSize_spec xs replicas Hok) as (Hsz & Hpos & Hmax).
  set (n := Z.to_nat (Z.max (max_index xs + 1) replicas)).
  unfold GetSlices, make_slices. rewrite Hsz, decide_False by lia. simpl. fold n.
  destruct (result_foldl_ind (E := error)
    (λ slices x, match label_index x with None => Ok slices | Some i => slice_append slices i x end)
    (λ dn ss, length ss = n ∧ ∀ i, (i < n)%nat → ss !! i = Some (of_index i dn))
    (replicate n []) xs) as (ss & Hrun & Hlen & Hss).
  - rewrite length_replicate. split; [done|]. intros i Hi. by rewrite lookup_replicate_2.
  - intros dn x ss [Hlen Hss] Hx. destruct (label_index x) as [i|] eqn:Hi.
    + pose proof (Hok x Hx i Hi). pose proof (Hmax x i Hx Hi).
      assert (Z.to_nat i < n)%nat as Hlt by lia. unfold slice_append.
      rewrite decide_False by lia. rewrite (Hss _ Hlt). eexists. split; [done|].
      rewrite length_insert. split; [done|]. intros j Hj. rewrite of_index_snoc.
      destruct (decide (j = Z.to_nat i)) as [->|Hne].
      * rewrite list_lookup_insert_eq by lia. rewrite decide_True; [done|].
        rewrite Hi. f_equal. lia.
      * rewrite list_lookup_insert_ne by done. rewrite decide_False, app_nil_r by (intros ?; simplify_eq; lia).
        by apply Hss.
    + eexists. split; [done|]. split; [done|]. intros j Hj. rewrite of_index_snoc.
      rewrite decide_False, app_nil_r by congruence. by apply Hss.
  - exists ss. split_and!; [done|lia|]. intros i s. split.
    + intros Hs. pose proof (lookup_lt_Some _ _ _ Hs). rewrite Hss in Hs by lia. naive_solver.
    + intros [Hi ->]. apply Hss. lia.
Qed.

Lemma slice_append_no_err ss i x e : slice_append ss i x ≠ Err e.
Proof. unfold slice_append. case_decide; [done|]. by destruct (_ !! _). Qed.

Lemma GetSlices_negative xs replicas x i :
  x ∈ xs → label_index x = Some i → i < 0 → GetSlices xs replicas = Panic.
Proof.
  intros Hx Hi Hneg. unfold GetSlices, make_slices. case_decide; [done|]. simpl.
  eapply result_foldl_panic; [|done|].
  - intros s y e. destruct (label_index y); [apply slice_append_no_err|done].
  - intros s. rewrite Hi. unfold slice_append. by rewrite decide_True.
Qed.

Lemma FilterForReplicaType_elem {KL : K8sLaws K} xs rt x :
  x ∈ FilterForReplicaType xs rt ↔ x ∈ xs ∧ om_Labels (meta_of x) !! ReplicaTypeLabel = Some rt.
Proof.
  unfold FilterForReplicaType. rewrite list_elem_of_filter, selector_Matches_spec, map_singleton_subseteq_l.
  tauto.
Qed.
End slice_lemmas.

(** ** Counting: lemmas *)

Section count_lemmas.
Context `{K : K8s}.

Definition status_restarts (stats : list ContainerStatus) : Z :=
  Zsum (cs_RestartCount <$> stats).

(** The restarts of a running pod, in unbounded arithmetic. *)
Definition restarts_of (po : Pod) : Z :=
  if decide (pst_Phase (pod_Status po) = PodRunning) then
    status_restarts (pst_InitContainerStatuses (pod_Status po))
    + status_restarts (pst_ContainerStatuses (pod_Status po))
  else 0.

Lemma pod_restarts_sum z po : pod_restarts (int32 z) po = int32 (z + restarts_of po).
Proof.
  unfold pod_restarts, restarts_of, add_restarts. case_decide; [|by rewrite Z.add_0_r].
  rewrite !foldl_int32_sum. f_equal. unfold status_restarts. lia.
Qed.

Lemma pods_restarts_sum z pods :
  foldl pod_restarts (int32 z) pods = int32 (z + Zsum (restarts_of <$> pods)).
Proof.
  revert z. induction pods as [|po pods IH]; intros z; [simpl; f_equal; lia|].
  rewrite fmap_cons. simpl. rewrite pod_restarts_sum, IH. f_equal. lia.
Qed.

(** The restarts one replica type contributes. *)
Definition type_restarts (pods : list Pod) (entry : string * option ReplicaSpec) : Z :=
  match entry.2 with
  | Some spec =>
      if restarts_counted (r_RestartPolicy spec)
      then Zsum (restarts_of <$> FilterForReplicaType pods (ToLower entry.1)) else 0
  | None => 0
  end.

Definition total_restarts (pods : list Pod) (replicas : gmap string (option ReplicaSpec)) : Z :=
  Zsum (type_restarts pods <$> map_to_list replicas).

Lemma PastBackoffLimit_sum entries pods z :
  (∀ e, e ∈ entries → is_Some e.2) →
  result_foldl (λ result (entry : string * option ReplicaSpec),
    let! spec := deref entry.2 in
    if negb (restarts_counted (r_RestartPolicy spec)) then Ok result
    else
      let! pods := FilterPodsForReplicaType pods (ToLower entry.1) in
      Ok (foldl pod_restarts result pods)) (int32 z) entries
  = Ok (int32 (z + Zsum (type_restarts pods <$> entries))).
Proof.
  revert z. induction entries as [|[rt o] es IH]; intros z Hs; [simpl; do 2 f_equal; lia|].
  rewrite fmap_cons. destruct (Hs (rt, o)) as [spec Hspec]; [left|]. simpl in Hspec. subst o.
  assert (∀ e, e ∈ es → is_Some e.2) as Hs' by (intros; apply Hs; by right).
  unfold type_restarts at 1. simpl. destruct (restarts_counted _); simpl.
  - rewrite pods_restarts_sum, IH by done. do 2 f_equal. lia.
  - by rewrite IH.
Qed.

(** Counting pods into a replica status. *)
Definition counts_active (p : Pod) : bool :=
  bool_decide (pst_Phase (pod_Status p) = PodRunning) &&
  bool_decide (om_DeletionTimestamp (pod_Meta p) = None).
Definition counts_failed (p : Pod) : bool :=
  bool_decide (pst_Phase (pod_Status p) = PodFailed) ||
  (bool_decide (pst_Phase (pod_Status p) = PodRunning) &&
   negb (bool_decide (om_DeletionTimestamp (pod_Meta p) = None))).

Definition count_pods (f : Pod → bool) (pods : list Pod) : Z :=
  Z.of_nat (length (filter (λ p, f p = true) pods)).

Lemma count_pods_snoc f pods p :
  count_pods f (pods ++ [p])%list = count_pods f pods + if f p then 1 else 0.
Proof.
  unfold count_pods. rewrite filter_app, filter_cons, filter_nil, length_app.
  destruct (f p); simpl; lia.
Qed.

Lemma count_pods_bound f pods : 0 ≤ count_pods f pods ≤ Z.of_nat (length pods).
Proof. unfold count_pods. pose proof (length_filter (λ p, f p = true) pods). lia. Qed.

Definition counted_status (pods : list Pod) : ReplicaStatus := {|
  rs_Active := int32 (count_pods counts_active pods); rs_Activating := 0;
  rs_Failed := int32 (count_pods counts_failed pods); rs_Selector := "" |}.

(** The status loop of the reconciler over the pods of one type. *)
Definition count_replicas (st : ClusterStatus) (rtype : ReplicaType) (pods : list Pod) :
    res ClusterStatus :=
  result_foldl (λ st p, UpdateClusterReplicaStatuses st rtype p)
    (InitializeReplicaStatuses st rtype) pods.

Lemma Status_set_ReplicaStatuses_twice a b st :
  Status_set_ReplicaStatuses a (Status_set_ReplicaStatuses b st) = Status_set_ReplicaStatuses a st.
Proof. done. Qed.

Lemma UpdateClusterReplicaStatuses_counted st rt dn p :
  UpdateClusterReplicaStatuses
    (Status_set_ReplicaStatuses (<[rt := counted_status dn]> (st_ReplicaStatuses st)) st) rt p
  = Ok (Status_set_ReplicaStatuses
          (<[rt := counted_status (dn ++ [p])%list]> (st_ReplicaStatuses st)) st).
Proof.
  unfold counted_status. rewrite !count_pods_snoc. unfold UpdateClusterReplicaStatuses, bump.
  unfold counts_active, counts_failed. simpl. rewrite lookup_insert_eq. simpl.
  destruct (pst_Phase (pod_Status p)), (om_DeletionTimestamp (pod_Meta p)); simpl;
    rewrite ?Z.add_0_r, ?insert_insert_eq; unfold rs_inc_Failed, rs_inc_Active; simpl;
    rewrite ?int32_add_l; done.
Qed.

Lemma count_replicas_spec st rt pods :
  count_replicas st rt pods =
    Ok (Status_set_ReplicaStatuses (<[rt := counted_status pods]> (st_ReplicaStatuses st)) st).
Proof.
  unfold count_replicas.
  destruct (result_foldl_ind (E := error) (λ st p, UpdateClusterReplicaStatuses st rt p)
    (λ dn s, s = Status_set_ReplicaStatuses (<[rt := counted_status dn]> (st_ReplicaStatuses st)) st)
    (InitializeReplicaStatuses st rt) pods) as (s & -> & ->); [done| |done].
  intros dn p s -> _. eexists. split; [apply UpdateClusterReplicaStatuses_counted|done].
Qed.

(** The latest condition comes first after sorting. *)
Lemma cond_after_strict_weak : strict_weak cond_after.
Proof.
  split; unfold cond_after; intros *; rewrite ?bool_decide_eq_true, ?bool_decide_eq_false; lia.
Qed.

Lemma sorted_head_latest `{S : GoSort} {SL : GoSortLaws S} cs c rest :
  sort_Slice cond_after cs = c :: rest →
  c ∈ cs ∧ ∀ d, d ∈ cs → pc_LastTransitionTime d ≤ pc_LastTransitionTime c.
Proof.
  intros Hs. pose proof (sort_Slice_perm cond_after cs) as Hp. rewrite Hs in Hp.
  pose proof (sort_Slice_sorted cond_after cs cond_after_strict_weak) as Hsd. rewrite Hs in Hsd.
  inversion Hsd as [|? ? _ Hall]; subst. split; [rewrite <-Hp; left|].
  intros d Hd. rewrite <-Hp in Hd. apply elem_of_cons in Hd as [->|Hd]; [lia|].
  rewrite Forall_forall in Hall. specialize (Hall d Hd). unfold cond_after in Hall.
  apply bool_decide_eq_false in Hall. lia.
Qed.
End count_lemmas.

(** ** Properties *)

Section properties.
Context `{K : K8s}.

(** Pods are grouped by replica index. When every index label is a
    non-negative number below the largest [int], slicing the pods of a
    replica type succeeds: there are at least as many slices as replicas and
    one for every label, slice [i] is exactly the pods labelled [i] in their
    order, and pods without a readable label are in no slice. *)
Theorem GetPodSlices_partition (pods : list Pod) (replicas : Z) :
  (∀ p, p ∈ pods → index_ok p) →
  ∃ slices, GetPodSlices pods replicas = Ok slices ∧
    Z.of_nat (length slices) = Z.max (max_index pods + 1) replicas ∧
    (∀ i s, slices !! i = Some s ↔ (i < length slices)%nat ∧ s = of_index i pods) ∧
    (∀ p, p ∈ mjoin slices ↔ p ∈ pods ∧ is_Some (label_index p)).
Proof.
  intros Hok. destruct (GetSlices_spec pods replicas Hok) as (ss & Hrun & Hlen & Hss).
  destruct (CalculateSliceSize_spec pods replicas Hok) as (_ & _ & Hmax).
  exists ss. split_and!; [done..|]. intros p. rewrite list_elem_of_join. split.
  - intros (s & Hp & (i & Hi)%list_elem_of_lookup). apply Hss in Hi as [_ ->].
    apply list_elem_of_filter in Hp as [Hi Hp]. split; [done|]. by eexists.
  - intros [Hp [i Hi]]. pose proof (Hok p Hp i Hi). pose proof (Hmax p i Hp Hi).
    exists (of_index (Z.to_nat i) pods). split.
    + apply list_elem_of_filter. split; [|done]. rewrite Hi. f_equal. lia.
    + apply list_elem_of_lookup. exists (Z.to_nat i). apply Hss. split; [lia|done].
Qed.

(** A negative index label panics. A pod, or a service, whose replica-index
    label is a negative number makes the slicing panic: the warning for an
    unexpected index does not stop the indexing. *)
Theorem GetSlices_negative_panics (pods : list Pod) (services : list Service) (replicas i : Z) :
  i < 0 →
  (∀ p, p ∈ pods → label_index p = Some i → GetPodSlices pods replicas = Panic) ∧
  (∀ s, s ∈ services → label_index s = Some i → GetServiceSlices services replicas = Panic).
Proof. intros Hi. split; intros x Hx Hl; by eapply GetSlices_negative. Qed.

(** C37 (the active deadline). For deadlines of at most 292 years the cluster is
    past its deadline exactly when that many seconds passed since its start
    time; with a larger one the 64-bit duration wraps around, and every
    cluster is past a deadline of 9223372037 seconds when it starts. *)
Theorem PastActiveDeadline_spec (now start secs : Z) (runPolicy : RunPolicy) (st : ClusterStatus) :
  rp_ActiveDeadlineSeconds runPolicy = Some secs → st_StartTime st = Some start →
  (0 ≤ secs ≤ 9223372036 →
     PastActiveDeadline now runPolicy st = true ↔ start + secs * Second ≤ now) ∧
  (secs = 9223372037 → start ≤ now → PastActiveDeadline now runPolicy st = true).
Proof.
  intros Hd Hs. unfold PastActiveDeadline. rewrite Hd, Hs. unfold Second, time_Sub. split.
  - intros Hr. rewrite int64_id by (unfold in_int64; lia). rewrite bool_decide_eq_true. lia.
  - intros -> Hle. change (int64 (9223372037 * 1000000000)) with (-9223372036709551616).
    rewrite bool_decide_eq_true. lia.
Qed.

(** The backoff limit. In any visiting order of the replica types, the
    check never fails: it compares the limit with the sum, at 32 bits, of the
    restart counts of the running pods of the types whose policy is OnFailure,
    Always or ExitCode; a limit of 0 means any restart. *)
Theorem PastBackoffLimit_spec (entries : list (string * option ReplicaSpec))
    (replicas : gmap string (option ReplicaSpec)) (runPolicy : RunPolicy) (pods : list Pod)
    (limit : Z) :
  rp_BackoffLimit runPolicy = Some limit →
  entries ≡ₚ map_to_list replicas →
  map_Forall (λ _ o, is_Some o) replicas →
  PastBackoffLimit runPolicy entries pods FilterPodsForReplicaType =
    Ok (let total := int32 (total_restarts pods replicas) in
        if decide (limit = 0) then bool_decide (0 < total) else bool_decide (limit ≤ total)).
Proof.
  intros Hl Hp Hs. unfold PastBackoffLimit. rewrite Hl.
  pose proof (PastBackoffLimit_sum entries pods 0) as Hsum. change (int32 0) with 0 in Hsum.
  rewrite Hsum.
  - rewrite Z.add_0_l. simpl. unfold total_restarts.
    rewrite (Zsum_perm _ (type_restarts pods <$> map_to_list replicas)) by by rewrite Hp.
    case_decide; f_equal. apply bool_decide_ext. lia.
  - intros [rt o] He. rewrite Hp in He. apply elem_of_map_to_list in He. by apply (Hs rt).
Qed.

(** Replica statuses count pods: initialising the status of a type and
    counting any list of fewer than 2^31 pods into it never panics, sets Active
    to the number of running pods that are not being deleted and Failed to the
    number of failed ones plus the running ones being deleted, and leaves
    the other types and the other fields of the status alone. *)
Theorem replica_statuses_count (st : ClusterStatus) (rtype : ReplicaType) (pods : list Pod) :
  Z.of_nat (length pods) ≤ 2147483647 →
  ∃ st', count_replicas st rtype pods = Ok st' ∧
    st_ReplicaStatuses st' !! rtype = Some {|
      rs_Active := count_pods counts_active pods; rs_Activating := 0;
      rs_Failed := count_pods counts_failed pods; rs_Selector := "" |} ∧
    (∀ rt, rt ≠ rtype → st_ReplicaStatuses st' !! rt = st_ReplicaStatuses st !! rt) ∧
    st' = Status_set_ReplicaStatuses (st_ReplicaStatuses st') st.
Proof.
  intros Hlen. eexists. split; [apply count_replicas_spec|]. simpl. split_and!; [|..|done].
  - rewrite lookup_insert_eq. unfold counted_status.
    pose proof (count_pods_bound counts_active pods).
    pose proof (count_pods_bound counts_failed pods).
    by rewrite !int32_id by (unfold in_int32; lia).
  - intros rt Hrt. by rewrite lookup_insert_ne.
Qed.

(** Abnormal pods: a pod that reports container statuses is judged by them
    alone; otherwise by its init container statuses; otherwise by one of its
    latest conditions, whichever order the sort leaves equal times in: an event
    is recorded exactly when that condition is not True. *)
Theorem RecordAbnormalPods_spec `{S : GoSort} {SL : GoSortLaws S} (pod : Pod) :
  let st := pod_Status pod in
  (pst_ContainerStatuses st ≠ [] →
     RecordAbnormalPod pod = pst_ContainerStatuses st ≫= recordContainerStatus pod) ∧
  (pst_ContainerStatuses st = [] → pst_InitContainerStatuses st ≠ [] →
     RecordAbnormalPod pod = pst_InitContainerStatuses st ≫= recordContainerStatus pod) ∧
  (pst_ContainerStatuses st = [] → pst_InitContainerStatuses st = [] → pst_Conditions st ≠ [] →
     ∃ c, c ∈ pst_Conditions st ∧
       (∀ d, d ∈ pst_Conditions st → pc_LastTransitionTime d ≤ pc_LastTransitionTime c) ∧
       RecordAbnormalPod pod =
         if decide (pc_Status c = ConditionTrue) then [] else [condition_event pod c]) ∧
  (pst_ContainerStatuses st = [] → pst_InitContainerStatuses st = [] → pst_Conditions st = [] →
     RecordAbnormalPod pod = []).
Proof.
  unfold RecordAbnormalPod. cbv zeta. split_and!.
  - intros Hne. by destruct (pst_ContainerStatuses (pod_Status pod)).
  - intros -> Hne. by destruct (pst_InitContainerStatuses (pod_Status pod)).
  - intros -> -> Hne. destruct (sort_Slice _ _) as [|c rest] eqn:E.
    + pose proof (sort_Slice_perm cond_after (pst_Conditions (pod_Status pod))) as Hp.
      rewrite E in Hp. by apply Permutation_nil_l in Hp.
    + destruct (sorted_head_latest _ _ _ E). by exists c.
  - intros -> -> ->. pose proof (sort_Slice_perm cond_after []) as Hp.
    apply Permutation_nil_r in Hp. by rewrite Hp.
Qed.
End properties.

Section witnesses.
Import Sample.

Definition sample_pod (name rt : string) (index : Z) (restarts : Z) : Pod := {|
  pod_Meta := om_set_Labels
    (SetReplicaIndex (SetReplicaType ∅ rt) index) (om_set_Name name meta);
  pod_Spec := podSpec;
  pod_Status := {| pst_Phase := PodRunning; pst_Conditions := [];
    pst_InitContainerStatuses := [];
    pst_ContainerStatuses := [{| cs_Name := "kubenode"; cs_Waiting := None;
      cs_Terminated := None; cs_RestartCount := restarts |}] |} |}.

Definition sample_pods : list Pod :=
  [sample_pod "c1-worker-1" "worker" 1 2; sample_pod "c1-controller-0" "controller" 0 0;
   sample_pod "c1-worker-0" "worker" 0 1].

Lemma GetPodSlices_partition_witness :
  ∃ slices, GetPodSlices sample_pods 2 = Ok slices ∧ length slices = 2%nat ∧
    slices !! 1%nat = Some [sample_pod "c1-worker-1" "worker" 1 2].
Proof.
  destruct (GetPodSlices_partition sample_pods 2) as (ss & H1 & H2 & H3 & _).
  - intros p Hp. unfold sample_pods in Hp.
    repeat (apply elem_of_cons in Hp as [->|Hp];
      [intros i Hi; vm_compute in Hi; inversion Hi; lia|]).
    by apply elem_of_nil in Hp.
  - change (Z.max (max_index sample_pods + 1) 2) with 2 in H2.
    assert (length ss = 2%nat) as Hl by lia.
    exists ss. split; [exact H1|]. split; [exact Hl|]. apply H3. rewrite Hl.
    split; [lia|]. by_vm.
Defined.

Lemma GetSlices_negative_panics_witness :
  GetPodSlices [sample_pod "c1-worker--1" "worker" (-1) 0] 2 = Panic.
Proof.
  apply (GetSlices_negative_panics [sample_pod "c1-worker--1" "worker" (-1) 0] [] 2 (-1)
           ltac:(lia)) with (p := sample_pod "c1-worker--1" "worker" (-1) 0).
  - left.
  - by_vm.
Defined.

Definition deadline_policy (secs : Z) : RunPolicy := {|
  rp_CleanKubeNodePolicy := None; rp_TTLSecondsAfterFinished := None;
  rp_ActiveDeadlineSeconds := Some secs; rp_BackoffLimit := Some 3;
  rp_SchedulingPolicy := None; rp_Suspend := None |}.

Lemma PastActiveDeadline_spec_witness :
  PastActiveDeadline (60 * Second) (deadline_policy 60) (Status_set_StartTime (Some 0) status) = true.
Proof.
  destruct (PastActiveDeadline_spec (60 * Second) 0 60 (deadline_policy 60)
              (Status_set_StartTime (Some 0) status)) as [H _]; [reflexivity..|].
  apply H; [lia|]. unfold Second. lia.
Defined.

Lemma PastBackoffLimit_spec_witness :
  PastBackoffLimit (deadline_policy 60) (map_to_list (sp_ClusterReplicaSpec (kc_Spec cluster)))
    sample_pods FilterPodsForReplicaType = Ok true.
Proof.
  rewrite (PastBackoffLimit_spec _ (sp_ClusterReplicaSpec (kc_Spec cluster))
             (deadline_policy 60) sample_pods 3); [|reflexivity|reflexivity|].
  - by_vm.
  - apply map_Forall_insert_2; [by eexists|]. apply map_Forall_insert_2; [by eexists|].
    apply map_Forall_empty.
Defined.

Lemma replica_statuses_count_witness :
  ∃ st', count_replicas status "Worker" sample_pods = Ok st' ∧
    st_ReplicaStatuses st' !! "Worker" = Some {|
      rs_Active := count_pods counts_active sample_pods; rs_Activating := 0;
      rs_Failed := count_pods counts_failed sample_pods; rs_Selector := "" |}.
Proof.
  destruct (replica_statuses_count status "Worker" sample_pods) as (st' & H1 & H2 & _).
  - vm_compute. discriminate.
  - exists st'. exact (conj H1 H2).
Defined.

Lemma RecordAbnormalPods_spec_witness :
  RecordAbnormalPod (H := insertion_sort) (sample_pod "c1-worker-0" "worker" 0 1) = [].
Proof.
  destruct (RecordAbnormalPods_spec (S := insertion_sort) (SL := insertion_sort_laws)
              (sample_pod "c1-worker-0" "worker" 0 1)) as [H _].
  rewrite H by discriminate. reflexivity.
Defined.
End witnesses.
