(* ===== verification/Quota.v ===== *)
(** * Resource lists

    pkg/util/quota/resources.go, with the evaluator and registry of
    pkg/util/quota/interfaces.go as parameters, and the minimal resources of a
    pod group, pkg/controller/ctrlcommon/util.go.

    A resource list is a map to quantities, and two lists are the same when they
    are equivalent maps: the same names, and amounts [Cmp] finds equal. *)

From S2P Require Import Prelude K8s Api.

Section quota.
Context `{K : K8s} `{R : GoRange} `{GS : GoSort}.
Implicit Types (a b : ResourceList) (names : list string).

Definition Equals (a b : ResourceList) : bool :=
  if negb (bool_decide (size a = size b)) then false
  else forallb (λ kv, match b !! kv.1 with
                      | None => false
                      | Some value2 => bool_decide (q_Cmp kv.2 value2 = 0)
                      end) (range 0 a).

Definition LessThanOrEqual (a b : ResourceList) : bool * list string :=
  foldl (λ acc kv,
    match a !! kv.1 with
    | Some other =>
        if decide (q_Cmp other kv.2 > 0) then (false, (acc.2 ++ [kv.1])%list) else acc
    | None => acc
    end) (true, []) (range 0 b).

Definition Max (a b : ResourceList) : ResourceList :=
  let result : ResourceList :=
    foldl (λ (result : ResourceList) kv,
      <[kv.1 := match b !! kv.1 with
                | Some other => if decide (q_Cmp kv.2 other ≤ 0) then other else kv.2
                | None => kv.2
                end]> result) ∅ (range 0 a) in
  foldl (λ result kv, match result !! kv.1 with
                      | Some _ => result
                      | None => <[kv.1 := kv.2]> result
                      end) result (range 1 b).

Definition Add (a b : ResourceList) : ResourceList :=
  let result : ResourceList :=
    foldl (λ (result : ResourceList) kv,
      let quantity := match b !! kv.1 with
                      | Some other => q_Add kv.2 other
                      | None => kv.2
                      end in
      <[kv.1 := quantity]> result) ∅ (range 0 a) in
  foldl (λ result kv, match result !! kv.1 with
                      | Some _ => result
                      | None => <[kv.1 := kv.2]> result
                      end) result (range 1 b).

Definition SubtractWithNonNegativeResult (a b : ResourceList) : ResourceList :=
  let zero := q_zero in
  let result : ResourceList :=
    foldl (λ (result : ResourceList) kv,
      let quantity := match b !! kv.1 with
                      | Some other => q_Sub kv.2 other
                      | None => kv.2
                      end in
      <[kv.1 := if decide (q_Cmp quantity zero > 0) then quantity else zero]> result)
      ∅ (range 0 a) in
  foldl (λ result kv, match result !! kv.1 with
                      | Some _ => result
                      | None => <[kv.1 := zero]> result
                      end) result (range 1 b).

Definition Subtract (a b : ResourceList) : ResourceList :=
  let result : ResourceList :=
    foldl (λ (result : ResourceList) kv,
      let quantity := match b !! kv.1 with
                      | Some other => q_Sub kv.2 other
                      | None => kv.2
                      end in
      <[kv.1 := quantity]> result) ∅ (range 0 a) in
  foldl (λ result kv, match result !! kv.1 with
                      | Some _ => result
                      | None => <[kv.1 := q_Neg kv.2]> result
                      end) result (range 1 b).

Definition ToSet (resourceNames : list string) : gset string :=
  foldl (λ result resourceName, result ∪ {[resourceName]}) ∅ resourceNames.

Definition Mask (resources : ResourceList) (names : list string) : ResourceList :=
  let nameSet := ToSet names in
  foldl (λ (result : ResourceList) kv,
    if decide (kv.1 ∈ nameSet) then <[kv.1 := kv.2]> result else result)
    ∅ (range 0 resources).

Definition ResourceNames (resources : ResourceList) : list string :=
  foldl (λ result kv, result ++ [kv.1])%list [] (range 0 resources).

Fixpoint Contains (items : list string) (item : string) : bool :=
  match items with
  | [] => false
  | i :: items => if decide (i = item) then true else Contains items item
  end.

Fixpoint ContainsPrefix (prefixSet : list string) (item : string) : bool :=
  match prefixSet with
  | [] => false
  | p :: prefixSet => if String.prefix p item then true else ContainsPrefix prefixSet item
  end.

(** Go orders strings by their bytes. *)
Definition string_less (s t : string) : bool :=
  match String.compare s t with Lt => true | _ => false end.

Definition Intersection (a b : list string) : list string :=
  let result :=
    foldl (λ result item,
      if Contains result item then result
      else if negb (Contains b item) then result
      else (result ++ [item])%list) [] a in
  sort_Slice string_less result.

Definition Difference (a b : list string) : list string :=
  let result :=
    foldl (λ result item,
      if Contains b item || Contains result item then result
      else (result ++ [item])%list) [] a in
  sort_Slice string_less result.

Definition IsZero (a : ResourceList) : bool :=
  forallb (λ kv, bool_decide (q_Cmp kv.2 q_zero = 0)) (range 0 a).

Definition IsNegative (a : ResourceList) : list string :=
  foldl (λ results kv,
    if decide (q_Cmp kv.2 q_zero < 0) then (results ++ [kv.1])%list else results)
    [] (range 0 a).

(** [UsageStatsOptions]; scopes are strings, and the selector, which the code
    only passes on, is kept as its text. *)
Record UsageStatsOptions := {
  uo_Namespace : string;
  uo_Scopes : list string;
  uo_Resources : list string;
  uo_ScopeSelector : option string
}.

(** The two methods of an [Evaluator] that the calculation calls. *)
Record Evaluator := {
  MatchingResources : list string → list string;
  UsageStats : UsageStatsOptions → error + ResourceList
}.

(** One round of the second loop over the evaluators, on the matched
    resources, the usage and the errors so far. *)
Definition usage_step (namespaceName : string) (scopes : list string)
    (scopeSelector : option string) (acc : list string * ResourceList * list error)
    (evaluator : Evaluator) : list string * ResourceList * list error :=
  let '(matchedResources, newUsage, errors) := acc in
  let intersection := MatchingResources evaluator matchedResources in
  if decide (length intersection = 0%nat) then acc
  else
    let usageStatsOptions := {|
      uo_Namespace := namespaceName; uo_Scopes := scopes; uo_Resources := intersection;
      uo_ScopeSelector := scopeSelector |} in
    match UsageStats evaluator usageStatsOptions with
    | inl err => (Difference matchedResources intersection, newUsage, (errors ++ [err])%list)
    | inr used => (matchedResources, Add newUsage used, errors)
    end.

(** The error is the aggregate of the collected ones, nil when there is none. *)
Definition CalculateUsage (namespaceName : string) (scopes : list string)
    (hardLimits : ResourceList) (evaluators : list Evaluator) (scopeSelector : option string) :
    ResourceList * list error :=
  let hardResources := ResourceNames hardLimits in
  let potentialResources :=
    foldl (λ potential e, potential ++ MatchingResources e hardResources)%list [] evaluators in
  let matchedResources := Intersection hardResources potentialResources in
  let '(matchedResources, newUsage, errors) :=
    foldl (usage_step namespaceName scopes scopeSelector) (matchedResources, ∅, []) evaluators in
  (Mask newUsage matchedResources, errors).
End quota.

(** ** ctrlcommon/util.go *)

Section pod_group.
Context `{K : K8s} `{R : GoRange} `{GS : GoSort}.

(** The loop body of both loops of [AddResourceList]. *)
Definition add_quantity (list : ResourceList) (kv : string * Quantity) : ResourceList :=
  match list !! kv.1 with
  | None => <[kv.1 := kv.2]> list
  | Some value => <[kv.1 := q_Add value kv.2]> list
  end.

(** [None] is the nil list: ranging over it does nothing. *)
Definition AddResourceList (list : ResourceList) (req limit : option ResourceList) : ResourceList :=
  let list := foldl add_quantity list (range 0 (default ∅ req)) in
  match req with
  | Some _ => list
  | None => foldl add_quantity list (range 1 (default ∅ limit))
  end.

Record ReplicaPriority := { rp_priority : Z; rp_ReplicaSpec : ReplicaSpec }.

(** [ReplicasPriority.Less] *)
Definition priority_less (p q : ReplicaPriority) : bool :=
  bool_decide (rp_priority p > rp_priority q).

(** The containers of one pod. *)
Definition add_pod (res : ResourceList) (task : ReplicaSpec) : ResourceList :=
  foldl (λ res c, AddResourceList res (c_Requests c) (c_Limits c)) res
    (ps_Containers (pt_Spec (r_Template task))).

(** The loop over the replicas of a task, from [i] on, in [fuel] rounds. *)
Fixpoint task_loop (fuel : nat) (minMember i replicas : Z) (task : ReplicaSpec)
    (podCnt : Z) (res : ResourceList) : Z * ResourceList :=
  match fuel with
  | O => (podCnt, res)
  | S fuel =>
      if decide (i < replicas) then
        if decide (minMember ≤ podCnt) then (podCnt, res)
        else task_loop fuel minMember (int32 (i + 1)) replicas task
               (int32 (podCnt + 1)) (add_pod res task)
      else (podCnt, res)
  end.

Definition add_task (minMember : Z) (acc : Z * ResourceList) (task : ReplicaSpec) :
    Z * ResourceList :=
  match r_Replicas task with
  | None => acc
  | Some replicas => task_loop (Z.to_nat replicas) minMember 0 replicas task acc.1 acc.2
  end.

(** [pcGetFunc] gives the value of a priority class, [None] when it returns an
    error or nil. *)
Definition replicasPriority (replicas : gmap string (option ReplicaSpec))
    (pcGetFunc : string → option Z) : res (list ReplicaPriority) :=
  result_foldl (λ acc kv,
    let! replica := deref kv.2 in
    let pc := ps_PriorityClassName (pt_Spec (r_Template replica)) in
    let priority := default 0 (pcGetFunc pc) in
    Ok (acc ++ [{| rp_priority := priority; rp_ReplicaSpec := replica |}])%list)
    [] (range 0 replicas).

Definition CalcPGMinResources (minMember : Z) (replicas : gmap string (option ReplicaSpec))
    (pcGetFunc : string → option Z) : res ResourceList :=
  let! replicasPriority := replicasPriority replicas pcGetFunc in
  let sorted := sort_Slice priority_less replicasPriority in
  Ok (foldl (add_task minMember) (0, ∅) (rp_ReplicaSpec <$> sorted)).2.
End pod_group.

(** ** Lemmas *)

Section quota_lemmas.
Context `{K : K8s} {KL : K8sLaws K} `{R : GoRange} {RL : GoRangeLaws R}.
Context `{GS : GoSort} {GSL : GoSortLaws GS}.
Implicit Types (a b : ResourceList).

Lemma lookup_Add a b k :
  Add a b !! k = union_with (λ x y, Some (q_Add x y)) (a !! k) (b !! k).
Proof.
  etransitivity; [exact (range_fill 1 (λ v, v) b _ k)|].
  rewrite (range_write 0 (λ k v, match b !! k with Some o => q_Add v o | None => v end)).
  rewrite lookup_empty. by destruct (a !! k), (b !! k).
Qed.

Lemma lookup_Subtract a b k :
  Subtract a b !! k =
    match a !! k, b !! k with
    | Some x, Some y => Some (q_Sub x y)
    | Some x, None => Some x
    | None, y => q_Neg <$> y
    end.
Proof.
  etransitivity; [exact (range_fill 1 q_Neg b _ k)|].
  rewrite (range_write 0 (λ k v, match b !! k with Some o => q_Sub v o | None => v end)).
  rewrite lookup_empty. by destruct (a !! k), (b !! k).
Qed.

(** The amount [SubtractWithNonNegativeResult] keeps. *)
Definition clip (q : Quantity) : Quantity := if decide (q_Cmp q q_zero > 0) then q else q_zero.

Lemma lookup_SubtractNN a b k :
  SubtractWithNonNegativeResult a b !! k =
    match a !! k, b !! k with
    | Some x, Some y => Some (clip (q_Sub x y))
    | Some x, None => Some (clip x)
    | None, Some _ => Some q_zero
    | None, None => None
    end.
Proof.
  etransitivity; [exact (range_fill 1 (λ _, q_zero) b _ k)|].
  pose proof (range_write 0 (λ k v, clip (match b !! k with Some o => q_Sub v o | None => v end)) a ∅ k)
    as Hw. unfold clip in Hw. cbv zeta. rewrite Hw, lookup_empty. by destruct (a !! k), (b !! k).
Qed.

Lemma lookup_Max a b k :
  Max a b !! k =
    union_with (λ x y, Some (if decide (q_Cmp x y ≤ 0) then y else x)) (a !! k) (b !! k).
Proof.
  etransitivity; [exact (range_fill 1 (λ v, v) b _ k)|].
  pose proof (range_write 0 (λ k v, match b !! k with
    | Some o => if decide (q_Cmp v o ≤ 0) then o else v | None => v end) a ∅ k) as Hw.
  match goal with |- context [foldl ?f ∅ (range 0 a)] => set (w := foldl f ∅ (range 0 a)) end.
  change (w !! k = match a !! k with Some v => Some (match b !! k with
    | Some o => if decide (q_Cmp v o ≤ 0) then o else v | None => v end) | None => None end) in Hw.
  clearbody w. rewrite Hw. destruct (a !! k), (b !! k); done.
Qed.

Lemma elem_of_ToSet names x : x ∈ ToSet names ↔ x ∈ names.
Proof.
  unfold ToSet. assert (∀ s : gset string,
    x ∈ foldl (λ r n, r ∪ {[n]}) s names ↔ x ∈ s ∨ x ∈ names) as Hgo; [|rewrite Hgo; set_solver].
  induction names as [|n names IH]; intros s; simpl; [set_solver|]. rewrite IH. set_solver.
Qed.

Lemma foldl_mask_lookup (s : gset string) (l : list (string * Quantity)) (r : ResourceList) k :
  NoDup l.*1 →
  foldl (λ (r : ResourceList) kv, if decide (kv.1 ∈ s) then <[kv.1 := kv.2]> r else r) r l !! k =
    match list_to_map (M := ResourceList) l !! k with
    | Some v => if decide (k ∈ s) then Some v else r !! k
    | None => r !! k
    end.
Proof.
  revert r. induction l as [|[k' v] l IH]; intros r Hnd; simpl.
  { by rewrite lookup_empty. }
  apply NoDup_cons in Hnd as [Hk' Hnd]. rewrite IH by done. simpl.
  destruct (decide (k' = k)) as [->|Hne].
  - rewrite lookup_insert_eq, not_elem_of_list_to_map_1 by done.
    case_decide; [by rewrite lookup_insert_eq|done].
  - rewrite lookup_insert_ne by done. destruct (decide (k' ∈ s)); [|done].
    by rewrite lookup_insert_ne.
Qed.

Lemma lookup_Mask a names k :
  Mask a names !! k = if decide (k ∈ names) then a !! k else None.
Proof.
  unfold Mask. rewrite foldl_mask_lookup by apply NoDup_range.
  rewrite list_to_map_range, lookup_empty.
  pose proof (elem_of_ToSet names k). destruct (a !! k); repeat case_decide; tauto || done.
Qed.

Lemma Contains_elem items x : Contains items x = true ↔ x ∈ items.
Proof.
  induction items as [|i items IH]; simpl; [set_solver|].
  case_decide; [set_solver|]. rewrite IH. set_solver.
Qed.

Lemma foldl_collect (P : string → bool) (l : list string) :
  ∀ r, NoDup r →
  let r' := foldl (λ r x, if P x || Contains r x then r else (r ++ [x])%list) r l in
  NoDup r' ∧ ∀ x, x ∈ r' ↔ x ∈ r ∨ (x ∈ l ∧ P x = false).
Proof.
  induction l as [|y l IH]; intros r Hr; simpl.
  { split; [done|]. intros x. rewrite elem_of_nil. tauto. }
  destruct (P y || Contains r y) eqn:E.
  - destruct (IH r Hr) as [H1 H2]. split; [done|]. intros x. rewrite H2, elem_of_cons.
    split; [tauto|]. intros [?|[[->|?] ?]]; [by left| |by right].
    apply orb_true_iff in E as [E|E%Contains_elem]; [congruence|by left].
  - apply orb_false_iff in E as [E1 E2]. destruct (IH (r ++ [y])%list) as [H1 H2].
    { apply NoDup_app. split_and!; [done| |apply NoDup_singleton].
      intros x Hx ->%list_elem_of_singleton. apply Contains_elem in Hx. congruence. }
    split; [done|]. intros x. rewrite H2, elem_of_app, list_elem_of_singleton, elem_of_cons.
    naive_solver.
Qed.

Lemma elem_of_Difference (a b : list string) x : x ∈ Difference a b ↔ x ∈ a ∧ x ∉ b.
Proof.
  unfold Difference. rewrite sort_Slice_perm.
  destruct (foldl_collect (Contains b) a []) as [_ ->]; [constructor|].
  rewrite <-not_true_iff_false, Contains_elem, elem_of_nil. tauto.
Qed.

Lemma elem_of_Intersection (a b : list string) x : x ∈ Intersection a b ↔ x ∈ a ∧ x ∈ b.
Proof.
  unfold Intersection. rewrite sort_Slice_perm.
  assert (∀ r, foldl (λ result item, if Contains result item then result
      else if negb (Contains b item) then result else (result ++ [item])%list) r a
    = foldl (λ r x, if negb (Contains b x) || Contains r x then r else (r ++ [x])%list) r a) as ->.
  { generalize a. intros l. induction l as [|y l IH]; intros r; simpl; [done|].
    rewrite IH. f_equal. by destruct (Contains r y), (Contains b y). }
  destruct (foldl_collect (λ x, negb (Contains b x)) a []) as [_ ->]; [constructor|].
  rewrite negb_false_iff, Contains_elem, elem_of_nil. tauto.
Qed.

Lemma elem_of_ResourceNames a x : x ∈ ResourceNames a ↔ is_Some (a !! x).
Proof.
  unfold ResourceNames.
  assert (∀ l r, x ∈ foldl (λ r (kv : string * Quantity), r ++ [kv.1])%list r l ↔ x ∈ r ∨ x ∈ l.*1) as ->.
  { induction l as [|[k v] l IH]; intros r; simpl; [set_solver|]. rewrite IH. set_solver. }
  rewrite range_perm, list_elem_of_fmap. split.
  - intros [Hx|([k v] & -> & Hkv%elem_of_map_to_list)]; [by apply elem_of_nil in Hx|by eexists].
  - intros [v Hv]. right. exists (x, v). by rewrite elem_of_map_to_list.
Qed.

Lemma foldl_add_quantity (l : list (string * Quantity)) (m : ResourceList) k :
  NoDup l.*1 →
  foldl add_quantity m l !! k =
    union_with (λ x y, Some (q_Add x y)) (m !! k) (list_to_map (M := ResourceList) l !! k).
Proof.
  revert m. induction l as [|[k' v] l IH]; intros m Hnd; simpl.
  { rewrite lookup_empty. by destruct (m !! k). }
  apply NoDup_cons in Hnd as [Hk' Hnd]. rewrite IH by done. unfold add_quantity. simpl.
  destruct (decide (k' = k)) as [->|Hne].
  - rewrite lookup_insert_eq, not_elem_of_list_to_map_1 by done.
    destruct (m !! k); by rewrite lookup_insert_eq.
  - rewrite lookup_insert_ne by done. by destruct (m !! k'); rewrite lookup_insert_ne.
Qed.

(** What a container asks for: its requests, or its limits when the requests
    are omitted. *)
Definition container_needs (req limit : option ResourceList) : ResourceList :=
  match req with Some r => r | None => default ∅ limit end.

(** [AddResourceList] adds in place what [Add] adds. *)
Lemma AddResourceList_Add m req limit :
  AddResourceList m req limit = Add m (container_needs req limit).
Proof.
  apply map_eq. intros k. rewrite lookup_Add. unfold AddResourceList, container_needs.
  assert (∀ n m' (r : ResourceList), foldl add_quantity m' (range n r) !! k =
    union_with (λ x y, Some (q_Add x y)) (m' !! k) (r !! k)) as Hf.
  { intros. by rewrite foldl_add_quantity, list_to_map_range by apply NoDup_range. }
  destruct req as [r|]; simpl; rewrite !Hf; [done|].
  rewrite lookup_empty. by destruct (m !! k), (default ∅ limit !! k).
Qed.

(** The loop with a break is a bounded repetition. *)
Lemma task_loop_spec fuel minMember i replicas task podCnt m :
  0 ≤ i → 0 ≤ podCnt → in_int32 minMember → in_int32 replicas →
  fuel = Z.to_nat (replicas - i) →
  let n := Nat.min fuel (Z.to_nat (minMember - podCnt)) in
  task_loop fuel minMember i replicas task podCnt m =
    (podCnt + Z.of_nat n, foldl add_pod m (replicate n task)).
Proof.
  revert i podCnt m. induction fuel as [|fuel IH]; intros i podCnt m Hi Hp Hm Hr Hf n; simpl.
  { subst n. simpl. f_equal. lia. }
  rewrite decide_True by lia. case_decide as Hge.
  { assert (n = 0%nat) as -> by lia. simpl. f_equal. lia. }
  unfold in_int32 in Hm, Hr. rewrite !int32_id by (unfold in_int32; lia). rewrite IH by (done || lia).
  assert (n = S (Nat.min fuel (Z.to_nat (minMember - (podCnt + 1))))) as -> by lia.
  simpl. f_equal. lia.
Qed.

(** The pods of a list of tasks, most urgent task first. *)
Definition task_pods (tasks : list ReplicaSpec) : list ReplicaSpec :=
  tasks ≫= λ t, replicate (Z.to_nat (default 0 (r_Replicas t))) t.

Lemma task_pods_cons t tasks :
  task_pods (t :: tasks) =
    (replicate (Z.to_nat (default 0 (r_Replicas t))) t ++ task_pods tasks)%list.
Proof. done. Qed.

Definition replicas_in_range (t : ReplicaSpec) : Prop :=
  ∀ n, r_Replicas t = Some n → in_int32 n.

Lemma add_task_spec minMember tasks (c : nat) m :
  in_int32 minMember → Forall replicas_in_range tasks →
  (Z.of_nat c ≤ Z.max 0 minMember) →
  let taken := take (Z.to_nat minMember - c) (task_pods tasks) in
  foldl (add_task minMember) (Z.of_nat c, m) tasks =
    (Z.of_nat c + Z.of_nat (length taken), foldl add_pod m taken).
Proof.
  intros Hm Ht. revert c m. induction Ht as [|t tasks Ht _ IH]; intros c m Hc taken.
  { subst taken. simpl. rewrite take_nil. simpl. f_equal. lia. }
  simpl. unfold add_task at 2. subst taken. rewrite task_pods_cons, take_app, length_replicate.
  destruct (r_Replicas t) as [n|] eqn:Hn; simpl.
  - rewrite take_replicate. set (k := Nat.min _ (Z.to_nat n)).
    rewrite task_loop_spec; [|lia|lia|done|by apply Ht|lia].
    replace (Nat.min (Z.to_nat n) (Z.to_nat (minMember - Z.of_nat c))) with k by lia.
    rewrite <-Nat2Z.inj_add, IH by lia.
    rewrite length_app, length_replicate, foldl_app.
    replace (Z.to_nat minMember - (c + k))%nat with (Z.to_nat minMember - c - Z.to_nat n)%nat
      by lia.
    f_equal. lia.
  - rewrite take_nil, Nat.sub_0_r. simpl. by apply IH.
Qed.
End quota_lemmas.

(** ** Properties *)

Section quota_properties.
Context `{K : K8s} {KL : K8sLaws K} `{R : GoRange} {RL : GoRangeLaws R}.
Context `{GS : GoSort} {GSL : GoSortLaws GS}.
Implicit Types (a b : ResourceList).

(** Resource list equality. [Equals] decides the equivalence of resource
    lists: the same names with amounts that compare equal, whatever order the
    entries are visited in. *)
Theorem quota_Equals_iff (a b : ResourceList) : Equals a b = true ↔ a ≡ b.
Proof.
  unfold Equals. case_bool_decide as Hsz; simpl.
  - rewrite forallb_forall. split.
    + intros Hall. assert (∀ k v, a !! k = Some v → ∃ w, b !! k = Some w ∧ v ≡ w) as Hab.
      { intros k v Hv. specialize (Hall (k, v)). rewrite <-list_elem_of_In, elem_of_range in Hall.
        specialize (Hall Hv). simpl in Hall. destruct (b !! k) as [w|]; [|done].
        exists w. split; [done|]. by apply bool_decide_eq_true in Hall. }
      assert (dom a = dom b) as Hdom.
      { apply set_subseteq_size_eq; [|by rewrite !size_dom, Hsz].
        intros k [v Hv]%elem_of_dom. destruct (Hab k v Hv) as (w & Hw & _).
        by apply elem_of_dom_2 in Hw. }
      intros k. destruct (a !! k) as [v|] eqn:Hv.
      * destruct (Hab k v Hv) as (w & -> & Hvw). by constructor.
      * apply not_elem_of_dom in Hv. rewrite Hdom in Hv. apply not_elem_of_dom in Hv.
        by rewrite Hv.
    + intros Heq [k v] Hkv. rewrite <-list_elem_of_In, elem_of_range in Hkv. simpl.
      specialize (Heq k). rewrite Hkv in Heq. inversion Heq as [? w Hvw Ha Hb|]; subst.
      by apply bool_decide_eq_true.
  - split; [done|]. intros Heq. destruct Hsz. rewrite <-!size_dom. f_equal.
    apply set_eq. intros k. rewrite !elem_of_dom. specialize (Heq k).
    by destruct Heq; split; intros []; eexists.
Qed.

(** Resource arithmetic: adding resource lists is commutative, associative
    and has the empty list as its unit, up to equivalence; subtracting what was
    added gives back the amount of every name the list has; and a subtraction clipped at zero has the names of both lists and
    no negative amount. *)
Theorem quota_Add_Subtract (a b c : ResourceList) :
  Add a b ≡ Add b a ∧
  Add a (Add b c) ≡ Add (Add a b) c ∧
  Add a ∅ ≡ a ∧
  (∀ k, is_Some (a !! k) → Subtract (Add a b) b !! k ≡ a !! k) ∧
  (∀ k q, SubtractWithNonNegativeResult a b !! k = Some q → 0 ≤ q_Cmp q q_zero) ∧
  (∀ k, is_Some (SubtractWithNonNegativeResult a b !! k) ↔ is_Some (a !! k) ∨ is_Some (b !! k)).
Proof.
  split_and!.
  - intros k. rewrite !lookup_Add. destruct (a !! k), (b !! k); simpl; try done.
    constructor. apply q_Add_comm.
  - intros k. rewrite !lookup_Add. destruct (a !! k), (b !! k), (c !! k); simpl; try done.
    constructor. apply q_Add_assoc.
  - intros k. rewrite lookup_Add, lookup_empty. by destruct (a !! k).
  - intros k [x Hx]. rewrite lookup_Subtract, lookup_Add, Hx. destruct (b !! k); simpl; [|done].
    constructor. apply q_Sub_Add.
  - intros k q. rewrite lookup_SubtractNN. assert (∀ x, 0 ≤ q_Cmp (clip x) q_zero) as Hc.
    { intros x. unfold clip. case_decide; [lia|]. by rewrite q_Cmp_refl. }
    destruct (a !! k), (b !! k); intros; simplify_eq; auto. by rewrite q_Cmp_refl.
  - intros k. rewrite lookup_SubtractNN. destruct (a !! k), (b !! k); simpl;
      rewrite ?is_Some_alt; tauto.
Qed.

(** The matched resources only shrink, and errors are only appended. *)
Lemma usage_steps_shrink ns sc sel es acc :
  let acc' := foldl (usage_step ns sc sel) acc es in
  (∀ x, x ∈ acc'.1.1 → x ∈ acc.1.1) ∧ (∀ e, e ∈ acc.2 → e ∈ acc'.2).
Proof.
  revert acc. induction es as [|e es IH]; intros acc; simpl; [done|].
  destruct (IH (usage_step ns sc sel acc e)) as [H1 H2].
  enough ((∀ x, x ∈ (usage_step ns sc sel acc e).1.1 → x ∈ acc.1.1) ∧
          (∀ x, x ∈ acc.2 → x ∈ (usage_step ns sc sel acc e).2)) by naive_solver.
  destruct acc as [[m u] er]. unfold usage_step. case_decide; [done|].
  destruct (UsageStats _ _); simpl; [|done]. split; [|set_solver].
  intros x [? _]%elem_of_Difference. done.
Qed.

Lemma elem_of_potential (es : list Evaluator) (hard : list string) x :
  x ∈ foldl (λ p e, p ++ MatchingResources e hard)%list [] es ↔
  ∃ e, e ∈ es ∧ x ∈ MatchingResources e hard.
Proof.
  assert (∀ r, x ∈ foldl (λ p e, p ++ MatchingResources e hard)%list r es ↔
    x ∈ r ∨ ∃ e, e ∈ es ∧ x ∈ MatchingResources e hard) as Hgo; [|rewrite Hgo, elem_of_nil; tauto].
  induction es as [|e es IH]; intros r; simpl.
  - split; [by left|]. intros [?|(? & Hin & _)]; [done|by apply elem_of_nil in Hin].
  - rewrite IH, elem_of_app. setoid_rewrite elem_of_cons. naive_solver.
Qed.

(** Quota usage: the calculated usage only names hard-limited resources that
    some evaluator matches; and when an evaluator fails, its error is reported
    and none of the resources it was asked for appears in the usage, whatever
    the evaluators before and after it do. *)
Theorem CalculateUsage_spec (ns : string) (sc : list string) (sel : option string)
    (hard : ResourceList) (pre post : list Evaluator) (e : Evaluator) (err : error) :
  let potential := foldl (λ p e, p ++ MatchingResources e (ResourceNames hard))%list []
                     (pre ++ e :: post)%list in
  let before := foldl (usage_step ns sc sel)
                  (Intersection (ResourceNames hard) potential, ∅, []) pre in
  let asked := MatchingResources e before.1.1 in
  let usage := (CalculateUsage ns sc hard (pre ++ e :: post)%list sel).1 in
  let errors := (CalculateUsage ns sc hard (pre ++ e :: post)%list sel).2 in
  (∀ x, is_Some (usage !! x) → is_Some (hard !! x) ∧
     ∃ e', e' ∈ (pre ++ e :: post)%list ∧ x ∈ MatchingResources e' (ResourceNames hard)) ∧
  (asked ≠ [] →
   UsageStats e {| uo_Namespace := ns; uo_Scopes := sc; uo_Resources := asked;
                   uo_ScopeSelector := sel |} = inl err →
   err ∈ errors ∧ ∀ x, x ∈ asked → usage !! x = None).
Proof.
  intros potential before asked. cbv zeta. unfold CalculateUsage. fold potential.
  rewrite foldl_app. fold before. simpl.
  destruct (foldl (usage_step ns sc sel) (usage_step ns sc sel before e) post)
    as [[matched usage] errors] eqn:Hf.
  destruct (usage_steps_shrink ns sc sel post (usage_step ns sc sel before e)) as [Hs1 Hs2].
  rewrite Hf in Hs1, Hs2. simpl in *. split.
  - intros x. rewrite lookup_Mask. case_decide as Hx; [|by intros []]. intros _.
    apply Hs1 in Hx.
    assert (x ∈ before.1.1) as Hb by
      (revert Hx; apply (usage_steps_shrink ns sc sel [e] before)).
    apply (usage_steps_shrink ns sc sel pre) in Hb. simpl in Hb.
    apply elem_of_Intersection in Hb as [Hh Hp]. split; [by apply elem_of_ResourceNames|].
    by apply elem_of_potential.
  - intros Hne Herr. assert (usage_step ns sc sel before e =
      (Difference before.1.1 asked, before.1.2, (before.2 ++ [err])%list)) as Hstep.
    { destruct before as [[m u] er] eqn:Eb. unfold usage_step. simpl in *. fold asked.
      rewrite decide_False, Herr; [done|]. by intros ?%length_zero_iff_nil. }
    rewrite Hstep in Hs1, Hs2. simpl in *. split; [apply Hs2; set_solver|].
    intros x Hx. rewrite lookup_Mask. case_decide as Hm; [|done].
    apply Hs1, elem_of_Difference in Hm as [_ ?]. done.
Qed.

(** What a pod asks for, in total. *)
Definition pod_needs (m : ResourceList) (t : ReplicaSpec) : ResourceList :=
  foldl (λ m c, Add m (container_needs (c_Requests c) (c_Limits c))) m
    (ps_Containers (pt_Spec (r_Template t))).

Lemma add_pod_needs m t : add_pod m t = pod_needs m t.
Proof.
  unfold add_pod, pod_needs. revert m.
  induction (ps_Containers (pt_Spec (r_Template t))) as [|c cs IH]; intros m; simpl; [done|].
  by rewrite AddResourceList_Add, IH.
Qed.

Lemma priority_less_strict_weak : strict_weak priority_less.
Proof.
  split; unfold priority_less; intros *; rewrite ?bool_decide_eq_true, ?bool_decide_eq_false; lia.
Qed.

Definition prioritised (pcGetFunc : string → option Z) (t : ReplicaSpec) : ReplicaPriority :=
  {| rp_priority := default 0 (pcGetFunc (ps_PriorityClassName (pt_Spec (r_Template t))));
     rp_ReplicaSpec := t |}.

Lemma replicasPriority_spec replicas pcGetFunc :
  map_Forall (λ _ o, is_Some o) replicas →
  ∃ tasks, Some <$> tasks = (range 0 replicas).*2 ∧
    replicasPriority replicas pcGetFunc = Ok (prioritised pcGetFunc <$> tasks).
Proof.
  intros Hs. unfold replicasPriority.
  destruct (result_foldl_ind (E := error)
    (λ acc kv, let! replica := deref kv.2 in
      Ok (acc ++ [prioritised pcGetFunc replica])%list)
    (λ dn acc, ∃ tasks, Some <$> tasks = dn.*2 ∧ acc = prioritised pcGetFunc <$> tasks)
    [] (range 0 replicas)) as (acc & Hrun & tasks & Ht & ->).
  - by exists [].
  - intros dn [rt o] acc (tasks & Ht & ->) Hin. apply elem_of_range in Hin.
    destruct (Hs rt o Hin) as [t ->]. simpl. eexists. split; [done|].
    exists (tasks ++ [t])%list. by rewrite !fmap_app, Ht.
  - by exists tasks.
Qed.

(** C40 (minimal resources of a pod group). With every replica spec set, the
    minimal resources are the sum of what the first [minMember] pods ask for,
    the pods taken replica type by replica type in a descending order of
    priority: the nested loops with their break neither miss nor repeat a
    pod. *)
Theorem CalcPGMinResources_spec (minMember : Z) (replicas : gmap string (option ReplicaSpec))
    (pcGetFunc : string → option Z) :
  in_int32 minMember →
  map_Forall (λ _ o, ∃ t, o = Some t ∧ replicas_in_range t) replicas →
  ∃ tasks : list ReplicaSpec,
    Some <$> tasks ≡ₚ (map_to_list replicas).*2 ∧
    StronglySorted (λ t u, rp_priority (prioritised pcGetFunc u) ≤ rp_priority (prioritised pcGetFunc t))
      tasks ∧
    CalcPGMinResources minMember replicas pcGetFunc =
      Ok (foldl pod_needs ∅ (take (Z.to_nat minMember) (task_pods tasks))).
Proof.
  intros Hm Hs. destruct (replicasPriority_spec replicas pcGetFunc) as (ts & Hts & Hrun).
  { intros rt o Ho. destruct (Hs rt o Ho) as (t & -> & _). by eexists. }
  set (sorted := sort_Slice priority_less (prioritised pcGetFunc <$> ts)).
  assert (sorted ≡ₚ prioritised pcGetFunc <$> ts) as Hp by apply sort_Slice_perm.
  assert (Forall (λ p, p = prioritised pcGetFunc (rp_ReplicaSpec p)) sorted) as Hpr.
  { rewrite Hp. apply Forall_fmap, Forall_true. done. }
  assert (rp_ReplicaSpec <$> (prioritised pcGetFunc <$> ts) = ts) as Hid.
  { rewrite <-list_fmap_compose. apply list_fmap_id. }
  exists (rp_ReplicaSpec <$> sorted). split_and!.
  - by rewrite Hp, Hid, <-(range_perm 0), <-Hts.
  - pose proof (sort_Slice_sorted _ (prioritised pcGetFunc <$> ts) priority_less_strict_weak) as Hsd.
    fold sorted in Hsd. clear -Hsd Hpr. induction Hsd as [|p l _ IH Hl]; simpl; [constructor|].
    apply Forall_cons in Hpr as [Hpp Hpr]. constructor; [by apply IH|].
    apply Forall_fmap, Forall_forall. intros q Hq. rewrite Forall_forall in Hl, Hpr. cbn [compose].
    change (rp_priority (prioritised pcGetFunc (rp_ReplicaSpec q)) ≤
            rp_priority (prioritised pcGetFunc (rp_ReplicaSpec p))).
    rewrite <-Hpp, <-(Hpr q Hq). specialize (Hl q Hq). unfold priority_less in Hl.
    apply bool_decide_eq_false in Hl. lia.
  - unfold CalcPGMinResources. rewrite Hrun. simpl. fold sorted.
    rewrite (add_task_spec minMember _ 0); [|done| |simpl; lia].
    + simpl. rewrite Nat.sub_0_r. f_equal. generalize (take (Z.to_nat minMember) (task_pods (rp_ReplicaSpec <$> sorted))).
      intros l. generalize (∅ : ResourceList). induction l as [|t l IH]; intros m; simpl; [done|].
      by rewrite add_pod_needs, IH.
    + rewrite Hp, Hid. apply Forall_forall. intros t Ht.
      assert (Some t ∈ (range 0 replicas).*2) as Hin by (rewrite <-Hts; by apply list_elem_of_fmap_2).
      apply list_elem_of_fmap in Hin as ([rt o] & Heq & Hin). simpl in Heq. subst o.
      apply elem_of_range in Hin. by destruct (Hs rt _ Hin) as (? & [= <-] & ?).
Qed.
End quota_properties.

Section quota_witnesses.
Import Sample.
#[local] Existing Instance K8s_example_laws.
#[local] Existing Instance key_range.
#[local] Existing Instance key_range_laws.
#[local] Existing Instance insertion_sort.
#[local] Existing Instance insertion_sort_laws.

Definition cpu_evaluator : Evaluator := {|
  MatchingResources l := filter (λ x, x = "cpu") l;
  UsageStats _ := inl (EText "no stats") |}.
Definition memory_evaluator : Evaluator := {|
  MatchingResources l := filter (λ x, x = "memory") l;
  UsageStats _ := inr {[ "memory" := 4 ]} |}.

Lemma quota_Equals_iff_witness :
  ({[ "cpu" := 8 ]} : ResourceList) ≡ ({[ "cpu" := 8 ]} : ResourceList).
Proof. apply (quota_Equals_iff {[ "cpu" := 8 ]} {[ "cpu" := 8 ]}). by_vm. Defined.

Lemma quota_Add_Subtract_witness :
  Subtract (Add {[ "cpu" := 8 ]} {[ "cpu" := 5; "memory" := 2 ]}) {[ "cpu" := 5; "memory" := 2 ]}
    !! "cpu" ≡ ({[ "cpu" := 8 ]} : ResourceList) !! "cpu".
Proof.
  destruct (quota_Add_Subtract {[ "cpu" := 8 ]} {[ "cpu" := 5; "memory" := 2 ]} ∅)
    as (_ & _ & _ & H & _).
  apply H. exists 8. reflexivity.
Defined.

Lemma CalculateUsage_spec_witness :
  EText "no stats" ∈
    (CalculateUsage "ns" [] {[ "cpu" := 8; "memory" := 16 ]} [memory_evaluator; cpu_evaluator] None).2.
Proof.
  apply (proj2 (CalculateUsage_spec "ns" [] None {[ "cpu" := 8; "memory" := 16 ]}
    [memory_evaluator] [] cpu_evaluator (EText "no stats"))); [vm_compute; discriminate|reflexivity].
Defined.

Lemma CalcPGMinResources_spec_witness :
  ∃ tasks, CalcPGMinResources 2 (sp_ClusterReplicaSpec (kc_Spec cluster)) (λ _, None) =
    Ok (foldl pod_needs ∅ (take 2 (task_pods tasks))).
Proof.
  destruct (CalcPGMinResources_spec 2 (sp_ClusterReplicaSpec (kc_Spec cluster)) (λ _, None))
    as (tasks & _ & _ & H).
  - unfold in_int32. lia.
  - apply map_Forall_insert_2; [|apply map_Forall_insert_2; [|apply map_Forall_empty]];
      eexists; (split; [reflexivity|]); intros n Hn; inversion Hn; unfold in_int32; lia.
  - exists tasks. exact H.
Defined.
End quota_witnesses.
