(* ===== verification/World.v ===== *)
(** * The world a reconciliation runs in

    The controller talks to the Kubernetes API through typed requests. The API
    server is not part of the repository: the class [ApiServer] is any state
    with an answer to every request, so that a theorem about a controller
    function holds for every server, every failure and every interleaving
    with the other clients of the server.

    [World] is what a reconciliation reads and changes: the server, the requests
    made so far, the events recorded, the counters, the expectations of each
    cluster schema, and the KubeCluster that the functions of the reconciler pass
    around by pointer and change in place. [M] is the monad of the functions that
    return an error: the effects of a call persist when it fails or panics. *)

From S2P Require Import Prelude K8s Api Expectations.

(** ** API requests *)

Record PodDisruptionBudget := {
  pdb_Meta : ObjectMeta;
  pdb_MinAvailable : Z;
  pdb_Selector : gmap string string
}.

Inductive ApiReq `{K : K8s} : Type → Type :=
| GetPod (ns name : string) : ApiReq Pod
| CreatePod (ns : string) (p : Pod) : ApiReq Pod
| DeletePodReq (ns name : string) : ApiReq unit
| PatchPodReq (ns name data : string) : ApiReq unit
| ListPods (ns : string) (sel : gmap string string) : ApiReq (list Pod)
| GetService (ns name : string) : ApiReq Service
| CreateService (ns : string) (s : Service) : ApiReq Service
| DeleteServiceReq (ns name : string) : ApiReq unit
| PatchServiceReq (ns name data : string) : ApiReq unit
| ListServices (ns : string) (sel : gmap string string) : ApiReq (list Service)
| GetConfigMap (ns name : string) : ApiReq ConfigMap
| CreateConfigMapReq (ns : string) (c : ConfigMap) : ApiReq ConfigMap
| UpdateConfigMapReq (ns : string) (c : ConfigMap) : ApiReq ConfigMap
| DeleteConfigMapReq (ns name : string) : ApiReq unit
| GetKubeCluster (ns name : string) : ApiReq KubeCluster
| UpdateKubeClusterStatus (k : KubeCluster) : ApiReq KubeCluster
| DeleteKubeCluster (ns name : string) : ApiReq unit
| GetPodGroupReq (ns name : string) : ApiReq PodGroup
| CreatePodGroupReq (ns : string) (g : PodGroup) : ApiReq PodGroup
| UpdatePodGroupReq (ns : string) (g : PodGroup) : ApiReq PodGroup
| DeletePodGroupReq (ns name : string) : ApiReq unit
| GetPdb (ns name : string) : ApiReq PodDisruptionBudget
| CreatePdbReq (ns : string) (p : PodDisruptionBudget) : ApiReq PodDisruptionBudget
| DeletePdbReq (ns name : string) : ApiReq unit.

Inductive call `{K : K8s} : Type :=
| Call {A : Type} (q : ApiReq A).

Class ApiServer `{K : K8s} := {
  srv : Type;
  serve : ∀ {A : Type}, ApiReq A → srv → srv * (ApiError + A)
}.

(** The parts of the Go runtime whose results the language leaves open: map
    orders, the sort among equals, and the clock ([clock n] is its [n]-th reading). *)
Class GoRuntime := {
  rt_range :: GoRange;
  rt_sort :: GoSort;
  clock : nat → Time
}.

Class GoRuntimeLaws (R : GoRuntime) : Prop := {
  rt_range_laws :: GoRangeLaws rt_range;
  rt_sort_laws :: GoSortLaws rt_sort
}.

(** ** The world *)

Section world.
Context {K : K8s} {ES : ExpStore} {AS : ApiServer} {RT : GoRuntime}.

Record World := {
  w_srv : srv;
  w_log : list call;
  w_events : list Event;
  w_metrics : gmap string Z;
  w_exp : gmap string exp_store;
  w_kc : KubeCluster;
  w_tick : nat
}.

Definition w_set_srv (s : srv) (c : call) (w : World) : World := {|
  w_srv := s; w_log := (w_log w ++ [c])%list; w_events := w_events w; w_metrics := w_metrics w;
  w_exp := w_exp w; w_kc := w_kc w; w_tick := w_tick w |}.
Definition w_set_events (e : list Event) (w : World) : World := {|
  w_srv := w_srv w; w_log := w_log w; w_events := e; w_metrics := w_metrics w;
  w_exp := w_exp w; w_kc := w_kc w; w_tick := w_tick w |}.
Definition w_set_metrics (m : gmap string Z) (w : World) : World := {|
  w_srv := w_srv w; w_log := w_log w; w_events := w_events w; w_metrics := m;
  w_exp := w_exp w; w_kc := w_kc w; w_tick := w_tick w |}.
Definition w_set_exp (x : gmap string exp_store) (w : World) : World := {|
  w_srv := w_srv w; w_log := w_log w; w_events := w_events w; w_metrics := w_metrics w;
  w_exp := x; w_kc := w_kc w; w_tick := w_tick w |}.
Definition w_set_kc (k : KubeCluster) (w : World) : World := {|
  w_srv := w_srv w; w_log := w_log w; w_events := w_events w; w_metrics := w_metrics w;
  w_exp := w_exp w; w_kc := k; w_tick := w_tick w |}.
Definition w_next_tick (w : World) : World := {|
  w_srv := w_srv w; w_log := w_log w; w_events := w_events w; w_metrics := w_metrics w;
  w_exp := w_exp w; w_kc := w_kc w; w_tick := S (w_tick w) |}.

(** ** The monad *)

Definition M (A : Type) : Type := World → World * res A.

#[export] Instance M_ret : MRet M := λ A a w, (w, Ok a).
#[export] Instance M_bind : MBind M := λ A B f m w,
  match m w with
  | (w', Ok a) => f a w'
  | (w', Err e) => (w', Err e)
  | (w', Panic) => (w', Panic)
  end.

Definition fail {A} (e : error) : M A := λ w, (w, Err e).
Definition panic {A} : M A := λ w, (w, Panic).

(** A call whose error the caller looks at. *)
Definition try {A} (m : M A) : M (error + A) := λ w,
  match m w with
  | (w', Ok a) => (w', Ok (inr a))
  | (w', Err e) => (w', Ok (inl e))
  | (w', Panic) => (w', Panic)
  end.

(** A call of a function without effects. *)
Definition lift {A} (r : res A) : M A := λ w, (w, r).

(** An API request: it is logged, and its error returned. *)
Definition api {A} (q : ApiReq A) : M A := λ w,
  let '(s, r) := serve q (w_srv w) in
  (w_set_srv s (Call q) w, match r with inr a => Ok a | inl e => Err (EApi e) end).

(** [Recorder.Event] and [Recorder.Eventf] *)
Definition record_event (t : EventType) (reason message : string) : M unit := λ w,
  (w_set_events (w_events w ++ [{| ev_Type := t; ev_Reason := reason; ev_Message := message |}])%list w,
   Ok tt).
Definition record_events (es : list Event) : M unit := λ w,
  (w_set_events (w_events w ++ es)%list w, Ok tt).

(** [Counter.Inc] *)
Definition inc (counter : string) : M unit := λ w,
  (w_set_metrics (<[counter := default 0 (w_metrics w !! counter) + 1]> (w_metrics w)) w, Ok tt).

(** [metav1.Now], [time.Now] *)
Definition now : M Time := λ w, (w_next_tick w, Ok (clock (w_tick w))).

(** The entries of a map in the order one loop visits them. *)
Definition range_of {A} (m : gmap string A) : M (list (string * A)) := λ w,
  (w_next_tick w, Ok (range (w_tick w) m)).

Definition get_kc : M KubeCluster := λ w, (w, Ok (w_kc w)).
Definition set_kc (k : KubeCluster) : M unit := λ w, (w_set_kc k w, Ok tt).

(** A change of [kcluster.Status] through the pointer. *)
Definition modify_status (f : ClusterStatus → ClusterStatus) : M unit := λ w,
  (w_set_kc (KubeCluster_set_Status (f (kc_Status (w_kc w))) (w_kc w)) w, Ok tt).

(** A call on the expectations of a schema. *)
Definition expectations (schema : string) (f : exp_store → res exp_store) : M unit := λ w,
  match f (default NewControllerExpectations (w_exp w !! schema)) with
  | Ok x => (w_set_exp (<[schema := x]> (w_exp w)) w, Ok tt)
  | Err e => (w, Err e)
  | Panic => (w, Panic)
  end.

(** A loop whose body may return an error. *)
Fixpoint for_each {A} (xs : list A) (f : A → M unit) : M unit :=
  match xs with
  | [] => mret tt
  | x :: xs => _ ← f x; for_each xs f
  end.

(** [if !cond { return nil }] and the like *)
Definition when (b : bool) (m : M unit) : M unit := if b then m else mret tt.

Lemma M_assoc {A B C} (m : M A) (g : A → M B) (f : B → M C) w :
  ((m ≫= g) ≫= f) w = (m ≫= λ a, g a ≫= f) w.
Proof. unfold mbind, M_bind. by destruct (m w) as [w1 [a|e|]]. Qed.

(** A bind whose first step is known, and one that is known to end well. *)
Lemma bind_run {A B} (m : M A) (f : A → M B) w w1 a : m w = (w1, Ok a) → (m ≫= f) w = f a w1.
Proof. intros H. unfold mbind, M_bind. by rewrite H. Qed.

Lemma bind_Ok {A B} (m : M A) (f : A → M B) w w' b :
  (m ≫= f) w = (w', Ok b) → ∃ a w1, m w = (w1, Ok a) ∧ f a w1 = (w', Ok b).
Proof.
  unfold mbind, M_bind. destruct (m w) as [w1 [a|e|]] eqn:Hm; [|done..]. eauto.
Qed.

(** ** Reasoning

    [stable R m]: whatever world [m] starts in and however it ends, the world
    after it is related by [R] to the world before it. *)

Definition stable {A} (R : World → World → Prop) (m : M A) : Prop := ∀ w, R w (m w).1.

Section stable.
Context (R : World → World → Prop) `{!PreOrder R}.

Lemma stable_ret {A} (a : A) : stable R (mret a).
Proof. intros w. simpl. reflexivity. Qed.
Lemma stable_fail {A} e : stable R (fail (A := A) e).
Proof. intros w. simpl. reflexivity. Qed.
Lemma stable_panic {A} : stable R (panic (A := A)).
Proof. intros w. simpl. reflexivity. Qed.
Lemma stable_lift {A} (r : res A) : stable R (lift r).
Proof. intros w. simpl. reflexivity. Qed.
Lemma stable_get_kc : stable R get_kc.
Proof. intros w. simpl. reflexivity. Qed.

Lemma stable_bind {A B} (m : M A) (f : A → M B) :
  stable R m → (∀ a, stable R (f a)) → stable R (m ≫= f).
Proof.
  intros Hm Hf w. unfold mbind, M_bind. specialize (Hm w).
  destruct (m w) as [w' [a|e|]]; simpl in *; [|done..].
  etransitivity; [exact Hm|apply Hf].
Qed.

(** The rest of a function, with the result of a call that has a known one. *)
Lemma stable_lift_Ok {A B} (a : A) (f : A → M B) :
  stable R (f a) → stable R (lift (Ok a) ≫= f).
Proof. by intros Hf w. Qed.

(** A pointer is looked through. *)
Lemma stable_deref {A B} (o : option A) (f : A → M B) :
  (∀ a, o = Some a → stable R (f a)) → stable R (lift (deref o) ≫= f).
Proof. intros Hf w. destruct o as [a|]; [by apply (Hf a)|]. unfold mbind, M_bind, lift. simpl. reflexivity. Qed.

Lemma stable_try {A} (m : M A) : stable R m → stable R (try m).
Proof.
  intros Hm w. unfold try. specialize (Hm w). by destruct (m w) as [w' [a|e|]].
Qed.

Lemma stable_when b m : stable R m → stable R (when b m).
Proof. intros Hm. destruct b; [done|apply stable_ret]. Qed.

Lemma stable_for_each {A} (xs : list A) (f : A → M unit) :
  (∀ x, x ∈ xs → stable R (f x)) → stable R (for_each xs f).
Proof.
  induction xs as [|x xs IH]; intros Hf; simpl; [apply stable_ret|].
  apply stable_bind; [apply Hf; left|]. intros _. apply IH. intros. apply Hf. by right.
Qed.
End stable.

(** A step of which only the outcome, and what it leaves, matter. *)
Lemma stable_outcome {A B} (R : World → World → Prop) (m : M A) (f : A → M B) (w : World)
    (Q : World * res B → Prop) :
  stable R m →
  (∀ a w1, R w w1 → m w = (w1, Ok a) → Q (f a w1)) →
  (∀ e w1, R w w1 → Q (w1, Err e)) →
  (∀ w1, R w w1 → Q (w1, Panic)) →
  Q ((m ≫= f) w).
Proof.
  intros Hm Hok Herr Hp. unfold mbind, M_bind. specialize (Hm w).
  destruct (m w) as [w1 [a|e|]]; simpl in Hm; auto.
Qed.

(** *** The requests a function may make *)

(** [w'] is later than [w], and the requests made in between satisfy [P]. *)
Definition emits_rel (P : call → Prop) (w w' : World) : Prop :=
  ∃ l, w_log w' = (w_log w ++ l)%list ∧ Forall P l.

#[export] Instance emits_rel_preorder P : PreOrder (emits_rel P).
Proof.
  split.
  - intros w. exists []. by rewrite app_nil_r.
  - intros w1 w2 w3 (l1 & H1 & HP1) (l2 & H2 & HP2). exists (l1 ++ l2)%list.
    rewrite H2, H1, app_assoc. split; [done|]. by apply Forall_app.
Qed.

Definition emits {A} (P : call → Prop) (m : M A) : Prop := stable (emits_rel P) m.

Lemma emits_quiet {A} P (m : M A) : (∀ w, w_log (m w).1 = w_log w) → emits P m.
Proof. intros Hm w. exists []. by rewrite app_nil_r, Hm. Qed.

Lemma emits_api {A} (P : call → Prop) (q : ApiReq A) : P (Call q) → emits P (api q).
Proof.
  intros HP w. exists [Call q]. unfold api.
  destruct (serve q (w_srv w)) as [s [e|a]]; simpl; (split; [done|by constructor]).
Qed.

Lemma emits_weaken {A} (P Q : call → Prop) (m : M A) :
  emits P m → (∀ c, P c → Q c) → emits Q m.
Proof.
  intros Hm HPQ w. destruct (Hm w) as (l & ? & Hl). exists l. split; [done|].
  by eapply Forall_impl.
Qed.

(** *** The requests of a loop

    [loop_trace T xs ls r]: running the body on the elements of [xs] in turn made
    the requests [ls], one list for each element reached, the last one ended
    with [r], and [T x l r] holds of the requests [l] and the end [r] of every
    run of the body. *)
Inductive loop_trace {A} (T : A → list call → res unit → Prop) :
    list A → list (list call) → res unit → Prop :=
| lt_done : loop_trace T [] [] (Ok tt)
| lt_next x xs l ls r :
    T x l (Ok tt) → loop_trace T xs ls r → loop_trace T (x :: xs) (l :: ls) r
| lt_stop x xs l r : T x l r → r ≠ Ok tt → loop_trace T (x :: xs) [l] r.

Lemma for_each_trace {A} (I : World → Prop) (T : A → list call → res unit → Prop)
    (xs : list A) (f : A → M unit) (w : World) :
  (∀ x w, x ∈ xs → I w → I (f x w).1 ∧
     ∃ l, w_log (f x w).1 = (w_log w ++ l)%list ∧ T x l (f x w).2) →
  I w →
  I (for_each xs f w).1 ∧
  ∃ ls, w_log (for_each xs f w).1 = (w_log w ++ mjoin ls)%list ∧
        loop_trace T xs ls (for_each xs f w).2.
Proof.
  revert w. induction xs as [|x xs IH]; intros w Hf Hw; simpl.
  { split; [done|]. exists []. rewrite app_nil_r. split; [done|constructor]. }
  destruct (Hf x w) as (HI & l & Hl & HT); [left|done|].
  unfold mbind, M_bind. destruct (f x w) as [w1 [[]|e|]]; simpl in *.
  2,3: split; [done|]; exists [l]; split; [rewrite Hl; by list_simplifier|by constructor].
  destruct (IH w1) as (HI' & ls & Hls & HT'); [|done|].
  { intros y w2 Hy. apply Hf. by right. }
  split; [done|]. exists (l :: ls). split; [rewrite Hls, Hl; by list_simplifier|by constructor].
Qed.

(** A loop that ends well has reached every element. *)
Lemma loop_trace_Ok {A} (T : A → list call → res unit → Prop) xs ls :
  loop_trace T xs ls (Ok tt) → Forall2 (λ x l, T x l (Ok tt)) xs ls.
Proof.
  intros H. remember (Ok tt) as r eqn:Hr in H. revert Hr.
  induction H as [|x xs l ls r HT _ IH|x xs l r HT Hne]; intros Heq; [constructor| |done].
  constructor; auto.
Qed.

Lemma emits_record_event P t r m : emits P (record_event t r m).
Proof. by apply emits_quiet. Qed.
Lemma emits_record_events P es : emits P (record_events es).
Proof. by apply emits_quiet. Qed.
Lemma emits_inc P c : emits P (inc c).
Proof. by apply emits_quiet. Qed.
Lemma emits_now P : emits P now.
Proof. by apply emits_quiet. Qed.
Lemma emits_range_of {A} P (m : gmap string A) : emits P (range_of m).
Proof. by apply emits_quiet. Qed.
Lemma emits_set_kc P k : emits P (set_kc k).
Proof. by apply emits_quiet. Qed.
Lemma emits_modify_status P f : emits P (modify_status f).
Proof. by apply emits_quiet. Qed.
Lemma emits_expectations P s f : emits P (expectations s f).
Proof.
  apply emits_quiet. intros w. unfold expectations.
  by destruct (f _).
Qed.
End world.

Arguments World {K ES AS}.
Arguments M {K ES AS} A.

(** The lemmas that follow the structure of a function, for any relation and for
    [emits]. *)
Create HintDb emits discriminated.
#[export] Hint Resolve emits_record_event emits_record_events emits_inc emits_now emits_range_of
  emits_set_kc emits_modify_status emits_expectations : emits.

Ltac stable_step :=
  match goal with
  | |- emits ?P ?m => first [solve [auto with emits nocore] | change (stable (emits_rel P) m)]
  | |- stable (emits_rel ?P) ?m => progress (change (emits P m)); solve [auto with emits nocore]
  | |- stable ?R (mret _) => apply (stable_ret R)
  | |- stable ?R (fail _) => apply (stable_fail R)
  | |- stable ?R panic => apply (stable_panic R)
  | |- stable ?R (lift _) => apply (stable_lift R)
  | |- stable ?R get_kc => apply (stable_get_kc R)
  | |- stable ?R (_ ≫= _) => apply (stable_bind R); [|intros ?]
  | |- stable ?R (try _) => apply (stable_try R)
  | |- stable ?R (when _ _) => apply (stable_when R)
  | |- stable ?R (for_each _ _) => apply (stable_for_each R); intros ? ?
  | |- stable _ (match ?x with _ => _ end) => destruct x eqn:?
  | |- stable _ (if ?b then _ else _) => destruct b eqn:?
  | |- stable _ (let '(_, _) := ?p in _) => destruct p eqn:?
  end.

Ltac emits_auto := repeat stable_step; try (apply emits_api); try done.

(** *** Steps that only read the clock and maps *)

Section ticks.
Context {K : K8s} {ES : ExpStore} {AS : ApiServer} {RT : GoRuntime}.

Definition ticks_rel (w w' : World) : Prop :=
  ∃ n, w' = Nat.iter n w_next_tick w.

#[export] Instance ticks_rel_preorder : PreOrder ticks_rel.
Proof.
  split; [by exists 0%nat|]. intros w1 w2 w3 [n ->] [m ->]. exists (m + n)%nat.
  by rewrite Nat.iter_add.
Qed.

Lemma ticks_next w : ticks_rel w (w_next_tick w).
Proof. by exists 1%nat. Qed.

Lemma ticks_now : stable ticks_rel now.
Proof. intros w. apply ticks_next. Qed.
Lemma ticks_range_of {A} (m : gmap string A) : stable ticks_rel (range_of m).
Proof. intros w. apply ticks_next. Qed.

Lemma ticks_same w w' : ticks_rel w w' →
  w_srv w' = w_srv w ∧ w_log w' = w_log w ∧ w_events w' = w_events w ∧
  w_metrics w' = w_metrics w ∧ w_exp w' = w_exp w ∧ w_kc w' = w_kc w.
Proof. intros [n ->]. induction n as [|n IH]; simpl; [done|]. exact IH. Qed.
End ticks.

Create HintDb ticks discriminated.
#[export] Hint Resolve ticks_now ticks_range_of : ticks.
Ltac ticks_auto := repeat (first [solve [auto with ticks nocore] | stable_step]).

(** ** An API server in memory

    Objects by namespace and name; creating an object that exists, and reading or
    deleting one that does not, fails the way a server does. Deleting removes the
    object at once; writing a status changes nothing but the status. The witnesses of the development run against it. *)
Module MemServer.
Import Sample.
#[export] Existing Instance gmap_ExpStore.

Record state := {
  m_pods : gmap string Pod;
  m_services : gmap string Service;
  m_configmaps : gmap string ConfigMap;
  m_clusters : gmap string KubeCluster;
  m_podgroups : gmap string PodGroup;
  m_pdbs : gmap string PodDisruptionBudget
}.

Definition key (ns name : string) : string := ns +:+ "/" +:+ name.

Definition not_found : ApiError := {| se_Reason := "NotFound"; se_Message := "not found" |}.
Definition already_exists : ApiError :=
  {| se_Reason := "AlreadyExists"; se_Message := "already exists" |}.

Definition get {A} (k : string) (m : gmap string A) : ApiError + A :=
  match m !! k with Some a => inr a | None => inl not_found end.

Definition set_pods (x : gmap string Pod) (s : state) : state := {|
  m_pods := x; m_services := m_services s; m_configmaps := m_configmaps s;
  m_clusters := m_clusters s; m_podgroups := m_podgroups s; m_pdbs := m_pdbs s |}.
Definition set_services (x : gmap string Service) (s : state) : state := {|
  m_pods := m_pods s; m_services := x; m_configmaps := m_configmaps s;
  m_clusters := m_clusters s; m_podgroups := m_podgroups s; m_pdbs := m_pdbs s |}.
Definition set_configmaps (x : gmap string ConfigMap) (s : state) : state := {|
  m_pods := m_pods s; m_services := m_services s; m_configmaps := x;
  m_clusters := m_clusters s; m_podgroups := m_podgroups s; m_pdbs := m_pdbs s |}.
Definition set_clusters (x : gmap string KubeCluster) (s : state) : state := {|
  m_pods := m_pods s; m_services := m_services s; m_configmaps := m_configmaps s;
  m_clusters := x; m_podgroups := m_podgroups s; m_pdbs := m_pdbs s |}.
Definition set_podgroups (x : gmap string PodGroup) (s : state) : state := {|
  m_pods := m_pods s; m_services := m_services s; m_configmaps := m_configmaps s;
  m_clusters := m_clusters s; m_podgroups := x; m_pdbs := m_pdbs s |}.
Definition set_pdbs (x : gmap string PodDisruptionBudget) (s : state) : state := {|
  m_pods := m_pods s; m_services := m_services s; m_configmaps := m_configmaps s;
  m_clusters := m_clusters s; m_podgroups := m_podgroups s; m_pdbs := x |}.

(** Creating, replacing and deleting an entry. *)
Definition create {A} (k : string) (a : A) (m : gmap string A) (put : gmap string A → state)
    (s : state) : state * (ApiError + A) :=
  match m !! k with
  | Some _ => (s, inl already_exists)
  | None => (put (<[k := a]> m), inr a)
  end.
Definition update {A} (k : string) (a : A) (m : gmap string A) (put : gmap string A → state)
    (s : state) : state * (ApiError + A) :=
  match m !! k with
  | Some _ => (put (<[k := a]> m), inr a)
  | None => (s, inl not_found)
  end.
Definition remove {A} (k : string) (m : gmap string A) (put : gmap string A → state)
    (s : state) : state * (ApiError + unit) :=
  match m !! k with
  | Some _ => (put (delete k m), inr tt)
  | None => (s, inl not_found)
  end.

Definition in_namespace (ns name : string) (meta : ObjectMeta) : ObjectMeta := {|
  om_Name := name; om_Namespace := ns; om_UID := om_UID meta;
  om_ResourceVersion := om_ResourceVersion meta; om_Labels := om_Labels meta;
  om_Annotations := om_Annotations meta; om_Finalizers := om_Finalizers meta;
  om_OwnerReferences := om_OwnerReferences meta;
  om_CreationTimestamp := om_CreationTimestamp meta;
  om_DeletionTimestamp := om_DeletionTimestamp meta |}.

Definition select {A} `{HasMeta A} (ns : string) (sel : gmap string string) (m : gmap string A) :
    list A :=
  filter (λ a, om_Namespace (meta_of a) = ns ∧ sel ⊆ om_Labels (meta_of a)) (map_to_list m).*2.

Definition pod_in (ns : string) (p : Pod) : Pod := {|
  pod_Meta := in_namespace ns (om_Name (pod_Meta p)) (pod_Meta p);
  pod_Spec := pod_Spec p; pod_Status := pod_Status p |}.
Definition service_in (ns : string) (v : Service) : Service := {|
  svc_Meta := in_namespace ns (om_Name (svc_Meta v)) (svc_Meta v);
  svc_ClusterIP := svc_ClusterIP v; svc_Selector := svc_Selector v; svc_Ports := svc_Ports v |}.
Definition configmap_in (ns : string) (c : ConfigMap) : ConfigMap := {|
  cm_Meta := in_namespace ns (om_Name (cm_Meta c)) (cm_Meta c);
  cm_Data := cm_Data c; cm_BinaryData := cm_BinaryData c |}.

Definition pg_name (g : PodGroup) : string :=
  match g with VolcanoPodGroup m _ _ | SchedulerPluginsPodGroup m _ => om_Name m end.

Definition serve_mem {A} (q : ApiReq A) (s : state) : state * (ApiError + A) :=
  match q in ApiReq T return state * (ApiError + T) with
  | GetPod ns n => (s, get (key ns n) (m_pods s))
  | CreatePod ns p =>
      create (key ns (om_Name (pod_Meta p))) (pod_in ns p) (m_pods s) (λ m, set_pods m s) s
  | DeletePodReq ns n => remove (key ns n) (m_pods s) (λ m, set_pods m s) s
  | PatchPodReq ns n _ =>
      (s, match m_pods s !! key ns n with Some _ => inr tt | None => inl not_found end)
  | ListPods ns sel => (s, inr (select ns sel (m_pods s)))
  | GetService ns n => (s, get (key ns n) (m_services s))
  | CreateService ns v =>
      create (key ns (om_Name (svc_Meta v))) (service_in ns v) (m_services s)
        (λ m, set_services m s) s
  | DeleteServiceReq ns n => remove (key ns n) (m_services s) (λ m, set_services m s) s
  | PatchServiceReq ns n _ =>
      (s, match m_services s !! key ns n with Some _ => inr tt | None => inl not_found end)
  | ListServices ns sel => (s, inr (select ns sel (m_services s)))
  | GetConfigMap ns n => (s, get (key ns n) (m_configmaps s))
  | CreateConfigMapReq ns c =>
      create (key ns (om_Name (cm_Meta c))) (configmap_in ns c) (m_configmaps s)
        (λ m, set_configmaps m s) s
  | UpdateConfigMapReq ns c =>
      update (key ns (om_Name (cm_Meta c))) (configmap_in ns c) (m_configmaps s)
        (λ m, set_configmaps m s) s
  | DeleteConfigMapReq ns n => remove (key ns n) (m_configmaps s) (λ m, set_configmaps m s) s
  | GetKubeCluster ns n => (s, get (key ns n) (m_clusters s))
  | UpdateKubeClusterStatus k =>
      let at_k := key (om_Namespace (kc_Meta k)) (om_Name (kc_Meta k)) in
      update at_k (KubeCluster_set_Status (kc_Status k) (default k (m_clusters s !! at_k)))
        (m_clusters s) (λ m, set_clusters m s) s
  | DeleteKubeCluster ns n => remove (key ns n) (m_clusters s) (λ m, set_clusters m s) s
  | GetPodGroupReq ns n => (s, get (key ns n) (m_podgroups s))
  | CreatePodGroupReq ns g =>
      create (key ns (pg_name g)) g (m_podgroups s) (λ m, set_podgroups m s) s
  | UpdatePodGroupReq ns g =>
      update (key ns (pg_name g)) g (m_podgroups s) (λ m, set_podgroups m s) s
  | DeletePodGroupReq ns n => remove (key ns n) (m_podgroups s) (λ m, set_podgroups m s) s
  | GetPdb ns n => (s, get (key ns n) (m_pdbs s))
  | CreatePdbReq ns p =>
      create (key ns (om_Name (pdb_Meta p))) p (m_pdbs s) (λ m, set_pdbs m s) s
  | DeletePdbReq ns n => remove (key ns n) (m_pdbs s) (λ m, set_pdbs m s) s
  end.

#[export] Instance server : ApiServer := {| srv := state; serve := @serve_mem |}.

#[export] Instance runtime : GoRuntime := {|
  rt_range := key_range; rt_sort := insertion_sort; clock n := Z.of_nat n * 1000000000 |}.

Lemma runtime_laws : GoRuntimeLaws runtime.
Proof. split; [exact key_range_laws|exact insertion_sort_laws]. Qed.

(** The world of the sample cluster, with these pods. *)
Definition world (pods : gmap string Pod) : World := {|
  w_srv := {| m_pods := pods; m_services := ∅; m_configmaps := ∅;
              m_clusters := {[ "default/c1" := cluster ]}; m_podgroups := ∅; m_pdbs := ∅ |};
  w_log := []; w_events := []; w_metrics := ∅; w_exp := ∅; w_kc := cluster; w_tick := 0 |}.
End MemServer.
