(* ===== verification/Control.v ===== *)
(** * Controls: creating and deleting the dependents of a cluster

    pkg/controller/control/{pod,service,configmap,podgroup}_control.go and utils.go.

    Each control interface is a record of operations; [RealPodControl] and its
    siblings are the implementations that talk to the API server, and the classes
    [PodControlSpec], [ServiceControlSpec] and [ConfigMapControlSpec] state which
    requests an implementation may make, for the clients to rely on. The object
    that the events are about is the same in every call and is left out. *)

From S2P Require Import Prelude K8s Api Expectations World.

(** ** utils.go *)

Definition ValidateControllerRef `{K : K8s} (controllerRef : option OwnerReference) : res unit :=
  match controllerRef with
  | None => Err (EText "controllerRef is nil")
  | Some ref =>
      if decide (or_APIVersion ref = "") then Err (EText "controllerRef has empty APIVersion")
      else if decide (or_Kind ref = "") then Err (EText "controllerRef has empty Kind")
      else if negb (default false (or_Controller ref)) then
        Err (EText "controllerRef.Controller is not set to true")
      else if negb (default false (or_BlockOwnerDeletion ref)) then
        Err (EText "controllerRef.BlockOwnerDeletion is not set")
      else Ok tt
  end.

(** [append(refs, *controllerRef)] when the pointer is not nil *)
Definition append_ref (refs : list OwnerReference) (controllerRef : option OwnerReference) :
    list OwnerReference :=
  match controllerRef with Some r => (refs ++ [r])%list | None => refs end.

Section controls.
Context {K : K8s} {ES : ExpStore} {AS : ApiServer} {RT : GoRuntime}.

Definition GetServiceFromTemplate (template : Service) (controllerRef : option OwnerReference) :
    Service := {|
  svc_Meta := om_set_OwnerReferences
    (append_ref (om_OwnerReferences (svc_Meta template)) controllerRef) (svc_Meta template);
  svc_ClusterIP := svc_ClusterIP template;
  svc_Selector := svc_Selector template;
  svc_Ports := svc_Ports template |}.

(** ** pod_control.go *)

Definition FailedCreatePodReason : string := "FailedCreatePod".
Definition SuccessfulCreatePodReason : string := "SuccessfulCreatePod".
Definition FailedDeletePodReason : string := "FailedDeletePod".
Definition SuccessfulDeletePodReason : string := "SuccessfulDeletePod".

Record PodControlInterface := {
  CreatePods : string → PodTemplateSpec → M unit;
  CreatePodsOnNode : string → string → PodTemplateSpec → option OwnerReference → M unit;
  CreatePodsWithControllerRef : string → PodTemplateSpec → option OwnerReference → M unit;
  DeletePod : string → string → M unit;
  PatchPod : string → string → string → M unit
}.

(** Copying a map entry by entry into a new one gives the map. *)
Definition getPodsLabelSet (template : PodTemplateSpec) : gmap string string :=
  foldl (λ desired kv, <[kv.1 := kv.2]> desired) ∅ (range 0 (om_Labels (pt_Meta template))).
Definition getPodsFinalizers (template : PodTemplateSpec) : list string :=
  om_Finalizers (pt_Meta template).
Definition getPodsAnnotationSet (template : PodTemplateSpec) : gmap string string :=
  foldl (λ desired kv, <[kv.1 := kv.2]> desired) ∅ (range 0 (om_Annotations (pt_Meta template))).

Definition GetPodFromTemplate (template : PodTemplateSpec) (controllerRef : option OwnerReference) :
    Pod := {|
  pod_Meta := {|
    om_Name := om_Name (pt_Meta template); om_Namespace := ""; om_UID := "";
    om_ResourceVersion := "";
    om_Labels := getPodsLabelSet template;
    om_Annotations := getPodsAnnotationSet template;
    om_Finalizers := getPodsFinalizers template;
    om_OwnerReferences := append_ref [] controllerRef;
    om_CreationTimestamp := 0; om_DeletionTimestamp := None |};
  pod_Spec := pt_Spec template;
  pod_Status := PodStatus_zero |}.

Definition createPods (nodeName namespace : string) (template : PodTemplateSpec)
    (controllerRef : option OwnerReference) : M unit :=
  let pod := GetPodFromTemplate template controllerRef in
  let pod :=
    if decide (nodeName = "") then pod
    else {| pod_Meta := pod_Meta pod;
            pod_Spec := PodSpec_set_NodeName nodeName (pod_Spec pod);
            pod_Status := pod_Status pod |} in
  if decide (om_Labels (pod_Meta pod) = ∅) then fail (EText "unable to create pods, no labels")
  else
    r ← try (api (CreatePod namespace pod));
    match r with
    | inl err =>
        _ ← record_event EventWarning FailedCreatePodReason ("Error creating: " +:+ err_string err);
        fail err
    | inr newPod =>
        record_event EventNormal SuccessfulCreatePodReason
          ("Created pod: " +:+ om_Name (pod_Meta newPod))
    end.

Definition RealPodControl_CreatePodsWithControllerRef (namespace : string)
    (template : PodTemplateSpec) (controllerRef : option OwnerReference) : M unit :=
  _ ← lift (ValidateControllerRef controllerRef);
  createPods "" namespace template controllerRef.

Definition RealPodControl_CreatePodsOnNode (nodeName namespace : string)
    (template : PodTemplateSpec) (controllerRef : option OwnerReference) : M unit :=
  _ ← lift (ValidateControllerRef controllerRef);
  createPods nodeName namespace template controllerRef.

Definition RealPodControl_DeletePod (namespace podID : string) : M unit :=
  r ← try (api (GetPod namespace podID));
  match r with
  | inl err => if IsNotFound err then mret tt else fail err
  | inr pod =>
      if om_DeletionTimestamp (pod_Meta pod) is Some _ then mret tt
      else
        r ← try (api (DeletePodReq namespace podID));
        match r with
        | inl err =>
            _ ← record_event EventWarning FailedDeletePodReason
                  ("Error deleting: " +:+ err_string err);
            fail (EText ("unable to delete pods: " +:+ err_string err))
        | inr _ => record_event EventNormal SuccessfulDeletePodReason ("Deleted pod: " +:+ podID)
        end
  end.

Definition RealPodControl : PodControlInterface := {|
  CreatePods namespace template := createPods "" namespace template None;
  CreatePodsOnNode := RealPodControl_CreatePodsOnNode;
  CreatePodsWithControllerRef := RealPodControl_CreatePodsWithControllerRef;
  DeletePod := RealPodControl_DeletePod;
  PatchPod namespace name data := api (PatchPodReq namespace name data) |}.

(** ** service_control.go *)

Definition FailedCreateServiceReason : string := "FailedCreateService".
Definition SuccessfulCreateServiceReason : string := "SuccessfulCreateService".
Definition FailedDeleteServiceReason : string := "FailedDeleteService".
Definition SuccessfulDeleteServiceReason : string := "SuccessfulDeleteService".

Record ServiceControlInterface := {
  CreateServices : string → Service → M unit;
  CreateServicesWithControllerRef : string → Service → option OwnerReference → M unit;
  PatchService : string → string → string → M unit;
  DeleteService : string → string → M unit
}.

Definition createServices (namespace : string) (service : Service)
    (controllerRef : option OwnerReference) : M unit :=
  if decide (om_Labels (svc_Meta service) = ∅) then
    fail (EText "unable to create Services, no labels")
  else
    let serviceWithOwner := GetServiceFromTemplate service controllerRef in
    r ← try (api (CreateService namespace serviceWithOwner));
    match r with
    | inl err =>
        _ ← record_event EventWarning FailedCreateServiceReason
              ("Error creating: " +:+ err_string err);
        fail (EText ("unable to create services: " +:+ err_string err))
    | inr newService =>
        record_event EventNormal SuccessfulCreateServiceReason
          ("Created service: " +:+ om_Name (svc_Meta newService))
    end.

Definition RealServiceControl_CreateServicesWithControllerRef (namespace : string)
    (service : Service) (controllerRef : option OwnerReference) : M unit :=
  _ ← lift (ValidateControllerRef controllerRef);
  createServices namespace service controllerRef.

Definition RealServiceControl_DeleteService (namespace serviceID : string) : M unit :=
  r ← try (api (GetService namespace serviceID));
  match r with
  | inl err => if IsNotFound err then mret tt else fail err
  | inr service =>
      if om_DeletionTimestamp (svc_Meta service) is Some _ then mret tt
      else
        r ← try (api (DeleteServiceReq namespace serviceID));
        match r with
        | inl err =>
            _ ← record_event EventWarning FailedDeleteServiceReason
                  ("Error deleting: " +:+ err_string err);
            fail (EText ("unable to delete service: " +:+ err_string err))
        | inr _ =>
            record_event EventNormal SuccessfulDeleteServiceReason ("Deleted service: " +:+ serviceID)
        end
  end.

Definition RealServiceControl : ServiceControlInterface := {|
  CreateServices namespace service := createServices namespace service None;
  CreateServicesWithControllerRef := RealServiceControl_CreateServicesWithControllerRef;
  PatchService namespace name data := api (PatchServiceReq namespace name data);
  DeleteService := RealServiceControl_DeleteService |}.

(** ** configmap_control.go

    [CreateConfigMap] and [UpdateConfigMap] write the object the server
    returned through the pointer they are given: the model returns it. *)

Record ConfigMapControlInterface := {
  CreateConfigMap : string → ConfigMap → M ConfigMap;
  CreateConfigMapWithControllerRef : string → ConfigMap → option OwnerReference → M ConfigMap;
  UpdateConfigMap : string → ConfigMap → M ConfigMap;
  DeleteConfigMap : string → string → M unit
}.

Definition GetConfigMapFromTemplate (template : ConfigMap) (controllerRef : option OwnerReference) :
    ConfigMap := {|
  cm_Meta := om_set_OwnerReferences
    (append_ref (om_OwnerReferences (cm_Meta template)) controllerRef) (cm_Meta template);
  cm_Data := cm_Data template;
  cm_BinaryData := ∅ |}.

Definition createConfigMap (namespace : string) (template : ConfigMap)
    (controllerRef : option OwnerReference) : M ConfigMap :=
  let cm := GetConfigMapFromTemplate template controllerRef in
  r ← try (api (CreateConfigMapReq namespace cm));
  match r with
  | inl err =>
      _ ← record_event EventWarning FailedCreatePodReason ("Error creating: " +:+ err_string err);
      fail err
  | inr newConfigMap =>
      _ ← record_event EventNormal SuccessfulCreatePodReason
            ("Created pod: " +:+ om_Name (cm_Meta newConfigMap));
      mret newConfigMap
  end.

Definition RealConfigMapControl_CreateConfigMapWithControllerRef (namespace : string)
    (configmap : ConfigMap) (controllerRef : option OwnerReference) : M ConfigMap :=
  _ ← lift (ValidateControllerRef controllerRef);
  createConfigMap namespace configmap controllerRef.

Definition RealConfigMapControl_DeleteConfigMap (namespace configMapID : string) : M unit :=
  r ← try (api (GetConfigMap namespace configMapID));
  match r with
  | inl err => if IsNotFound err then mret tt else fail err
  | inr cm =>
      if om_DeletionTimestamp (cm_Meta cm) is Some _ then mret tt
      else
        r ← try (api (DeleteConfigMapReq namespace configMapID));
        match r with
        | inl err =>
            _ ← record_event EventWarning FailedDeletePodReason
                  ("Error deleting: " +:+ err_string err);
            fail (EText ("unable to delete pods: " +:+ err_string err))
        | inr _ =>
            record_event EventNormal SuccessfulDeletePodReason ("Deleted configMap: " +:+ configMapID)
        end
  end.

Definition RealConfigMapControl : ConfigMapControlInterface := {|
  CreateConfigMap namespace configmap := createConfigMap namespace configmap None;
  CreateConfigMapWithControllerRef := RealConfigMapControl_CreateConfigMapWithControllerRef;
  UpdateConfigMap namespace configmap := api (UpdateConfigMapReq namespace configmap);
  DeleteConfigMap := RealConfigMapControl_DeleteConfigMap |}.

(** ** podgroup_control.go *)

(** [klog.KObj] *)
Definition KObj (m : ObjectMeta) : string :=
  if decide (om_Namespace m = "") then om_Name m else om_Namespace m +:+ "/" +:+ om_Name m.

Definition pg_meta (g : PodGroup) : ObjectMeta :=
  match g with VolcanoPodGroup m _ _ | SchedulerPluginsPodGroup m _ => m end.

Definition pg_set_meta (m : ObjectMeta) (g : PodGroup) : PodGroup :=
  match g with
  | VolcanoPodGroup _ s p => VolcanoPodGroup m s p
  | SchedulerPluginsPodGroup _ s => SchedulerPluginsPodGroup m s
  end.

(** A nil [metav1.Object] is [None]. *)
Record PodGroupControlInterface := {
  NewEmptyPodGroup : PodGroup;
  GetPodGroup : string → string → M PodGroup;
  DeletePodGroup : string → string → M unit;
  UpdatePodGroup : PodGroup → M unit;
  CreatePodGroup : PodGroup → M unit;
  DelayPodCreationDueToPodGroup : option PodGroup → res bool;
  DecoratePodTemplateSpec : PodTemplateSpec → ObjectMeta → string → PodTemplateSpec;
  GetSchedulerName : string
}.

Definition KubeGroupNameAnnotationKey : string := "scheduling.k8s.io/group-name".
Definition TaskSpecKey : string := "volcano.sh/task-spec".
Definition PodGroupLabel : string := "scheduling.x-k8s.io/pod-group".

(** A template without a scheduler gets this one. *)
Definition default_scheduler (name : string) (pts : PodTemplateSpec) : PodTemplateSpec :=
  if decide (ps_SchedulerName (pt_Spec pts) = "")
  then PodTemplateSpec_map_Spec (PodSpec_set_SchedulerName name) pts else pts.

Definition Volcano_DecoratePodTemplateSpec (pts : PodTemplateSpec) (cluster : ObjectMeta)
    (rtype : string) : PodTemplateSpec :=
  let pts := default_scheduler "volcano" pts in
  PodTemplateSpec_map_Meta (λ m, om_set_Annotations
    (<[TaskSpecKey := rtype]> (<[KubeGroupNameAnnotationKey := om_Name cluster]> (om_Annotations m)))
    m) pts.

(** The type assertion panics on the other kind of pod group. *)
Definition Volcano_DelayPodCreation (pg : option PodGroup) : res bool :=
  match pg with
  | None => Ok true
  | Some (VolcanoPodGroup _ _ phase) =>
      Ok (bool_decide (phase = "") || bool_decide (phase = "Pending"))
  | Some (SchedulerPluginsPodGroup _ _) => Panic
  end.

Definition Volcano_UpdatePodGroup (podGroup : PodGroup) : M unit :=
  match podGroup with
  | SchedulerPluginsPodGroup _ _ => panic
  | VolcanoPodGroup m _ _ =>
      r ← try (api (UpdatePodGroupReq (om_Namespace m) podGroup));
      match r with
      | inl err => fail (EText ("unable to update a PodGroup, '" +:+ KObj m +:+ "': " +:+ err_string err))
      | inr _ => mret tt
      end
  end.

Definition Volcano_CreatePodGroup (podGroup : PodGroup) : M unit :=
  match podGroup with
  | SchedulerPluginsPodGroup _ _ => panic
  | VolcanoPodGroup m _ _ =>
      r ← try (api (CreatePodGroupReq (om_Namespace m) podGroup));
      match r with
      | inl err => fail (EText ("unable to create PodGroup: " +:+ err_string err))
      | inr _ => mret tt
      end
  end.

Definition VolcanoControl : PodGroupControlInterface := {|
  NewEmptyPodGroup := VolcanoPodGroup ObjectMeta_zero
    {| vpg_MinMember := 0; vpg_Queue := ""; vpg_PriorityClassName := ""; vpg_MinResources := ∅ |} "";
  GetPodGroup namespace name := api (GetPodGroupReq namespace name);
  DeletePodGroup namespace name := api (DeletePodGroupReq namespace name);
  UpdatePodGroup := Volcano_UpdatePodGroup;
  CreatePodGroup := Volcano_CreatePodGroup;
  DelayPodCreationDueToPodGroup := Volcano_DelayPodCreation;
  DecoratePodTemplateSpec := Volcano_DecoratePodTemplateSpec;
  GetSchedulerName := "volcano" |}.

Definition SchedulerPlugins_DecoratePodTemplateSpec (schedulerName : string)
    (pts : PodTemplateSpec) (cluster : ObjectMeta) (_ : string) : PodTemplateSpec :=
  let pts := default_scheduler schedulerName pts in
  PodTemplateSpec_map_Meta (λ m, om_set_Labels
    (<[PodGroupLabel := om_Name cluster]> (om_Labels m)) m) pts.

Definition SchedulerPlugins_UpdatePodGroup (podGroup : PodGroup) : M unit :=
  match podGroup with
  | VolcanoPodGroup _ _ _ => panic
  | SchedulerPluginsPodGroup m _ =>
      r ← try (api (UpdatePodGroupReq (om_Namespace m) podGroup));
      match r with
      | inl err => fail (EText ("unable to update a PodGroup, '" +:+ KObj m +:+ "': " +:+ err_string err))
      | inr _ => mret tt
      end
  end.

Definition SchedulerPlugins_CreatePodGroup (podGroup : PodGroup) : M unit :=
  match podGroup with
  | VolcanoPodGroup _ _ _ => panic
  | SchedulerPluginsPodGroup m _ =>
      r ← try (api (CreatePodGroupReq (om_Namespace m) podGroup));
      match r with
      | inl err => fail (EText ("unable to create a PodGroup, '" +:+ KObj m +:+ "': " +:+ err_string err))
      | inr _ => mret tt
      end
  end.

Definition SchedulerPluginsControl (schedulerName : string) : PodGroupControlInterface := {|
  NewEmptyPodGroup := SchedulerPluginsPodGroup ObjectMeta_zero
    {| spg_MinMember := 0; spg_MinResources := ∅; spg_ScheduleTimeoutSeconds := None |};
  GetPodGroup namespace name := api (GetPodGroupReq namespace name);
  DeletePodGroup namespace name := api (DeletePodGroupReq namespace name);
  UpdatePodGroup := SchedulerPlugins_UpdatePodGroup;
  CreatePodGroup := SchedulerPlugins_CreatePodGroup;
  DelayPodCreationDueToPodGroup _ := Ok false;
  DecoratePodTemplateSpec := SchedulerPlugins_DecoratePodTemplateSpec schedulerName;
  GetSchedulerName := schedulerName |}.
End controls.

(** ** What the controls promise *)

Section control_specs.
Context {K : K8s} {ES : ExpStore} {AS : ApiServer} {RT : GoRuntime}.

(** The control changes neither the KubeCluster nor the expectations. *)
Definition frame_rel (w w' : World) : Prop := w_kc w' = w_kc w ∧ w_exp w' = w_exp w.

#[export] Instance frame_rel_preorder : PreOrder frame_rel.
Proof. split; [by intros|]. intros w1 w2 w3 [? ?] [? ?]. split; congruence. Qed.

Lemma frame_api {A} (q : ApiReq A) : stable frame_rel (api q).
Proof. intros w. unfold api. destruct (serve q (w_srv w)) as [s [e|a]]; done. Qed.
Lemma frame_record_event t r m : stable frame_rel (record_event t r m).
Proof. intros w. done. Qed.

(** The requests about one pod, service or config map. *)
Definition pod_access (ns name : string) (c : call) : Prop :=
  c = Call (GetPod ns name) ∨ c = Call (DeletePodReq ns name).
Definition service_access (ns name : string) (c : call) : Prop :=
  c = Call (GetService ns name) ∨ c = Call (DeleteServiceReq ns name).
Definition configmap_access (ns name : string) (c : call) : Prop :=
  c = Call (GetConfigMap ns name) ∨ c = Call (DeleteConfigMapReq ns name).

Class PodControlSpec (pc : PodControlInterface) : Prop := {
  pcs_create_log ns t ref w :
    ValidateControllerRef ref = Ok tt → om_Labels (pt_Meta t) ≠ ∅ →
    w_log (CreatePodsWithControllerRef pc ns t ref w).1 =
      (w_log w ++ [Call (CreatePod ns (GetPodFromTemplate t ref))])%list;
  pcs_create_no_panic ns t ref w : (CreatePodsWithControllerRef pc ns t ref w).2 ≠ Panic;
  pcs_create_frame ns t ref : stable frame_rel (CreatePodsWithControllerRef pc ns t ref);
  pcs_create_emits ns t ref :
    emits (λ c, ∃ p, c = Call (CreatePod ns p)) (CreatePodsWithControllerRef pc ns t ref);
  pcs_delete_log ns name w : ∃ l,
    w_log (DeletePod pc ns name w).1 = (w_log w ++ Call (GetPod ns name) :: l)%list ∧
    Forall (pod_access ns name) l;
  pcs_delete_no_panic ns name w : (DeletePod pc ns name w).2 ≠ Panic;
  pcs_delete_frame ns name : stable frame_rel (DeletePod pc ns name)
}.

Class ServiceControlSpec (sc : ServiceControlInterface) : Prop := {
  scs_create_log ns s ref w :
    ValidateControllerRef ref = Ok tt → om_Labels (svc_Meta s) ≠ ∅ →
    w_log (CreateServicesWithControllerRef sc ns s ref w).1 =
      (w_log w ++ [Call (CreateService ns (GetServiceFromTemplate s ref))])%list;
  scs_create_no_panic ns s ref w : (CreateServicesWithControllerRef sc ns s ref w).2 ≠ Panic;
  scs_create_frame ns s ref : stable frame_rel (CreateServicesWithControllerRef sc ns s ref);
  scs_create_emits ns s ref :
    emits (λ c, ∃ p, c = Call (CreateService ns p)) (CreateServicesWithControllerRef sc ns s ref);
  scs_delete_log ns name w : ∃ l,
    w_log (DeleteService sc ns name w).1 = (w_log w ++ Call (GetService ns name) :: l)%list ∧
    Forall (service_access ns name) l;
  scs_delete_no_panic ns name w : (DeleteService sc ns name w).2 ≠ Panic;
  scs_delete_frame ns name : stable frame_rel (DeleteService sc ns name)
}.

Class ConfigMapControlSpec (cc : ConfigMapControlInterface) : Prop := {
  ccs_create_emits ns c ref :
    emits (λ q, ∃ p, q = Call (CreateConfigMapReq ns p)) (CreateConfigMapWithControllerRef cc ns c ref);
  ccs_update_emits ns c : emits (λ q, q = Call (UpdateConfigMapReq ns c)) (UpdateConfigMap cc ns c);
  ccs_delete_emits ns name : emits (configmap_access ns name) (DeleteConfigMap cc ns name)
}.

(** Decorating a template keeps its name and every label but that of the pod
    group. *)
Class PodGroupControlSpec (pg : PodGroupControlInterface) : Prop := {
  pgs_decorate_name t m rt : om_Name (pt_Meta (DecoratePodTemplateSpec pg t m rt)) = om_Name (pt_Meta t);
  pgs_decorate_label t m rt k : k ≠ PodGroupLabel →
    om_Labels (pt_Meta (DecoratePodTemplateSpec pg t m rt)) !! k = om_Labels (pt_Meta t) !! k;
  pgs_get ns name : emits (λ c, c = Call (GetPodGroupReq ns name)) (GetPodGroup pg ns name);
  pgs_delete ns name : emits (λ c, c = Call (DeletePodGroupReq ns name)) (DeletePodGroup pg ns name);
  pgs_update g : emits (λ c, ∃ ns, c = Call (UpdatePodGroupReq ns g)) (UpdatePodGroup pg g);
  pgs_create g : emits (λ c, ∃ ns, c = Call (CreatePodGroupReq ns g)) (CreatePodGroup pg g)
}.

Lemma pcs_delete_emits pc `{!PodControlSpec pc} ns name :
  emits (pod_access ns name) (DeletePod pc ns name).
Proof.
  intros w. destruct (pcs_delete_log ns name w) as (l & Hl & HP). eexists. split; [exact Hl|].
  constructor; [by left|done].
Qed.

Lemma scs_delete_emits sc `{!ServiceControlSpec sc} ns name :
  emits (service_access ns name) (DeleteService sc ns name).
Proof.
  intros w. destruct (scs_delete_log ns name w) as (l & Hl & HP). eexists. split; [exact Hl|].
  constructor; [by left|done].
Qed.

(** ** The implementations keep the promises *)

Lemma createPods_log node ns t ref w :
  om_Labels (pod_Meta (GetPodFromTemplate t ref)) ≠ ∅ → node = "" →
  w_log (createPods node ns t ref w).1 =
    (w_log w ++ [Call (CreatePod ns (GetPodFromTemplate t ref))])%list.
Proof.
  intros Hl ->. unfold createPods. rewrite (decide_True (P := "" = "")) by done.
  rewrite decide_False by done. unfold mbind, M_bind, try, api. by destruct (serve _ _) as [s [e|a]].
Qed.

Lemma getPodsLabelSet_eq `{!GoRuntimeLaws RT} t : getPodsLabelSet t = om_Labels (pt_Meta t).
Proof.
  apply map_eq. intros k. unfold getPodsLabelSet.
  etransitivity; [exact (range_write 0 (λ _ v, v) (om_Labels (pt_Meta t)) ∅ k)|].
  rewrite lookup_empty. by destruct (om_Labels (pt_Meta t) !! k).
Qed.

(** A request, then more of some kind. *)
Lemma api_then_log {A B} (P : call → Prop) (q : ApiReq A) (f : error + A → M B) w :
  (∀ r, emits P (f r)) →
  ∃ l, w_log ((try (api q) ≫= f) w).1 = (w_log w ++ Call q :: l)%list ∧ Forall P l.
Proof.
  intros Hf. unfold mbind, M_bind, try, api. destruct (serve q (w_srv w)) as [s [e|a]]; simpl.
  - destruct (Hf (inl (EApi e)) (w_set_srv s (Call q) w)) as (l & Hl & HP). exists l.
    rewrite Hl. simpl. by rewrite <- app_assoc.
  - destruct (Hf (inr a) (w_set_srv s (Call q) w)) as (l & Hl & HP). exists l.
    rewrite Hl. simpl. by rewrite <- app_assoc.
Qed.

Ltac control_auto :=
  repeat stable_step;
  try (first [apply emits_api | apply frame_api | apply frame_record_event]);
  try (solve [eexists; done | by left | by right | done]).

#[global] Instance RealPodControl_spec `{!GoRuntimeLaws RT} : PodControlSpec RealPodControl.
Proof.
  split; simpl; unfold RealPodControl_CreatePodsWithControllerRef, RealPodControl_DeletePod.
  - intros ns t ref w Hv Hl. unfold mbind at 1, M_bind at 1, lift. rewrite Hv.
    apply createPods_log; [|done]. simpl. by rewrite getPodsLabelSet_eq.
  - intros ns t ref w. unfold mbind at 1, M_bind at 1, lift.
    destruct (ValidateControllerRef ref) as [[]|e|] eqn:E; [|done|].
    + unfold createPods. repeat case_decide; try done;
        unfold mbind, M_bind, try, api; by destruct (serve _ _) as [s [e|a]].
    + unfold ValidateControllerRef in E. by repeat case_match.
  - intros. unfold createPods. control_auto.
  - intros. unfold createPods. control_auto.
  - intros ns name w. apply (api_then_log (pod_access ns name)). intros. control_auto.
  - intros ns name w. unfold mbind at 1, M_bind at 1, try at 1, api at 1.
    destruct (serve _ _) as [s [e|a]]; simpl; [by case_match|].
    case_match; [done|]. unfold mbind, M_bind, try, api. simpl. by destruct (serve _ _) as [s' [e|[]]].
  - intros. control_auto.
Qed.

#[global] Instance RealServiceControl_spec : ServiceControlSpec RealServiceControl.
Proof.
  split; simpl; unfold RealServiceControl_CreateServicesWithControllerRef,
    RealServiceControl_DeleteService.
  - intros ns t ref w Hv Hl. unfold mbind at 1, M_bind at 1, lift. rewrite Hv.
    unfold createServices. rewrite decide_False by done.
    unfold mbind, M_bind, try, api. by destruct (serve _ _) as [s [e|a]].
  - intros ns t ref w. unfold mbind at 1, M_bind at 1, lift.
    destruct (ValidateControllerRef ref) as [[]|e|] eqn:E; [|done|].
    + unfold createServices. case_decide; [done|].
      unfold mbind, M_bind, try, api; by destruct (serve _ _) as [s [e|a]].
    + unfold ValidateControllerRef in E. by repeat case_match.
  - intros. unfold createServices. control_auto.
  - intros. unfold createServices. control_auto.
  - intros ns name w. apply (api_then_log (service_access ns name)). intros. control_auto.
  - intros ns name w. unfold mbind at 1, M_bind at 1, try at 1, api at 1.
    destruct (serve _ _) as [s [e|a]]; simpl; [by case_match|].
    case_match; [done|]. unfold mbind, M_bind, try, api. simpl. by destruct (serve _ _) as [s' [e|[]]].
  - intros. control_auto.
Qed.

#[global] Instance RealConfigMapControl_spec : ConfigMapControlSpec RealConfigMapControl.
Proof.
  split; simpl; unfold RealConfigMapControl_CreateConfigMapWithControllerRef, createConfigMap,
    RealConfigMapControl_DeleteConfigMap; intros; control_auto.
Qed.

Lemma default_scheduler_meta name t : pt_Meta (default_scheduler name t) = pt_Meta t.
Proof. unfold default_scheduler. by case_decide. Qed.

#[global] Instance VolcanoControl_spec : PodGroupControlSpec VolcanoControl.
Proof.
  split; simpl; unfold Volcano_DecoratePodTemplateSpec, Volcano_UpdatePodGroup,
    Volcano_CreatePodGroup; intros; simpl; rewrite ?default_scheduler_meta; try done; control_auto.
Qed.

#[global] Instance SchedulerPluginsControl_spec name :
  PodGroupControlSpec (SchedulerPluginsControl name).
Proof.
  split; simpl; unfold SchedulerPlugins_DecoratePodTemplateSpec, SchedulerPlugins_UpdatePodGroup,
    SchedulerPlugins_CreatePodGroup; intros; simpl; rewrite ?default_scheduler_meta; try done;
    [by rewrite lookup_insert_ne|control_auto..].
Qed.
End control_specs.
