(* ===== verification/RefManager.v ===== *)
(** * Claiming dependents: controller references

    pkg/controller/control/controller_ref_manager.go. The file has the same code
    for pods and for services; [ClaimObject] is shared, and the claims of a
    list are written once, for any kind of object with a patch operation. [claim_run]
    says what a claim comes to, object by object. *)

From S2P Require Import Prelude K8s Api Expectations World Control.

(** A double quote, and JSON strings built with it. *)
Definition dq : string := String "034"%char EmptyString.
Definition quoted (s : string) : string := dq +:+ s +:+ dq.

Section ref_manager.
Context {K : K8s} {ES : ExpStore} {AS : ApiServer} {RT : GoRuntime}.

(** [BaseControllerRefManager], less the fields that change; [CanAdoptFunc] may
    be nil. *)
Record BaseControllerRefManager := {
  rm_Controller : ObjectMeta;
  rm_Selector : gmap string string;
  rm_CanAdoptFunc : option (M unit);
  rm_GroupVersion : string;
  rm_Kind : string
}.

(** [canAdoptOnce] and [canAdoptErr]: [None] until the function has run. *)
Definition once_state : Type := option (option error).

(** An operation of the manager: it may run the once function, and its error is
    a value, since the claims collect errors. *)
Definition RM (A : Type) : Type := once_state → M (once_state * (error + A)).

Definition CanAdopt (m : BaseControllerRefManager) : RM unit := λ once,
  match once with
  | Some (Some e) => mret (once, inl e)
  | Some None => mret (once, inr tt)
  | None =>
      match rm_CanAdoptFunc m with
      | None => mret (Some None, inr tt)
      | Some f =>
          r ← try f;
          match r with
          | inl e => mret (Some (Some e), inl e)
          | inr _ => mret (Some None, inr tt)
          end
      end
  end.

Section claim.
Context {A : Type} `{HasMeta A}.

Definition ClaimObject (m : BaseControllerRefManager) (obj : A) (match_ : A → bool)
    (adopt release : A → RM unit) : RM bool := λ once,
  match GetControllerOf (om_OwnerReferences (meta_of obj)) with
  | Some controllerRef =>
      if negb (bool_decide (or_UID controllerRef = om_UID (rm_Controller m))) then
        mret (once, inr false)
      else if match_ obj then mret (once, inr true)
      else if om_DeletionTimestamp (rm_Controller m) is Some _ then mret (once, inr false)
      else
        r ← release obj once;
        match r.2 with
        | inl err => if IsNotFound err then mret (r.1, inr false) else mret (r.1, inl err)
        | inr _ => mret (r.1, inr false)
        end
  | None =>
      if bool_decide (om_DeletionTimestamp (rm_Controller m) ≠ None) || negb (match_ obj) then
        mret (once, inr false)
      else if om_DeletionTimestamp (meta_of obj) is Some _ then mret (once, inr false)
      else
        r ← adopt obj once;
        match r.2 with
        | inl err => if IsNotFound err then mret (r.1, inr false) else mret (r.1, inl err)
        | inr _ => mret (r.1, inr true)
        end
  end.

(** The match function of the claims: the selector, then the filters. *)
Definition claim_match (m : BaseControllerRefManager) (filters : list (A → bool)) (obj : A) : bool :=
  selector_Matches (rm_Selector m) (om_Labels (meta_of obj)) && forallb (λ f, f obj) filters.

(** The patch that adds the controller reference. *)
Definition addControllerPatch (m : BaseControllerRefManager) (obj : A) : string :=
  "{" +:+ quoted "metadata" +:+ ":{" +:+ quoted "ownerReferences" +:+ ":[{"
  +:+ quoted "apiVersion" +:+ ":" +:+ quoted (rm_GroupVersion m) +:+ ","
  +:+ quoted "kind" +:+ ":" +:+ quoted (rm_Kind m) +:+ ","
  +:+ quoted "name" +:+ ":" +:+ quoted (om_Name (rm_Controller m)) +:+ ","
  +:+ quoted "uid" +:+ ":" +:+ quoted (om_UID (rm_Controller m)) +:+ ","
  +:+ quoted "controller" +:+ ":true," +:+ quoted "blockOwnerDeletion" +:+ ":true}],"
  +:+ quoted "uid" +:+ ":" +:+ quoted (om_UID (meta_of obj)) +:+ "}}".

(** The patch that removes it. *)
Definition deleteOwnerRefPatch (m : BaseControllerRefManager) (obj : A) : string :=
  "{" +:+ quoted "metadata" +:+ ":{" +:+ quoted "ownerReferences" +:+ ":[{"
  +:+ quoted "$patch" +:+ ":" +:+ quoted "delete" +:+ ","
  +:+ quoted "uid" +:+ ":" +:+ quoted (om_UID (rm_Controller m)) +:+ "}],"
  +:+ quoted "uid" +:+ ":" +:+ quoted (om_UID (meta_of obj)) +:+ "}}".

Definition AdoptObject (kind : string) (m : BaseControllerRefManager)
    (patch : string → string → string → M unit) (obj : A) : RM unit := λ once,
  r ← CanAdopt m once;
  match r.2 with
  | inl err =>
      mret (r.1, inl (EText ("can't adopt " +:+ kind +:+ " " +:+ om_Namespace (meta_of obj) +:+ "/"
        +:+ om_Name (meta_of obj) +:+ " (" +:+ om_UID (meta_of obj) +:+ "): " +:+ err_string err)))
  | inr _ =>
      p ← try (patch (om_Namespace (meta_of obj)) (om_Name (meta_of obj)) (addControllerPatch m obj));
      mret (r.1, p)
  end.

Definition ReleaseObject (m : BaseControllerRefManager)
    (patch : string → string → string → M unit) (obj : A) : RM unit := λ once,
  p ← try (patch (om_Namespace (meta_of obj)) (om_Name (meta_of obj)) (deleteOwnerRefPatch m obj));
  match p with
  | inl err =>
      if IsNotFound err then mret (once, inr tt)
      else if IsInvalid err then mret (once, inr tt)
      else mret (once, inl err)
  | inr _ => mret (once, inr tt)
  end.

(** The loop of the claims: the objects claimed and the errors collected. *)
Fixpoint claim_loop (m : BaseControllerRefManager) (match_ : A → bool)
    (adopt release : A → RM unit) (objs : list A) (once : once_state)
    (claimed : list A) (errlist : list error) : M (once_state * list A * list error) :=
  match objs with
  | [] => mret (once, claimed, errlist)
  | obj :: objs =>
      r ← ClaimObject m obj match_ adopt release once;
      match r.2 with
      | inl err => claim_loop m match_ adopt release objs r.1 claimed (errlist ++ [err])%list
      | inr true => claim_loop m match_ adopt release objs r.1 (claimed ++ [obj])%list errlist
      | inr false => claim_loop m match_ adopt release objs r.1 claimed errlist
      end
  end.
End claim.

(** ** Pods *)

(** The manager with its control. Nothing has been asked yet: [canAdoptOnce] is fresh. *)
Definition PodControllerRefManager : Type := BaseControllerRefManager * PodControlInterface.
Definition NewPodControllerRefManager (podControl : PodControlInterface) (controller : ObjectMeta)
    (selector : gmap string string) (groupVersion kind : string) (canAdopt : option (M unit)) :
    PodControllerRefManager :=
  ({| rm_Controller := controller; rm_Selector := selector; rm_CanAdoptFunc := canAdopt;
      rm_GroupVersion := groupVersion; rm_Kind := kind |}, podControl).

Definition AdoptPod (pc : PodControlInterface) (m : BaseControllerRefManager) (pod : Pod) : RM unit :=
  AdoptObject "Pod" m (PatchPod pc) pod.
Definition ReleasePod (pc : PodControlInterface) (m : BaseControllerRefManager) (pod : Pod) : RM unit :=
  ReleaseObject m (PatchPod pc) pod.

(** The aggregate of the errors is nil when there is none. *)
Definition ClaimPods (pc : PodControlInterface) (m : BaseControllerRefManager) (once : once_state)
    (pods : list Pod) (filters : list (Pod → bool)) : M (once_state * list Pod * list error) :=
  claim_loop m (claim_match m filters) (AdoptPod pc m) (ReleasePod pc m) pods once [] [].

(** ** Services *)

Definition ServiceControllerRefManager : Type := BaseControllerRefManager * ServiceControlInterface.
Definition NewServiceControllerRefManager (serviceControl : ServiceControlInterface) (ctr : ObjectMeta)
    (selector : gmap string string) (groupVersion kind : string) (canAdopt : option (M unit)) :
    ServiceControllerRefManager :=
  ({| rm_Controller := ctr; rm_Selector := selector; rm_CanAdoptFunc := canAdopt;
      rm_GroupVersion := groupVersion; rm_Kind := kind |}, serviceControl).

Definition AdoptService (sc : ServiceControlInterface) (m : BaseControllerRefManager)
    (service : Service) : RM unit :=
  AdoptObject "Service" m (PatchService sc) service.
Definition ReleaseService (sc : ServiceControlInterface) (m : BaseControllerRefManager)
    (service : Service) : RM unit :=
  ReleaseObject m (PatchService sc) service.

Definition ClaimServices (sc : ServiceControlInterface) (m : BaseControllerRefManager)
    (once : once_state) (services : list Service) (filters : list (Service → bool)) :
    M (once_state * list Service * list error) :=
  claim_loop m (claim_match m filters) (AdoptService sc m) (ReleaseService sc m) services once [] [].
End ref_manager.

(** ** Lemmas *)

Section ref_manager_lemmas.
Context {K : K8s} {ES : ExpStore} {AS : ApiServer} {RT : GoRuntime}.
Context {A : Type} `{HasMeta A}.
Implicit Types (m : BaseControllerRefManager) (obj : A) (once : once_state).

(** The controller is the controlling owner of the object. *)
Definition owned m obj : Prop :=
  ∃ r, GetControllerOf (om_OwnerReferences (meta_of obj)) = Some r ∧
       or_UID r = om_UID (rm_Controller m).

(** The three situations in which a claim acts or succeeds. *)
Definition kept m (match_ : A → bool) obj : Prop := owned m obj ∧ match_ obj = true.
Definition releasable m (match_ : A → bool) obj : Prop :=
  owned m obj ∧ match_ obj = false ∧ om_DeletionTimestamp (rm_Controller m) = None.
Definition adoptable m (match_ : A → bool) obj : Prop :=
  GetControllerOf (om_OwnerReferences (meta_of obj)) = None ∧ match_ obj = true ∧
  om_DeletionTimestamp (rm_Controller m) = None ∧ om_DeletionTimestamp (meta_of obj) = None.

(** The branches of [ClaimObject]. *)
Lemma ClaimObject_cases m obj match_ (adopt release : A → RM unit) once :
  (ClaimObject m obj match_ adopt release once = mret (once, inr true) ∧ kept m match_ obj) ∨
  (ClaimObject m obj match_ adopt release once = mret (once, inr false) ∧
     ¬ kept m match_ obj ∧ ¬ releasable m match_ obj ∧ ¬ adoptable m match_ obj) ∨
  (releasable m match_ obj ∧
   ClaimObject m obj match_ adopt release once =
     (r ← release obj once;
      match r.2 with
      | inl err => if IsNotFound err then mret (r.1, inr false) else mret (r.1, inl err)
      | inr _ => mret (r.1, inr false)
      end)) ∨
  (adoptable m match_ obj ∧
   ClaimObject m obj match_ adopt release once =
     (r ← adopt obj once;
      match r.2 with
      | inl err => if IsNotFound err then mret (r.1, inr false) else mret (r.1, inl err)
      | inr _ => mret (r.1, inr true)
      end)).
Proof.
  unfold ClaimObject, kept, releasable, adoptable, owned.
  destruct (GetControllerOf (om_OwnerReferences (meta_of obj))) as [ref|] eqn:Hc.
  - case_bool_decide as Hu; simpl; [|right; left; naive_solver].
    destruct (match_ obj) eqn:Hm; [left; naive_solver|].
    destruct (om_DeletionTimestamp (rm_Controller m)) eqn:Hd; [right; left; naive_solver|].
    right; right; left. split; [|done]. eauto.
  - destruct (om_DeletionTimestamp (rm_Controller m)) eqn:Hd; simpl.
    { right; left. naive_solver. }
    destruct (match_ obj) eqn:Hm; simpl; [|right; left; naive_solver].
    destruct (om_DeletionTimestamp (meta_of obj)) eqn:Ho; [right; left; naive_solver|].
    right; right; right. split; [done|]. done.
Qed.

(** *** Which requests a claim makes *)

Lemma emits_CanAdopt P m once :
  (∀ f, rm_CanAdoptFunc m = Some f → emits P f) → emits P (CanAdopt m once).
Proof.
  intros Hf. unfold CanAdopt. repeat stable_step. by apply Hf.
Qed.

Lemma emits_claim_loop (P : call → Prop) m match_ (adopt release : A → RM unit) objs once claimed errs :
  (∀ obj once, obj ∈ objs → adoptable m match_ obj → emits P (adopt obj once)) →
  (∀ obj once, obj ∈ objs → releasable m match_ obj → emits P (release obj once)) →
  emits P (claim_loop m match_ adopt release objs once claimed errs).
Proof.
  intros Ha Hr. revert once claimed errs. induction objs as [|obj objs IH]; intros; simpl.
  { repeat stable_step. }
  assert (∀ o c e, emits P (claim_loop m match_ adopt release objs o c e)) as IH'.
  { intros. apply IH; intros; [apply Ha|apply Hr]; try done; by right. }
  change (stable (emits_rel P) (
    r ← ClaimObject m obj match_ adopt release once;
    match r.2 with
    | inl err => claim_loop m match_ adopt release objs r.1 claimed (errs ++ [err])%list
    | inr true => claim_loop m match_ adopt release objs r.1 (claimed ++ [obj])%list errs
    | inr false => claim_loop m match_ adopt release objs r.1 claimed errs
    end)).
  apply (stable_bind _); [|intros r; repeat case_match; apply IH'].
  destruct (ClaimObject_cases m obj match_ adopt release once)
    as [[-> _]|[(-> & _)|[[Hc ->]|[Hc ->]]]]; [apply (stable_ret _)..| |].
  - apply (stable_bind _); [apply Hr; [left|done]|]. intros x. repeat stable_step.
  - apply (stable_bind _); [apply Ha; [left|done]|]. intros x. repeat stable_step.
Qed.

(** *** What a claim comes to *)

(** What becomes of one object. *)
Inductive verdict := Mine | NotMine | Failed (e : error).

(** The answer of the check before an adoption: the one it has given, or the one it
    gives now; without a check every adoption is allowed. *)
Inductive checked m : once_state → World → World → option error → Prop :=
| checked_before v w : checked m (Some v) w w v
| checked_nil w : rm_CanAdoptFunc m = None → checked m None w w None
| checked_passes f w w' : rm_CanAdoptFunc m = Some f → f w = (w', Ok tt) → checked m None w w' None
| checked_fails f w w' e :
    rm_CanAdoptFunc m = Some f → f w = (w', Err e) → checked m None w w' (Some e).

Definition adoption_error (kind : string) obj (e : error) : error :=
  EText ("can't adopt " +:+ kind +:+ " " +:+ om_Namespace (meta_of obj) +:+ "/"
    +:+ om_Name (meta_of obj) +:+ " (" +:+ om_UID (meta_of obj) +:+ "): " +:+ err_string e).

Section claims.
Context (kind : string) (patch : string → string → string → M unit) m (match_ : A → bool).

(** The patch that is sent for an object, and its answer. *)
Definition patches obj (data : string) (w w' : World) (answer : option error) : Prop :=
  patch (om_Namespace (meta_of obj)) (om_Name (meta_of obj)) data w =
    (w', match answer with None => Ok tt | Some e => Err e end).

Inductive claim_step obj : once_state → World → once_state → World → verdict → Prop :=
| claim_kept o w : kept m match_ obj → claim_step obj o w o w Mine
| claim_ignored o w :
    ¬ kept m match_ obj → ¬ releasable m match_ obj → ¬ adoptable m match_ obj →
    claim_step obj o w o w NotMine
| claim_released o w w' :
    releasable m match_ obj → patches obj (deleteOwnerRefPatch m obj) w w' None →
    claim_step obj o w o w' NotMine
| claim_release_fails o w w' e :
    releasable m match_ obj → patches obj (deleteOwnerRefPatch m obj) w w' (Some e) →
    claim_step obj o w o w' (if IsNotFound e || IsInvalid e then NotMine else Failed e)
| claim_refused o w w' e :
    adoptable m match_ obj → checked m o w w' (Some e) →
    claim_step obj o w (Some (Some e)) w' (Failed (adoption_error kind obj e))
| claim_adopted o w w1 w2 :
    adoptable m match_ obj → checked m o w w1 None →
    patches obj (addControllerPatch m obj) w1 w2 None → claim_step obj o w (Some None) w2 Mine
| claim_adoption_fails o w w1 w2 e :
    adoptable m match_ obj → checked m o w w1 None →
    patches obj (addControllerPatch m obj) w1 w2 (Some e) →
    claim_step obj o w (Some None) w2 (if IsNotFound e then NotMine else Failed e).

(** One object after the other; what is claimed and what has failed, in order. *)
Inductive claim_run : list A → once_state → World → once_state → World → list A → list error → Prop :=
| claim_done o w : claim_run [] o w o w [] []
| claim_next obj objs o w o1 w1 o2 w2 v claimed errs :
    claim_step obj o w o1 w1 v → claim_run objs o1 w1 o2 w2 claimed errs →
    claim_run (obj :: objs) o w o2 w2
      (match v with Mine => obj :: claimed | _ => claimed end)
      (match v with Failed e => e :: errs | _ => errs end).

Context (Hcheck : ∀ f w, rm_CanAdoptFunc m = Some f → (f w).2 ≠ Panic).
Context (Hpatch : ∀ ns name data w, (patch ns name data w).2 ≠ Panic).

Lemma CanAdopt_checked o w :
  ∃ w' r, checked m o w w' r ∧
    CanAdopt m o w = (w', Ok (Some r, match r with Some e => inl e | None => inr tt end)).
Proof using Hcheck.
  clear Hpatch. unfold CanAdopt. destruct o as [[e|]|].
  - exists w, (Some e). split; [constructor|done].
  - exists w, None. split; [constructor|done].
  - destruct (rm_CanAdoptFunc m) as [f|] eqn:Hf.
    + specialize (Hcheck f w eq_refl). unfold mbind, M_bind, try.
      destruct (f w) as [w' [[]|e|]] eqn:Hw; [| |done].
      * exists w', None. split; [by eapply checked_passes|done].
      * exists w', (Some e). split; [by eapply checked_fails|done].
    + exists w, None. split; [by constructor|done].
Qed.

Lemma patches_run obj data w :
  ∃ w' r, patches obj data w w' r ∧
    try (patch (om_Namespace (meta_of obj)) (om_Name (meta_of obj)) data) w =
      (w', Ok (match r with Some e => inl e | None => inr tt end)).
Proof using Hpatch.
  clear Hcheck. unfold patches, try.
  specialize (Hpatch (om_Namespace (meta_of obj)) (om_Name (meta_of obj)) data w).
  destruct (patch _ _ data w) as [w' [[]|e|]]; [by exists w', None|by exists w', (Some e)|done].
Qed.

(** What [ClaimObject] returns for a verdict. *)
Definition returns (v : verdict) : error + bool :=
  match v with Mine => inr true | NotMine => inr false | Failed e => inl e end.

Lemma ClaimObject_step obj o w :
  ∃ o' w' v, claim_step obj o w o' w' v ∧
    ClaimObject m obj match_ (AdoptObject kind m patch) (ReleaseObject m patch) o w =
      (w', Ok (o', returns v)).
Proof using Hcheck Hpatch.
  destruct (ClaimObject_cases m obj match_ (AdoptObject kind m patch) (ReleaseObject m patch) o)
    as [[-> Hk]|[(-> & H1 & H2 & H3)|[[Hk ->]|[Hk ->]]]].
  - exists o, w, Mine. split; [by constructor|done].
  - exists o, w, NotMine. split; [by constructor|done].
  - destruct (patches_run obj (deleteOwnerRefPatch m obj) w) as (w' & [e|] & Hp & Hr).
    + exists o, w', (if IsNotFound e || IsInvalid e then NotMine else Failed e).
      split; [by apply claim_release_fails|]. unfold ReleaseObject, mbind, M_bind. rewrite Hr.
      destruct (IsNotFound e) eqn:Hn, (IsInvalid e); simpl; by rewrite ?Hn.
    + exists o, w', NotMine. split; [by apply claim_released|].
      unfold ReleaseObject, mbind, M_bind. by rewrite Hr.
  - unfold AdoptObject, mbind, M_bind.
    destruct (CanAdopt_checked o w) as (w1 & [e|] & Hc & ->); simpl.
    + exists (Some (Some e)), w1, (Failed (adoption_error kind obj e)). split; [by apply claim_refused|done].
    + destruct (patches_run obj (addControllerPatch m obj) w1) as (w2 & [e|] & Hp & ->); simpl.
      * exists (Some None), w2, (if IsNotFound e then NotMine else Failed e).
        split; [by eapply claim_adoption_fails|]. by destruct (IsNotFound e).
      * exists (Some None), w2, Mine. split; [by eapply claim_adopted|done].
Qed.

Lemma claim_loop_run objs o w claimed errs :
  ∃ o' w' cl er, claim_run objs o w o' w' cl er ∧
    claim_loop m match_ (AdoptObject kind m patch) (ReleaseObject m patch) objs o claimed errs w =
      (w', Ok (o', (claimed ++ cl)%list, (errs ++ er)%list)).
Proof using Hcheck Hpatch.
  revert o w claimed errs. induction objs as [|obj objs IH]; intros; simpl.
  { exists o, w, [], []. rewrite !app_nil_r. split; [constructor|done]. }
  destruct (ClaimObject_step obj o w) as (o1 & w1 & v & Hs & Hc).
  unfold mbind, M_bind. rewrite Hc. simpl.
  destruct v as [| |e]; simpl;
    [destruct (IH o1 w1 (claimed ++ [obj])%list errs) as (o' & w' & cl & er & Hr & ->)
    |destruct (IH o1 w1 claimed errs) as (o' & w' & cl & er & Hr & ->)
    |destruct (IH o1 w1 claimed (errs ++ [e])%list) as (o' & w' & cl & er & Hr & ->)];
    rewrite <- ?app_assoc; eexists o', w', _, _; (split; [exact (claim_next _ _ _ _ _ _ _ _ _ _ _ Hs Hr)|done]).
Qed.
End claims.

Lemma claim_run_objects kind patch m match_ objs o w o' w' cl er :
  claim_run kind patch m match_ objs o w o' w' cl er →
  cl `sublist_of` objs ∧
  (∀ obj, obj ∈ cl → kept m match_ obj ∨ adoptable m match_ obj) ∧
  (∀ obj, obj ∈ objs → kept m match_ obj → obj ∈ cl).
Proof.
  induction 1 as [o w|obj objs o w o1 w1 o2 w2 v cl er Hs _ (IH1 & IH2 & IH3)].
  { split_and!; [constructor|set_solver..]. }
  assert ((v = Mine → kept m match_ obj ∨ adoptable m match_ obj) ∧ (kept m match_ obj → v = Mine)) as [Hv Hk].
  { assert (releasable m match_ obj → ¬ kept m match_ obj) by (unfold releasable, kept; intuition congruence).
    assert (adoptable m match_ obj → ¬ kept m match_ obj).
    { intros (Hn & _) [(r & Hr & _) _]. congruence. }
    destruct Hs; (split; [intros Heq|intros ?]; try discriminate; auto; try tauto);
      repeat case_match; simplify_eq; tauto. }
  split_and!.
  - destruct v; by constructor.
  - intros x Hx. destruct v; [|by apply IH2..].
    apply elem_of_cons in Hx as [->|Hx]; [by apply Hv|by apply IH2].
  - intros x [->|Hx]%elem_of_cons Hkx; [rewrite (Hk Hkx); by left|].
    destruct v; [right|..]; by apply IH3.
Qed.

(** *** The once function runs at most once *)

Definition is_GetKubeCluster (c : call) : bool :=
  match c with Call (GetKubeCluster _ _) => true | _ => false end.

Definition gets (l : list call) : nat := length (filter (λ c, is_GetKubeCluster c = true) l).

(** Runs of the once function still to come. *)
Definition credit once : nat := match once with None => 1 | Some _ => 0 end.

(** The operation pays for the reads of the cluster it makes. *)
Definition pays {B} (x : M (once_state * B)) once : Prop :=
  ∀ w, ∃ l, w_log (x w).1 = (w_log w ++ l)%list ∧
    match (x w).2 with
    | Ok (once', _) => (gets l + credit once' ≤ credit once)%nat
    | _ => (gets l ≤ credit once)%nat
    end.

Lemma gets_app l1 l2 : gets (l1 ++ l2)%list = (gets l1 + gets l2)%nat.
Proof. unfold gets. by rewrite filter_app, length_app. Qed.

Lemma pays_ret {B} (b : B) once : pays (mret (once, b)) once.
Proof. intros w. exists []. rewrite app_nil_r. split; [done|]. simpl. unfold gets. simpl. lia. Qed.

Lemma pays_bind {B C} (x : M (once_state * B)) (f : once_state * B → M (once_state * C)) once :
  pays x once → (∀ o b, pays (f (o, b)) o) → pays (x ≫= f) once.
Proof.
  intros Hx Hf w. unfold mbind, M_bind. destruct (Hx w) as (l & Hl & Hc).
  destruct (x w) as [w' [[o b]|e|]]; simpl in *; [|by exists l..].
  destruct (Hf o b w') as (l' & Hl' & Hc'). exists (l ++ l')%list. rewrite gets_app, Hl', Hl, app_assoc.
  split; [done|]. destruct (f (o, b) w').2 as [[o' c]|e|]; lia.
Qed.

(** A step that makes no read of the cluster. *)
Lemma pays_quiet_bind {B C} (x : M B) (f : B → M (once_state * C)) once :
  emits (λ c, is_GetKubeCluster c = false) x → (∀ b, pays (f b) once) → pays (x ≫= f) once.
Proof.
  intros Hx Hf w. unfold mbind, M_bind. destruct (Hx w) as (l & Hl & Hc).
  assert (gets l = 0%nat) as Hg.
  { unfold gets. clear Hl. induction Hc as [|c l Hq _ IH]; [done|].
    rewrite filter_cons_False by congruence. done. }
  destruct (x w) as [w' [b|e|]]; simpl in *; [|exists l; split; [done|lia]..].
  destruct (Hf b w') as (l' & Hl' & Hc'). exists (l ++ l')%list. rewrite gets_app, Hl', Hl, app_assoc.
  split; [done|]. destruct (f b w').2 as [[o' c]|e|]; lia.
Qed.

Lemma pays_CanAdopt m once ns name :
  rm_CanAdoptFunc m = Some (_ ← api (GetKubeCluster ns name); mret tt) →
  pays (CanAdopt m once) once.
Proof.
  intros Hf. unfold CanAdopt. destruct once as [[e|]|]; [apply pays_ret..|]. rewrite Hf.
  intros w. exists [Call (GetKubeCluster ns name)].
  unfold mbind, M_bind, try, api. destruct (serve _ _) as [s [e|a]]; simpl;
    (split; [done|]); unfold gets; simpl; lia.
Qed.

Lemma pays_claim_loop m match_ (adopt release : A → RM unit) objs once claimed errs :
  (∀ obj once, pays (adopt obj once) once) → (∀ obj once, pays (release obj once) once) →
  pays (B := list A * list error)
    (r ← claim_loop m match_ adopt release objs once claimed errs; mret (r.1.1, (r.1.2, r.2))) once.
Proof.
  intros Ha Hr.
  assert (∀ once c e w, ∃ l, w_log (claim_loop m match_ adopt release objs once c e w).1 =
    (w_log w ++ l)%list ∧
    match (claim_loop m match_ adopt release objs once c e w).2 with
    | Ok (once', _, _) => (gets l + credit once' ≤ credit once)%nat
    | _ => (gets l ≤ credit once)%nat
    end) as Hgo.
  { clear once claimed errs. induction objs as [|obj objs IH]; intros once c e w; simpl.
    { exists []. rewrite app_nil_r. split; [done|]. unfold gets. simpl. lia. }
    assert (pays (ClaimObject m obj match_ adopt release once) once) as Hc.
    { destruct (ClaimObject_cases m obj match_ adopt release once)
        as [[-> _]|[(-> & _)|[[_ ->]|[_ ->]]]]; [apply pays_ret..| |];
        (apply pays_bind; [auto|]); intros o [x|x]; simpl; repeat case_match; apply pays_ret. }
    unfold mbind, M_bind. destruct (Hc w) as (l & Hl & Hcr).
    destruct (ClaimObject m obj match_ adopt release once w) as [w' [[o r]|x|]]; simpl in *;
      [|by exists l..].
    assert (∀ c e, ∃ l', w_log (claim_loop m match_ adopt release objs o c e w').1 =
      (w_log w ++ l')%list ∧
      match (claim_loop m match_ adopt release objs o c e w').2 with
      | Ok (once', _, _) => (gets l' + credit once' ≤ credit once)%nat
      | _ => (gets l' ≤ credit once)%nat
      end) as Hrest.
    { intros c' e'. destruct (IH o c' e' w') as (l' & Hl' & Hcr'). exists (l ++ l')%list.
      rewrite gets_app, Hl', Hl, app_assoc. split; [done|].
      destruct (claim_loop m match_ adopt release objs o c' e' w').2 as [[[o' ?] ?]|?|]; lia. }
    destruct r as [err|[]]; apply Hrest. }
  intros w. unfold mbind, M_bind. destruct (Hgo once claimed errs w) as (l & Hl & Hcr).
  exists l. destruct (claim_loop m match_ adopt release objs once claimed errs w) as [w' [[[o c] e]|x|]];
    simpl in *; done.
Qed.
End ref_manager_lemmas.

(** ** Properties *)

Section ref_manager_properties.
Context {K : K8s} {ES : ExpStore} {AS : ApiServer} {RT : GoRuntime}.

(** The requests a claim of pods may make, besides those of the adoption check. *)
Definition claim_request (m : BaseControllerRefManager) (filters : list (Pod → bool))
    (pods : list Pod) (c : call) : Prop :=
  ∃ pod, pod ∈ pods ∧
    ((adoptable m (claim_match m filters) pod ∧
      c = Call (PatchPodReq (om_Namespace (pod_Meta pod)) (om_Name (pod_Meta pod))
                  (addControllerPatch m pod))) ∨
     (releasable m (claim_match m filters) pod ∧
      c = Call (PatchPodReq (om_Namespace (pod_Meta pod)) (om_Name (pod_Meta pod))
                  (deleteOwnerRefPatch m pod)))).

Lemma emits_ClaimPods (P : call → Prop) m once pods filters :
  (∀ f, rm_CanAdoptFunc m = Some f → emits P f) →
  (∀ c, claim_request m filters pods c → P c) →
  emits P (ClaimPods RealPodControl m once pods filters).
Proof.
  intros Hf HP. unfold ClaimPods. apply emits_claim_loop; intros pod o Hpod Hc.
  - unfold AdoptPod, AdoptObject. repeat stable_step.
    + by apply emits_CanAdopt.
    + apply emits_api, HP. exists pod. eauto.
  - unfold ReleasePod, ReleaseObject. repeat stable_step.
    apply emits_api, HP. exists pod. eauto.
Qed.

(** C32 (claiming pods). Let the check before an adoption, if there is one, not panic,
    and make requests in [P] only. Whatever the server answers, a claim of pods ends,
    and goes through them in order. A pod the controller owns and that matches is
    claimed, without a request. An owned pod that no longer matches is patched to
    release it: that it is gone or that the patch is invalid is passed over, any other
    error is collected. An orphan that matches is patched to adopt it, once the check
    has passed; it is claimed exactly when the patch succeeds, passed over when the pod
    is gone, and any other error, of the check or of the patch, is collected. Any other
    pod is left alone, and nothing is released or adopted while the controller is being
    deleted. So only these patches, and what the check asks, are requested; the pods
    claimed are pods that were given, in order, all that were owned and match among
    them. *)
Theorem ClaimPods_safe (P : call → Prop) (m : BaseControllerRefManager) (once : once_state)
    (pods : list Pod) (filters : list (Pod → bool)) (w : World) :
  (∀ f, rm_CanAdoptFunc m = Some f → emits P f ∧ ∀ w, (f w).2 ≠ Panic) →
  ∃ once' w' claimed errs,
    ClaimPods RealPodControl m once pods filters w = (w', Ok (once', claimed, errs)) ∧
    claim_run "Pod" (λ ns name data, api (PatchPodReq ns name data)) m (claim_match m filters)
      pods once w once' w' claimed errs ∧
    emits_rel (λ c, claim_request m filters pods c ∨ P c) w w' ∧
    claimed `sublist_of` pods ∧
    (∀ pod, pod ∈ claimed →
       kept m (claim_match m filters) pod ∨ adoptable m (claim_match m filters) pod) ∧
    (∀ pod, pod ∈ pods → kept m (claim_match m filters) pod → pod ∈ claimed).
Proof.
  intros Hf.
  destruct (claim_loop_run "Pod" (λ ns name data, api (PatchPodReq ns name data)) m (claim_match m filters))
    with (objs := pods) (o := once) (w := w) (claimed := @nil Pod) (errs := @nil error)
    as (once' & w' & claimed & errs & Hrun & Heq).
  { intros f w0 Hm. by apply Hf. }
  { intros ns name data w0. unfold api. by destruct (serve _ _) as [s [e|a]]. }
  exists once', w', claimed, errs. split; [exact Heq|]. split; [exact Hrun|]. split.
  - pose proof (emits_ClaimPods (λ c, claim_request m filters pods c ∨ P c) m once pods filters) as He.
    specialize (He ltac:(intros f Hm; apply (emits_weaken P); [by apply Hf|by right]) ltac:(by left) w).
    change (ClaimPods RealPodControl m once pods filters w = (w', Ok (once', claimed, errs))) in Heq.
    by rewrite Heq in He.
  - by eapply claim_run_objects.
Qed.

(** The adoption check runs at most once: when adoptions are checked by
    reading the cluster from the server, one manager reads it at most once, however many
    pods it claims and whether the claims succeed, fail or panic. *)
Theorem CanAdopt_at_most_once (m : BaseControllerRefManager) (ns name : string) (pods : list Pod)
    (filters : list (Pod → bool)) (w : World) :
  rm_CanAdoptFunc m = Some (_ ← api (GetKubeCluster ns name); mret tt) →
  ∃ l, w_log (ClaimPods RealPodControl m None pods filters w).1 = (w_log w ++ l)%list ∧
    (gets l ≤ 1)%nat.
Proof.
  intros Hf.
  assert (∀ ns name data, emits (λ c, is_GetKubeCluster c = false)
    (try (PatchPod RealPodControl ns name data))) as Hp by (intros; emits_auto).
  assert (∀ pod once, pays (AdoptPod RealPodControl m pod once) once) as Ha.
  { intros pod once. unfold AdoptPod, AdoptObject. apply pays_bind; [by eapply pays_CanAdopt|].
    intros o [e|u]; simpl; [apply pays_ret|]. apply pays_quiet_bind; [apply Hp|]. intros. apply pays_ret. }
  assert (∀ pod once, pays (ReleasePod RealPodControl m pod once) once) as Hr.
  { intros pod once. unfold ReleasePod, ReleaseObject. apply pays_quiet_bind; [apply Hp|].
    intros [e|u]; repeat case_match; apply pays_ret. }
  destruct (pays_claim_loop m (claim_match m filters) _ _ pods None [] [] Ha Hr w) as (l & Hl & Hc).
  unfold ClaimPods. exists l. unfold mbind, M_bind in Hl, Hc.
  destruct (claim_loop _ _ _ _ _ _ _ _ w) as [w' [[[o c] e]|x|]]; simpl in *; split; try done; lia.
Qed.
End ref_manager_properties.

Section ref_manager_witnesses.
Import Sample MemServer.

Definition sample_manager (check : option (M unit)) : BaseControllerRefManager := {|
  rm_Controller := Sample.meta; rm_Selector := {[ "app" := "c1" ]};
  rm_CanAdoptFunc := check; rm_GroupVersion := "kubecluster.org/v1alpha1"; rm_Kind := "KubeCluster" |}.

Definition sample_orphan : Pod := {|
  pod_Meta := om_set_Labels {[ "app" := "c1" ]} (om_set_Name "orphan" Sample.meta);
  pod_Spec := Sample.podSpec; pod_Status := PodStatus_zero |}.

Definition sample_world : World := world {[ "default/orphan" := sample_orphan ]}.

(** An orphan that is gone from the server, and an orphan there. *)
Definition sample_ghost : Pod := {|
  pod_Meta := om_set_Labels {[ "app" := "c1" ]} (om_set_Name "ghost" Sample.meta);
  pod_Spec := Sample.podSpec; pod_Status := PodStatus_zero |}.
Definition read_cluster (name : string) : M unit := _ ← api (GetKubeCluster "default" name); mret tt.

Definition sample_claim (name : string) : World * res (once_state * list Pod * list error) :=
  ClaimPods RealPodControl (sample_manager (Some (read_cluster name))) None
    [sample_ghost; sample_orphan] [] sample_world.

(** The orphan is adopted when the cluster is there, and no pod when it is not. *)
Definition claim_counts (name : string) : option (nat * nat) :=
  match (sample_claim name).2 with Ok (_, claimed, errs) => Some (length claimed, length errs) | _ => None end.

Example sample_claims : claim_counts "c1" = Some (1, 0)%nat ∧ claim_counts "c2" = Some (0, 2)%nat.
Proof. split; by_vm. Qed.

Lemma sample_claimed : (sample_claim "c1").2 = Ok (Some None, [sample_orphan], []).
Proof. by_vm. Qed.

Lemma ClaimPods_safe_witness :
  ∃ once' w' errs, sample_claim "c1" = (w', Ok (once', [sample_orphan], errs)) ∧
    claim_run "Pod" (λ ns name data, api (PatchPodReq ns name data))
      (sample_manager (Some (read_cluster "c1"))) (claim_match (sample_manager (Some (read_cluster "c1"))) [])
      [sample_ghost; sample_orphan] None sample_world once' w' [sample_orphan] errs.
Proof.
  destruct (ClaimPods_safe (λ c, is_GetKubeCluster c = true) (sample_manager (Some (read_cluster "c1")))
    None [sample_ghost; sample_orphan] [] sample_world) as (once' & w' & claimed & errs & Heq & Hrun & _).
  { intros f Hf. injection Hf as <-. split.
    - unfold read_cluster. emits_auto.
    - intros w. unfold read_cluster, mbind, M_bind, api. by destruct (serve _ _) as [s [e|k]]. }
  assert (claimed = [sample_orphan]) as ->.
  { pose proof sample_claimed as Hs. unfold sample_claim in Hs. rewrite Heq in Hs. by injection Hs. }
  exists once', w', errs. exact (conj Heq Hrun).
Defined.

Lemma CanAdopt_at_most_once_witness :
  ∃ l, w_log (ClaimPods RealPodControl
      (sample_manager (Some (_ ← api (GetKubeCluster "default" "c1"); mret tt))) None
      [sample_orphan; sample_orphan] [] sample_world).1 = (w_log sample_world ++ l)%list ∧
    (gets l ≤ 1)%nat.
Proof.
  apply (CanAdopt_at_most_once
    (sample_manager (Some (_ ← api (GetKubeCluster "default" "c1"); mret tt))) "default" "c1").
  reflexivity.
Defined.
End ref_manager_witnesses.
