(* ===== verification/Schema.v ===== *)
(** * The interfaces between the controller and its parts

    [ClusterSchemaReconciler] (pkg/common/schema.go) is what a cluster schema,
    such as slurm or PBS Pro, provides to the controller; [ControllerInterface]
    (pkg/common/interface.go) is what the KubeCluster reconciler provides to the
    generic controller; [ClusterController] is the struct of
    pkg/controller/ctrlcommon/controller.go. The registry of schemas is
    pkg/controller/cluster_schema/register_cluster_schema.go, the work queue
    pkg/common/util/fake_workqueue.go, and the counters pkg/common/metric.go and
    pkg/metrics/metrics.go. *)

From S2P Require Import Prelude K8s Api Names Status Expectations Core World Control.

(** ** Counters *)

Section metrics.
Context {K : K8s} {ES : ExpStore} {AS : ApiServer}.

(** [CounterVec.WithLabelValues(...).Inc()]: the counter of these labels. *)
Definition inc_labels (counter : string) (labels : list string) : M unit :=
  inc (counter +:+ "{" +:+ String.concat "," labels +:+ "}").

Definition CreatedClustersCounterInc (ns : string) (t : ClusterType) : M unit :=
  inc_labels "training_operator_clusters_created_total" [ns; t].
Definition DeletedClustersCounterInc (ns : string) (t : ClusterType) : M unit :=
  inc_labels "training_operator_clusters_deleted_total" [ns; t].
Definition FailedClustersCounterInc (ns : string) (t : ClusterType) : M unit :=
  inc_labels "training_operator_clusters_failed_total" [ns; t].
Definition RestartedClustersCounterInc (ns : string) (t : ClusterType) : M unit :=
  inc_labels "training_operator_clusters_restarted_total" [ns; t].

(** pkg/metrics/metrics.go *)
Definition metrics_CreatedclustersCounterInc (ns t : string) : M unit :=
  inc_labels "kubeclusters_restarted_total" [ns; t].
Definition metrics_DeletedclustersCounterInc (ns : string) (t : ClusterType) : M unit :=
  inc_labels "kubeclusters_deleted_total" [ns; t].
Definition metrics_SuccessfulclustersCounterInc (ns t : string) : M unit :=
  inc_labels "kubeclusters_successful_total" [ns; t].
Definition metrics_FailedclustersCounterInc (ns t : string) : M unit :=
  inc_labels "kubeclusters_failed_total" [ns; t].
Definition metrics_RestartedclustersCounterInc (ns t : string) : M unit :=
  inc_labels "kubeclusters_restarted_total" [ns; t].
End metrics.

(** ** Cluster schemas *)

Section schema.
Context {K : K8s} {ES : ExpStore} {AS : ApiServer} {RT : GoRuntime}.

(** The embedded expectations are the store of the schema named [sr_Name]. The
    methods that change the KubeCluster or the cluster status act on the
    KubeCluster of the world; those that change a config map return it. *)
Record ClusterSchemaReconciler := {
  sr_Name : string;
  sr_GetDefaultContainerName : string;
  sr_ReconcileConfigMap : ConfigMap → M ConfigMap;
  sr_ValidateV1KubeCluster : KubeCluster → res unit;
  sr_UpdateConfigMap : ConfigMap → M ConfigMap;
  sr_Default : M unit;
  sr_SetClusterSpec : KubeCluster → PodTemplateSpec → ReplicaType → string → ConfigMap →
    M PodTemplateSpec;
  sr_IsController : gmap string (option ReplicaSpec) → ReplicaType → Z → bool;
  sr_UpdateClusterStatus : ReplicaType → option ReplicaSpec → M unit
}.

(** The expectation methods of the interface. *)
Definition sr_SetExpectations (s : ClusterSchemaReconciler) (key : string) (add del : Z) : M unit :=
  t ← now; expectations (sr_Name s) (SetExpectations t key add del).
Definition sr_RaiseExpectations (s : ClusterSchemaReconciler) (key : string) (add del : Z) : M unit :=
  expectations (sr_Name s) (RaiseExpectations key add del).
Definition sr_CreationObserved (s : ClusterSchemaReconciler) (key : string) : M unit :=
  expectations (sr_Name s) (CreationObserved key).
Definition sr_DeletionObserved (s : ClusterSchemaReconciler) (key : string) : M unit :=
  expectations (sr_Name s) (DeletionObserved key).

(** ** The work queue: [FakeWorkQueue] does nothing *)

Record RateLimitingInterface := {
  wq_Add : string → M unit;
  wq_Len : Z;
  wq_Get : option string * bool;
  wq_Done : string → M unit;
  wq_ShutDown : M unit;
  wq_ShutDownWithDrain : M unit;
  wq_ShuttingDown : bool;
  wq_AddAfter : string → Z → M unit;
  wq_AddRateLimited : string → M unit;
  wq_Forget : string → M unit;
  wq_NumRequeues : string → Z
}.
Definition FakeWorkQueue : RateLimitingInterface := {|
  wq_Add _ := mret tt; wq_Len := 0; wq_Get := (None, false); wq_Done _ := mret tt;
  wq_ShutDown := mret tt; wq_ShutDownWithDrain := mret tt; wq_ShuttingDown := true;
  wq_AddAfter _ _ := mret tt; wq_AddRateLimited _ := mret tt; wq_Forget _ := mret tt;
  wq_NumRequeues _ := 0 |}.

(** ** The controller *)

(** The KubeCluster arguments are the KubeCluster of the world. The reconciler
    embeds the controller: [UpdateClusterStatus] takes the registry of schemas
    it reads there. *)
Record ControllerInterface := {
  ci_ControllerName : string;
  ci_APIGroupVersion : string;
  ci_Kind : string;
  ci_GetClusterFromInformerCache : string → string → M KubeCluster;
  ci_GetPodsForCluster : M (list Pod);
  ci_GetConfigMapForCluster : M (option ConfigMap);
  ci_GetServicesForCluster : M (list Service);
  ci_DeleteCluster : M unit;
  ci_UpdateClusterStatusInApiServer : M unit;
  ci_UpdateClusterStatus : gmap string ClusterSchemaReconciler → M unit;
  ci_GetServiceSlices : list Service → Z → res (list (list Service));
  ci_GetGroupNameLabelValue : string;
  ci_UpdateConfigMapInApiServer : ConfigMap → M ConfigMap
}.

(** [PodGroupControl] is nil without gang scheduling; the priority class lister
    gives the value of a class it knows. *)
Record ClusterController := {
  cc_Controller : ControllerInterface;
  cc_GangScheduling : string;
  cc_SchemaReconcilerManager : gmap string ClusterSchemaReconciler;
  cc_PodControl : PodControlInterface;
  cc_ServiceControl : ServiceControlInterface;
  cc_ConfigMapControl : ConfigMapControlInterface;
  cc_PodGroupControl : option PodGroupControlInterface;
  cc_PriorityClassLister : string → option Z;
  cc_WorkQueue : RateLimitingInterface
}.

Definition GangSchedulerNone : string := "None".
Definition GangSchedulerVolcano : string := "volcano".

Definition EnableGangScheduling (cc : ClusterController) : bool :=
  negb (bool_decide (cc_GangScheduling cc = "")) &&
  negb (bool_decide (cc_GangScheduling cc = GangSchedulerNone)).

Definition cc_set_Schemas (m : gmap string ClusterSchemaReconciler) (cc : ClusterController) :
    ClusterController := {|
  cc_Controller := cc_Controller cc; cc_GangScheduling := cc_GangScheduling cc;
  cc_SchemaReconcilerManager := m; cc_PodControl := cc_PodControl cc;
  cc_ServiceControl := cc_ServiceControl cc; cc_ConfigMapControl := cc_ConfigMapControl cc;
  cc_PodGroupControl := cc_PodGroupControl cc;
  cc_PriorityClassLister := cc_PriorityClassLister cc; cc_WorkQueue := cc_WorkQueue cc |}.

Definition cc_set_Gang (name : string) (pg : option PodGroupControlInterface)
    (cc : ClusterController) : ClusterController := {|
  cc_Controller := cc_Controller cc; cc_GangScheduling := name;
  cc_SchemaReconcilerManager := cc_SchemaReconcilerManager cc; cc_PodControl := cc_PodControl cc;
  cc_ServiceControl := cc_ServiceControl cc; cc_ConfigMapControl := cc_ConfigMapControl cc;
  cc_PodGroupControl := pg;
  cc_PriorityClassLister := cc_PriorityClassLister cc; cc_WorkQueue := cc_WorkQueue cc |}.

Definition GenVolcanoSetupFunc : ClusterController → ClusterController :=
  cc_set_Gang GangSchedulerVolcano (Some VolcanoControl).
Definition GenSchedulerPluginsSetupFunc (gangSchedulerName : string) :
    ClusterController → ClusterController :=
  cc_set_Gang gangSchedulerName (Some (SchedulerPluginsControl gangSchedulerName)).
Definition GenNonGangSchedulerSetupFunc : ClusterController → ClusterController :=
  cc_set_Gang "" None.

(** [RegisterSchema]: the updated controller, or the error. *)
Definition RegisterSchema (cc : ClusterController) (schema : string)
    (reconciler : ClusterSchemaReconciler) : res ClusterController :=
  match cc_SchemaReconcilerManager cc !! schema with
  | Some _ => Err (EText ("cluster schema " +:+ schema +:+ " had been registered"))
  | None => Ok (cc_set_Schemas (<[schema := reconciler]> (cc_SchemaReconcilerManager cc)) cc)
  end.

(** A type that is not registered gives a nil reconciler. *)
Definition GetSchemaReconciler (cc : ClusterController) (clusterType : ClusterType) :
    option ClusterSchemaReconciler :=
  cc_SchemaReconcilerManager cc !! clusterType.

Definition schema_of (cc : ClusterController) (clusterType : ClusterType) : M ClusterSchemaReconciler :=
  lift (deref (GetSchemaReconciler cc clusterType)).
End schema.

(** ** What the controller relies on *)

Section contracts.
Context {K : K8s} {ES : ExpStore} {AS : ApiServer} {RT : GoRuntime}.

(** A schema configures the spec of a pod template and leaves its metadata; it
    makes no request to do so, and changes nothing else. *)
Class SchemaSpec (s : ClusterSchemaReconciler) : Prop := {
  ss_SetClusterSpec_frame kc t rt i cm : stable ticks_rel (sr_SetClusterSpec s kc t rt i cm);
  ss_SetClusterSpec_meta kc t rt i cm w w' t' :
    sr_SetClusterSpec s kc t rt i cm w = (w', Ok t') → pt_Meta t' = pt_Meta t
}.

(** A controller whose parts keep their promises, and that knows its own kind. *)
Class ControllerSpec (cc : ClusterController) : Prop := {
  cs_pod :: PodControlSpec (cc_PodControl cc);
  cs_service :: ServiceControlSpec (cc_ServiceControl cc);
  cs_configmap :: ConfigMapControlSpec (cc_ConfigMapControl cc);
  cs_podgroup pg : cc_PodGroupControl cc = Some pg → PodGroupControlSpec pg;
  cs_schema t s : GetSchemaReconciler cc t = Some s → SchemaSpec s;
  cs_slices services n : ci_GetServiceSlices (cc_Controller cc) services n = GetServiceSlices services n;
  cs_version : ci_APIGroupVersion (cc_Controller cc) ≠ "";
  cs_kind : ci_Kind (cc_Controller cc) ≠ ""
}.
End contracts.

(** ** register_cluster_schema.go *)

Section enabled.
Context `{K : K8s}.

Definition SupportedClusterSchemas : list string := ["slurm"; "pbspro"].

(** The first supported kind, in the order of the visit [kinds], that matches. *)
Definition EnabledSchemes_Set (kinds : list string) (es : list string) (kind : string) :
    res (list string) :=
  let kindStr := ToLower kind in
  match list_find (λ k, ToLower k = kindStr) kinds with
  | Some (_, supportedKind) => Ok (es ++ [supportedKind])%list
  | None => Err (EText ("cluster scheme " +:+ kind +:+ " is not supported yet"))
  end.

Definition EnabledSchemes_FillAll (kinds : list string) (es : list string) : list string :=
  (es ++ kinds)%list.
Definition EnabledSchemes_Empty (es : list string) : bool := bool_decide (length es = 0%nat).

(** [String]; the pointer may be nil. *)
Definition EnabledSchemes_String (es : option (list string)) : string :=
  match es with
  | None => "nil"
  | Some s => String.concat "," s
  end.
End enabled.
