(* ===== verification/Controller.v ===== *)
(** * The generic cluster controller

    pkg/controller/ctrlcommon: controller.go, pod.go, service.go, configmap.go,
    scheduling.go and status.go. The KubeCluster these functions take by pointer
    is the KubeCluster of the world. *)

From S2P Require Import Prelude K8s Api Names Status Expectations Core Quota World Control.
From S2P Require Import Schema.

Section controller.
Context {K : K8s} {ES : ExpStore} {AS : ApiServer} {RT : GoRuntime}.
Implicit Types (cc : ClusterController).

(** ** Helpers *)

Definition KeyFunc : M string :=
  kcluster ← get_kc;
  match MetaNamespaceKeyFunc (kc_Meta kcluster) with
  | Some key => mret key
  | None => fail (EText "object has no meta")
  end.

(** [util.UpdateClusterConditions(&kcluster.Status, ...)], which reads the clock
    twice. *)
Definition update_condition (t : ClusterConditionType) (s : ConditionStatus)
    (reason message : string) : M unit :=
  t1 ← now; t2 ← now;
  modify_status (λ st, UpdateClusterConditions t1 t2 st t s reason message).

Definition GenOwnerReference cc (obj : ObjectMeta) : OwnerReference := {|
  or_APIVersion := ci_APIGroupVersion (cc_Controller cc);
  or_Kind := ci_Kind (cc_Controller cc);
  or_Name := om_Name obj;
  or_UID := om_UID obj;
  or_BlockOwnerDeletion := Some true;
  or_Controller := Some true |}.

Definition cc_GenLabels cc (clusterType : string) : gmap string string :=
  let clusterType := ReplaceAllChar slash dash clusterType in
  {[ ControllerNameLabel := ci_ControllerName (cc_Controller cc); ClusterNameLabel := clusterType ]}.

(** ** pod.go *)

(** The loop over the replica specs stops at the first other scheduler; a nil
    spec panics. *)
Fixpoint isCustomSchedulerSet (entries : list (string * option ReplicaSpec))
    (gangSchedulerName : string) : res bool :=
  match entries with
  | [] => Ok false
  | (_, spec) :: entries =>
      let! spec := deref spec in
      let name := ps_SchedulerName (pt_Spec (r_Template spec)) in
      if negb (bool_decide (name = "")) && negb (bool_decide (name = gangSchedulerName))
      then Ok true
      else isCustomSchedulerSet entries gangSchedulerName
  end.

(** The labels of the pod of an index. *)
Definition pod_labels cc (kcluster : KubeCluster) (rType : ReplicaType) (index : Z)
    (controller : bool) : gmap string string :=
  let labels := cc_GenLabels cc (om_Name (kc_Meta kcluster)) in
  let labels := SetReplicaType labels (GenReplicaTypeLabel rType) in
  let labels := SetReplicaIndex labels index in
  let labels := SetClusterType labels (sp_ClusterType (kc_Spec kcluster)) in
  if controller then SetClusterRole labels "controller" else labels.

(** The template of the spec with the pod's name and labels. *)
Definition named_template cc (kcluster : KubeCluster) (rType : ReplicaType) (index : Z)
    (spec : ReplicaSpec) (controller : bool) : PodTemplateSpec :=
  let labels := pod_labels cc kcluster rType index controller in
  PodTemplateSpec_map_Meta (λ m,
    om_set_Labels (foldl (λ ls kv, <[kv.1 := kv.2]> ls) (om_Labels m) (range 0 labels))
      (om_set_Name (GenGeneralName (om_Name (kc_Meta kcluster)) rType (Itoa index)) m))
    (r_Template spec).

Definition restart_policy_msg : string :=
  "Restart policy in pod template will be overwritten by restart policy in replica spec".
Definition scheduler_msg : string :=
  "Another scheduler is specified when gang-scheduling is enabled and it will not be overwritten".

Definition CreateNewPod cc (rType : ReplicaType) (index : Z) (spec : ReplicaSpec)
    (controller : bool) (replicas : gmap string (option ReplicaSpec)) (configMap : ConfigMap) :
    M unit :=
  kcluster ← get_kc;
  clusterKey ← KeyFunc;
  let podTemplate := named_template cc kcluster rType index spec controller in
  schemaReconciler ← schema_of cc (sp_ClusterType (kc_Spec kcluster));
  podTemplate ← sr_SetClusterSpec schemaReconciler kcluster podTemplate rType (Itoa index) configMap;
  _ ← when (negb (bool_decide (ps_RestartPolicy (pt_Spec podTemplate) = "")))
        (record_event EventWarning "SettedPodTemplateRestartPolicy" restart_policy_msg);
  let podTemplate := SetRestartPolicy podTemplate spec in
  podTemplate ←
    (if EnableGangScheduling cc then
       pgctl ← lift (deref (cc_PodGroupControl cc));
       entries ← range_of replicas;
       custom ← lift (isCustomSchedulerSet entries (GetSchedulerName pgctl));
       _ ← when custom (record_event EventWarning "SettedPodTemplateSchedulerName" scheduler_msg);
       mret (DecoratePodTemplateSpec pgctl podTemplate (kc_Meta kcluster) rType)
     else mret podTemplate);
  let expectationPodsKey := GenExpectationPodsKey clusterKey rType in
  _ ← sr_RaiseExpectations schemaReconciler expectationPodsKey 1 0;
  let controllerRef := GenOwnerReference cc (kc_Meta kcluster) in
  r ← try (CreatePodsWithControllerRef (cc_PodControl cc) (om_Namespace (kc_Meta kcluster))
             podTemplate (Some controllerRef));
  match r with
  | inl err =>
      if IsTimeout err then mret tt
      else _ ← sr_CreationObserved schemaReconciler expectationPodsKey; fail err
  | inr _ => inc "created_pods_total"
  end.

(** ** service.go *)

Definition service_labels (kcluster : KubeCluster) (rtype : ReplicaType) (index : string) :
    gmap string string :=
  let labels := GenLabels ControllerName (om_Name (kc_Meta kcluster)) in
  let labels := SetReplicaType labels (GenReplicaTypeLabel rtype) in
  let labels := SetReplicaIndexStr labels index in
  SetClusterType labels (sp_ClusterType (kc_Spec kcluster)).

Definition CreateNewService cc (rtype : ReplicaType) (spec : ReplicaSpec) (index : string)
    (defaultContainerName : string) (expectations : ClusterSchemaReconciler) : M unit :=
  kcluster ← get_kc;
  clusterKey ← KeyFunc;
  let labels := service_labels kcluster rtype index in
  ports ← lift (GetPortsFromCluster spec defaultContainerName);
  entries ← range_of ports;
  let service := {|
    svc_Meta := om_set_Labels labels
      (om_set_Name (GenGeneralName (om_Name (kc_Meta kcluster)) rtype index) ObjectMeta_zero);
    svc_ClusterIP := "None";
    svc_Selector := labels;
    svc_Ports := (λ kv, {| sp_Name := kv.1; sp_Port := kv.2 |}) <$> entries |} in
  let controllerRef := GenOwnerReference cc (kc_Meta kcluster) in
  let expectationServicesKey := GenExpectationServicesKey clusterKey rtype in
  _ ← sr_RaiseExpectations expectations expectationServicesKey 1 0;
  r ← try (CreateServicesWithControllerRef (cc_ServiceControl cc) (om_Namespace (kc_Meta kcluster))
             service (Some controllerRef));
  match r with
  | inl err =>
      if IsTimeout err then inc "succeeded_service_creation_total"
      else
        _ ← sr_CreationObserved expectations expectationServicesKey;
        _ ← inc "failed_service_creation_total";
        fail err
  | inr _ => inc "succeeded_service_creation_total"
  end.

(** The exit code of the main container, of the first status that has one. *)
Definition exit_status (pod : Pod) : option Z :=
  ct_ExitCode <$> (list_find (λ s, cs_Name s = ClusterDefaultContainerName ∧ is_Some (cs_Terminated s))
                     (pst_ContainerStatuses (pod_Status pod)) ≫= λ p, cs_Terminated p.2).

Definition exited_msg (pod : Pod) (exitCode : Z) : string :=
  "Pod: " +:+ om_Namespace (pod_Meta pod) +:+ "." +:+ om_Name (pod_Meta pod)
  +:+ " exited with code " +:+ Itoa exitCode.

(** 0xbeef *)
Definition no_exit_code : Z := 48879.

Definition restart_needed (spec : ReplicaSpec) (pod : Pod) (exitCode : Z) : bool :=
  bool_decide (pst_Phase (pod_Status pod) = PodFailed) &&
  ((bool_decide (r_RestartPolicy spec = RestartPolicyExitCode) && IsRetryableExitCode exitCode) ||
   bool_decide (r_RestartPolicy spec = RestartPolicyOnFailure) ||
   bool_decide (r_RestartPolicy spec = RestartPolicyAlways)).

(** The branch of a slice with one pod. *)
Definition reconcile_one_pod cc (schemaReconciler : option ClusterSchemaReconciler) (rType : ReplicaType)
    (spec : ReplicaSpec) (numReplicas : Z) (expectationPodsKey : string) (index : Z) (pod : Pod) :
    M unit :=
  let clusterKind := ci_Kind (cc_Controller cc) in
  let ns := om_Namespace (pod_Meta pod) in
  let name := om_Name (pod_Meta pod) in
  _ ← when (bool_decide (index < 0) || bool_decide (numReplicas ≤ index))
        (_ ← DeletePod (cc_PodControl cc) ns name;
         schemaReconciler ← lift (deref schemaReconciler);
         sr_RaiseExpectations schemaReconciler expectationPodsKey 0 1);
  let exitCode := default no_exit_code (exit_status pod) in
  _ ← (match exit_status pod with
       | Some code => record_event EventNormal "ExitedWithCode" (exited_msg pod code)
       | None => mret tt
       end);
  _ ← when (restart_needed spec pod exitCode)
        (_ ← inc "failed_pods_total";
         _ ← DeletePod (cc_PodControl cc) ns name;
         schemaReconciler ← lift (deref schemaReconciler);
         _ ← sr_RaiseExpectations schemaReconciler expectationPodsKey 0 1;
         kcluster ← get_kc;
         let msg := "cluster " +:+ om_Name (kc_Meta kcluster) +:+ " is restarting because "
                    +:+ rType +:+ " replica(s) failed." in
         let reason := NewReason clusterKind ClusterRestartingReason in
         _ ← record_event EventWarning reason msg;
         _ ← update_condition ClusterRestarting ConditionTrue reason msg;
         RestartedClustersCounterInc (om_Namespace (kc_Meta kcluster)) (sp_ClusterType (kc_Spec kcluster)));
  kcluster ← get_kc;
  st ← lift (UpdateClusterReplicaStatuses (kc_Status kcluster) rType pod);
  modify_status (λ _, st).

Definition reconcile_pod_slice cc (schemaReconciler : option ClusterSchemaReconciler) (rType : ReplicaType)
    (spec : ReplicaSpec) (numReplicas : Z) (configMap : ConfigMap) (expectationPodsKey : string)
    (slice : nat * list Pod) : M unit :=
  let index := Z.of_nat slice.1 in
  match slice.2 with
  | [] =>
      kcluster ← get_kc;
      let replicas := sp_ClusterReplicaSpec (kc_Spec kcluster) in
      schemaReconciler ← lift (deref schemaReconciler);
      let controllerRole := sr_IsController schemaReconciler replicas rType index in
      CreateNewPod cc rType index spec controllerRole replicas configMap
  | [pod] => reconcile_one_pod cc schemaReconciler rType spec numReplicas expectationPodsKey index pod
  | _ => mret tt
  end.

(** The elements of a slice with their indexes. *)
Definition indexed {A} (l : list A) : list (nat * A) := imap pair l.

Definition ReconcilePods cc (rType : ReplicaType) (spec : option ReplicaSpec) (pods : list Pod)
    (configMap : ConfigMap) : M unit :=
  clusterKey ← KeyFunc;
  let expectationPodsKey := GenExpectationPodsKey clusterKey rType in
  pods ← lift (FilterPodsForReplicaType pods (GenReplicaTypeLabel rType));
  spec ← lift (deref spec);
  numReplicas ← lift (deref (r_Replicas spec));
  _ ← modify_status (λ st, InitializeReplicaStatuses st rType);
  kcluster ← get_kc;
  let schemaReconciler := GetSchemaReconciler cc (sp_ClusterType (kc_Spec kcluster)) in
  podSlices ← lift (GetPodSlices pods numReplicas);
  for_each (indexed podSlices)
    (reconcile_pod_slice cc schemaReconciler rType spec numReplicas configMap expectationPodsKey).

Definition reconcile_service_slice cc (schemaReconciler : option ClusterSchemaReconciler)
    (rtype : ReplicaType) (spec : ReplicaSpec) (replicas : Z) (slice : nat * list Service) : M unit :=
  let index := Z.of_nat slice.1 in
  match slice.2 with
  | [] =>
      schemaReconciler ← lift (deref schemaReconciler);
      CreateNewService cc rtype spec (Itoa index) (sr_GetDefaultContainerName schemaReconciler)
        schemaReconciler
  | [svc] =>
      when (bool_decide (index < 0) || bool_decide (replicas ≤ index))
        (DeleteService (cc_ServiceControl cc) (om_Namespace (svc_Meta svc)) (om_Name (svc_Meta svc)))
  | _ => mret tt
  end.

Definition ReconcileServices cc (rtype : ReplicaType) (spec : option ReplicaSpec)
    (services : list Service) : M unit :=
  spec ← lift (deref spec);
  replicas ← lift (deref (r_Replicas spec));
  services ← lift (FilterServicesForReplicaType services (GenReplicaTypeLabel rtype));
  kcluster ← get_kc;
  let schemaReconciler := GetSchemaReconciler cc (sp_ClusterType (kc_Spec kcluster)) in
  serviceSlices ← lift (ci_GetServiceSlices (cc_Controller cc) services replicas);
  for_each (indexed serviceSlices) (reconcile_service_slice cc schemaReconciler rtype spec replicas).

(** ** configmap.go *)

Definition CreateNewConfigMap cc (expectations : option ClusterSchemaReconciler) : M ConfigMap :=
  kcluster ← get_kc;
  clusterKey ← KeyFunc;
  let controllerRef := GenOwnerReference cc (kc_Meta kcluster) in
  let expectationConfigmapsKey := GenExpectationConfigMapKey clusterKey in
  expectations ← lift (deref expectations);
  _ ← sr_RaiseExpectations expectations expectationConfigmapsKey 1 0;
  let configMap := {|
    cm_Meta := om_set_Name (om_Name (kc_Meta kcluster)) ObjectMeta_zero;
    cm_Data := ∅; cm_BinaryData := ∅ |} in
  r ← try (CreateConfigMapWithControllerRef (cc_ConfigMapControl cc)
             (om_Namespace (kc_Meta kcluster)) configMap (Some controllerRef));
  match r with
  | inl err =>
      if IsTimeout err then _ ← inc "succeeded_configmap_creation_total"; mret configMap
      else
        _ ← sr_CreationObserved expectations expectationConfigmapsKey;
        _ ← inc "failed_configmap_creation_total";
        fail err
  | inr created => _ ← inc "succeeded_configmap_creation_total"; mret created
  end.

Definition ReconcileConfigMap cc : M ConfigMap :=
  found ← ci_GetConfigMapForCluster (cc_Controller cc);
  kcluster ← get_kc;
  let schemaReconciler := GetSchemaReconciler cc (sp_ClusterType (kc_Spec kcluster)) in
  configMap ← (match found with
               | Some configMap => mret configMap
               | None => CreateNewConfigMap cc schemaReconciler
               end);
  schemaReconciler ← lift (deref schemaReconciler);
  deepCopy ← sr_ReconcileConfigMap schemaReconciler configMap;
  if decide (cm_Data deepCopy = cm_Data configMap) then mret deepCopy
  else ci_UpdateConfigMapInApiServer (cc_Controller cc) deepCopy.

(** ** scheduling.go *)

(** The pod group, nil in some branches, and the error. Comparing the pod group
    with a pointer to the variable that holds it, [cmp.Diff] always reports a
    difference: an existing pod group is always updated. *)
Definition SyncPodGroup cc (specFunc : PodGroup → res PodGroup) : M (option PodGroup * option error) :=
  kcluster ← get_kc;
  let cluster := kc_Meta kcluster in
  pgctl ← lift (deref (cc_PodGroupControl cc));
  r ← try (GetPodGroup pgctl (om_Namespace cluster) (om_Name cluster));
  match r with
  | inr podGroup =>
      filled ← try (lift (specFunc podGroup));
      match filled with
      | inl err =>
          mret (None, Some (EText ("unable to fill the spec of PodGroup, '"
                                   +:+ KObj (pg_meta podGroup) +:+ "': " +:+ err_string err)))
      | inr podGroup =>
          u ← try (UpdatePodGroup pgctl podGroup);
          mret (Some podGroup, match u with inl err => Some err | inr _ => None end)
      end
  | inl err =>
      if negb (IsNotFound err) then
        mret (None, Some (EText ("unable to get a PodGroup: " +:+ err_string err)))
      else
        let newPodGroup := pg_set_meta
          {| om_Name := om_Name cluster; om_Namespace := om_Namespace cluster; om_UID := "";
             om_ResourceVersion := ""; om_Labels := ∅; om_Annotations := om_Annotations cluster;
             om_Finalizers := []; om_OwnerReferences := [GenOwnerReference cc cluster];
             om_CreationTimestamp := 0; om_DeletionTimestamp := None |} (NewEmptyPodGroup pgctl) in
        filled ← try (lift (specFunc newPodGroup));
        match filled with
        | inl err =>
            mret (None, Some (EText ("unable to fill the spec of PodGroup, '"
                                     +:+ KObj (pg_meta newPodGroup) +:+ "': " +:+ err_string err)))
        | inr newPodGroup =>
            c ← try (CreatePodGroup pgctl newPodGroup);
            match c with
            | inl err => mret (None, Some (EText ("unable to create PodGroup: " +:+ err_string err)))
            | inr _ =>
                _ ← inc "created_pod_groups_total";
                g ← try (GetPodGroup pgctl (om_Namespace cluster) (om_Name cluster));
                match g with
                | inl err =>
                    mret (None, Some (EText ("unable to get PodGroup after success creation: "
                                             +:+ err_string err)))
                | inr created => mret (Some created, None)
                end
            end
        end
  end.

Definition cc_DeletePodGroup cc : M unit :=
  kcluster ← get_kc;
  let cluster := kc_Meta kcluster in
  pgctl ← lift (deref (cc_PodGroupControl cc));
  r ← try (GetPodGroup pgctl (om_Namespace cluster) (om_Name cluster));
  if (match r with inl err => IsNotFound err | inr _ => false end) then mret tt
  else
    d ← try (DeletePodGroup pgctl (om_Namespace cluster) (om_Name cluster));
    match d with
    | inl err => fail (EText ("unable to delete PodGroup: " +:+ err_string err))
    | inr _ => inc "deleted_pod_groups_total"
    end.

(** The disruption budget, which may be the one found, and the error. *)
Definition SyncPdb cc (minAvailableReplicas : Z) : M (option PodDisruptionBudget * option error) :=
  k ← get_kc;
  let kcluster := kc_Meta k in
  r ← try (api (GetPdb (om_Namespace kcluster) (om_Name kcluster)));
  match r with
  | inr pdb => mret (Some pdb, Some (EText "AlreadyExists"))
  | inl err =>
      if negb (IsNotFound err) then mret (None, Some err)
      else
        let createPdb := {|
          pdb_Meta := om_set_OwnerReferences [GenOwnerReference cc kcluster]
                        (om_set_Name (om_Name kcluster) ObjectMeta_zero);
          pdb_MinAvailable := minAvailableReplicas;
          pdb_Selector := {[ ClusterNameLabel := om_Name kcluster ]} |} in
        c ← try (api (CreatePdbReq (om_Namespace kcluster) createPdb));
        match c with
        | inl err => mret (None, Some (EText ("unable to create pdb: " +:+ err_string err)))
        | inr created => _ ← inc "created_pod_disruption_policies_total"; mret (Some created, None)
        end
  end.

Definition DeletePdb cc : M unit :=
  k ← get_kc;
  let cluster := kc_Meta k in
  r ← try (api (GetPdb (om_Namespace cluster) (om_Name cluster)));
  if (match r with inl err => IsNotFound err | inr _ => false end) then mret tt
  else
    d ← try (api (DeletePdbReq (om_Namespace cluster) (om_Name cluster)));
    match d with
    | inl err => fail (EText ("unable to delete pdb: " +:+ err_string err))
    | inr _ => inc "deleted_pod_disruption_policies_total"
    end.
End controller.

(** ** controller.go *)

Section reconcile.
Context {K : K8s} {ES : ExpStore} {AS : ApiServer} {RT : GoRuntime}.
Implicit Types (cc : ClusterController).

Definition calcPGMinResources cc (minMember : Z) (replicas : gmap string (option ReplicaSpec)) :
    res ResourceList :=
  CalcPGMinResources minMember replicas (cc_PriorityClassLister cc).

(** The errors are only logged by the caller; formatting a second error into
    a nil first one panics. *)
Definition reset_type (s : ClusterSchemaReconciler) (clusterKey : string)
    (allErrs : option error) (rtype : ReplicaType) : M (option error) :=
  r1 ← try (sr_SetExpectations s (GenExpectationPodsKey clusterKey rtype) 0 0);
  let allErrs := match r1 with inl err => Some err | inr _ => allErrs end in
  r2 ← try (sr_SetExpectations s (GenExpectationServicesKey clusterKey rtype) 0 0);
  match r2 with
  | inl err =>
      prev ← lift (deref allErrs);
      mret (Some (EText (err_string prev +:+ ": " +:+ err_string err)))
  | inr _ => mret allErrs
  end.

Fixpoint reset_types (s : ClusterSchemaReconciler) (clusterKey : string)
    (allErrs : option error) (rtypes : list ReplicaType) : M (option error) :=
  match rtypes with
  | [] => mret allErrs
  | rtype :: rtypes =>
      allErrs ← reset_type s clusterKey allErrs rtype;
      reset_types s clusterKey allErrs rtypes
  end.

Definition ResetExpectations (clusterKey : string) (replicas : gmap string (option ReplicaSpec))
    (reconciler : ClusterSchemaReconciler) : M (option error) :=
  entries ← range_of replicas;
  reset_types reconciler clusterKey None entries.*1.

(** The policies are only read when the cluster is finished; a nil policy panics
    then. *)
Definition clean_policy_is (runPolicy : RunPolicy) (clusterStatus : ClusterStatus)
    (p : CleanKubeNodePolicy) : res bool :=
  if IsFinished clusterStatus then
    let! policy := deref (rp_CleanKubeNodePolicy runPolicy) in Ok (bool_decide (policy = p))
  else Ok false.

Definition delete_pod_and_service cc (runPolicy : RunPolicy) (clusterStatus : ClusterStatus)
    (pod : Pod) : M unit :=
  running_only ← lift (clean_policy_is runPolicy clusterStatus CleanKubeNodePolicyRunning);
  if running_only &&
     negb (bool_decide (pst_Phase (pod_Status pod) = PodRunning)) &&
     negb (bool_decide (pst_Phase (pod_Status pod) = PodPending))
  then mret tt
  else
    let ns := om_Namespace (pod_Meta pod) in
    let name := om_Name (pod_Meta pod) in
    _ ← DeletePod (cc_PodControl cc) ns name;
    _ ← DeleteService (cc_ServiceControl cc) ns name;
    DeletePod (cc_PodControl cc) ns name.

Definition DeletePodAndServices cc (runPolicy : RunPolicy) (clusterStatus : ClusterStatus)
    (pods : list Pod) : M unit :=
  if decide (length pods = 0%nat) then mret tt
  else
    none ← lift (clean_policy_is runPolicy clusterStatus CleanKubeNodePolicyNone);
    if (none : bool) then mret tt
    else for_each pods (delete_pod_and_service cc runPolicy clusterStatus).

Definition CleanupCluster cc (runPolicy : RunPolicy) (clusterStatus : ClusterStatus) : M unit :=
  currentTime ← now;
  match rp_TTLSecondsAfterFinished runPolicy with
  | None => mret tt
  | Some ttl =>
      let duration := int64 (Second * ttl) in
      match st_CompletionTime clusterStatus with
      | None => fail (EText "job completion time is nil, cannot cleanup")
      | Some finishTime =>
          let expireTime := finishTime + duration in
          if decide (currentTime > expireTime) then
            r ← try (ci_DeleteCluster (cc_Controller cc));
            match r with
            | inl err =>
                _ ← record_event EventWarning "FailedDeleteKubeCluster" (err_string err);
                fail err
            | inr _ => mret tt
            end
          else
            let remaining := time_Sub expireTime currentTime in
            key ← KeyFunc;
            wq_AddAfter (cc_WorkQueue cc) key remaining
      end
  end.

(** Deleting the pod group, with its events: the same lines in two places. *)
Definition terminate_pod_group cc : M unit :=
  _ ← record_event EventNormal "ClusterTerminated"
        "Kube cluster has been terminated. Deleting PodGroup";
  r ← try (cc_DeletePodGroup cc);
  match r with
  | inl err =>
      _ ← record_event EventWarning "FailedDeletePodGroup" ("Error deleting: " +:+ err_string err);
      fail err
  | inr _ =>
      kcluster ← get_kc;
      record_event EventNormal "SuccessfulDeletePodGroup"
        ("Deleted PodGroup: " +:+ om_Name (kc_Meta kcluster))
  end.

Definition CleanUpResources cc (runPolicy : RunPolicy) (clusterStatus : ClusterStatus)
    (pods : list Pod) : M unit :=
  _ ← DeletePodAndServices cc runPolicy clusterStatus pods;
  kcluster ← get_kc;
  _ ← DeleteConfigMap (cc_ConfigMapControl cc) (om_Namespace (kc_Meta kcluster))
        (om_Name (kc_Meta kcluster));
  _ ← when (EnableGangScheduling cc) (terminate_pod_group cc);
  CleanupCluster cc runPolicy clusterStatus.

(** ** [ReconcileKubeCluster], in its parts *)

Definition zero_active (s : ReplicaStatus) : ReplicaStatus :=
  {| rs_Active := 0; rs_Activating := 0; rs_Failed := rs_Failed s; rs_Selector := rs_Selector s |}.

(** The suspended branch. *)
Definition reconcile_suspended cc (runPolicy : RunPolicy) (oldStatus : ClusterStatus)
    (pods : list Pod) : M unit :=
  kcluster ← get_kc;
  let clusterName := om_Name (kc_Meta kcluster) in
  let clusterKind := ci_Kind (cc_Controller cc) in
  _ ← CleanUpResources cc runPolicy (kc_Status kcluster) pods;
  _ ← modify_status (λ st, Status_set_ReplicaStatuses (zero_active <$> st_ReplicaStatuses st) st);
  let msg := clusterKind +:+ " " +:+ clusterName +:+ " is suspended." in
  let reason := NewReason clusterKind ClusterSuspendedReason in
  kcluster ← get_kc;
  _ ← when (IsRunning (kc_Status kcluster)) (update_condition ClusterRunning ConditionFalse reason msg);
  kcluster ← get_kc;
  _ ← when (negb (IsSuspended (kc_Status kcluster)))
        (update_condition ClusterSuspended ConditionTrue reason msg);
  _ ← record_event EventNormal reason msg;
  kcluster ← get_kc;
  if decide (oldStatus = kc_Status kcluster) then mret tt
  else ci_UpdateClusterStatusInApiServer (cc_Controller cc).

(** A cluster that was suspended and is no longer. *)
Definition reconcile_resumed cc : M unit :=
  kcluster ← get_kc;
  let clusterKind := ci_Kind (cc_Controller cc) in
  when (IsSuspended (kc_Status kcluster))
    (let msg := clusterKind +:+ " " +:+ om_Name (kc_Meta kcluster) +:+ " is resumed." in
     _ ← update_condition ClusterSuspended ConditionFalse
           (NewReason clusterKind ClusterSuspendedReason) msg;
     t ← now;
     _ ← modify_status (Status_set_StartTime (Some t));
     record_event EventNormal (NewReason clusterKind ClusterResumedReason) msg).

(** The checks of the backoff limit and of the active deadline: the failure
    message, if a limit is exceeded. *)
Definition exceeded_limit cc (runPolicy : RunPolicy) (clusterKey : string) (pods : list Pod)
    (totalReplicas : Z) : M (option string) :=
  kcluster ← get_kc;
  let clusterName := om_Name (kc_Meta kcluster) in
  let activePods := FilterActivePods pods in
  let active := int32 (Z.of_nat (length activePods)) in
  let failed := FilterPodCount pods PodFailed in
  let previousRetry := wq_NumRequeues (cc_WorkQueue cc) clusterKey in
  statuses ← range_of (st_ReplicaStatuses (kc_Status kcluster));
  let prevReplicasFailedNum := GetTotalFailedReplicas statuses in
  exceeds ←
    (match rp_BackoffLimit runPolicy with
     | None => mret false
     | Some backoffLimit =>
         let clusterHasNewFailure := bool_decide (failed > prevReplicasFailedNum) in
         let exceedsBackoffLimit :=
           clusterHasNewFailure && negb (bool_decide (active = totalReplicas)) &&
           bool_decide (int32 (int32 previousRetry + 1) > backoffLimit) in
         entries ← range_of (sp_ClusterReplicaSpec (kc_Spec kcluster));
         pastBackoffLimit ← lift (PastBackoffLimit runPolicy entries pods FilterPodsForReplicaType);
         mret (exceedsBackoffLimit || pastBackoffLimit)
     end);
  if (exceeds : bool) then
    mret (Some ("KubeCLuster " +:+ clusterName
                +:+ " has failed because it has reached the specified backoff limit"))
  else
    t ← (if rp_ActiveDeadlineSeconds runPolicy is Some _ then
           if st_StartTime (kc_Status kcluster) is Some _ then now else mret 0
         else mret 0);
    if PastActiveDeadline t runPolicy (kc_Status kcluster) then
      mret (Some ("KubeCLuster " +:+ clusterName
                  +:+ " has failed because it was active longer than specified deadline"))
    else mret None.

(** The branch of an exceeded limit. *)
Definition reconcile_exceeded cc (runPolicy : RunPolicy) (failureMessage : string)
    (pods : list Pod) : M unit :=
  let clusterKind := ci_Kind (cc_Controller cc) in
  kcluster ← get_kc;
  _ ← DeletePodAndServices cc runPolicy (kc_Status kcluster) pods;
  _ ← CleanupCluster cc runPolicy (kc_Status kcluster);
  _ ← when (EnableGangScheduling cc) (terminate_pod_group cc);
  let reason := NewReason clusterKind ClusterFailedReason in
  _ ← record_event EventNormal reason failureMessage;
  _ ← update_condition ClusterFailed ConditionTrue reason failureMessage;
  ci_UpdateClusterStatusInApiServer (cc_Controller cc).

(** [pgSpecFill]: the spec of the pod group of the configured scheduler. *)
Definition pgSpecFill cc (minMember : Z) (queue priorityClass : string) (minResources : ResourceList)
    (schedulerTimeout : option Z) (pg : PodGroup) : res PodGroup :=
  if decide (cc_GangScheduling cc = GangSchedulerVolcano) then
    match pg with
    | VolcanoPodGroup m _ phase =>
        Ok (VolcanoPodGroup m {| vpg_MinMember := minMember; vpg_Queue := queue;
              vpg_PriorityClassName := priorityClass; vpg_MinResources := minResources |} phase)
    | _ => Err (EText ("unable to recognize PodGroup: " +:+ KObj (pg_meta pg)))
    end
  else
    match pg with
    | SchedulerPluginsPodGroup m _ =>
        Ok (SchedulerPluginsPodGroup m {| spg_MinMember := minMember;
              spg_MinResources := minResources; spg_ScheduleTimeoutSeconds := schedulerTimeout |})
    | _ => Err (EText ("unable to recognize PodGroup: " +:+ KObj (pg_meta pg)))
    end.

(** Gang scheduling: whether the replicas are to be synced. *)
Definition sync_gang cc (runPolicy : RunPolicy) (totalReplicas : Z) : M bool :=
  kcluster ← get_kc;
  let policy := rp_SchedulingPolicy runPolicy in
  let minMember := default totalReplicas (policy ≫= sp_MinAvailable) in
  let queue := from_option sp_Queue "" policy in
  let priorityClass := from_option sp_PriorityClass "" policy in
  let schedulerTimeout := policy ≫= sp_ScheduleTimeoutSeconds in
  minResources ←
    (match policy ≫= sp_MinResources with
     | Some mr => mret mr
     | None => lift (calcPGMinResources cc minMember (sp_ClusterReplicaSpec (kc_Spec kcluster)))
     end);
  r ← SyncPodGroup cc (pgSpecFill cc minMember queue priorityClass minResources schedulerTimeout);
  pgctl ← lift (deref (cc_PodGroupControl cc));
  delay ← lift (DelayPodCreationDueToPodGroup pgctl r.1);
  mret (bool_decide (r.2 = None) && negb delay).

(** [reflect.DeepEqual] of a struct and a pointer: values of distinct types are
    never deeply equal. *)
Definition DeepEqual_struct_pointer {A} (x y : A) : bool := false.

(** The loop over the replica types. *)
Definition reconcile_replicas cc (pods : list Pod) (services : list Service) (configMap : ConfigMap) :
    M unit :=
  kcluster ← get_kc;
  entries ← range_of (sp_ClusterReplicaSpec (kc_Spec kcluster));
  for_each entries (λ entry,
    _ ← ReconcilePods cc entry.1 entry.2 pods configMap;
    ReconcileServices cc entry.1 entry.2 services).

(** The general case: config map, replicas, status. *)
Definition reconcile_general cc (schemaReconciler : ClusterSchemaReconciler)
    (oldStatus : ClusterStatus) (pods : list Pod) (services : list Service) : M unit :=
  configMap ← ReconcileConfigMap cc;
  _ ← reconcile_replicas cc pods services configMap;
  _ ← ci_UpdateClusterStatus (cc_Controller cc) (cc_SchemaReconcilerManager cc);
  kcluster ← get_kc;
  if negb (DeepEqual_struct_pointer oldStatus (kc_Status kcluster)) then
    ci_UpdateClusterStatusInApiServer (cc_Controller cc)
  else
    configMapDeepCopy ← sr_UpdateConfigMap schemaReconciler configMap;
    if decide (cm_Data configMapDeepCopy = cm_Data configMap) then mret tt
    else _ ← ci_UpdateConfigMapInApiServer (cc_Controller cc) configMapDeepCopy; mret tt.

(** After the finished and suspended cases. *)
Definition reconcile_active cc (schemaReconciler : ClusterSchemaReconciler) (runPolicy : RunPolicy)
    (clusterKey : string) (oldStatus : ClusterStatus) (pods : list Pod) (services : list Service) :
    M unit :=
  _ ← reconcile_resumed cc;
  _ ← record_events (RecordAbnormalPods (FilterActivePods pods));
  kcluster ← get_kc;
  entries ← range_of (sp_ClusterReplicaSpec (kc_Spec kcluster));
  totalReplicas ← lift (GetTotalReplicas entries);
  exceeded ← exceeded_limit cc runPolicy clusterKey pods totalReplicas;
  match exceeded with
  | Some failureMessage => reconcile_exceeded cc runPolicy failureMessage pods
  | None =>
      syncReplicas ← (if EnableGangScheduling cc then sync_gang cc runPolicy totalReplicas
                      else mret true);
      if (syncReplicas : bool) then
        reconcile_general cc schemaReconciler oldStatus pods services
      else
        t ← now;
        _ ← modify_status (Status_set_LastReconcileTime (Some t));
        ci_UpdateClusterStatusInApiServer (cc_Controller cc)
  end.

Definition ReconcileKubeCluster cc (schemaReconciler : ClusterSchemaReconciler) : M unit :=
  kcluster ← get_kc;
  let runPolicy := sp_RunPolicy (kc_Spec kcluster) in
  clusterKey ← KeyFunc;
  _ ← ResetExpectations clusterKey (sp_ClusterReplicaSpec (kc_Spec kcluster)) schemaReconciler;
  pods ← ci_GetPodsForCluster (cc_Controller cc);
  services ← ci_GetServicesForCluster (cc_Controller cc);
  kcluster ← get_kc;
  if IsFinished (kc_Status kcluster) then
    CleanUpResources cc runPolicy (kc_Status kcluster) pods
  else
    let oldStatus := kc_Status kcluster in
    if IsClusterSuspended (Some runPolicy) then reconcile_suspended cc runPolicy oldStatus pods
    else reconcile_active cc schemaReconciler runPolicy clusterKey oldStatus pods services.
End reconcile.
