(* ===== verification/Reconciler.v ===== *)
(** * The KubeCluster reconciler

    pkg/controller/cluster_controller.go, with ClearGeneratedFields of
    pkg/common/update.go. The methods the generic controller calls through
    [ControllerInterface] come first; [NewReconciler] ties the two together and
    [Reconcile] is the entry point of a reconciliation. *)

From S2P Require Import Prelude K8s Api Defaults Names Status Expectations Core World Control.
From S2P Require Import Schema Controller.

Section reconciler.
Context {K : K8s} {ES : ExpStore} {AS : ApiServer} {RT : GoRuntime}.

(** pkg/common/update.go *)
Definition ClearGeneratedFields (m : ObjectMeta) : ObjectMeta := {|
  om_Name := om_Name m; om_Namespace := om_Namespace m; om_UID := "";
  om_ResourceVersion := om_ResourceVersion m; om_Labels := om_Labels m;
  om_Annotations := om_Annotations m; om_Finalizers := om_Finalizers m;
  om_OwnerReferences := om_OwnerReferences m; om_CreationTimestamp := 0;
  om_DeletionTimestamp := om_DeletionTimestamp m |}.

(** Through the pointer to the KubeCluster. *)
Definition clear_kc : M unit :=
  k ← get_kc; set_kc (KubeCluster_set_Meta (ClearGeneratedFields (kc_Meta k)) k).

Definition GetClusterFromInformerCache (namespace name : string) : M KubeCluster :=
  api (GetKubeCluster namespace name).

(** The status is that of the KubeCluster itself, so the two are always equal;
    a successful update writes the server's object through the pointer. *)
Definition UpdateClusterStatusInApiServer : M unit :=
  _ ← clear_kc;
  kcluster ← get_kc;
  updated ← api (UpdateKubeClusterStatus kcluster);
  set_kc updated.

Definition UpdateClusterStatus (workQueue : RateLimitingInterface)
    (schemas : gmap string ClusterSchemaReconciler) : M unit :=
  kcluster ← get_kc;
  clusterKey ← KeyFunc;
  _ ← (match st_StartTime (kc_Status kcluster) with
       | Some _ => mret tt
       | None =>
           t ← now;
           _ ← modify_status (Status_set_StartTime (Some t));
           match rp_ActiveDeadlineSeconds (sp_RunPolicy (kc_Spec kcluster)) with
           | Some secs => wq_AddAfter workQueue clusterKey (int64 (secs * Second))
           | None => mret tt
           end
       end);
  entries ← range_of (sp_ClusterReplicaSpec (kc_Spec kcluster));
  for_each entries (λ entry,
    schemaReconciler ← lift (deref (schemas !! sp_ClusterType (kc_Spec kcluster)));
    sr_UpdateClusterStatus schemaReconciler entry.1 entry.2).

Definition UpdateConfigMapInApiServer (configMapControl : ConfigMapControlInterface)
    (configMap : ConfigMap) : M ConfigMap :=
  _ ← clear_kc;
  kcluster ← get_kc;
  UpdateConfigMap configMapControl (om_Namespace (kc_Meta kcluster)) configMap.

(** [metav1.LabelSelectorAsSelector] fails on label values that are not valid:
    [valid] is that check. *)
Definition cluster_selector (kcluster : KubeCluster) : gmap string string :=
  GenLabels ControllerName (om_Name (kc_Meta kcluster)).

Definition GetPodsForCluster (valid : gmap string string → bool) : M (list Pod) :=
  kcluster ← get_kc;
  if negb (valid (cluster_selector kcluster)) then
    fail (EText "couldn't convert Cluster selector: invalid label value")
  else
    items ← api (ListPods (om_Namespace (kc_Meta kcluster)) (cluster_selector kcluster));
    mret (KubeClusterControlledPodList items (kc_Meta kcluster)).

Definition GetServicesForCluster (valid : gmap string string → bool) : M (list Service) :=
  kcluster ← get_kc;
  if negb (valid (cluster_selector kcluster)) then
    fail (EText "couldn't convert Cluster selector: invalid label value")
  else
    items ← api (ListServices (om_Namespace (kc_Meta kcluster)) (cluster_selector kcluster));
    mret (ConvertServiceList items).

Definition DeleteCluster : M unit :=
  kubecluster ← get_kc;
  let ns := om_Namespace (kc_Meta kubecluster) in
  let name := om_Name (kc_Meta kubecluster) in
  r ← try (api (DeleteKubeCluster ns name));
  match r with
  | inl err =>
      _ ← record_event EventWarning FailedDeletePodReason ("Error deleting: " +:+ err_string err);
      fail err
  | inr _ =>
      _ ← record_event EventNormal SuccessfulDeletePodReason ("Deleted cluster: " +:+ name);
      metrics_DeletedclustersCounterInc ns (sp_ClusterType (kc_Spec kubecluster))
  end.

(** The kind of an object read through the typed client is empty. *)
Definition resource_exists_msg (name : string) : string :=
  let dq := String "034"%char EmptyString in
  "Resource " +:+ dq +:+ name +:+ dq +:+ " of SlurmClusterClusterKind " +:+ dq +:+ dq
  +:+ " already exists and is not managed by SlurmClusterCluster".

Definition GetConfigMapForCluster : M (option ConfigMap) :=
  kcluster ← get_kc;
  r ← try (api (GetConfigMap (om_Namespace (kc_Meta kcluster)) (om_Name (kc_Meta kcluster))));
  match r with
  | inl err => if IsNotFound err then mret None else fail err
  | inr configMap =>
      if IsControlledBy (om_OwnerReferences (cm_Meta configMap)) (om_UID (kc_Meta kcluster)) then
        mret (Some configMap)
      else
        let msg := resource_exists_msg (om_Name (cm_Meta configMap)) in
        _ ← record_event EventWarning "ErrResourceExists" msg;
        fail (EText msg)
  end.

Definition GenLabelSelector (cc : ClusterController) (clusterName : string) (rtype : ReplicaType) :
    gmap string string :=
  <[ReplicaTypeLabel := GenReplicaTypeLabel rtype]> (cc_GenLabels cc clusterName).

Definition KubeCluster_GroupVersion : string := "kubecluster.org/v1alpha1".

(** [NewReconciler]: the clients are the API server of the world; the lister of
    priority classes reads the informer's store. No schema is registered yet. *)
Definition NewReconciler (valid : gmap string string → bool) (lister : string → option Z)
    (gangSchedulingSetupFunc : ClusterController → ClusterController) : ClusterController :=
  gangSchedulingSetupFunc {|
    cc_Controller := {|
      ci_ControllerName := ControllerName;
      ci_APIGroupVersion := KubeCluster_GroupVersion;
      ci_Kind := KubeClusterKind;
      ci_GetClusterFromInformerCache := GetClusterFromInformerCache;
      ci_GetPodsForCluster := GetPodsForCluster valid;
      ci_GetConfigMapForCluster := GetConfigMapForCluster;
      ci_GetServicesForCluster := GetServicesForCluster valid;
      ci_DeleteCluster := DeleteCluster;
      ci_UpdateClusterStatusInApiServer := UpdateClusterStatusInApiServer;
      ci_UpdateClusterStatus := UpdateClusterStatus FakeWorkQueue;
      ci_GetServiceSlices := GetServiceSlices;
      ci_GetGroupNameLabelValue := "kubecluster.org";
      ci_UpdateConfigMapInApiServer := UpdateConfigMapInApiServer RealConfigMapControl |};
    cc_GangScheduling := "";
    cc_SchemaReconcilerManager := ∅;
    cc_PodControl := RealPodControl;
    cc_ServiceControl := RealServiceControl;
    cc_ConfigMapControl := RealConfigMapControl;
    cc_PodGroupControl := None;
    cc_PriorityClassLister := lister;
    cc_WorkQueue := FakeWorkQueue |}.

(** ** Reconcile *)

(** [SatisfiedExpectations] of the schema's expectations, with the clock from
    now on. *)
Definition schema_satisfied (schemaReconciler : ClusterSchemaReconciler) (clusterKey : string)
    (replicaTypes : list ReplicaType) : M bool := λ w,
  (w, util_SatisfiedExpectations (λ n, clock (n + w_tick w)%nat)
        (default NewControllerExpectations (w_exp w !! sr_Name schemaReconciler))
        clusterKey replicaTypes).

(** The error of the key function is only logged: the key is then empty. *)
Definition needReconcile (schemaReconciler : ClusterSchemaReconciler) : M bool :=
  kcluster ← get_kc;
  let clusterKey := default "" (MetaNamespaceKeyFunc (kc_Meta kcluster)) in
  entries ← range_of (sp_ClusterReplicaSpec (kc_Spec kcluster));
  let replicaTypes := GetReplicaTypes entries in
  satisfied ← schema_satisfied schemaReconciler clusterKey replicaTypes;
  mret (negb satisfied).

Definition failed_validation (prefix : string) (err : error) : M unit :=
  _ ← record_event EventWarning (NewReason KubeClusterKind ClusterFailedValidationReason)
        (prefix +:+ " failed validation because " +:+ err_string err);
  fail err.

(** The KubeCluster was found: [DeepCopy] gives one of its own, which the rest of
    the reconciliation changes. *)
Definition reconcile_found (cc : ClusterController) (kcluster : KubeCluster) : M unit :=
  _ ← set_kc kcluster;
  entries ← range_of (sp_ClusterReplicaSpec (kc_Spec kcluster));
  v ← try (lift (ValidateV1alphaCluster entries kcluster));
  match v with
  | inl err => failed_validation "KubeCLuster" err
  | inr _ =>
      schemaReconciler ← schema_of cc (sp_ClusterType (kc_Spec kcluster));
      v ← try (lift (sr_ValidateV1KubeCluster schemaReconciler kcluster));
      match v with
      | inl err => failed_validation "KubeCluster" err
      | inr _ =>
          need ← needReconcile schemaReconciler;
          if negb need || bool_decide (om_DeletionTimestamp (kc_Meta kcluster) ≠ None) then mret tt
          else
            _ ← set_kc (SetDefaults_KubeCluster kcluster);
            _ ← sr_Default schemaReconciler;
            ReconcileKubeCluster cc schemaReconciler
      end
  end.

(** A request to reconcile the KubeCluster of this name. *)
Definition Reconcile (cc : ClusterController) (namespace name : string) : M unit :=
  r ← try (api (GetKubeCluster namespace name));
  match r with
  | inl err => if IsNotFound err then mret tt else fail err
  | inr kcluster => reconcile_found cc kcluster
  end.

(** The request for the KubeCluster comes first. *)
Lemma Reconcile_run cc namespace name w :
  Reconcile cc namespace name w =
  let '(s, r) := serve (GetKubeCluster namespace name) (w_srv w) in
  let w1 := w_set_srv s (Call (GetKubeCluster namespace name)) w in
  match r with
  | inl e => (w1, if api_IsNotFound e then Ok tt else Err (EApi e))
  | inr kcluster => reconcile_found cc kcluster w1
  end.
Proof.
  unfold Reconcile, mbind at 1, M_bind at 1, try, api.
  destruct (serve _ _) as [s [e|k]]; [|done]. simpl. by destruct (api_IsNotFound e).
Qed.

(** [onOwnerCreateFunc]: the event is always accepted. The object of the event,
    which is that of the informer's cache, is changed in place: the model
    returns it. *)
Definition onOwnerCreateFunc (kcluster : KubeCluster) : M KubeCluster :=
  let kcluster := SetDefaults_KubeCluster kcluster in
  let msg := "Kubecluster " +:+ om_Name (kc_Meta kcluster) +:+ " is created." in
  _ ← metrics_CreatedclustersCounterInc (om_Namespace (kc_Meta kcluster))
        (sp_ClusterType (kc_Spec kcluster));
  t1 ← now; t2 ← now;
  mret (KubeCluster_set_Status
    (UpdateClusterConditions t1 t2 (kc_Status kcluster) ClusterCreated ConditionTrue
       (NewReason KubeClusterKind ClusterCreatedReason) msg) kcluster).
End reconciler.

(** ** The reconciler keeps the contract of the controller *)

Section reconciler_contract.
Context {K : K8s} {ES : ExpStore} {AS : ApiServer} {RT : GoRuntime} {RTL : GoRuntimeLaws RT}.

(** The set-up functions main can choose from. *)
Definition gang_setup (setup : ClusterController → ClusterController) : Prop :=
  setup = GenVolcanoSetupFunc ∨ setup = GenNonGangSchedulerSetupFunc ∨
  ∃ name, setup = GenSchedulerPluginsSetupFunc name.

Lemma NewReconciler_spec valid lister setup schemas :
  gang_setup setup →
  (∀ t s, schemas !! t = Some s → SchemaSpec s) →
  ControllerSpec (cc_set_Schemas schemas (NewReconciler valid lister setup)).
Proof.
  intros [->|[->|[name ->]]] Hs; split; simpl; try done; try apply _; intros pg [= <-]; apply _.
Qed.
End reconciler_contract.

(** A controller for the sample cluster, with one schema. *)
Module SampleController.
Import Sample MemServer.

Definition schema : ClusterSchemaReconciler := {|
  sr_Name := "slurm"; sr_GetDefaultContainerName := "kubenode";
  sr_ReconcileConfigMap cm := mret cm;
  sr_ValidateV1KubeCluster _ := Ok tt;
  sr_UpdateConfigMap cm := mret cm;
  sr_Default := mret tt;
  sr_SetClusterSpec _ t _ _ _ := mret t;
  sr_IsController _ rt _ := bool_decide (rt = "Controller");
  sr_UpdateClusterStatus _ _ := mret tt |}.

Definition controller : ClusterController :=
  cc_set_Schemas {[ "slurm" := schema ]}
    (NewReconciler (λ _, true) (λ _, None) GenNonGangSchedulerSetupFunc).

Lemma schema_spec t s : ({[ "slurm" := schema ]} : gmap string _) !! t = Some s → SchemaSpec s.
Proof.
  intros [_ <-]%lookup_singleton_Some. split; simpl.
  - intros. apply (stable_ret ticks_rel).
  - intros ???????? H. by injection H as _ ->.
Qed.

Lemma controller_spec : ControllerSpec controller.
Proof.
  apply (NewReconciler_spec (RTL := runtime_laws)); [by right; left|exact schema_spec].
Qed.

Definition configmap : ConfigMap := {| cm_Meta := meta; cm_Data := ∅; cm_BinaryData := ∅ |}.
End SampleController.
