(* ===== verification/PodPlan.v ===== *)
(** * What a reconciliation of pods and services does

    Proofs about [CreateNewPod], [ReconcilePods] and [ReconcileServices]: the
    requests they make for each replica index, the labels and the owner of what they
    create, and the expectations they leave. The API server is arbitrary, and the
    controls are any that keep the promises of [PodControlSpec] and
    [ServiceControlSpec]. *)

From S2P Require Import Prelude K8s Api Names Status Expectations Core Quota World Control.
From S2P Require Import Schema Controller Reconciler.

(** ** Steps that make no request *)

Section quiet.
Context {K : K8s} {ES : ExpStore} {AS : ApiServer} {RT : GoRuntime}.

(** The requests, and the metadata and spec of the KubeCluster, stay; its status
    may change. *)
Definition quiet_rel (w w' : World) : Prop :=
  w_log w' = w_log w ∧ kc_Meta (w_kc w') = kc_Meta (w_kc w) ∧
  kc_Spec (w_kc w') = kc_Spec (w_kc w).

#[export] Instance quiet_rel_preorder : PreOrder quiet_rel.
Proof.
  split; [done|]. intros w1 w2 w3 (? & ? & ?) (? & ? & ?). unfold quiet_rel. split_and!; congruence.
Qed.

Lemma quiet_record_event t r m : stable quiet_rel (record_event t r m).
Proof. by intros w. Qed.
Lemma quiet_record_events es : stable quiet_rel (record_events es).
Proof. by intros w. Qed.
Lemma quiet_inc c : stable quiet_rel (inc c).
Proof. by intros w. Qed.
Lemma quiet_now : stable quiet_rel now.
Proof. by intros w. Qed.
Lemma quiet_range_of {A} (m : gmap string A) : stable quiet_rel (range_of m).
Proof. by intros w. Qed.
Lemma quiet_modify_status f : stable quiet_rel (modify_status f).
Proof. by intros w. Qed.
Lemma quiet_expectations s f : stable quiet_rel (expectations s f).
Proof. intros w. unfold expectations. by destruct (f _). Qed.
End quiet.

Create HintDb quiet discriminated.
#[export] Hint Resolve quiet_record_event quiet_record_events quiet_inc quiet_now quiet_range_of
  quiet_modify_status quiet_expectations : quiet.

Ltac quiet_auto := repeat (first [solve [auto with quiet nocore] | stable_step]).

Section quiet_functions.
Context {K : K8s} {ES : ExpStore} {AS : ApiServer} {RT : GoRuntime}.

Lemma quiet_KeyFunc : stable quiet_rel KeyFunc.
Proof. unfold KeyFunc. quiet_auto. Qed.
Lemma quiet_schema_of cc t : stable quiet_rel (schema_of cc t).
Proof. unfold schema_of. quiet_auto. Qed.
Lemma quiet_update_condition t s r m : stable quiet_rel (update_condition t s r m).
Proof. unfold update_condition. quiet_auto. Qed.
Lemma quiet_ticks {A} (m : M A) : stable ticks_rel m → stable quiet_rel m.
Proof. intros Hm w. destruct (ticks_same _ _ (Hm w)) as (_ & ? & _ & _ & _ & Hk). by split; [|rewrite Hk]. Qed.
Lemma quiet_SetClusterSpec s `{!SchemaSpec s} kc t rt i cm :
  stable quiet_rel (sr_SetClusterSpec s kc t rt i cm).
Proof. apply quiet_ticks, ss_SetClusterSpec_frame. Qed.
Lemma quiet_RaiseExpectations s k a d : stable quiet_rel (sr_RaiseExpectations s k a d).
Proof. unfold sr_RaiseExpectations. quiet_auto. Qed.
Lemma quiet_CreationObserved s k : stable quiet_rel (sr_CreationObserved s k).
Proof. unfold sr_CreationObserved. quiet_auto. Qed.
Lemma quiet_Restarted ns t : stable quiet_rel (RestartedClustersCounterInc ns t).
Proof. unfold RestartedClustersCounterInc, inc_labels. quiet_auto. Qed.
End quiet_functions.

#[export] Hint Resolve quiet_KeyFunc quiet_schema_of quiet_update_condition quiet_RaiseExpectations
  quiet_CreationObserved quiet_Restarted : quiet.

(** ** The pod of an index *)

Section created_pod.
Context {K : K8s} {ES : ExpStore} {AS : ApiServer} {RT : GoRuntime} {RTL : GoRuntimeLaws RT}.
Implicit Types (cc : ClusterController) (kc : KubeCluster).

Lemma pod_labels_lookup cc kc rType index controller :
  let ls := pod_labels cc kc rType index controller in
  ls !! ReplicaIndexLabel = Some (Itoa index) ∧
  ls !! ReplicaTypeLabel = Some (ToLower rType) ∧
  ls !! ClusterTypeLabel = Some (sp_ClusterType (kc_Spec kc)) ∧
  ls !! ControllerNameLabel = Some (ci_ControllerName (cc_Controller cc)) ∧
  ls !! ClusterNameLabel = Some (ReplaceAllChar slash dash (om_Name (kc_Meta kc))).
Proof using Type.
  unfold pod_labels, cc_GenLabels, SetReplicaType, SetReplicaIndex, SetReplicaIndexStr,
    SetClusterType, SetClusterRole. destruct controller; simpl; by vm_compute.
Qed.

(** The labels win over those of the template. *)
Lemma named_template_label cc kc rType index spec controller k v :
  pod_labels cc kc rType index controller !! k = Some v →
  om_Labels (pt_Meta (named_template cc kc rType index spec controller)) !! k = Some v.
Proof.
  intros Hk. unfold named_template. simpl.
  etransitivity; [exact (range_write 0 (λ _ v, v) (pod_labels cc kc rType index controller)
    (om_Labels (pt_Meta (r_Template spec))) k)|]. by rewrite Hk.
Qed.

(** What the pod of an index carries, whatever the schema and the scheduler add. *)
Record pod_of cc kc (rType : ReplicaType) (index : Z) (p : Pod) : Prop := {
  po_name : om_Name (pod_Meta p) = GenGeneralName (om_Name (kc_Meta kc)) rType (Itoa index);
  po_index : om_Labels (pod_Meta p) !! ReplicaIndexLabel = Some (Itoa index);
  po_type : om_Labels (pod_Meta p) !! ReplicaTypeLabel = Some (ToLower rType);
  po_cluster : om_Labels (pod_Meta p) !! ClusterNameLabel =
                 Some (ReplaceAllChar slash dash (om_Name (kc_Meta kc)));
  po_clustertype : om_Labels (pod_Meta p) !! ClusterTypeLabel = Some (sp_ClusterType (kc_Spec kc));
  po_controller : om_Labels (pod_Meta p) !! ControllerNameLabel =
                    Some (ci_ControllerName (cc_Controller cc));
  po_owner : om_OwnerReferences (pod_Meta p) = [GenOwnerReference cc (kc_Meta kc)]
}.

(** A template that has the name and labels of an index. *)
Record template_of cc kc (rType : ReplicaType) (index : Z) (t : PodTemplateSpec) : Prop := {
  to_name : om_Name (pt_Meta t) = GenGeneralName (om_Name (kc_Meta kc)) rType (Itoa index);
  to_index : om_Labels (pt_Meta t) !! ReplicaIndexLabel = Some (Itoa index);
  to_type : om_Labels (pt_Meta t) !! ReplicaTypeLabel = Some (ToLower rType);
  to_cluster : om_Labels (pt_Meta t) !! ClusterNameLabel =
                 Some (ReplaceAllChar slash dash (om_Name (kc_Meta kc)));
  to_clustertype : om_Labels (pt_Meta t) !! ClusterTypeLabel = Some (sp_ClusterType (kc_Spec kc));
  to_controller : om_Labels (pt_Meta t) !! ControllerNameLabel =
                    Some (ci_ControllerName (cc_Controller cc))
}.

Lemma named_template_of cc kc rType index spec controller :
  template_of cc kc rType index (named_template cc kc rType index spec controller).
Proof.
  destruct (pod_labels_lookup cc kc rType index controller) as (H1 & H2 & H0 & H3 & H4).
  split; [done|by apply named_template_label..].
Qed.

Lemma template_of_meta cc kc rType index t t' :
  pt_Meta t' = pt_Meta t → template_of cc kc rType index t → template_of cc kc rType index t'.
Proof. intros Hm [? ? ? ? ? ?]. split; by rewrite Hm. Qed.

Lemma pod_of_template cc kc rType index t :
  template_of cc kc rType index t →
  pod_of cc kc rType index (GetPodFromTemplate t (Some (GenOwnerReference cc (kc_Meta kc)))).
Proof. intros [? ? ? ? ? ?]. split; simpl; rewrite ?getPodsLabelSet_eq; done. Qed.

Lemma SetRestartPolicy_meta t spec : pt_Meta (SetRestartPolicy t spec) = pt_Meta t.
Proof. unfold SetRestartPolicy. by case_decide. Qed.

Lemma template_of_decorate cc kc rType index t pg `{!PodGroupControlSpec pg} m rt :
  template_of cc kc rType index t →
  template_of cc kc rType index (DecoratePodTemplateSpec pg t m rt).
Proof.
  intros [? ? ? ? ? ?]. split; [by rewrite pgs_decorate_name|by rewrite pgs_decorate_label..].
Qed.

Lemma GenOwnerReference_valid cc `{!ControllerSpec cc} m :
  ValidateControllerRef (Some (GenOwnerReference cc m)) = Ok tt.
Proof.
  unfold ValidateControllerRef. simpl.
  rewrite decide_False by apply cs_version. by rewrite decide_False by apply cs_kind.
Qed.

Lemma template_of_labels cc kc rType index t :
  template_of cc kc rType index t → om_Labels (pt_Meta t) ≠ ∅.
Proof. intros [_ Hi _ _ _ _] He. by rewrite He, lookup_empty in Hi. Qed.
End created_pod.

(** ** Creating a pod *)

Section create.
Context {K : K8s} {ES : ExpStore} {AS : ApiServer} {RT : GoRuntime} {RTL : GoRuntimeLaws RT}.
Implicit Types (cc : ClusterController) (kc : KubeCluster).

Definition same_cluster (kc : KubeCluster) (w : World) : Prop :=
  kc_Meta (w_kc w) = kc_Meta kc ∧ kc_Spec (w_kc w) = kc_Spec kc.

Lemma quiet_same kc w w' : quiet_rel w w' → same_cluster kc w → same_cluster kc w'.
Proof. intros (_ & ? & ?) [? ?]. split; congruence. Qed.

Lemma quiet_log w w' : quiet_rel w w' → w_log w' = w_log w.
Proof. by intros [? _]. Qed.

(** The requests and the end of creating the pod of an index: either nothing is
    requested and an error is returned, or exactly one pod is. *)
Definition creation cc kc (rType : ReplicaType) (index : Z) (l : list call) (r : res unit) : Prop :=
  (l = [] ∧ r ≠ Ok tt) ∨
  ∃ p, l = [Call (CreatePod (om_Namespace (kc_Meta kc)) p)] ∧ pod_of cc kc rType index p.

(** A run from a world with this log. *)
Definition run_spec kc (log : list call) (T : list call → res unit → Prop)
    (o : World * res unit) : Prop :=
  same_cluster kc o.1 ∧ ∃ l, w_log o.1 = (log ++ l)%list ∧ T l o.2.

Lemma run_quiet kc log T w r :
  same_cluster kc w → w_log w = log → T [] r → run_spec kc log T (w, r).
Proof. intros ? <- ?. split; [done|]. exists []. by rewrite app_nil_r. Qed.

(** A step that requests nothing, in front of a run. *)
Lemma run_bind {A} kc log T (m : M A) (f : A → M unit) (w : World) :
  stable quiet_rel m → same_cluster kc w → w_log w = log → (∀ r, r ≠ Ok tt → T [] r) →
  (∀ a w1, same_cluster kc w1 → w_log w1 = log → m w = (w1, Ok a) → run_spec kc log T (f a w1)) →
  run_spec kc log T ((m ≫= f) w).
Proof.
  intros Hm Hkc Hlog HT Hf. apply (stable_outcome quiet_rel); [done|intros a w1 Hq|intros e w1 Hq|intros w1 Hq].
  - intros. apply Hf; [by eapply quiet_same|by rewrite (quiet_log w w1)|done].
  - apply run_quiet; [by eapply quiet_same|by rewrite (quiet_log w w1)|by apply HT].
  - apply run_quiet; [by eapply quiet_same|by rewrite (quiet_log w w1)|by apply HT].
Qed.

(** The end of a creation: the request, then steps that request nothing. *)
Lemma run_create cc `{!ControllerSpec cc} kc rType index t w log
    (f : error + unit → M unit) :
  template_of cc kc rType index t → same_cluster kc w → w_log w = log →
  (∀ r, stable quiet_rel (f r)) →
  run_spec kc log (creation cc kc rType index)
    ((try (CreatePodsWithControllerRef (cc_PodControl cc) (om_Namespace (kc_Meta kc)) t
             (Some (GenOwnerReference cc (kc_Meta kc)))) ≫= f) w).
Proof.
  intros Ht [Hm Hs] <- Hf.
  set (ns := om_Namespace (kc_Meta kc)). set (ref := Some (GenOwnerReference cc (kc_Meta kc))).
  pose proof (pcs_create_log (pc := cc_PodControl cc) ns t ref w (GenOwnerReference_valid cc (kc_Meta kc))
    (template_of_labels _ _ _ _ _ Ht)) as Hlog.
  pose proof (pcs_create_no_panic (pc := cc_PodControl cc) ns t ref w) as Hnp.
  destruct (pcs_create_frame (pc := cc_PodControl cc) ns t ref w) as [Hkc _].
  unfold mbind, M_bind, try.
  destruct (CreatePodsWithControllerRef (cc_PodControl cc) ns t ref w) as [w1 r]; simpl in *.
  assert (∀ x, run_spec kc (w_log w) (creation cc kc rType index) (f x w1)) as Hgo.
  { intros x. destruct (Hf x w1) as (Hl & Hm' & Hs'). split; [split; congruence|].
    eexists. split; [by rewrite Hl|]. right. eexists. split; [done|]. by apply pod_of_template. }
  destruct r as [[]|e|]; [apply Hgo..|done].
Qed.

Lemma CreateNewPod_run cc `{!ControllerSpec cc} kc rType index spec controller replicas configMap w log :
  same_cluster kc w → w_log w = log →
  run_spec kc log (creation cc kc rType index)
    (CreateNewPod cc rType index spec controller replicas configMap w).
Proof.
  intros Hkc Hlog. unfold CreateNewPod.
  assert (∀ r : res unit, r ≠ Ok tt → creation cc kc rType index [] r) as HT by (by left).
  apply run_bind; [quiet_auto|done..|]. intros k w1 Hkc1 Hlog1 Hk.
  assert (kc_Meta k = kc_Meta kc ∧ kc_Spec k = kc_Spec kc) as [Hmk Hsk]
    by (destruct Hkc; injection Hk as <- <-; split; congruence).
  rewrite !Hmk.
  assert (template_of cc kc rType index (named_template cc k rType index spec controller)) as Ht.
  { destruct (named_template_of cc k rType index spec controller). split; congruence. }
  apply run_bind; [quiet_auto|done..|]. intros key w2 Hkc2 Hlog2 _.
  apply run_bind; [quiet_auto|done..|]. intros s w3 Hkc3 Hlog3 Hs.
  assert (SchemaSpec s) as HS.
  { unfold schema_of, lift in Hs. apply (cs_schema (sp_ClusterType (kc_Spec k))).
    destruct (GetSchemaReconciler cc _); simpl in Hs; congruence. }
  apply run_bind; [by apply quiet_SetClusterSpec|done..|]. intros t1 w4 Hkc4 Hlog4 Ht1.
  apply ss_SetClusterSpec_meta in Ht1.
  apply (template_of_meta _ _ _ _ _ t1) in Ht; [|done]. clear Ht1.
  apply run_bind; [quiet_auto|done..|]. intros _ w5 Hkc5 Hlog5 _.
  apply (template_of_meta _ _ _ _ _ (SetRestartPolicy t1 spec)) in Ht; [|apply SetRestartPolicy_meta].
  apply run_bind; [quiet_auto|done..|]. intros t2 w6 Hkc6 Hlog6 Ht2.
  assert (template_of cc kc rType index t2) as Ht'.
  { revert Ht2. destruct (EnableGangScheduling cc); [|by intros [= _ <-]].
    unfold mbind, M_bind, lift. destruct (cc_PodGroupControl cc) as [pg|] eqn:Hpg; simpl; [|done].
    destruct (isCustomSchedulerSet _ _) as [[]| |]; simpl; intros [= _ <-];
      apply template_of_decorate; eauto using cs_podgroup. }
  apply run_bind; [quiet_auto|done..|]. intros _ w7 Hkc7 Hlog7 _.
  apply run_create; [done..|]. intros [e|[]]; quiet_auto.
Qed.
End create.

(** ** The pod of an index that exists *)

Section reconcile_pods.
Context {K : K8s} {ES : ExpStore} {AS : ApiServer} {RT : GoRuntime} {RTL : GoRuntimeLaws RT}.
Implicit Types (cc : ClusterController) (kc : KubeCluster).

(** The requests about a pod that is to go: it is read, and perhaps deleted. A pod
    that stays is not asked about. *)
Definition removal (go : bool) (pod : Pod) (l : list call) : Prop :=
  let access := pod_access (om_Namespace (pod_Meta pod)) (om_Name (pod_Meta pod)) in
  if go then ∃ l', l = Call (GetPod (om_Namespace (pod_Meta pod)) (om_Name (pod_Meta pod))) :: l' ∧
                   Forall access l'
  else l = [].

Lemma removal_app b1 b2 pod l1 l2 :
  removal b1 pod l1 → removal b2 pod l2 → removal (b1 || b2) pod (l1 ++ l2)%list.
Proof.
  unfold removal. destruct b1, b2; simpl; [| |by intros ->|by intros -> ->].
  - intros (l1' & -> & H1) (l2' & -> & H2). eexists. split; [done|].
    apply Forall_app. split; [done|]. constructor; [by left|done].
  - intros (l1' & -> & H1) ->. rewrite app_nil_r. eauto.
Qed.

(** Deleting the pod, in front of a run. *)
Lemma run_delete cc `{!ControllerSpec cc} kc log T pod (f : unit → M unit) w :
  same_cluster kc w → w_log w = log →
  (∀ l r, removal true pod l → r ≠ Ok tt → T l r) →
  (∀ l w1, removal true pod l → same_cluster kc w1 → w_log w1 = (log ++ l)%list →
     run_spec kc (log ++ l)%list (λ l', T (l ++ l')%list) (f tt w1)) →
  run_spec kc log T
    ((DeletePod (cc_PodControl cc) (om_Namespace (pod_Meta pod)) (om_Name (pod_Meta pod)) ≫= f) w).
Proof.
  intros [Hm Hs] <- HT Hf.
  set (ns := om_Namespace (pod_Meta pod)). set (name := om_Name (pod_Meta pod)).
  destruct (pcs_delete_log (pc := cc_PodControl cc) ns name w) as (l & Hl & HP).
  destruct (pcs_delete_frame (pc := cc_PodControl cc) ns name w) as [Hkc _].
  pose proof (pcs_delete_no_panic (pc := cc_PodControl cc) ns name w) as Hnp.
  assert (removal true pod (Call (GetPod ns name) :: l)) as Hr by (by exists l).
  unfold mbind, M_bind. destruct (DeletePod _ ns name w) as [w1 [[]|e|]]; simpl in *; [..|done].
  - destruct (Hf _ w1 Hr) as (Hkc' & l' & Hl' & HT'); [split; congruence|done|].
    split; [done|]. exists (Call (GetPod ns name) :: l ++ l')%list. split; [|done].
    rewrite Hl'. by rewrite <- app_assoc.
  - split; [split; simpl; congruence|]. exists (Call (GetPod ns name) :: l). split; [done|].
    by apply HT.
Qed.

Lemma run_weaken kc log (T T' : list call → res unit → Prop) o :
  run_spec kc log T o → (∀ l r, T l r → T' l r) → run_spec kc log T' o.
Proof. intros (? & l & ? & ?) HT. split; [done|]. eauto. Qed.

(** A step that always succeeds, in front of a run. *)
Lemma run_step {A} kc log T (m : M A) (f : A → M unit) w w1 a :
  m w = (w1, Ok a) → run_spec kc log T (f a w1) → run_spec kc log T ((m ≫= f) w).
Proof. intros Hm. unfold mbind, M_bind. by rewrite Hm. Qed.

(** Steps that request nothing. *)
Lemma run_tail kc log T (m : M unit) w :
  stable quiet_rel m → same_cluster kc w → w_log w = log → (∀ r, T [] r) →
  run_spec kc log T (m w).
Proof.
  intros Hm Hkc <- HT. destruct (Hm w) as (Hl & ? & ?). destruct Hkc.
  split; [split; congruence|]. exists []. by rewrite app_nil_r.
Qed.

Definition leaves (spec : ReplicaSpec) (numReplicas index : Z) (pod : Pod) : bool :=
  (bool_decide (index < 0) || bool_decide (numReplicas ≤ index)) ||
  restart_needed spec pod (default no_exit_code (exit_status pod)).

Lemma reconcile_one_pod_run cc `{!ControllerSpec cc} kc s rType spec n key index pod w log :
  same_cluster kc w → w_log w = log →
  run_spec kc log (λ l _, removal (leaves spec n index pod) pod l)
    (reconcile_one_pod cc s rType spec n key index pod w).
Proof.
  intros Hkc Hlog. unfold reconcile_one_pod, leaves.
  set (b1 := bool_decide (index < 0) || bool_decide (n ≤ index)).
  set (b2 := restart_needed _ _ _).
  match goal with |- run_spec _ _ _ ((_ ≫= ?f) w) =>
    assert (∀ log w, same_cluster kc w → w_log w = log →
      run_spec kc log (λ l _, removal b2 pod l) (f tt w)) as Htail end.
  { clear w log Hkc Hlog. intros log w Hkc Hlog. simpl.
    assert (∀ f : unit → M unit,
      (∀ w, same_cluster kc w → w_log w = log → run_spec kc log (λ l _, removal b2 pod l) (f tt w)) →
      run_spec kc log (λ l _, removal b2 pod l)
        (((match exit_status pod with
           | Some code => record_event EventNormal "ExitedWithCode" (exited_msg pod code)
           | None => mret tt
           end) ≫= f) w)) as Hevent.
    { intros f Hf. destruct (exit_status pod); by apply Hf. }
    apply Hevent. clear w Hkc Hlog Hevent. intros w Hkc Hlog.
    destruct b2; simpl.
    - rewrite M_assoc. eapply run_step; [done|]. rewrite M_assoc.
      apply run_delete; [done..|]. intros l w1 Hl Hkc1 Hlog1.
      apply run_tail; [quiet_auto|done..|]. intros r. by rewrite app_nil_r.
    - apply run_tail; [quiet_auto|done..]. }
  destruct b1; simpl; [|by apply Htail].
  rewrite M_assoc. apply run_delete; [done..|]. intros l w1 Hl Hkc1 Hlog1. rewrite M_assoc.
  apply run_bind; [quiet_auto|done..|by rewrite app_nil_r|]. intros s' w2 Hkc2 Hlog2 _.
  apply run_bind; [quiet_auto|done..|by rewrite app_nil_r|]. intros _ w3 Hkc3 Hlog3 _.
  eapply run_weaken; [by apply Htail|]. intros l' r Hl'. by apply (removal_app true b2).
Qed.

(** The requests and the end of one round of the loop over the slices. *)
Definition pod_trace cc kc (rType : ReplicaType) (spec : ReplicaSpec) (numReplicas : Z)
    (slice : nat * list Pod) (l : list call) (r : res unit) : Prop :=
  match slice.2 with
  | [] => creation cc kc rType (Z.of_nat slice.1) l r
  | [pod] => removal (leaves spec numReplicas (Z.of_nat slice.1) pod) pod l
  | _ => l = []
  end.

Lemma reconcile_pod_slice_run cc `{!ControllerSpec cc} kc s rType spec n configMap key slice w log :
  same_cluster kc w → w_log w = log →
  run_spec kc log (pod_trace cc kc rType spec n slice)
    (reconcile_pod_slice cc s rType spec n configMap key slice w).
Proof.
  intros Hkc Hlog. unfold reconcile_pod_slice, pod_trace.
  destruct slice.2 as [|pod [|pod' ps]]; simpl.
  - assert (∀ r : res unit, r ≠ Ok tt → creation cc kc rType (Z.of_nat slice.1) [] r) as HT
      by (by left).
    apply run_bind; [quiet_auto|done..|]. intros k w1 Hkc1 Hlog1 _.
    apply run_bind; [quiet_auto|done..|]. intros s' w2 Hkc2 Hlog2 _. by apply CreateNewPod_run.
  - by apply reconcile_one_pod_run.
  - by apply run_quiet.
Qed.

End reconcile_pods.

(** ** The slices the loops run over *)

Section slices_of.
Context `{K : K8s} {A : Type} `{HasMeta A}.

(** The slices of the objects of a type, for this number of replicas. *)
Definition slices_of (xs : list A) (numReplicas : Z) : list (nat * list A) :=
  (λ i, (i, of_index i xs)) <$> seq 0 (Z.to_nat (Z.max (max_index xs + 1) numReplicas)).

Lemma GetSlices_indexed xs n :
  (∀ x, x ∈ xs → index_ok x) →
  ∃ ss, GetSlices xs n = Ok ss ∧ indexed ss = slices_of xs n.
Proof.
  intros Hok. destruct (GetSlices_spec xs n Hok) as (ss & Hrun & Hlen & Hss).
  exists ss. split; [exact Hrun|]. apply list_eq. intros i. unfold indexed, slices_of.
  rewrite list_lookup_imap, list_lookup_fmap. rewrite <- Hlen, Nat2Z.id.
  destruct (decide (i < length ss)%nat) as [Hi|Hi].
  - rewrite (proj2 (Hss i (of_index i xs)) (conj Hi eq_refl)), lookup_seq_lt by done. done.
  - rewrite (lookup_ge_None_2 ss) by lia. rewrite (lookup_ge_None_2 (seq _ _)); [done|].
    rewrite length_seq. lia.
Qed.
End slices_of.

(** ** Properties *)

Section pod_properties.
Context {K : K8s} {KL : K8sLaws K} {ES : ExpStore} {AS : ApiServer} {RT : GoRuntime}
  {RTL : GoRuntimeLaws RT}.
Implicit Types (cc : ClusterController) (kc : KubeCluster).

(** The pods of a replica type. *)
Definition typed (pods : list Pod) (rType : ReplicaType) : list Pod :=
  FilterForReplicaType pods (GenReplicaTypeLabel rType).

Definition cluster_key (m : ObjectMeta) : string :=
  if decide (om_Namespace m = "") then om_Name m else om_Namespace m +:+ "/" +:+ om_Name m.

Definition init_statuses (rType : ReplicaType) (w : World) : World :=
  w_set_kc (KubeCluster_set_Status (InitializeReplicaStatuses (kc_Status (w_kc w)) rType) (w_kc w)) w.

(** Up to the loop nothing can fail. *)
Lemma ReconcilePods_loop cc rType spec n pods configMap w :
  r_Replicas spec = Some n →
  (∀ p, p ∈ typed pods rType → index_ok p) →
  ReconcilePods cc rType (Some spec) pods configMap w =
    for_each (slices_of (typed pods rType) n)
      (reconcile_pod_slice cc (GetSchemaReconciler cc (sp_ClusterType (kc_Spec (w_kc w)))) rType spec n
         configMap (GenExpectationPodsKey (cluster_key (kc_Meta (w_kc w))) rType))
      (init_statuses rType w).
Proof.
  intros Hn Hok. destruct (GetSlices_indexed _ n Hok) as (ss & Hss & Hidx).
  unfold ReconcilePods, KeyFunc, get_kc, mbind, M_bind, lift, modify_status.
  rewrite MetaNamespaceKeyFunc_spec. simpl. rewrite Hn. simpl.
  fold (typed pods rType). unfold GetPodSlices. rewrite Hss. simpl. by rewrite Hidx.
Qed.

(** The run of one pass over the pods of a type. *)
Lemma ReconcilePods_run cc `{!ControllerSpec cc} kc rType spec n pods configMap w log :
  r_Replicas spec = Some n →
  (∀ p, p ∈ typed pods rType → index_ok p) →
  same_cluster kc w → w_log w = log →
  run_spec kc log (λ l r, ∃ ls, l = mjoin ls ∧
      loop_trace (pod_trace cc kc rType spec n) (slices_of (typed pods rType) n) ls r)
    (ReconcilePods cc rType (Some spec) pods configMap w).
Proof.
  intros Hn Hok Hkc <-. rewrite (ReconcilePods_loop cc rType spec n) by done.
  destruct (for_each_trace (same_cluster kc) (pod_trace cc kc rType spec n)
    (slices_of (typed pods rType) n) (reconcile_pod_slice cc
      (GetSchemaReconciler cc (sp_ClusterType (kc_Spec (w_kc w)))) rType spec n configMap
      (GenExpectationPodsKey (cluster_key (kc_Meta (w_kc w))) rType)) (init_statuses rType w))
    as (HI & ls & Hls & Htr); [|done|].
  { intros slice w1 _ Hkc1. by apply reconcile_pod_slice_run. }
  split; [done|]. exists (mjoin ls). split; [done|]. by exists ls.
Qed.

(** C4 (what reconciling the pods of a type requests). Whatever the server
    answers, the pods of the type are worked off index by index, from 0 to the
    largest index in use or wanted, until one step fails. For an index without a
    pod exactly one pod is requested, with the name, labels and owner of that
    index, or the step fails before any request; a single pod is asked about,
    and only that pod, exactly when it is out of range or has failed in a way
    its restart policy retries; several pods of one index are left alone. *)
Theorem ReconcilePods_plan cc `{!ControllerSpec cc} (rType : ReplicaType) (spec : ReplicaSpec)
    (n : Z) (pods : list Pod) (configMap : ConfigMap) (w : World) :
  r_Replicas spec = Some n →
  (∀ p, p ∈ typed pods rType → index_ok p) →
  let o := ReconcilePods cc rType (Some spec) pods configMap w in
  ∃ ls, w_log o.1 = (w_log w ++ mjoin ls)%list ∧
    loop_trace (pod_trace cc (w_kc w) rType spec n) (slices_of (typed pods rType) n) ls o.2.
Proof.
  intros Hn Hok.
  destruct (ReconcilePods_run cc (w_kc w) rType spec n pods configMap w (w_log w))
    as (_ & l & Hl & ls & -> & Htr); [done..|]. by exists ls.
Qed.

(** The world after counting these pods of the type. *)
Definition counted (rType : ReplicaType) (st : ClusterStatus) (dn : list Pod) (w : World) : Prop :=
  kc_Status (w_kc w) =
    Status_set_ReplicaStatuses (<[rType := counted_status dn]> (st_ReplicaStatuses st)) st.

Lemma reconcile_one_pod_stays cc s rType spec n key index pod st dn w :
  leaves spec n index pod = false → counted rType st dn w →
  let o := reconcile_one_pod cc s rType spec n key index pod w in
  o.2 = Ok tt ∧ w_log o.1 = w_log w ∧ w_srv o.1 = w_srv w ∧ w_exp o.1 = w_exp w ∧
  counted rType st (dn ++ [pod])%list o.1.
Proof.
  intros [H1 H2]%orb_false_iff Hst. unfold reconcile_one_pod. rewrite H1, H2. simpl.
  assert (∀ w', kc_Status (w_kc w') = kc_Status (w_kc w) →
    UpdateClusterReplicaStatuses (kc_Status (w_kc w')) rType pod =
      Ok (Status_set_ReplicaStatuses
            (<[rType := counted_status (dn ++ [pod])%list]> (st_ReplicaStatuses st)) st)) as Hup.
  { intros w' ->. rewrite Hst. apply UpdateClusterReplicaStatuses_counted. }
  unfold mbind, M_bind, get_kc, lift.
  destruct (exit_status pod); simpl; by rewrite Hup.
Qed.

(** A loop over slices that have one staying pod each. *)
Definition steady_slice (spec : ReplicaSpec) (n : Z) (slice : nat * list Pod) : Prop :=
  ∃ pod, slice.2 = [pod] ∧ leaves spec n (Z.of_nat slice.1) pod = false.

Lemma steady_loop cc s rType spec n configMap key st xs dn w :
  Forall (steady_slice spec n) xs → counted rType st dn w →
  let o := for_each xs (reconcile_pod_slice cc s rType spec n configMap key) w in
  o.2 = Ok tt ∧ w_log o.1 = w_log w ∧ w_srv o.1 = w_srv w ∧ w_exp o.1 = w_exp w ∧
  counted rType st (dn ++ mjoin xs.*2)%list o.1.
Proof.
  revert dn w. induction xs as [|[i ps] xs IH]; intros dn w HF Hst; simpl; [by rewrite app_nil_r|].
  apply Forall_cons in HF as [(pod & Hs & Hl) HF]. simpl in Hs, Hl. subst ps.
  pose proof (reconcile_one_pod_stays cc s rType spec n key (Z.of_nat i) pod st dn w Hl Hst) as Ho.
  change (reconcile_one_pod _ _ _ _ _ _ _ _ w) with
    (reconcile_pod_slice cc s rType spec n configMap key (i, [pod]) w) in Ho.
  unfold mbind, M_bind.
  destruct (reconcile_pod_slice cc s rType spec n configMap key (i, [pod]) w) as [w2 [[]|e|]];
    simpl in Ho; destruct Ho as (Ho & Hlog & Hsrv & Hexp & Hst'); [|done..].
  destruct (IH (dn ++ [pod])%list w2 HF Hst') as (? & Hl2 & Hs2 & He2 & Hc).
  rewrite <- app_assoc in Hc. split_and!; [done|congruence..|done].
Qed.

(** A steady replica type is left alone. When every index up to the
    number of replicas has exactly one pod that is not to be restarted, and no
    pod is beyond it, reconciling the pods succeeds without any request and
    without touching the expectations, and the status of the type
    counts those pods. *)
Theorem ReconcilePods_steady cc (rType : ReplicaType) (spec : ReplicaSpec) (n : Z)
    (pods : list Pod) (configMap : ConfigMap) (w : World) :
  r_Replicas spec = Some n →
  (∀ p, p ∈ typed pods rType → index_ok p) →
  Forall (steady_slice spec n) (slices_of (typed pods rType) n) →
  let o := ReconcilePods cc rType (Some spec) pods configMap w in
  o.2 = Ok tt ∧ w_log o.1 = w_log w ∧ w_exp o.1 = w_exp w ∧
  kc_Status (w_kc o.1) = Status_set_ReplicaStatuses
    (<[rType := counted_status (mjoin (slices_of (typed pods rType) n).*2)]>
       (st_ReplicaStatuses (kc_Status (w_kc w)))) (kc_Status (w_kc w)).
Proof.
  intros Hn Hok Hone. rewrite (ReconcilePods_loop cc rType spec n) by done.
  by destruct (steady_loop cc (GetSchemaReconciler cc (sp_ClusterType (kc_Spec (w_kc w)))) rType spec n
    configMap (GenExpectationPodsKey (cluster_key (kc_Meta (w_kc w))) rType) (kc_Status (w_kc w))
    (slices_of (typed pods rType) n) [] (init_statuses rType w) Hone) as (? & ? & ? & ? & ?).
Qed.

(** C5 (a created pod is found again). A pod that the server stored with the labels
    and owner requested for an index is, in the next reconciliation of the same
    KubeCluster, selected by the list request, taken as controlled by the
    KubeCluster, kept by the filter of its replica type and put into the slice of
    its index, so that no second pod is created for it. *)
Theorem created_pod_found cc kc (rType : ReplicaType) (index : Z) (p : Pod) (items : list Pod) :
  ci_ControllerName (cc_Controller cc) = ControllerName →
  pod_of cc kc rType index p → in_int64 index → p ∈ items →
  cluster_selector kc ⊆ om_Labels (pod_Meta p) ∧
  p ∈ typed (KubeClusterControlledPodList items (kc_Meta kc)) rType ∧
  (0 ≤ index → p ∈ of_index (Z.to_nat index)
                   (typed (KubeClusterControlledPodList items (kc_Meta kc)) rType)).
Proof.
  intros Hname [_ Hi Ht Hc _ Hctl Hown] Hidx Hin.
  assert (p ∈ typed (KubeClusterControlledPodList items (kc_Meta kc)) rType) as Htyped.
  { unfold typed, FilterForReplicaType, KubeClusterControlledPodList.
    rewrite !list_elem_of_filter. split_and!; [|apply IsControlledBy_spec|done].
    - apply selector_Matches_spec. by apply map_singleton_subseteq_l.
    - rewrite Hown, GetControllerOf_spec. by eexists. }
  split_and!; [|done|].
  - unfold cluster_selector, GenLabels. apply insert_subseteq_l; [by rewrite Hctl, Hname|].
    by apply map_singleton_subseteq_l.
  - intros Hpos. apply list_elem_of_filter. split; [|done].
    unfold label_index, ReplicaIndex. change (meta_of p) with (pod_Meta p).
    rewrite Hi, Z2Nat.id by done. by apply Atoi_Itoa.
Qed.
End pod_properties.

(** ** Witnesses *)

Section pod_witnesses.
Import Sample MemServer SampleController.

(** The sample cluster wants two workers: with worker 0 running, worker 1 is
    created. *)
Definition worker_spec : ReplicaSpec := replica (Some 2) RestartPolicyOnFailure.
Definition one_worker : list Pod := [sample_pod "c1-worker-0" "worker" 0 1].
Definition two_workers : list Pod := sample_pods.

Ltac sample_index_ok :=
  intros p Hp; repeat (apply elem_of_cons in Hp as [->|Hp];
    [intros i Hi; vm_compute in Hi; inversion Hi; lia|]); by apply elem_of_nil in Hp.

Lemma typed_one_worker : typed one_worker "Worker" = one_worker.
Proof. by_vm. Qed.
Lemma typed_two_workers :
  typed two_workers "Worker" = [sample_pod "c1-worker-1" "worker" 1 2; sample_pod "c1-worker-0" "worker" 0 1].
Proof. by_vm. Qed.

Lemma one_worker_index_ok p : p ∈ typed one_worker "Worker" → index_ok p.
Proof. rewrite typed_one_worker. revert p. sample_index_ok. Qed.

Lemma ReconcilePods_plan_witness :
  ∃ ls, w_log (ReconcilePods controller "Worker" (Some worker_spec) one_worker configmap (world ∅)).1
          = mjoin ls ∧ length ls = 2%nat.
Proof.
  destruct (ReconcilePods_plan (KL := K8s_example_laws) (RTL := runtime_laws) controller
    (ControllerSpec0 := controller_spec) "Worker" worker_spec 2 one_worker configmap (world ∅))
    as (ls & Hlog & Htr).
  - reflexivity.
  - exact one_worker_index_ok.
  - exists ls. split; [exact Hlog|].
    assert ((ReconcilePods controller "Worker" (Some worker_spec) one_worker configmap (world ∅)).2
            = Ok tt) as Hok by by_vm.
    rewrite Hok in Htr. apply loop_trace_Ok, Forall2_length in Htr. rewrite <- Htr.
    rewrite typed_one_worker. by_vm.
Defined.

Lemma ReconcilePods_steady_witness :
  w_log (ReconcilePods controller "Worker" (Some worker_spec) two_workers configmap (world ∅)).1 = [].
Proof.
  apply (ReconcilePods_steady (KL := K8s_example_laws) controller "Worker" worker_spec 2 two_workers
    configmap (world ∅)).
  - reflexivity.
  - rewrite typed_two_workers. sample_index_ok.
  - rewrite typed_two_workers. repeat constructor.
    + exists (sample_pod "c1-worker-0" "worker" 0 1). split; by_vm.
    + exists (sample_pod "c1-worker-1" "worker" 1 2). split; by_vm.
Defined.

Definition created_worker : Pod :=
  pod_in "default" (GetPodFromTemplate (named_template controller cluster "Worker" 1 worker_spec false)
    (Some (GenOwnerReference controller (kc_Meta cluster)))).

Lemma created_worker_of : pod_of controller cluster "Worker" 1 created_worker.
Proof.
  destruct (pod_of_template (RTL := runtime_laws) controller cluster "Worker" 1
    (named_template controller cluster "Worker" 1 worker_spec false)
    (named_template_of (RTL := runtime_laws) _ _ _ _ _ _)).
  split; assumption.
Qed.

Lemma created_pod_found_witness :
  created_worker ∈ of_index 1 (typed (KubeClusterControlledPodList [created_worker] meta) "Worker").
Proof.
  apply (created_pod_found (KL := K8s_example_laws) controller cluster "Worker" 1 created_worker
    [created_worker]).
  - reflexivity.
  - exact created_worker_of.
  - unfold in_int64. lia.
  - left.
  - lia.
Defined.
End pod_witnesses.
