(* ===== verification/ServicePlan.v ===== *)
(** * What a reconciliation of services does

    Proofs about [CreateNewService] and [ReconcileServices]
    (pkg/controller/ctrlcommon/service.go): the requests for each replica index,
    and that the service of an index selects the pod of that index and no other
    pod of the cluster. *)

From S2P Require Import Prelude K8s Api Names Expectations Core World Control Schema Controller.
From S2P Require Import Reconciler PodPlan.

Section service_of.
Context {K : K8s} {ES : ExpStore} {AS : ApiServer} {RT : GoRuntime} {RTL : GoRuntimeLaws RT}.
Implicit Types (cc : ClusterController) (kc : KubeCluster).

(** What the service of an index carries. *)
Record service_of cc kc (rtype : ReplicaType) (index : string) (ports : gmap string Z)
    (s : Service) : Prop := {
  so_name : om_Name (svc_Meta s) = GenGeneralName (om_Name (kc_Meta kc)) rtype index;
  so_labels : om_Labels (svc_Meta s) = service_labels kc rtype index;
  so_selector : svc_Selector s = service_labels kc rtype index;
  so_headless : svc_ClusterIP s = "None";
  so_ports : svc_Ports s ≡ₚ (λ kv, {| sp_Name := kv.1; sp_Port := kv.2 |}) <$> map_to_list ports;
  so_owner : om_OwnerReferences (svc_Meta s) = [GenOwnerReference cc (kc_Meta kc)]
}.

Lemma service_labels_lookup kc rtype index :
  let ls := service_labels kc rtype index in
  ls !! ReplicaIndexLabel = Some index ∧
  ls !! ReplicaTypeLabel = Some (ToLower rtype) ∧
  ls !! ClusterTypeLabel = Some (sp_ClusterType (kc_Spec kc)) ∧
  ls !! ControllerNameLabel = Some ControllerName ∧
  ls !! ClusterNameLabel = Some (ReplaceAllChar slash dash (om_Name (kc_Meta kc))) ∧
  (∀ k v, ls !! k = Some v → k ∈ [ReplicaIndexLabel; ReplicaTypeLabel; ClusterTypeLabel;
                                  ControllerNameLabel; ClusterNameLabel]).
Proof using Type. clear RTL RT.
  unfold service_labels, GenLabels, SetReplicaType, SetReplicaIndexStr, SetClusterType. simpl.
  split_and!; [by vm_compute..|]. intros k v Hk.
  repeat (apply lookup_insert_Some in Hk as [[<- _]|[_ Hk]]; [set_solver|]).
  apply lookup_singleton_Some in Hk as [<- _]. set_solver.
Qed.

(** The requests and the end of creating the service of an index. *)
Definition service_creation cc kc (rtype : ReplicaType) (spec : ReplicaSpec) (container index : string)
    (l : list call) (r : res unit) : Prop :=
  (l = [] ∧ r ≠ Ok tt) ∨
  ∃ s ports, l = [Call (CreateService (om_Namespace (kc_Meta kc)) s)] ∧
    GetPortsFromCluster spec container = Ok ports ∧ service_of cc kc rtype index ports s.

Lemma run_create_service cc `{!ControllerSpec cc} kc T s w log (f : error + unit → M unit) :
  om_Labels (svc_Meta s) ≠ ∅ → same_cluster kc w → w_log w = log →
  (∀ r, stable quiet_rel (f r)) →
  (∀ r, T [Call (CreateService (om_Namespace (kc_Meta kc))
                   (GetServiceFromTemplate s (Some (GenOwnerReference cc (kc_Meta kc)))))] r) →
  run_spec kc log T
    ((try (CreateServicesWithControllerRef (cc_ServiceControl cc) (om_Namespace (kc_Meta kc)) s
             (Some (GenOwnerReference cc (kc_Meta kc)))) ≫= f) w).
Proof.
  intros Hls [Hm Hs] <- Hf HT.
  set (ns := om_Namespace (kc_Meta kc)) in *. set (ref := Some (GenOwnerReference cc (kc_Meta kc))) in *.
  pose proof (scs_create_log (sc := cc_ServiceControl cc) ns s ref w (GenOwnerReference_valid cc (kc_Meta kc)) Hls) as Hlog.
  pose proof (scs_create_no_panic (sc := cc_ServiceControl cc) ns s ref w) as Hnp.
  destruct (scs_create_frame (sc := cc_ServiceControl cc) ns s ref w) as [Hkc _].
  unfold mbind, M_bind, try.
  destruct (CreateServicesWithControllerRef (cc_ServiceControl cc) ns s ref w) as [w1 r]; simpl in *.
  assert (∀ x, run_spec kc (w_log w) T (f x w1)) as Hgo.
  { intros x. destruct (Hf x w1) as (Hl & Hm' & Hs'). split; [split; congruence|].
    eexists. split; [by rewrite Hl|]. apply HT. }
  destruct r as [[]|e|]; [apply Hgo..|done].
Qed.

Lemma CreateNewService_run cc `{!ControllerSpec cc} kc rtype spec index container s w log :
  same_cluster kc w → w_log w = log →
  run_spec kc log (service_creation cc kc rtype spec container index)
    (CreateNewService cc rtype spec index container s w).
Proof.
  intros Hkc Hlog. unfold CreateNewService.
  assert (∀ r : res unit, r ≠ Ok tt → service_creation cc kc rtype spec container index [] r) as HT
    by (by left).
  apply run_bind; [quiet_auto|done..|]. intros k w1 Hkc1 Hlog1 Hk.
  assert (kc_Meta k = kc_Meta kc ∧ kc_Spec k = kc_Spec kc) as [Hmk Hsk]
    by (destruct Hkc; injection Hk as <- <-; split; congruence).
  assert (service_labels k rtype index = service_labels kc rtype index) as Hls
    by (unfold service_labels; by rewrite Hmk, Hsk).
  rewrite !Hmk, Hls.
  apply run_bind; [quiet_auto|done..|]. intros key w2 Hkc2 Hlog2 _.
  apply run_bind; [quiet_auto|done..|]. intros ports w3 Hkc3 Hlog3 Hports. injection Hports as _ Hports.
  apply run_bind; [quiet_auto|done..|]. intros entries w4 Hkc4 Hlog4 Hentries. injection Hentries as _ <-.
  apply run_bind; [quiet_auto|done..|]. intros _ w5 Hkc5 Hlog5 _.
  apply run_create_service; [done| |done|done|intros [e|[]]; quiet_auto|].
  - simpl. destruct (service_labels_lookup kc rtype index) as [Hi _]. intros He.
    by rewrite He, lookup_empty in Hi.
  - intros r. right. eexists _, ports. split; [done|]. split; [done|]. split; simpl; try done.
    apply Permutation_map, range_perm.
Qed.
End service_of.

Section reconcile_services.
Context {K : K8s} {KL : K8sLaws K} {ES : ExpStore} {AS : ApiServer} {RT : GoRuntime}
  {RTL : GoRuntimeLaws RT}.
Implicit Types (cc : ClusterController) (kc : KubeCluster).

(** The requests and the end of one round of the loop over the slices; without a
    schema, a service cannot be created. *)
Definition service_trace cc kc (rtype : ReplicaType) (spec : ReplicaSpec)
    (schema : option ClusterSchemaReconciler) (replicas : Z) (slice : nat * list Service)
    (l : list call) (r : res unit) : Prop :=
  match slice.2 with
  | [] =>
      match schema with
      | Some s => service_creation cc kc rtype spec (sr_GetDefaultContainerName s)
                    (Itoa (Z.of_nat slice.1)) l r
      | None => l = [] ∧ r = Panic
      end
  | [svc] =>
      let ns := om_Namespace (svc_Meta svc) in
      let name := om_Name (svc_Meta svc) in
      if decide (replicas ≤ Z.of_nat slice.1) then
        ∃ l', l = Call (GetService ns name) :: l' ∧ Forall (service_access ns name) l'
      else l = [] ∧ r = Ok tt
  | _ => l = [] ∧ r = Ok tt
  end.

Lemma reconcile_service_slice_run cc `{!ControllerSpec cc} kc s rtype spec n slice w log :
  same_cluster kc w → w_log w = log →
  run_spec kc log (service_trace cc kc rtype spec s n slice)
    (reconcile_service_slice cc s rtype spec n slice w).
Proof.
  intros Hkc <-. unfold reconcile_service_slice, service_trace.
  destruct slice.2 as [|svc [|svc' ss]]; [|simpl|by apply run_quiet].
  - destruct s as [s|]; [|by apply run_quiet].
    unfold mbind, M_bind. simpl. by apply CreateNewService_run.
  - assert (bool_decide (Z.of_nat slice.1 < 0) = false) as -> by (apply bool_decide_eq_false; lia).
    simpl. case_decide as Hn; [rewrite bool_decide_true by done|rewrite bool_decide_false by done];
      simpl; [|by apply run_quiet].
    set (ns := om_Namespace (svc_Meta svc)). set (name := om_Name (svc_Meta svc)).
    destruct (scs_delete_log (sc := cc_ServiceControl cc) ns name w) as (l & Hl & HP).
    destruct (scs_delete_frame (sc := cc_ServiceControl cc) ns name w) as [Hkc' _], Hkc as [? ?].
    split; [split; congruence|]. eexists. split; [exact Hl|]. eauto.
Qed.

(** The services of a replica type. *)
Definition typed_services (services : list Service) (rtype : ReplicaType) : list Service :=
  FilterForReplicaType services (GenReplicaTypeLabel rtype).

(** Up to the loop nothing can fail. *)
Lemma ReconcileServices_loop cc `{!ControllerSpec cc} rtype spec n services w :
  r_Replicas spec = Some n →
  (∀ s, s ∈ typed_services services rtype → index_ok s) →
  ReconcileServices cc rtype (Some spec) services w =
    for_each (slices_of (typed_services services rtype) n)
      (reconcile_service_slice cc (GetSchemaReconciler cc (sp_ClusterType (kc_Spec (w_kc w))))
         rtype spec n) w.
Proof.
  intros Hn Hok. destruct (GetSlices_indexed _ n Hok) as (ss & Hss & Hidx).
  unfold ReconcileServices, mbind, M_bind, lift, get_kc. simpl. rewrite Hn. simpl.
  rewrite cs_slices. fold (typed_services services rtype). unfold GetServiceSlices.
  rewrite Hss. simpl. by rewrite Hidx.
Qed.

(** The run of one pass over the services of a type. *)
Lemma ReconcileServices_run cc `{!ControllerSpec cc} kc rtype spec n services w log :
  r_Replicas spec = Some n →
  (∀ s, s ∈ typed_services services rtype → index_ok s) →
  same_cluster kc w → w_log w = log →
  run_spec kc log (λ l r, ∃ ls, l = mjoin ls ∧
      loop_trace (service_trace cc kc rtype spec
                    (GetSchemaReconciler cc (sp_ClusterType (kc_Spec kc))) n)
        (slices_of (typed_services services rtype) n) ls r)
    (ReconcileServices cc rtype (Some spec) services w).
Proof.
  intros Hn Hok Hkc <-. rewrite (ReconcileServices_loop cc rtype spec n) by done.
  rewrite (proj2 Hkc).
  destruct (for_each_trace (same_cluster kc) (service_trace cc kc rtype spec
      (GetSchemaReconciler cc (sp_ClusterType (kc_Spec kc))) n)
    (slices_of (typed_services services rtype) n) (reconcile_service_slice cc
      (GetSchemaReconciler cc (sp_ClusterType (kc_Spec kc))) rtype spec n) w)
    as (HI & ls & Hls & Htr); [|done|].
  { intros slice w1 _ Hkc1. by apply reconcile_service_slice_run. }
  split; [done|]. exists (mjoin ls). split; [done|]. by exists ls.
Qed.

(** C8 (what reconciling the services of a type requests). Whatever the server
    answers, the services of the type are worked off index by index until one step
    fails: a missing one is requested once, as a headless service with the ports
    of the main container, the name and labels of the index and the KubeCluster as
    owner; a single one is deleted exactly when its index is not below the number
    of replicas; several services of one index are left alone. *)
Theorem ReconcileServices_plan cc `{!ControllerSpec cc} (rtype : ReplicaType) (spec : ReplicaSpec)
    (n : Z) (services : list Service) (w : World) :
  r_Replicas spec = Some n →
  (∀ s, s ∈ typed_services services rtype → index_ok s) →
  let o := ReconcileServices cc rtype (Some spec) services w in
  ∃ ls, w_log o.1 = (w_log w ++ mjoin ls)%list ∧
    loop_trace (service_trace cc (w_kc w) rtype spec
                  (GetSchemaReconciler cc (sp_ClusterType (kc_Spec (w_kc w)))) n)
      (slices_of (typed_services services rtype) n) ls o.2.
Proof.
  intros Hn Hok.
  destruct (ReconcileServices_run cc (w_kc w) rtype spec n services w (w_log w))
    as (_ & l & Hl & ls & -> & Htr); [done..|]. by exists ls.
Qed.

(** C9 (a service selects the pod of its index). Among the pods the controller
    creates for a cluster, the service of an index selects exactly the pod of the
    same index and replica type. *)
Theorem service_selects_pod cc kc (rtype rtype' : ReplicaType) (i j : Z) (ports : gmap string Z)
    (s : Service) (p : Pod) :
  ci_ControllerName (cc_Controller cc) = ControllerName →
  service_of cc kc rtype (Itoa i) ports s → pod_of cc kc rtype' j p →
  selector_Matches (svc_Selector s) (om_Labels (pod_Meta p)) = true ↔
    ToLower rtype = ToLower rtype' ∧ i = j.
Proof.
  intros Hname [_ _ Hsel _ _ _] [_ Hpi Hpt Hpc Hpct Hpn _]. rewrite selector_Matches_spec, Hsel.
  destruct (service_labels_lookup kc rtype (Itoa i)) as (H1 & H2 & H3 & H4 & H5 & Hall). split.
  - intros Hsub. rewrite map_subseteq_spec in Hsub.
    pose proof (Hsub _ _ H1) as E1. pose proof (Hsub _ _ H2) as E2.
    split; [congruence|]. apply Itoa_inj; congruence.
  - intros [Ht ->]. apply map_subseteq_spec. intros k v Hk. specialize (Hall k v Hk).
    repeat (apply elem_of_cons in Hall as [->|Hall]; [congruence|]). by apply elem_of_nil in Hall.
Qed.
End reconcile_services.

(** ** Witnesses *)

Section service_witnesses.
Import Sample MemServer SampleController.

Lemma ReconcileServices_plan_witness :
  ∃ ls, w_log (ReconcileServices controller "Worker" (Some worker_spec) [] (world ∅)).1 = mjoin ls ∧
    length ls = 2%nat.
Proof.
  destruct (ReconcileServices_plan (RTL := runtime_laws) controller
    (ControllerSpec0 := controller_spec) "Worker" worker_spec 2 [] (world ∅)) as (ls & Hlog & Htr).
  - reflexivity.
  - by intros s Hs%elem_of_nil.
  - exists ls. split; [exact Hlog|].
    assert ((ReconcileServices controller "Worker" (Some worker_spec) [] (world ∅)).2 = Ok tt) as Hok
      by by_vm.
    rewrite Hok in Htr. apply loop_trace_Ok, Forall2_length in Htr. rewrite <- Htr. by_vm.
Defined.

Definition sample_service : Service := {|
  svc_Meta := om_set_OwnerReferences [GenOwnerReference controller meta]
    (om_set_Labels (service_labels cluster "Worker" "1") (om_set_Name "c1-worker-1" ObjectMeta_zero));
  svc_ClusterIP := "None"; svc_Selector := service_labels cluster "Worker" "1"; svc_Ports := [] |}.

Lemma service_selects_pod_witness :
  selector_Matches (svc_Selector sample_service) (om_Labels (pod_Meta created_worker)) = true.
Proof.
  apply (proj2 (service_selects_pod (KL := K8s_example_laws) controller cluster "Worker" "Worker" 1 1 ∅
    sample_service created_worker ltac:(reflexivity) ltac:(by split)
    ltac:(destruct (pod_of_template (RTL := runtime_laws) controller cluster "Worker" 1
            (named_template controller cluster "Worker" 1 worker_spec false)
            (named_template_of (RTL := runtime_laws) _ _ _ _ _ _)); split; assumption))).
  by split.
Defined.
End service_witnesses.
