(* ===== verification/Cleanup.v ===== *)
(** * Winding a cluster down

    Proofs about the parts of pkg/controller/ctrlcommon/controller.go that clean
    up: [DeletePodAndServices] and its policies, [CleanupCluster] and the time to
    live, and what [ReconcileKubeCluster] does with a cluster that is finished,
    suspended or over its limits. *)

From S2P Require Import Prelude K8s Api Names Status Expectations Core World Control Schema.
From S2P Require Import Controller Reconciler PodPlan.

(** ** What the controller relies on in the KubeCluster reconciler *)

Section logic_spec.
Context {K : K8s} {ES : ExpStore} {AS : ApiServer} {RT : GoRuntime}.

Definition lists_pods (c : call) : Prop := ∃ ns sel, c = Call (ListPods ns sel).
Definition lists_services (c : call) : Prop := ∃ ns sel, c = Call (ListServices ns sel).
Definition deletes_cluster (c : call) : Prop := ∃ ns name, c = Call (DeleteKubeCluster ns name).
Definition updates_status (c : call) : Prop := ∃ k, c = Call (UpdateKubeClusterStatus k).

(** Reading leaves the KubeCluster as it is. *)
Class ClusterLogicSpec (ci : ControllerInterface) : Prop := {
  cl_pods : emits lists_pods (ci_GetPodsForCluster ci);
  cl_pods_frame : stable frame_rel (ci_GetPodsForCluster ci);
  cl_services : emits lists_services (ci_GetServicesForCluster ci);
  cl_services_frame : stable frame_rel (ci_GetServicesForCluster ci);
  cl_delete : emits deletes_cluster (ci_DeleteCluster ci);
  cl_delete_frame : stable frame_rel (ci_DeleteCluster ci);
  cl_status : emits updates_status (ci_UpdateClusterStatusInApiServer ci)
}.

Lemma frame_inc c : stable frame_rel (inc c).
Proof. by intros w. Qed.

#[global] Instance NewReconciler_logic valid lister setup schemas :
  gang_setup setup →
  ClusterLogicSpec (cc_Controller (cc_set_Schemas schemas (NewReconciler valid lister setup))).
Proof.
  intros Hsetup.
  assert (cc_Controller (cc_set_Schemas schemas (NewReconciler valid lister setup)) =
    cc_Controller (NewReconciler valid lister GenNonGangSchedulerSetupFunc)) as ->
    by (by destruct Hsetup as [->|[->|[name ->]]]).
  split; simpl; unfold GetPodsForCluster, GetServicesForCluster, DeleteCluster,
    UpdateClusterStatusInApiServer, clear_kc, metrics_DeletedclustersCounterInc, inc_labels;
    repeat stable_step;
    try (first [apply emits_api | apply frame_api | apply frame_record_event | apply frame_inc]);
    unfold lists_pods, lists_services, deletes_cluster, updates_status; eauto.
Qed.
End logic_spec.

(** ** Deleting the pods and services of a cluster *)

Section delete_pods.
Context {K : K8s} {ES : ExpStore} {AS : ApiServer} {RT : GoRuntime}.
Implicit Types (cc : ClusterController) (pod : Pod).

(** The pods the clean-up policy takes away: of a cluster that is not finished all,
    and of a finished one those the policy names. *)
Definition taken (finished : bool) (policy : CleanKubeNodePolicy) pod : bool :=
  negb finished ||
  match policy with
  | CleanKubeNodePolicyNone => false
  | CleanKubeNodePolicyRunning =>
      bool_decide (pst_Phase (pod_Status pod) = PodRunning) ||
      bool_decide (pst_Phase (pod_Status pod) = PodPending)
  | _ => true
  end.

(** The requests about a pod and the service of its name: the pod is read first;
    when the step succeeds the pod, the service and again the pod were read. *)
Definition teardown pod (l : list call) (r : res unit) : Prop :=
  let ns := om_Namespace (pod_Meta pod) in
  let name := om_Name (pod_Meta pod) in
  Forall (λ c, pod_access ns name c ∨ service_access ns name c) l ∧
  head l = Some (Call (GetPod ns name)) ∧
  (r = Ok tt → ∃ l1 l2 l3,
     l = (Call (GetPod ns name) :: l1 ++ Call (GetService ns name) :: l2 ++
          Call (GetPod ns name) :: l3)%list).

Lemma teardown_run cc `{!ControllerSpec cc} pod w :
  let ns := om_Namespace (pod_Meta pod) in
  let name := om_Name (pod_Meta pod) in
  let o := (_ ← DeletePod (cc_PodControl cc) ns name;
            _ ← DeleteService (cc_ServiceControl cc) ns name;
            DeletePod (cc_PodControl cc) ns name) w in
  ∃ l, w_log o.1 = (w_log w ++ l)%list ∧ teardown pod l o.2.
Proof.
  intros ns name. unfold mbind, M_bind.
  destruct (pcs_delete_log (pc := cc_PodControl cc) ns name w) as (l1 & H1 & P1).
  pose proof (pcs_delete_no_panic (pc := cc_PodControl cc) ns name w) as N1.
  assert (∀ l, Forall (pod_access ns name) l →
    Forall (λ c, pod_access ns name c ∨ service_access ns name c) (Call (GetPod ns name) :: l)) as Hp.
  { intros l Hl. constructor; [by left; left|]. eapply Forall_impl; [exact Hl|]. by left. }
  assert (∀ l, Forall (service_access ns name) l →
    Forall (λ c, pod_access ns name c ∨ service_access ns name c) (Call (GetService ns name) :: l)) as Hs.
  { intros l Hl. constructor; [by right; left|]. eapply Forall_impl; [exact Hl|]. by right. }
  destruct (DeletePod (cc_PodControl cc) ns name w) as [w1 [[]|e|]]; simpl in *; [| |done].
  2: { eexists. split; [exact H1|]. split_and!; [by apply Hp|done|done]. }
  destruct (scs_delete_log (sc := cc_ServiceControl cc) ns name w1) as (l2 & H2 & P2).
  pose proof (scs_delete_no_panic (sc := cc_ServiceControl cc) ns name w1) as N2.
  destruct (DeleteService (cc_ServiceControl cc) ns name w1) as [w2 [[]|e|]]; simpl in *; [| |done].
  2: { eexists. rewrite H2, H1, <- app_assoc. split; [done|].
       split_and!; [apply (Forall_app_2 _ (_ :: l1)); auto|done|done]. }
  destruct (pcs_delete_log (pc := cc_PodControl cc) ns name w2) as (l3 & H3 & P3).
  eexists. rewrite H3, H2, H1, <- !app_assoc. split; [done|].
  split_and!; [|done|intros _; by exists l1, l2, l3].
  apply (Forall_app_2 _ (_ :: l1)); [auto|]. apply (Forall_app_2 _ (_ :: l2)); auto.
Qed.

Lemma untouched_trace {A} (T : A → list call → res unit → Prop) xs :
  (∀ x, x ∈ xs → T x [] (Ok tt)) →
  ∃ ls, mjoin ls = [] ∧ loop_trace T xs ls (Ok tt).
Proof.
  induction xs as [|x xs IH]; intros HT; [by exists []; split; [|constructor]|].
  destruct IH as (ls & Hls & Htr); [intros; apply HT; by right|].
  exists ([] :: ls). split; [done|]. constructor; [apply HT; left|done].
Qed.

(** C11 (the clean-up policy). With a clean-up policy set, exactly the pods the
    policy takes are torn down, one after the other until a step fails: policy
    None keeps the pods of a finished cluster, Running takes those that run or are
    about to, anything else takes all, and the pods of a cluster that is not
    finished are always taken. Tearing down asks about that pod and the service of
    its name only. A finished cluster with pods and no policy panics before any
    request. *)
Theorem DeletePodAndServices_policy cc `{!ControllerSpec cc} (runPolicy : RunPolicy)
    (st : ClusterStatus) (pods : list Pod) (w : World) :
  let o := DeletePodAndServices cc runPolicy st pods w in
  (∀ policy, rp_CleanKubeNodePolicy runPolicy = Some policy →
     ∃ ls, w_log o.1 = (w_log w ++ mjoin ls)%list ∧
       loop_trace (λ pod l r, if taken (IsFinished st) policy pod then teardown pod l r
                              else l = [] ∧ r = Ok tt) pods ls o.2) ∧
  (rp_CleanKubeNodePolicy runPolicy = None → IsFinished st = true → pods ≠ [] → o = (w, Panic)).
Proof.
  intros o. subst o. split.
  - intros policy Hp. unfold DeletePodAndServices. case_decide as Hlen.
    { destruct pods; [|done]. exists []. rewrite app_nil_r. split; [done|constructor]. }
    unfold mbind at 1 2, M_bind at 1 2, clean_policy_is, lift. rewrite Hp. simpl.
    destruct (IsFinished st) eqn:Hf; simpl; [case_bool_decide as Hnone|].
    + subst policy. destruct (untouched_trace (λ (pod : Pod) (l : list call) (r : res unit),
        if taken true CleanKubeNodePolicyNone pod then teardown pod l r else l = [] ∧ r = Ok tt) pods)
        as (ls & Hls & Htr); [done|].
      exists ls. by rewrite Hls, app_nil_r.
    + refine (proj2 (for_each_trace (λ _, True) _ _ _ w _ I)). intros pod w1 _ _. split; [done|].
      unfold delete_pod_and_service, mbind at 1, M_bind at 1, clean_policy_is, lift.
      rewrite Hf, Hp. simpl. unfold taken. simpl.
      destruct policy; simpl; try (by apply teardown_run); [|done].
      destruct (pst_Phase (pod_Status pod)); simpl; try (by apply teardown_run);
        exists []; by rewrite app_nil_r.
    + refine (proj2 (for_each_trace (λ _, True) _ _ _ w _ I)). intros pod w1 _ _. split; [done|].
      unfold delete_pod_and_service, mbind at 1, M_bind at 1, clean_policy_is, lift.
      rewrite Hf. simpl. by apply teardown_run.
  - intros Hp Hf Hne. unfold DeletePodAndServices. rewrite decide_False by (by destruct pods).
    unfold mbind, M_bind, clean_policy_is, lift. by rewrite Hf, Hp.
Qed.
End delete_pods.

(** ** The time to live of a finished cluster *)

Section cleanup_cluster.
Context {K : K8s} {ES : ExpStore} {AS : ApiServer} {RT : GoRuntime}.
Implicit Types (cc : ClusterController).

(** C12 (the time to live). Without a time to live nothing is requested. With one,
    but without a completion time, the clean-up fails. With both, exactly one
    request is made when the clock is past the completion time plus the time to
    live, namely to delete the KubeCluster, and none otherwise; there is no
    overflow for a 32-bit time to live. *)
Theorem CleanupCluster_ttl (valid : gmap string string → bool) (lister : string → option Z)
    (setup : ClusterController → ClusterController) (schemas : gmap string ClusterSchemaReconciler)
    (runPolicy : RunPolicy) (st : ClusterStatus) (w : World) :
  gang_setup setup →
  let cc := cc_set_Schemas schemas (NewReconciler valid lister setup) in
  let o := CleanupCluster cc runPolicy st w in
  match rp_TTLSecondsAfterFinished runPolicy, st_CompletionTime st with
  | None, _ => o.2 = Ok tt ∧ w_log o.1 = w_log w
  | Some _, None => (∃ e, o.2 = Err e) ∧ w_log o.1 = w_log w ∧ w_kc o.1 = w_kc w
  | Some ttl, Some finish =>
      in_int32 ttl →
      w_log o.1 = (w_log w ++
        if decide (clock (w_tick w) > finish + ttl * Second) then
          [Call (DeleteKubeCluster (om_Namespace (kc_Meta (w_kc w))) (om_Name (kc_Meta (w_kc w))))]
        else [])%list
  end.
Proof.
  intros Hsetup cc.
  assert (cc_Controller cc = cc_Controller (NewReconciler valid lister GenNonGangSchedulerSetupFunc) ∧
    cc_WorkQueue cc = FakeWorkQueue) as [Hci Hwq] by (by destruct Hsetup as [->|[->|[name ->]]]).
  unfold CleanupCluster. rewrite Hci, Hwq. clear.
  unfold mbind at 1, M_bind at 1, now.
  destruct (rp_TTLSecondsAfterFinished runPolicy) as [ttl|]; [|done].
  destruct (st_CompletionTime st) as [finish|]; [|by split; [eexists|]].
  intros Httl.
  assert (int64 (Second * ttl) = ttl * Second) as ->.
  { rewrite Z.mul_comm. apply int64_id. unfold in_int32 in Httl. unfold in_int64, Second. lia. }
  case_decide as Hexp; simpl; [|].
  - unfold DeleteCluster, mbind, M_bind, try, get_kc, api.
    destruct (serve _ _) as [s [e|[]]]; done.
  - unfold mbind, M_bind, KeyFunc, get_kc. simpl. unfold mbind, M_bind.
    destruct (MetaNamespaceKeyFunc _); simpl; by rewrite app_nil_r.
Qed.
End cleanup_cluster.

(** ** Finished and suspended clusters *)

Section wind_down.
Context {K : K8s} {ES : ExpStore} {AS : ApiServer} {RT : GoRuntime}.
Implicit Types (cc : ClusterController).

(** Reads, deletions and, unless the cluster is finished, an update of its status. *)
Definition winds_down (finished : bool) (c : call) : Prop :=
  match c with
  | Call (ListPods _ _) | Call (ListServices _ _)
  | Call (GetPod _ _) | Call (DeletePodReq _ _)
  | Call (GetService _ _) | Call (DeleteServiceReq _ _)
  | Call (GetConfigMap _ _) | Call (DeleteConfigMapReq _ _)
  | Call (GetPodGroupReq _ _) | Call (DeletePodGroupReq _ _)
  | Call (DeleteKubeCluster _ _) => True
  | Call (UpdateKubeClusterStatus _) => finished = false
  | _ => False
  end.

Lemma winds_down_delete_pod cc `{!ControllerSpec cc} b ns name :
  emits (winds_down b) (DeletePod (cc_PodControl cc) ns name).
Proof. eapply emits_weaken; [apply pcs_delete_emits, _|]. by intros c [->| ->]. Qed.
Lemma winds_down_delete_service cc `{!ControllerSpec cc} b ns name :
  emits (winds_down b) (DeleteService (cc_ServiceControl cc) ns name).
Proof. eapply emits_weaken; [apply scs_delete_emits, _|]. by intros c [->| ->]. Qed.
Lemma winds_down_delete_configmap cc `{!ControllerSpec cc} b ns name :
  emits (winds_down b) (DeleteConfigMap (cc_ConfigMapControl cc) ns name).
Proof. eapply emits_weaken; [apply ccs_delete_emits|]. by intros c [->| ->]. Qed.
Lemma winds_down_delete_cluster cc `{!ClusterLogicSpec (cc_Controller cc)} b :
  emits (winds_down b) (ci_DeleteCluster (cc_Controller cc)).
Proof. eapply emits_weaken; [apply cl_delete|]. by intros c (? & ? & ->). Qed.
Lemma winds_down_status cc `{!ClusterLogicSpec (cc_Controller cc)} :
  emits (winds_down false) (ci_UpdateClusterStatusInApiServer (cc_Controller cc)).
Proof. eapply emits_weaken; [apply cl_status|]. by intros c (? & ->). Qed.
Lemma winds_down_pods cc `{!ClusterLogicSpec (cc_Controller cc)} b :
  emits (winds_down b) (ci_GetPodsForCluster (cc_Controller cc)).
Proof. eapply emits_weaken; [apply cl_pods|]. by intros c (? & ? & ->). Qed.
Lemma winds_down_services cc `{!ClusterLogicSpec (cc_Controller cc)} b :
  emits (winds_down b) (ci_GetServicesForCluster (cc_Controller cc)).
Proof. eapply emits_weaken; [apply cl_services|]. by intros c (? & ? & ->). Qed.
Lemma winds_down_delete_podgroup cc `{!ControllerSpec cc} b : emits (winds_down b) (cc_DeletePodGroup cc).
Proof.
  unfold cc_DeletePodGroup. stable_step. stable_step; [by repeat stable_step|].
  destruct (cc_PodGroupControl cc) as [pg|] eqn:Hpg; [|intros w; exists []; by rewrite app_nil_r].
  pose proof (cs_podgroup pg Hpg) as HPG.
  assert (∀ ns name, emits (winds_down b) (GetPodGroup pg ns name)) as Hget.
  { intros. eapply emits_weaken; [apply pgs_get|]. by intros c ->. }
  assert (∀ ns name, emits (winds_down b) (DeletePodGroup pg ns name)) as Hdel.
  { intros. eapply emits_weaken; [apply pgs_delete|]. by intros c ->. }
  apply stable_lift_Ok. repeat (stable_step || apply Hget || apply Hdel).
Qed.

Lemma winds_down_DeletePodAndServices cc `{!ControllerSpec cc} b runPolicy st pods :
  emits (winds_down b) (DeletePodAndServices cc runPolicy st pods).
Proof.
  unfold DeletePodAndServices, delete_pod_and_service.
  repeat (stable_step || apply winds_down_delete_pod, _ || apply winds_down_delete_service, _).
Qed.

Lemma winds_down_CleanupCluster cc `{!ClusterLogicSpec (cc_Controller cc)} b runPolicy st :
  cc_WorkQueue cc = FakeWorkQueue →
  emits (winds_down b) (CleanupCluster cc runPolicy st).
Proof.
  intros Hwq. unfold CleanupCluster, KeyFunc. rewrite Hwq.
  repeat (stable_step || apply winds_down_delete_cluster, _ || exact (stable_ret _ tt)).
Qed.

Lemma winds_down_terminate cc `{!ControllerSpec cc} b : emits (winds_down b) (terminate_pod_group cc).
Proof. unfold terminate_pod_group. repeat (stable_step || apply winds_down_delete_podgroup, _). Qed.

Lemma winds_down_CleanUpResources cc `{!ControllerSpec cc} `{!ClusterLogicSpec (cc_Controller cc)}
    b runPolicy st pods :
  cc_WorkQueue cc = FakeWorkQueue →
  emits (winds_down b) (CleanUpResources cc runPolicy st pods).
Proof.
  intros Hwq. unfold CleanUpResources.
  repeat (stable_step || apply winds_down_DeletePodAndServices, _ ||
    apply winds_down_delete_configmap, _ || apply winds_down_terminate, _ ||
    by apply winds_down_CleanupCluster).
Qed.

Lemma winds_down_suspended cc `{!ControllerSpec cc} `{!ClusterLogicSpec (cc_Controller cc)}
    runPolicy old pods :
  cc_WorkQueue cc = FakeWorkQueue →
  emits (winds_down false) (reconcile_suspended cc runPolicy old pods).
Proof.
  intros Hwq. unfold reconcile_suspended, update_condition.
  repeat (stable_step || (by apply winds_down_CleanUpResources) || apply winds_down_status, _).
Qed.

(** *** What comes before the state of the cluster is looked at *)

Definition kept_rel (P : call → Prop) (w w' : World) : Prop := emits_rel P w w' ∧ w_kc w' = w_kc w.

#[export] Instance kept_rel_preorder P : PreOrder (kept_rel P).
Proof.
  split; [by split|]. intros w1 w2 w3 [? ?] [? ?]. split; [by etransitivity|congruence].
Qed.

Lemma kept_frame {A} P (m : M A) : emits P m → stable frame_rel m → stable (kept_rel P) m.
Proof. intros He Hf w. destruct (Hf w). by split. Qed.

Lemma kept_quiet {A} P (m : M A) :
  (∀ w, w_log (m w).1 = w_log w ∧ w_kc (m w).1 = w_kc w) → stable (kept_rel P) m.
Proof. intros Hm w. destruct (Hm w). split; [|done]. exists []. by rewrite app_nil_r. Qed.

Lemma kept_SetExpectations P s k a d : stable (kept_rel P) (sr_SetExpectations s k a d).
Proof.
  unfold sr_SetExpectations. repeat stable_step; apply kept_quiet; intros w; [done|].
  unfold expectations. by destruct (SetExpectations _ _ _ _ _).
Qed.

Lemma kept_ResetExpectations P key replicas s : stable (kept_rel P) (ResetExpectations key replicas s).
Proof.
  unfold ResetExpectations. stable_step; [by apply kept_quiet|].
  generalize (None : option error). induction a.*1 as [|rt rts IH]; intros errs; simpl;
    [repeat stable_step|].
  stable_step; [|apply IH]. unfold reset_type. repeat (stable_step || apply kept_SetExpectations).
Qed.

(** A step that keeps the KubeCluster, in front of the rest. *)
Lemma kept_bind {A B} P (m : M A) (f : A → M B) w :
  stable (kept_rel P) m →
  (∀ a w1, w_kc w1 = w_kc w → emits_rel P w1 (f a w1).1) →
  emits_rel P w ((m ≫= f) w).1.
Proof.
  intros Hm Hf. destruct (Hm w) as [Hl Hk]. unfold mbind, M_bind.
  destruct (m w) as [w1 [a|e|]]; simpl in *; [|done..]. etransitivity; [exact Hl|by apply Hf].
Qed.

(** C10 (a finished or suspended cluster is only wound down). Reconciling a cluster
    that has failed, or whose run policy suspends it, never creates or changes a
    pod, service, config map or pod group, whatever the server answers and however
    the reconciliation ends: every request reads or deletes. A finished
    cluster's status is not written either. *)
Theorem wound_down_creates_nothing cc `{!ControllerSpec cc} `{!ClusterLogicSpec (cc_Controller cc)}
    (s : ClusterSchemaReconciler) (w : World) :
  cc_WorkQueue cc = FakeWorkQueue →
  let kc := w_kc w in
  IsFinished (kc_Status kc) = true ∨ IsClusterSuspended (Some (sp_RunPolicy (kc_Spec kc))) = true →
  emits_rel (winds_down (IsFinished (kc_Status kc))) w (ReconcileKubeCluster cc s w).1.
Proof.
  intros Hwq kc Hdown. unfold ReconcileKubeCluster. unfold mbind at 1, M_bind at 1, get_kc at 1.
  apply kept_bind; [apply kept_quiet; intros; unfold KeyFunc, mbind, M_bind, get_kc; by case_match|].
  intros key w1 H1.
  apply kept_bind; [apply kept_ResetExpectations|]. intros _ w2 H2.
  apply kept_bind; [apply kept_frame; [apply winds_down_pods, _|apply cl_pods_frame]|].
  intros pods w3 H3.
  apply kept_bind; [apply kept_frame; [apply winds_down_services, _|apply cl_services_frame]|].
  intros services w4 H4. unfold mbind at 1, M_bind at 1, get_kc.
  assert (w_kc w4 = kc) as -> by (unfold kc; congruence).
  destruct (IsFinished (kc_Status kc)) eqn:Hf; [by apply winds_down_CleanUpResources|].
  destruct Hdown as [|Hsus]; [done|].
  fold kc. rewrite Hsus. by apply winds_down_suspended.
Qed.
End wind_down.


(** ** Clusters over their limits *)

Section exceeded.
Context {K : K8s} {ES : ExpStore} {AS : ApiServer} {RT : GoRuntime}.
Implicit Types (cc : ClusterController).

Lemma kept_DeletePodAndServices cc `{!ControllerSpec cc} runPolicy st pods :
  stable (kept_rel (winds_down true)) (DeletePodAndServices cc runPolicy st pods).
Proof.
  unfold DeletePodAndServices, delete_pod_and_service.
  repeat (stable_step || (apply kept_frame;
    [first [apply winds_down_delete_pod, _ | apply winds_down_delete_service, _]
    |first [apply pcs_delete_frame | apply scs_delete_frame]])).
Qed.

(** C18 (a limit and a time to live). A cluster over its backoff limit or deadline
    that has a time to live and no completion time is torn down but never marked
    Failed: the reconciliation ends with an error, or a panic, and neither the
    KubeCluster nor its status in the server has been changed. *)
Theorem exceeded_with_ttl_never_failed cc `{!ControllerSpec cc} (runPolicy : RunPolicy)
    (message : string) (pods : list Pod) (w : World) :
  rp_TTLSecondsAfterFinished runPolicy ≠ None →
  st_CompletionTime (kc_Status (w_kc w)) = None →
  let o := reconcile_exceeded cc runPolicy message pods w in
  o.2 ≠ Ok tt ∧ w_kc o.1 = w_kc w ∧ emits_rel (winds_down true) w o.1.
Proof.
  intros Httl Hct. unfold reconcile_exceeded, mbind, M_bind, get_kc.
  destruct (kept_DeletePodAndServices cc runPolicy (kc_Status (w_kc w)) pods w) as [Hl Hk].
  destruct (DeletePodAndServices _ _ _ _ w) as [w1 [[]|e|]]; simpl in *; [|by split_and!..].
  unfold CleanupCluster, now, mbind, M_bind.
  destruct (rp_TTLSecondsAfterFinished runPolicy) as [ttl|]; [|done]. rewrite Hct.
  simpl. by split_and!.
Qed.

(** A cluster over its limits is marked Failed. Without a time to live and
    without gang scheduling, a reconciliation that finds a cluster over its limits
    and succeeds has sent, as its last request, a status update of the KubeCluster
    whose conditions say Failed. *)
Theorem exceeded_marks_failed (valid : gmap string string → bool) (lister : string → option Z)
    (schemas : gmap string ClusterSchemaReconciler) `{!GoRuntimeLaws RT}
    (runPolicy : RunPolicy) (message : string) (pods : list Pod) (w : World) :
  let cc := cc_set_Schemas schemas (NewReconciler valid lister GenNonGangSchedulerSetupFunc) in
  (∀ t s, schemas !! t = Some s → SchemaSpec s) →
  rp_TTLSecondsAfterFinished runPolicy = None →
  let o := reconcile_exceeded cc runPolicy message pods w in
  o.2 = Ok tt →
  ∃ k l, w_log o.1 = (w_log w ++ l ++ [Call (UpdateKubeClusterStatus k)])%list ∧
    IsFailed (kc_Status k) = true ∧
    om_Name (kc_Meta k) = om_Name (kc_Meta (w_kc w)) ∧
    om_Namespace (kc_Meta k) = om_Namespace (kc_Meta (w_kc w)) ∧
    Forall (winds_down true) l.
Proof.
  intros cc Hschemas Httl. pose proof (NewReconciler_spec valid lister GenNonGangSchedulerSetupFunc schemas
    (or_intror (or_introl eq_refl)) Hschemas) as HC. fold cc in HC.
  unfold reconcile_exceeded, mbind, M_bind, get_kc.
  destruct (kept_DeletePodAndServices cc runPolicy (kc_Status (w_kc w)) pods w) as [(l & Hl & HP) Hk].
  destruct (DeletePodAndServices _ _ _ _ w) as [w1 [[]|e|]]; simpl in *; [|done..].
  unfold mbind, M_bind, CleanupCluster, now. rewrite Httl. simpl.
  unfold UpdateClusterStatusInApiServer, clear_kc, mbind, M_bind, get_kc, set_kc, api.
  simpl. destruct (serve _ _) as [s [e|k]]; simpl; [done|]. intros _.
  eexists _, l. rewrite Hl, <- app_assoc. split; [done|]. simpl. rewrite Hk.
  split_and!; [|done..]. apply UpdateClusterConditions_true. by right.
Qed.
End exceeded.

(** ** Witnesses *)

Section cleanup_witnesses.
Import Sample MemServer SampleController.

Definition policy_with (p : CleanKubeNodePolicy) (ttl : option Z) (suspend : option bool) : RunPolicy := {|
  rp_CleanKubeNodePolicy := Some p; rp_TTLSecondsAfterFinished := ttl;
  rp_ActiveDeadlineSeconds := None; rp_BackoffLimit := None; rp_SchedulingPolicy := None;
  rp_Suspend := suspend |}.

(** A cluster that failed keeps its pods under policy None. *)
Lemma DeletePodAndServices_policy_witness :
  w_log (DeletePodAndServices controller (policy_with CleanKubeNodePolicyNone None None)
           (failed_status 5 status) sample_pods (world ∅)).1 = [].
Proof.
  destruct (proj1 (DeletePodAndServices_policy controller (ControllerSpec0 := controller_spec)
    (policy_with CleanKubeNodePolicyNone None None) (failed_status 5 status) sample_pods (world ∅))
    CleanKubeNodePolicyNone eq_refl) as (ls & Hlog & Htr).
  rewrite Hlog. simpl. revert Htr. generalize (DeletePodAndServices controller
    (policy_with CleanKubeNodePolicyNone None None) (failed_status 5 status) sample_pods (world ∅)).2.
  intros r Htr. unfold sample_pods in Htr. clear Hlog.
  repeat match goal with
  | H : loop_trace _ (_ :: _) _ _ |- _ => inversion H; clear H; subst
  | H : loop_trace _ [] _ _ |- _ => inversion H; clear H; subst
  | H : _ = [] ∧ _ |- _ => destruct H as [-> ?]
  | H : if taken _ _ _ then _ else _ |- _ => apply proj1 in H as ->
  end; reflexivity || done.
Defined.

Definition completed (t : Z) : ClusterStatus := Status_set_CompletionTime (Some t) status.

(** At clock 0, one second after the end of a cluster that lives for two. *)
Lemma CleanupCluster_ttl_witness :
  w_log (CleanupCluster controller (policy_with CleanKubeNodePolicyAll (Some 2) None)
           (completed (-1000000000)) (world ∅)).1 = [].
Proof.
  refine (CleanupCluster_ttl (λ _, true) (λ _, None) GenNonGangSchedulerSetupFunc
    {[ "slurm" := schema ]} (policy_with CleanKubeNodePolicyAll (Some 2) None)
    (completed (-1000000000)) (world ∅) (or_intror (or_introl eq_refl)) _).
  unfold in_int32. lia.
Defined.

Definition suspended_world : World :=
  w_set_kc (KubeCluster_set_Spec
    {| sp_ClusterType := "slurm"; sp_ClusterReplicaSpec := sp_ClusterReplicaSpec (kc_Spec cluster);
       sp_MainContainer := ""; sp_RunPolicy := policy_with CleanKubeNodePolicyAll None (Some true) |}
    cluster) (world ∅).

Lemma wound_down_creates_nothing_witness :
  emits_rel (winds_down false) suspended_world (ReconcileKubeCluster controller schema suspended_world).1.
Proof.
  apply (wound_down_creates_nothing controller (ControllerSpec0 := controller_spec)
    (ClusterLogicSpec0 := NewReconciler_logic _ _ _ _ (or_intror (or_introl eq_refl)))
    schema suspended_world).
  - reflexivity.
  - right. reflexivity.
Defined.

Lemma exceeded_with_ttl_never_failed_witness :
  (reconcile_exceeded controller (policy_with CleanKubeNodePolicyAll (Some 2) None) "over" sample_pods
     (world ∅)).2 ≠ Ok tt.
Proof.
  apply (exceeded_with_ttl_never_failed controller (ControllerSpec0 := controller_spec)
    (policy_with CleanKubeNodePolicyAll (Some 2) None) "over" sample_pods (world ∅)).
  - discriminate.
  - reflexivity.
Defined.

Lemma exceeded_marks_failed_witness :
  ∃ k l, w_log (reconcile_exceeded controller (policy_with CleanKubeNodePolicyAll None None) "over" []
                  (world ∅)).1 = (l ++ [Call (UpdateKubeClusterStatus k)])%list ∧
    IsFailed (kc_Status k) = true.
Proof.
  destruct (exceeded_marks_failed (λ _, true) (λ _, None) {[ "slurm" := schema ]}
    (GoRuntimeLaws0 := runtime_laws) (policy_with CleanKubeNodePolicyAll None None) "over" [] (world ∅))
    as (k & l & Hlog & Hf & _).
  - exact schema_spec.
  - reflexivity.
  - by_vm.
  - exists k, l. by split.
Defined.
End cleanup_witnesses.
