(* ===== verification/Accounting.v ===== *)
(** * Expectation accounting

    What creating and removing pods does to the expectations of the cluster schema
    (pkg/controller/ctrlcommon/pod.go and service.go, with the expectation store of
    pkg/controller/expectation): every pod requested and not refused is expected to
    be observed, and every removal too. *)

From S2P Require Import Prelude K8s Api Names Status Expectations Core World Control Schema.
From S2P Require Import Controller Reconciler PodPlan.

(** ** Ledgers *)

Lemma ledger_add_add k a d a' d' l :
  ledger_add k a d (ledger_add k a' d' l) = ledger_add k (a' + a) (d' + d) l.
Proof.
  unfold ledger_add. apply map_eq. intros k'. destruct (decide (k = k')) as [<-|Hne].
  - rewrite !lookup_alter_eq. destruct (l !! k) as [e|]; simpl; [|done]. do 2 f_equal; lia.
  - by rewrite !lookup_alter_ne.
Qed.

Lemma ledger_add_zero k l : ledger_add k 0 0 l = l.
Proof.
  unfold ledger_add. apply map_eq. intros k'. destruct (decide (k = k')) as [<-|Hne].
  - rewrite lookup_alter_eq. destruct (l !! k) as [[a d t]|]; simpl; [|done]. by rewrite !Z.add_0_r.
  - by rewrite lookup_alter_ne.
Qed.

Section accounting.
Context {K : K8s} {KL : K8sLaws K} {ES : ExpStore} {SL : ExpStoreLaws ES} {AS : ApiServer}
  {RT : GoRuntime}.
Implicit Types (cc : ClusterController) (kc : KubeCluster) (s : ClusterSchemaReconciler)
  (l : gmap string entry).

(** The expectations of the schema are this ledger. *)
Definition accounts s l (w : World) : Prop :=
  represents (default NewControllerExpectations (w_exp w !! sr_Name s)) l.

(** Steps that leave the expectations and the metadata and spec of the KubeCluster. *)
Definition settled_rel (w w' : World) : Prop :=
  w_exp w' = w_exp w ∧ kc_Meta (w_kc w') = kc_Meta (w_kc w) ∧ kc_Spec (w_kc w') = kc_Spec (w_kc w).

#[export] Instance settled_rel_preorder : PreOrder settled_rel.
Proof.
  split; [done|]. intros w1 w2 w3 (? & ? & ?) (? & ? & ?). unfold settled_rel. split_and!; congruence.
Qed.

Lemma accounts_settled s l w w' : settled_rel w w' → accounts s l w → accounts s l w'.
Proof. intros [He _]. unfold accounts. by rewrite He. Qed.

Lemma settled_frame {A} (m : M A) : stable frame_rel m → stable settled_rel m.
Proof. intros Hm w. destruct (Hm w) as [Hk He]. split; [done|]. by rewrite Hk. Qed.

Lemma settled_ticks {A} (m : M A) : stable ticks_rel m → stable settled_rel m.
Proof.
  intros Hm w. destruct (ticks_same _ _ (Hm w)) as (_ & _ & _ & _ & He & Hk).
  split; [done|]. by rewrite Hk.
Qed.

Lemma settled_quiet {A} (m : M A) : (∀ w, settled_rel w (m w).1) → stable settled_rel m.
Proof. done. Qed.

(** A store with one entry, for the witness. *)
Lemma accounts_single s k e w :
  accounts s {[ k := e ]}
    (w_set_exp {[ sr_Name s := es_put k (entry_obj k e) NewControllerExpectations ]} w).
Proof.
  unfold accounts. simpl. rewrite lookup_singleton_eq. apply represents_put, represents_new.
Qed.

(** Raising the expectations of a key. *)
Lemma accounts_raise s l k a d w :
  accounts s l w →
  ∃ w1, sr_RaiseExpectations s k a d w = (w1, Ok tt) ∧ accounts s (ledger_add k a d l) w1 ∧
    w_kc w1 = w_kc w ∧ w_log w1 = w_log w.
Proof.
  intros Hacc. unfold sr_RaiseExpectations, expectations.
  destruct (represents_Raise _ l k a d Hacc) as (r & -> & Hr).
  eexists. split; [done|]. split; [|done]. unfold accounts. simpl. by rewrite lookup_insert_eq.
Qed.

Lemma accounts_created s l k w :
  accounts s l w →
  ∃ w1, sr_CreationObserved s k w = (w1, Ok tt) ∧ accounts s (ledger_add k (-1) 0 l) w1.
Proof.
  intros Hacc. unfold sr_CreationObserved, expectations, CreationObserved.
  rewrite LowerExpectations_Raise.
  destruct (represents_Raise _ l k (Z.opp 1) (Z.opp 0) Hacc) as (r & -> & Hr).
  eexists. split; [done|]. unfold accounts. simpl. by rewrite lookup_insert_eq.
Qed.

Ltac settled_auto :=
  repeat (first [stable_step | solve [apply settled_quiet; intros ?; done]]).

Definition pods_key kc (rType : ReplicaType) : string :=
  GenExpectationPodsKey (cluster_key (kc_Meta kc)) rType.

(** The outcome of a creation, for the ledger. *)
Definition pod_accounted s l k (o : World * res unit) : Prop :=
  match o.2 with
  | Ok _ => accounts s (ledger_add k 1 0 l) o.1
  | Err _ => accounts s l o.1
  | Panic => True
  end.

Lemma accounted_bind {A} s l k (m : M A) (f : A → M unit) w :
  stable settled_rel m → accounts s l w →
  (∀ a w1, settled_rel w w1 → m w = (w1, Ok a) → accounts s l w1 → pod_accounted s l k (f a w1)) →
  pod_accounted s l k ((m ≫= f) w).
Proof.
  intros Hm Hacc Hf. apply (stable_outcome settled_rel); [done|..]; intros; unfold pod_accounted; simpl;
    eauto using accounts_settled. apply Hf; eauto using accounts_settled.
Qed.

(** The request itself, with the expectation raised before it. *)
Lemma accounted_create cc `{!ControllerSpec cc} s l k ns t ref w :
  accounts s (ledger_add k 1 0 l) w →
  pod_accounted s l k
    ((r ← try (CreatePodsWithControllerRef (cc_PodControl cc) ns t ref);
      match r with
      | inl err =>
          if IsTimeout err then mret tt else _ ← sr_CreationObserved s k; fail err
      | inr _ => inc "created_pods_total"
      end) w).
Proof.
  intros Hacc. unfold mbind, M_bind, try.
  pose proof (settled_frame _ (pcs_create_frame (pc := cc_PodControl cc) ns t ref) w) as Hs.
  pose proof (pcs_create_no_panic (pc := cc_PodControl cc) ns t ref w) as Hnp.
  destruct (CreatePodsWithControllerRef (cc_PodControl cc) ns t ref w) as [w1 [[]|e|]]; simpl in *.
  - apply (accounts_settled _ _ _ _ Hs Hacc).
  - apply (accounts_settled _ _ _ _ Hs) in Hacc. destruct (IsTimeout e); [done|].
    destruct (accounts_created _ _ k _ Hacc) as (w2 & -> & Hacc2). unfold pod_accounted. simpl.
    assert (ledger_add k (-1) 0 (ledger_add k 1 0 l) = l) as E
      by (rewrite ledger_add_add; apply ledger_add_zero).
    by rewrite E in Hacc2.
  - done.
Qed.

Lemma CreateNewPod_accounts cc `{!ControllerSpec cc} kc s l rType index spec controller replicas
    configMap w :
  same_cluster kc w → GetSchemaReconciler cc (sp_ClusterType (kc_Spec kc)) = Some s →
  accounts s l w →
  pod_accounted s l (pods_key kc rType)
    (CreateNewPod cc rType index spec controller replicas configMap w).
Proof.
  intros Hkc Hs Hacc. unfold CreateNewPod.
  apply accounted_bind; [settled_auto|done|]. intros k w1 Hq1 Hk Hacc1.
  assert (kc_Meta k = kc_Meta kc ∧ kc_Spec k = kc_Spec kc) as [Hmk Hsk]
    by (destruct Hkc; injection Hk as <- <-; split; congruence).
  rewrite !Hmk, Hsk. unfold KeyFunc, schema_of. rewrite Hs.
  apply accounted_bind; [settled_auto|done|]. intros key w2 Hq2 Hkey Hacc2.
  assert (key = cluster_key (kc_Meta kc)) as ->.
  { revert Hkey. unfold mbind, M_bind, get_kc. rewrite MetaNamespaceKeyFunc_spec.
    intros Hkey. injection Hkey as _ <-. unfold cluster_key.
    by destruct Hq1 as (_ & -> & _), Hkc as [-> _]. }
  apply accounted_bind; [settled_auto|done|]. intros s' w3 Hq3 Hs' Hacc3. injection Hs' as _ <-.
  assert (SchemaSpec s) as HS by (by apply (cs_schema (sp_ClusterType (kc_Spec kc)))).
  apply accounted_bind; [apply settled_ticks, ss_SetClusterSpec_frame|done|]. intros t1 w4 Hq4 _ Hacc4.
  apply accounted_bind; [settled_auto|done|]. intros _ w5 Hq5 _ Hacc5.
  apply accounted_bind; [settled_auto|done|]. intros t2 w6 Hq6 _ Hacc6.
  destruct (accounts_raise s l (pods_key kc rType) 1 0 w6 Hacc6) as (w7 & Hraise & Hacc7 & _).
  unfold mbind at 1, M_bind at 1. unfold pods_key in Hraise. rewrite Hraise.
  by apply accounted_create.
Qed.

(** *** Removals *)

Definition ends s l (o : World * res unit) : Prop := o.2 = Ok tt → accounts s l o.1.

Lemma ends_bind {A} s l l' (m : M A) (f : A → M unit) w :
  stable settled_rel m → accounts s l w →
  (∀ a w1, accounts s l w1 → ends s l' (f a w1)) →
  ends s l' ((m ≫= f) w).
Proof.
  intros Hm Hacc Hf. apply (stable_outcome settled_rel); [done|..]; [|done..].
  intros a w1 Hq _. apply Hf. by eapply accounts_settled.
Qed.

Lemma ends_raise s l l' k a d (f : unit → M unit) w :
  accounts s l w → (∀ w1, accounts s (ledger_add k a d l) w1 → ends s l' (f tt w1)) →
  ends s l' ((sr_RaiseExpectations s k a d ≫= f) w).
Proof.
  intros Hacc Hf. destruct (accounts_raise s l k a d w Hacc) as (w1 & Hr & Hacc1 & _).
  unfold mbind, M_bind. rewrite Hr. by apply Hf.
Qed.

Lemma ends_lift_Ok {A} s l (a : A) (f : A → M unit) w : ends s l (f a w) → ends s l ((lift (Ok a) ≫= f) w).
Proof. done. Qed.

Lemma ends_settled s l (m : M unit) w : stable settled_rel m → accounts s l w → ends s l (m w).
Proof. intros Hm Hacc _. exact (accounts_settled s l w _ (Hm w) Hacc). Qed.

Lemma settled_DeletePod cc `{!ControllerSpec cc} ns name :
  stable settled_rel (DeletePod (cc_PodControl cc) ns name).
Proof. apply settled_frame, (pcs_delete_frame (pc := cc_PodControl cc)). Qed.

(** How often a single pod is expected to be observed as deleted. *)
Definition removals (spec : ReplicaSpec) (n index : Z) (pod : Pod) : Z :=
  (if bool_decide (index < 0) || bool_decide (n ≤ index) then 1 else 0) +
  (if restart_needed spec pod (default no_exit_code (exit_status pod)) then 1 else 0).

Lemma reconcile_one_pod_accounts cc `{!ControllerSpec cc} s l rType spec n k index pod w :
  accounts s l w →
  ends s (ledger_add k 0 (removals spec n index pod) l)
    (reconcile_one_pod cc (Some s) rType spec n k index pod w).
Proof.
  intros Hacc. unfold reconcile_one_pod, removals.
  set (b1 := bool_decide (index < 0) || _). set (b2 := restart_needed _ _ _).
  match goal with |- ends _ _ ((_ ≫= ?f) w) =>
    assert (∀ l w, accounts s l w → ends s (ledger_add k 0 (if b2 then 1 else 0) l) (f tt w)) as Htail
  end.
  { clear l w Hacc. intros l w Hacc. simpl. apply (ends_bind s l); [|done|].
    { destruct (exit_status pod); settled_auto. }
    clear w Hacc. intros _ w Hacc. destruct b2; simpl.
    - rewrite M_assoc. apply (ends_bind s l); [settled_auto|done|]. clear w Hacc. intros _ w Hacc.
      rewrite M_assoc. apply (ends_bind s l); [by apply settled_DeletePod|done|].
      clear w Hacc. intros _ w Hacc. rewrite M_assoc. apply ends_lift_Ok. rewrite M_assoc.
      apply (ends_raise s l _ k 0 1); [done|]. clear w Hacc. intros w Hacc.
      apply ends_settled; [|done]. unfold update_condition, RestartedClustersCounterInc, inc_labels.
      settled_auto.
    - rewrite ledger_add_zero. apply ends_settled; [settled_auto|done]. }
  destruct b1; simpl; [|by apply Htail].
  rewrite M_assoc. apply (ends_bind s l); [by apply settled_DeletePod|done|].
  clear w Hacc. intros _ w Hacc. rewrite M_assoc. apply ends_lift_Ok.
  apply (ends_raise s l _ k 0 1); [done|]. intros w1 Hacc1. eapply Htail in Hacc1. by rewrite ledger_add_add in Hacc1.
Qed.

(** *** The loop *)

Definition slice_creations (slice : nat * list Pod) : Z :=
  match slice.2 with [] => 1 | _ => 0 end.
Definition slice_removals (spec : ReplicaSpec) (n : Z) (slice : nat * list Pod) : Z :=
  match slice.2 with [pod] => removals spec n (Z.of_nat slice.1) pod | _ => 0 end.

Lemma reconcile_pod_slice_accounts cc `{!ControllerSpec cc} kc s l rType spec n configMap slice w :
  same_cluster kc w → GetSchemaReconciler cc (sp_ClusterType (kc_Spec kc)) = Some s →
  accounts s l w →
  ends s (ledger_add (pods_key kc rType) (slice_creations slice) (slice_removals spec n slice) l)
    (reconcile_pod_slice cc (Some s) rType spec n configMap (pods_key kc rType) slice w).
Proof.
  intros Hkc Hs Hacc. unfold reconcile_pod_slice, slice_creations, slice_removals.
  destruct slice.2 as [|pod [|pod' ps]]; simpl.
  - unfold mbind, M_bind, get_kc. simpl.
    match goal with |- ends _ _ ?o =>
      assert (pod_accounted s l (pods_key kc rType) o) as Ho by (by apply CreateNewPod_accounts);
      unfold ends; destruct o as [w1 [[]|e|]] end; intros [=]. exact Ho.
  - by apply reconcile_one_pod_accounts.
  - intros _. by rewrite ledger_add_zero.
Qed.

(** C6 (expectations follow the requests). When reconciling the pods of a type
    succeeds, the schema's expectations have grown by exactly one creation for each
    index that had no pod and by one deletion for each removal, under the pods key
    of the type, and no other expectation has changed. *)
Theorem ReconcilePods_accounts cc `{!ControllerSpec cc} {RTL : GoRuntimeLaws RT} s
    (l : gmap string entry) (rType : ReplicaType) (spec : ReplicaSpec) (n : Z) (pods : list Pod)
    (configMap : ConfigMap) (w : World) :
  GetSchemaReconciler cc (sp_ClusterType (kc_Spec (w_kc w))) = Some s →
  accounts s l w →
  r_Replicas spec = Some n →
  (∀ p, p ∈ typed pods rType → index_ok p) →
  let o := ReconcilePods cc rType (Some spec) pods configMap w in
  let slices := slices_of (typed pods rType) n in
  o.2 = Ok tt →
  accounts s (ledger_add (pods_key (w_kc w) rType) (Zsum (slice_creations <$> slices))
                (Zsum (slice_removals spec n <$> slices)) l) o.1.
Proof.
  intros Hs Hacc Hn Hok. rewrite (ReconcilePods_loop cc rType spec n) by done. rewrite Hs.
  set (kc := w_kc w). set (xs := slices_of _ _).
  assert (same_cluster kc (init_statuses rType w)) as Hkc by done.
  assert (accounts s l (init_statuses rType w)) as Hacc' by exact Hacc.
  change (GenExpectationPodsKey (cluster_key (kc_Meta (w_kc w))) rType) with (pods_key kc rType).
  revert Hkc Hacc'. generalize (init_statuses rType w). clearbody xs. clear Hacc. revert l.
  induction xs as [|x xs IH]; intros l w1 Hkc1 Hacc1; simpl.
  { intros _. by rewrite ledger_add_zero. }
  pose proof (reconcile_pod_slice_accounts cc kc s l rType spec n configMap x w1 Hkc1 Hs Hacc1) as Hx.
  destruct (reconcile_pod_slice_run (RTL := RTL) cc kc (Some s) rType spec n configMap (pods_key kc rType) x w1 _
    Hkc1 eq_refl) as [Hkc2 _].
  unfold mbind, M_bind. destruct (reconcile_pod_slice _ _ _ _ _ _ _ _ w1) as [w2 [[]|e|]]; simpl in *;
    [|done..].
  intros Hend. specialize (Hx eq_refl). simpl in Hx.
  apply (IH _ w2 Hkc2 Hx) in Hend. by rewrite ledger_add_add in Hend.
Qed.
End accounting.

(** ** Witness *)

Section accounting_witness.
Import Sample MemServer SampleController.

Definition worker_key : string := pods_key cluster "Worker".
Definition reset_ledger : gmap string entry := {[ worker_key := Entry 0 0 7 ]}.

(** The sample world after the expectations of the workers were reset. *)
Definition reset_world : World :=
  w_set_exp {[ sr_Name schema := es_put worker_key (entry_obj worker_key (Entry 0 0 7)) NewControllerExpectations ]}
    (world ∅).

Lemma ReconcilePods_accounts_witness :
  accounts schema {[ worker_key := Entry 1 0 7 ]}
    (ReconcilePods controller "Worker" (Some worker_spec) one_worker configmap reset_world).1.
Proof.
  assert ({[ worker_key := Entry 1 0 7 ]} = ledger_add (pods_key (w_kc reset_world) "Worker")
    (Zsum (slice_creations <$> slices_of (typed one_worker "Worker") 2))
    (Zsum (slice_removals worker_spec 2 <$> slices_of (typed one_worker "Worker") 2)) reset_ledger) as E
    by (rewrite typed_one_worker; by_vm).
  rewrite E.
  apply (ReconcilePods_accounts (KL := K8s_example_laws) (SL := gmap_ExpStore_laws) controller
    (ControllerSpec0 := controller_spec) (RTL := runtime_laws) schema reset_ledger "Worker" worker_spec 2
    one_worker configmap reset_world).
  - reflexivity.
  - exact (accounts_single (SL := gmap_ExpStore_laws) schema worker_key (Entry 0 0 7) (world ∅)).
  - reflexivity.
  - exact one_worker_index_ok.
  - by_vm.
Defined.
End accounting_witness.
