(* ===== verification/Events.v ===== *)
(** * Watch events

    The predicates of pkg/common/util/reconciler.go and reconcile_generic.go that
    decide which events of pods, services and pod groups lead to a reconciliation, and
    that tell the expectations of the schema what was observed. *)

From S2P Require Import Prelude K8s Api Names Status Expectations Core World Control Schema.
From S2P Require Import Controller Reconciler PodPlan Accounting.

Section events.
Context {K : K8s} {ES : ExpStore} {AS : ApiServer} {RT : GoRuntime}.

(** The objects a watch delivers; any other kind has its metadata and the kind its
    type information gives. *)
Inductive watched :=
| WKubeCluster (k : KubeCluster)
| WPod (p : Pod)
| WService (s : Service)
| WOther (kind : string) (m : ObjectMeta).

#[export] Instance watched_HasMeta : HasMeta watched := λ o,
  match o with WKubeCluster k => kc_Meta k | WPod p => pod_Meta p | WService s => svc_Meta s | WOther _ m => m end.

(** [GetObjectKind().GroupVersionKind().Kind]: the typed client leaves it empty. *)
Definition watched_Kind (o : watched) : string :=
  match o with WKubeCluster _ | WPod _ | WService _ => "" | WOther kind _ => kind end.

Definition label (o : watched) (k : string) : string := default "" (om_Labels (meta_of o) !! k).

(** [fmt.Sprintf("%s/%s", e.Object.GetNamespace(), controllerRef.Name)] *)
Definition owner_key (o : watched) (ref : OwnerReference) : string :=
  om_Namespace (meta_of o) +:+ "/" +:+ or_Name ref.

(** The type switch of the predicates of pods and services. *)
Definition expect_key (o : watched) (clusterKey rtype : string) : option string :=
  match o with
  | WPod _ => Some (GenExpectationPodsKey clusterKey rtype)
  | WService _ => Some (GenExpectationServicesKey clusterKey rtype)
  | WKubeCluster _ | WOther _ _ => None
  end.

(** The key of the generic predicates. *)
Definition generic_key (o : watched) (clusterKey rtype : string) : string :=
  GenExpectationGenericKey clusterKey rtype (ToLower (watched_Kind o) +:+ "s").

Definition onDependentCreateFunc (exp : ClusterSchemaReconciler) (o : watched) : M bool :=
  let rtype := label o ReplicaTypeLabel in
  if decide (rtype = "") then mret false
  else
    match GetControllerOf (om_OwnerReferences (meta_of o)) with
    | Some controllerRef =>
        match expect_key o (owner_key o controllerRef) rtype with
        | Some expectKey => _ ← sr_CreationObserved exp expectKey; mret true
        | None => mret false
        end
    | None => mret true
    end.

Definition onDependentDeleteFunc (exp : ClusterSchemaReconciler) (o : watched) : M bool :=
  let rtype := label o ReplicaTypeLabel in
  if decide (rtype = "") then mret false
  else
    match GetControllerOf (om_OwnerReferences (meta_of o)) with
    | Some controllerRef =>
        match expect_key o (owner_key o controllerRef) rtype with
        | Some expectKey => _ ← sr_DeletionObserved exp expectKey; mret true
        | None => mret false
        end
    | None => mret true
    end.

Definition OnDependentCreateFunc (schemaReconcilers : gmap string ClusterSchemaReconciler)
    (o : watched) : M bool :=
  let clusterType := label o ClusterTypeLabel in
  if decide (clusterType = "") then mret false
  else
    match schemaReconcilers !! clusterType with
    | None => mret false
    | Some exp => onDependentCreateFunc exp o
    end.

Definition OnDependentDeleteFunc (schemaReconcilers : gmap string ClusterSchemaReconciler)
    (o : watched) : M bool :=
  let clusterType := label o ClusterTypeLabel in
  if decide (clusterType = "") then mret false
  else
    match schemaReconcilers !! clusterType with
    | None => mret false
    | Some exp => onDependentDeleteFunc exp o
    end.

(** The cluster a reference points to; nil when there is none of that name and UID. *)
Definition resolveControllerRef (cc : ClusterController) (namespace : string)
    (controllerRef : OwnerReference) : M (option KubeCluster) :=
  if decide (or_Kind controllerRef ≠ ci_Kind (cc_Controller cc)) then mret None
  else
    r ← try (ci_GetClusterFromInformerCache (cc_Controller cc) namespace (or_Name controllerRef));
    match r with
    | inl _ => mret None
    | inr cluster =>
        mret (if decide (om_UID (kc_Meta cluster) ≠ or_UID controllerRef) then None else Some cluster)
    end.

(** What the update predicates share: the old owner, then the new one. *)
Definition owner_updated (cc : ClusterController) (newObj oldObj : watched) : M bool :=
  let newControllerRef := GetControllerOf (om_OwnerReferences (meta_of newObj)) in
  let oldControllerRef := GetControllerOf (om_OwnerReferences (meta_of oldObj)) in
  old ← (match oldControllerRef with
         | Some ref =>
             if decide (newControllerRef ≠ oldControllerRef)
             then resolveControllerRef cc (om_Namespace (meta_of oldObj)) ref
             else mret None
         | None => mret None
         end);
  match old with
  | Some _ => mret true
  | None =>
      match newControllerRef with
      | Some ref =>
          cluster ← resolveControllerRef cc (om_Namespace (meta_of newObj)) ref;
          mret (match cluster with Some _ => true | None => false end)
      | None => mret false
      end
  end.

Definition OnDependentUpdateFunc (cc : ClusterController) (newObj oldObj : watched) : M bool :=
  if decide (om_ResourceVersion (meta_of newObj) = om_ResourceVersion (meta_of oldObj)) then mret false
  else
    match newObj with
    | WKubeCluster _ | WOther _ _ => mret false
    | WPod _ | WService _ => owner_updated cc newObj oldObj
    end.

(** ** reconcile_generic.go *)

Definition OnDependentCreateFuncGeneric (schemaReconcilers : gmap string ClusterSchemaReconciler)
    (o : watched) : M bool :=
  let clusterType := label o ClusterTypeLabel in
  if decide (clusterType = "") then mret false
  else
    match schemaReconcilers !! clusterType with
    | None => mret false
    | Some exp =>
        let rtype := label o ReplicaTypeLabel in
        if decide (rtype = "") then mret false
        else
          match GetControllerOf (om_OwnerReferences (meta_of o)) with
          | Some controllerRef =>
              _ ← sr_CreationObserved exp (generic_key o (owner_key o controllerRef) rtype);
              mret true
          | None => mret true
          end
    end.

Definition OnDependentUpdateFuncGeneric (jc : ClusterController) (newObj oldObj : watched) : M bool :=
  if decide (om_ResourceVersion (meta_of newObj) = om_ResourceVersion (meta_of oldObj)) then mret false
  else owner_updated jc newObj oldObj.

Definition OnDependentDeleteFuncGeneric (schemaReconcilers : gmap string ClusterSchemaReconciler)
    (o : watched) : M bool :=
  let clusterType := label o ClusterTypeLabel in
  if decide (clusterType = "") then mret false
  else
    match schemaReconcilers !! clusterType with
    | None => mret false
    | Some exp =>
        let rtype := label o ReplicaTypeLabel in
        if decide (rtype = "") then mret false
        else
          match GetControllerOf (om_OwnerReferences (meta_of o)) with
          | Some controllerRef =>
              _ ← sr_DeletionObserved exp (generic_key o (owner_key o controllerRef) rtype);
              mret true
          | None => mret true
          end
    end.

(** ** [SetupWithManager]

    The watches, in the order they are set up: the KubeClusters, whose creation is
    [onOwnerCreateFunc], the pods and services, and the pod groups of the schedulers
    that are installed. *)
Inductive watch :=
| WatchKubeClusters
| WatchDependents (kind : string)
| WatchGeneric (kind : string).

(** What controller-runtime is asked for: a controller, a watch, and whether the
    server knows the kind [PodGroup] of an API group. *)
Record Manager := {
  mgr_New : res unit;
  mgr_Watch : watch → res unit;
  mgr_PodGroup : string → bool
}.

Definition VolcanoGroup : string := "scheduling.volcano.sh".
Definition SchedulerPluginsGroup : string := "scheduling.x-k8s.io".

Definition watches (mgr : Manager) : list watch :=
  ([WatchKubeClusters; WatchDependents "Pod"; WatchDependents "Service"]
   ++ (if mgr_PodGroup mgr VolcanoGroup then [WatchGeneric VolcanoGroup] else [])
   ++ (if mgr_PodGroup mgr SchedulerPluginsGroup then [WatchGeneric SchedulerPluginsGroup] else []))%list.

(** An error ends the set-up. *)
Definition SetupWithManager (mgr : Manager) : res unit :=
  let! _ := mgr_New mgr in result_foldl (λ _ w, mgr_Watch mgr w) tt (watches mgr).

(** The predicates of a watch, which read the registry of the time of the event. The
    object of a new KubeCluster is changed in place, in the informer's cache; the event
    is let through whatever its object is. *)
Definition on_create (cc : ClusterController) (w : watch) (o : watched) : M bool :=
  match w with
  | WatchKubeClusters =>
      match o with
      | WKubeCluster kcluster => _ ← onOwnerCreateFunc kcluster; mret true
      | _ => mret true
      end
  | WatchDependents _ => OnDependentCreateFunc (cc_SchemaReconcilerManager cc) o
  | WatchGeneric _ => OnDependentCreateFuncGeneric (cc_SchemaReconcilerManager cc) o
  end.
Definition on_update (cc : ClusterController) (w : watch) (newObj oldObj : watched) : M bool :=
  match w with
  | WatchKubeClusters => mret true
  | WatchDependents _ => OnDependentUpdateFunc cc newObj oldObj
  | WatchGeneric _ => OnDependentUpdateFuncGeneric cc newObj oldObj
  end.
Definition on_delete (cc : ClusterController) (w : watch) (o : watched) : M bool :=
  match w with
  | WatchKubeClusters => mret true
  | WatchDependents _ => OnDependentDeleteFunc (cc_SchemaReconcilerManager cc) o
  | WatchGeneric _ => OnDependentDeleteFuncGeneric (cc_SchemaReconcilerManager cc) o
  end.

(** A set-up that succeeds has a watch on the pods and on the services. *)
Lemma SetupWithManager_ok mgr :
  SetupWithManager mgr = Ok tt ↔
  mgr_New mgr = Ok tt ∧ Forall (λ w, mgr_Watch mgr w = Ok tt) (watches mgr).
Proof using Type.
  unfold SetupWithManager. rewrite <- result_foldl_check.
  destruct (mgr_New mgr) as [[]|e|]; simpl; naive_solver.
Qed.
End events.

(** ** What the events do to the expectations *)

Section settle.
Context {K : K8s} {KL : K8sLaws K} {ES : ExpStore} {SL : ExpStoreLaws ES} {AS : ApiServer}
  {RT : GoRuntime}.
Implicit Types (cc : ClusterController) (kc : KubeCluster) (s : ClusterSchemaReconciler).

Lemma accounts_deleted s l k w :
  accounts s l w →
  ∃ w1, sr_DeletionObserved s k w = (w1, Ok tt) ∧ accounts s (ledger_add k 0 (-1) l) w1 ∧
    w_kc w1 = w_kc w ∧ w_log w1 = w_log w.
Proof.
  intros Hacc. unfold sr_DeletionObserved, expectations, DeletionObserved.
  rewrite LowerExpectations_Raise.
  destruct (represents_Raise _ l k (Z.opp 0) (Z.opp 1) Hacc) as (r & -> & Hr).
  eexists. split; [done|]. split; [|done]. unfold accounts. simpl. by rewrite lookup_insert_eq.
Qed.

Lemma GetControllerOf_own cc m : GetControllerOf [GenOwnerReference cc m] = Some (GenOwnerReference cc m).
Proof. by rewrite GetControllerOf_spec. Qed.

Lemma label_pod p k v : om_Labels (pod_Meta p) !! k = Some v → label (WPod p) k = v.
Proof. unfold label. change (meta_of (WPod p)) with (pod_Meta p). by intros ->. Qed.

(** The key an event of a pod of the cluster uses is the one its creation used. *)
Lemma event_key cc kc rType index p :
  pod_of cc kc rType index p → om_Namespace (pod_Meta p) = om_Namespace (kc_Meta kc) →
  om_Namespace (kc_Meta kc) ≠ "" →
  expect_key (WPod p) (owner_key (WPod p) (GenOwnerReference cc (kc_Meta kc))) (label (WPod p) ReplicaTypeLabel)
  = Some (pods_key kc rType).
Proof.
  intros Hp Hns Hne. rewrite (label_pod _ _ _ (po_type _ _ _ _ _ Hp)).
  unfold expect_key, owner_key, pods_key, cluster_key, GenExpectationPodsKey.
  change (meta_of (WPod p)) with (pod_Meta p). rewrite Hns, ToLower_idem. by rewrite decide_False.
Qed.

Lemma ToLower_nonempty (t : string) : t ≠ "" → ToLower t ≠ "".
Proof. by destruct t. Qed.

(** C7 (watch events settle the expectations). A pod that the controller requested for
    an index, and that is stored in the cluster's namespace, settles what its
    reconciliation expects: the event of its creation lowers the creations that
    creating it raised, the event of its deletion lowers the deletions that deleting it
    raised, under the same key and back to the ledger before. Both events lead to a
    reconciliation, and neither makes a request. *)
Theorem events_settle_expectations cc `{!ControllerSpec cc} s kc (rType : ReplicaType) (index : Z)
    (p : Pod) (l : gmap string entry) (w : World) :
  GetSchemaReconciler cc (sp_ClusterType (kc_Spec kc)) = Some s →
  sp_ClusterType (kc_Spec kc) ≠ "" → rType ≠ "" → om_Namespace (kc_Meta kc) ≠ "" →
  pod_of cc kc rType index p → om_Namespace (pod_Meta p) = om_Namespace (kc_Meta kc) →
  (accounts s (ledger_add (pods_key kc rType) 1 0 l) w →
     ∃ w', OnDependentCreateFunc (cc_SchemaReconcilerManager cc) (WPod p) w = (w', Ok true) ∧
       accounts s l w' ∧ w_log w' = w_log w) ∧
  (accounts s (ledger_add (pods_key kc rType) 0 1 l) w →
     ∃ w', OnDependentDeleteFunc (cc_SchemaReconcilerManager cc) (WPod p) w = (w', Ok true) ∧
       accounts s l w' ∧ w_log w' = w_log w).
Proof.
  intros Hs Hct Hrt Hns Hp Hpns.
  assert (label (WPod p) ClusterTypeLabel = sp_ClusterType (kc_Spec kc)) as Hl1
    by apply label_pod, (po_clustertype _ _ _ _ _ Hp).
  assert (label (WPod p) ReplicaTypeLabel ≠ "") as Hl2
    by (rewrite (label_pod _ _ _ (po_type _ _ _ _ _ Hp)); by apply ToLower_nonempty).
  assert (GetControllerOf (om_OwnerReferences (meta_of (WPod p))) = Some (GenOwnerReference cc (kc_Meta kc)))
    as Href by (change (meta_of (WPod p)) with (pod_Meta p); rewrite (po_owner _ _ _ _ _ Hp); apply GetControllerOf_own).
  unfold GetSchemaReconciler in Hs.
  split; intros Hacc; unfold OnDependentCreateFunc, OnDependentDeleteFunc; rewrite Hl1, decide_False, Hs by done;
    unfold onDependentCreateFunc, onDependentDeleteFunc;
    rewrite decide_False, Href, (event_key cc kc rType index) by done.
  - destruct (accounts_created s _ (pods_key kc rType) w Hacc) as (w1 & H1 & Hacc1).
    rewrite (bind_run _ _ _ _ _ H1). exists w1. split; [done|].
    rewrite ledger_add_add in Hacc1. simpl in Hacc1. rewrite ledger_add_zero in Hacc1. split; [done|].
    revert H1. unfold sr_CreationObserved, expectations. by destruct (CreationObserved _ _); [intros [= <-]|..].
  - destruct (accounts_deleted s _ (pods_key kc rType) w Hacc) as (w1 & H1 & Hacc1 & _ & Hlog).
    rewrite (bind_run _ _ _ _ _ H1). exists w1. split; [done|].
    rewrite ledger_add_add in Hacc1. simpl in Hacc1. by rewrite ledger_add_zero in Hacc1.
Qed.
End settle.

(** ** Which updates lead to a reconciliation *)

Section updates.
Context {K : K8s} {ES : ExpStore} {AS : ApiServer} {RT : GoRuntime}.

(** The owners an update makes the predicate look for: the old one if it is another
    than the new one, and the new one. *)
Definition owners (newObj oldObj : watched) : list (string * OwnerReference) :=
  let new_ref := GetControllerOf (om_OwnerReferences (meta_of newObj)) in
  let old_ref := GetControllerOf (om_OwnerReferences (meta_of oldObj)) in
  ((match old_ref with
    | Some ref => if decide (new_ref ≠ old_ref) then [(om_Namespace (meta_of oldObj), ref)] else []
    | None => []
    end) ++
   match new_ref with Some ref => [(om_Namespace (meta_of newObj), ref)] | None => [] end)%list.

(** The server, in some state, knows the KubeCluster the reference points to. *)
Definition known_owner (o : string * OwnerReference) : Prop :=
  or_Kind o.2 = KubeClusterKind ∧
  ∃ s s' k, serve (GetKubeCluster o.1 (or_Name o.2)) s = (s', inr k) ∧ om_UID (kc_Meta k) = or_UID o.2.

Definition asks_for (os : list (string * OwnerReference)) (c : call) : Prop :=
  ∃ o, o ∈ os ∧ or_Kind o.2 = KubeClusterKind ∧ c = Call (GetKubeCluster o.1 (or_Name o.2)).

(** A lookup: at most one request, and nothing but the server and its log changes. *)
Definition looked_up (os : list (string * OwnerReference)) (n : nat) (w w' : World) : Prop :=
  w_kc w' = w_kc w ∧ w_exp w' = w_exp w ∧
  ∃ l, w_log w' = (w_log w ++ l)%list ∧ Forall (asks_for os) l ∧ (length l ≤ n)%nat.

Lemma looked_up_refl os n w : looked_up os n w w.
Proof. split_and!; [done..|]. exists []. rewrite app_nil_r. split_and!; [done|constructor|simpl; lia]. Qed.

Lemma looked_up_trans os os1 os2 n m w1 w2 w3 :
  os1 ⊆ os → os2 ⊆ os → looked_up os1 n w1 w2 → looked_up os2 m w2 w3 → looked_up os (n + m) w1 w3.
Proof.
  intros Ho1 Ho2 (Hk1 & He1 & l1 & Hl1 & Hf1 & Hn) (Hk2 & He2 & l2 & Hl2 & Hf2 & Hm).
  split_and!; [congruence..|]. exists (l1 ++ l2)%list. rewrite Hl2, Hl1, app_assoc, length_app.
  split_and!; [done| |lia]. apply Forall_app.
  split; (eapply Forall_impl; [done|]); intros c (o & Hin & ?); exists o; (split; [auto|done]).
Qed.

Lemma resolveControllerRef_ok valid lister setup schemas ns ref w :
  gang_setup setup →
  let cc := cc_set_Schemas schemas (NewReconciler valid lister setup) in
  ∃ w' r, resolveControllerRef cc ns ref w = (w', Ok r) ∧ looked_up [(ns, ref)] 1 w w' ∧
    (is_Some r → known_owner (ns, ref)).
Proof.
  intros Hset cc. assert (cc_Controller cc = cc_Controller (NewReconciler valid lister GenNonGangSchedulerSetupFunc))
    as Hcc by (by destruct Hset as [->|[->|[n ->]]]).
  unfold resolveControllerRef. rewrite Hcc. simpl.
  case_decide as Hk.
  { exists w, None. split_and!; [done|apply looked_up_refl|]. by intros [??]. }
  assert (or_Kind ref = KubeClusterKind) as Hkind by (destruct (decide (or_Kind ref = KubeClusterKind)); tauto).
  unfold try, mbind, M_bind, GetClusterFromInformerCache, api.
  assert (∀ s, looked_up [(ns, ref)] 1 w (w_set_srv s (Call (GetKubeCluster ns (or_Name ref))) w)) as Hl.
  { intros s. split_and!; [done..|]. eexists. split; [done|]. split; [|simpl; lia].
    constructor; [|constructor]. exists (ns, ref). split_and!; [by left|done..]. }
  destruct (serve (GetKubeCluster ns (or_Name ref)) (w_srv w)) as [s [e|k]] eqn:Hs;
    eexists _, _; (split; [done|]); (split; [apply Hl|]); [by intros [??]|].
  case_decide as Hu; [by intros [??]|]. intros _. split; [done|]. exists (w_srv w), s, k.
  split; [done|]. destruct (decide (om_UID (kc_Meta k) = or_UID ref)); tauto.
Qed.

(** Which updates of pods and services lead to a reconciliation: for the
    KubeCluster controller the update predicate never fails. A resync, which repeats
    the resource version, leads nowhere and asks for nothing. Otherwise it asks the
    server for at most two KubeClusters, the owner the object had and the one it has,
    and it passes only an object one of whose owners is a KubeCluster that the server
    knows by the UID of the reference. *)
Theorem update_events (valid : gmap string string → bool) (lister : string → option Z)
    (setup : ClusterController → ClusterController) (schemas : gmap string ClusterSchemaReconciler)
    (newObj oldObj : watched) (w : World) :
  gang_setup setup →
  let cc := cc_set_Schemas schemas (NewReconciler valid lister setup) in
  (om_ResourceVersion (meta_of newObj) = om_ResourceVersion (meta_of oldObj) →
     OnDependentUpdateFunc cc newObj oldObj w = (w, Ok false)) ∧
  ∃ w' b, OnDependentUpdateFunc cc newObj oldObj w = (w', Ok b) ∧
    looked_up (owners newObj oldObj) 2 w w' ∧
    (b = true → ∃ o, o ∈ owners newObj oldObj ∧ known_owner o).
Proof.
  intros Hset cc. unfold OnDependentUpdateFunc. case_decide as Hrv.
  { split; [done|]. exists w, false. split_and!; [done|apply looked_up_refl|done]. }
  split; [done|].
  assert (∃ w' b, owner_updated cc newObj oldObj w = (w', Ok b) ∧
    looked_up (owners newObj oldObj) 2 w w' ∧
    (b = true → ∃ o, o ∈ owners newObj oldObj ∧ known_owner o)) as Hown.
  2: { destruct newObj; [|exact Hown..|]; exists w, false; by split_and!; [..|apply looked_up_refl|]. }
  unfold owner_updated, owners.
  set (nr := GetControllerOf (om_OwnerReferences (meta_of newObj))).
  set (or := GetControllerOf (om_OwnerReferences (meta_of oldObj))).
  set (first := match or with Some ref => _ | None => [] end).
  assert (∃ w1 r, (match or with
         | Some ref =>
             if decide (nr ≠ or) then resolveControllerRef cc (om_Namespace (meta_of oldObj)) ref
             else mret None
         | None => mret None
         end) w = (w1, Ok r) ∧ looked_up first 1 w w1 ∧
    (is_Some r → ∃ o, o ∈ first ∧ known_owner o)) as (w1 & r & H1 & Hl1 & Hr1).
  { unfold first. destruct or as [ref|]; [case_decide|]; try (exists w, None;
      split_and!; [done|apply looked_up_refl|by intros [??]]).
    destruct (resolveControllerRef_ok valid lister setup schemas (om_Namespace (meta_of oldObj)) ref w Hset)
      as (w1 & r & ? & ? & Hk). exists w1, r. split_and!; [done..|]. intros Hr.
    eexists. split; [by left|]. by apply Hk. }
  rewrite (bind_run _ _ _ _ _ H1). clearbody first. destruct r as [k|].
  { exists w1, true. split_and!; [done| |].
    - apply (looked_up_trans _ first [] 1 1 w w1 w1); [set_solver..|done|apply looked_up_refl].
    - intros _. destruct Hr1 as (o & Ho & ?); [by eexists|]. exists o. split; [by apply elem_of_app; left|done]. }
  clear Hr1. destruct nr as [ref|].
  - destruct (resolveControllerRef_ok valid lister setup schemas (om_Namespace (meta_of newObj)) ref w1 Hset)
      as (w2 & r & H2 & Hl2 & Hk). rewrite (bind_run _ _ _ _ _ H2). eexists w2, _. split; [done|]. split.
    + apply (looked_up_trans _ first [(om_Namespace (meta_of newObj), ref)] 1 1 w w1 w2); [set_solver..|done|done].
    + destruct r as [k|]; [|done]. intros _. eexists. split; [apply elem_of_app; right; by left|].
      apply Hk. by eexists.
  - exists w1, false. split_and!; [done| |done].
    apply (looked_up_trans _ first [] 1 1 w w1 w1); [set_solver..|done|apply looked_up_refl].
Qed.
End updates.

Section events_witnesses.
Import Sample MemServer SampleController.

(** One creation and one deletion of a worker are expected. *)
Definition pending_world : World :=
  w_set_exp {[ sr_Name schema := es_put worker_key (entry_obj worker_key (Entry 1 1 7)) NewControllerExpectations ]}
    (world ∅).

Lemma pending_accounts : accounts schema {[ worker_key := Entry 1 1 7 ]} pending_world.
Proof. exact (accounts_single (SL := gmap_ExpStore_laws) schema worker_key (Entry 1 1 7) (world ∅)). Qed.

Lemma events_settle_expectations_witness :
  ∃ w', OnDependentCreateFunc (cc_SchemaReconcilerManager controller) (WPod created_worker) pending_world
          = (w', Ok true) ∧ accounts schema {[ worker_key := Entry 0 1 7 ]} w'.
Proof.
  destruct (events_settle_expectations (KL := K8s_example_laws) (SL := gmap_ExpStore_laws) controller
    (ControllerSpec0 := controller_spec) schema cluster "Worker" 1 created_worker
    {[ worker_key := Entry 0 1 7 ]} pending_world) as [Hc _].
  - reflexivity.
  - discriminate.
  - discriminate.
  - discriminate.
  - exact created_worker_of.
  - reflexivity.
  - assert (ledger_add (pods_key cluster "Worker") 1 0 {[ worker_key := Entry 0 1 7 ]}
            = ({[ worker_key := Entry 1 1 7 ]} : gmap string entry)) as E by by_vm.
    rewrite E in Hc. destruct (Hc pending_accounts) as (w' & H & Hacc & _). exists w'. exact (conj H Hacc).
Defined.

Definition set_version (v : string) (p : Pod) : Pod := {|
  pod_Meta := {| om_Name := om_Name (pod_Meta p); om_Namespace := om_Namespace (pod_Meta p);
    om_UID := om_UID (pod_Meta p); om_ResourceVersion := v; om_Labels := om_Labels (pod_Meta p);
    om_Annotations := om_Annotations (pod_Meta p); om_Finalizers := om_Finalizers (pod_Meta p);
    om_OwnerReferences := om_OwnerReferences (pod_Meta p);
    om_CreationTimestamp := om_CreationTimestamp (pod_Meta p);
    om_DeletionTimestamp := om_DeletionTimestamp (pod_Meta p) |};
  pod_Spec := pod_Spec p; pod_Status := pod_Status p |}.

Lemma update_events_witness :
  OnDependentUpdateFunc controller (WPod created_worker) (WPod created_worker) (world ∅)
    = (world ∅, Ok false) ∧
  ∃ o, o ∈ owners (WPod (set_version "9" created_worker)) (WPod created_worker) ∧ known_owner o.
Proof.
  split.
  - apply (update_events (λ _, true) (λ _, None) GenNonGangSchedulerSetupFunc {[ "slurm" := schema ]}
      (WPod created_worker) (WPod created_worker) (world ∅)); [by right; left|reflexivity].
  - destruct (update_events (λ _, true) (λ _, None) GenNonGangSchedulerSetupFunc {[ "slurm" := schema ]}
      (WPod (set_version "9" created_worker)) (WPod created_worker) (world ∅)) as [_ (w' & b & H & _ & Hb)];
      [by right; left|].
    apply Hb.
    assert ((OnDependentUpdateFunc controller (WPod (set_version "9" created_worker)) (WPod created_worker)
             (world ∅)).2 = Ok true) as Ht by by_vm.
    unfold controller in Ht. rewrite H in Ht. by injection Ht as ->.
Defined.
End events_witnesses.
