(* ===== verification/SchemaLib.v ===== *)
(** * What the cluster schemas share

    The string functions of the Go library the schemas use, loops that build a
    value, random numbers, and what both schemas do to a pod template and to the
    status of a cluster in the same words. pkg/util/random.go is here too. *)

From S2P Require Import Prelude K8s Api Defaults Status Expectations World Control Schema Controller.

(** ** Strings *)

Definition newline : ascii := "010"%char.
Definition nl : string := String newline "".
Definition comma : ascii := ","%char.
Definition dq : string := String "034"%char "".

(** A Go raw string holds no back quote: the texts below are written with one in
    the place of each double quote. *)
Definition quoted : string → string := ReplaceAllChar "`"%char "034"%char.

(** [fmt.Sprintf("%s\n%s\n", a, b)] *)
Definition two_lines (a b : string) : string := a +:+ nl +:+ b +:+ nl.

(** [strings.Split] at a one-byte separator *)
Fixpoint Split (sep : ascii) (s : string) : list string :=
  match s with
  | EmptyString => [""]
  | String c s =>
      if decide (c = sep) then "" :: Split sep s
      else match Split sep s with
           | l :: ls => String c l :: ls
           | [] => [String c ""]
           end
  end.

(** [strings.HasPrefix], [strings.TrimPrefix] *)
Definition HasPrefix (s p : string) : bool := String.prefix p s.
Fixpoint string_drop (n : nat) (s : string) : string :=
  match n, s with
  | S n, String _ s => string_drop n s
  | _, _ => s
  end.
Definition TrimPrefix (s p : string) : string :=
  if HasPrefix s p then string_drop (String.length p) s else s.

(** [strings.TrimSpace] of ASCII text *)
Definition is_space (c : ascii) : bool :=
  let n := N_of_ascii c in ((9 <=? n) && (n <=? 13) || (n =? 32))%N.
Fixpoint trim_left (s : string) : string :=
  match s with
  | String c t => if is_space c then trim_left t else s
  | EmptyString => s
  end.
Fixpoint trim_right (s : string) : string :=
  match s with
  | EmptyString => EmptyString
  | String c s =>
      match trim_right s with
      | EmptyString => if is_space c then EmptyString else String c EmptyString
      | t => String c t
      end
  end.
Definition TrimSpace (s : string) : string := trim_right (trim_left s).

(** [strings.Replace(s, old, new, 1)], for an [old] that is not empty *)
Fixpoint Replace1 (s old new : string) : string :=
  if String.prefix old s then new +:+ string_drop (String.length old) s
  else match s with
       | EmptyString => EmptyString
       | String c s => String c (Replace1 s old new)
       end.

(** [strings.Contains] *)
Fixpoint ContainsStr (s sub : string) : bool :=
  String.prefix sub s ||
  match s with
  | EmptyString => false
  | String _ s => ContainsStr s sub
  end.

(** *** Facts *)

Lemma prefix_app p s : String.prefix p (p +:+ s) = true.
Proof.
  induction p as [|c p IH]; simpl; [by destruct s|]. by destruct (ascii_dec c c).
Qed.

Lemma string_drop_app p s : string_drop (String.length p) (p +:+ s) = s.
Proof. induction p as [|c p IH]; simpl; [by destruct s|done]. Qed.

Lemma TrimPrefix_app p s : TrimPrefix (p +:+ s) p = s.
Proof. unfold TrimPrefix, HasPrefix. by rewrite prefix_app, string_drop_app. Qed.

Lemma Split_line sep s : has_char sep s = false → Split sep s = [s].
Proof.
  induction s as [|c s IH]; simpl; [done|].
  intros [Hc Hs]%orb_false_iff. apply bool_decide_eq_false in Hc.
  rewrite decide_False by done. by rewrite IH.
Qed.

Lemma Split_nonempty sep s : Split sep s ≠ [].
Proof.
  destruct s as [|c s]; simpl; [done|]. case_decide; [done|]. by destruct (Split sep s).
Qed.

Lemma Split_app sep a b : Split sep (a +:+ String sep b) = (Split sep a ++ Split sep b)%list.
Proof.
  induction a as [|c a IH]; simpl; [by rewrite decide_True|].
  rewrite IH. case_decide; [done|]. pose proof (Split_nonempty sep a).
  by destruct (Split sep a).
Qed.

Lemma Replace1_unfold s old new :
  Replace1 s old new =
  if String.prefix old s then new +:+ string_drop (String.length old) s
  else match s with
       | EmptyString => EmptyString
       | String c s => String c (Replace1 s old new)
       end.
Proof. by destruct s. Qed.

Lemma Replace1_head old s new : Replace1 (old +:+ s) old new = new +:+ s.
Proof.
  by rewrite Replace1_unfold, prefix_app, string_drop_app.
Qed.

(** A first occurrence that starts with a byte the text before it does not have. *)
Lemma Replace1_at c o a b new :
  has_char c a = false →
  Replace1 (a +:+ String c o +:+ b) (String c o) new = a +:+ new +:+ b.
Proof.
  induction a as [|d a IH]; intros Ha; [exact (Replace1_head (String c o) b new)|].
  simpl in Ha. apply orb_false_iff in Ha as [Hc Ha]. apply bool_decide_eq_false in Hc.
  simpl. destruct (ascii_dec c d) as [->|]; [done|]. by rewrite <-IH.
Qed.

Lemma trim_left_id s : (∀ c, has_char c s = true → is_space c = false) → trim_left s = s.
Proof.
  destruct s as [|c s]; simpl; [done|]. intros Hs. rewrite Hs; [done|].
  by rewrite bool_decide_true.
Qed.

Lemma trim_right_space s t :
  (∀ c, has_char c s = true → is_space c = false) →
  trim_right t = "" → trim_right (s +:+ t) = s.
Proof.
  intros Hs Ht. induction s as [|c s IH]; [done|].
  simpl. rewrite IH by (intros d Hd; apply Hs; simpl; by rewrite Hd, orb_true_r).
  destruct s as [|d s]; [|done]. rewrite Hs; [done|]. simpl. by rewrite bool_decide_true.
Qed.

(** A field with a blank after it. *)
Lemma TrimSpace_field s :
  s ≠ "" → (∀ c, has_char c s = true → is_space c = false) → TrimSpace (s +:+ " ") = s.
Proof.
  intros Hne Hs. unfold TrimSpace.
  assert (trim_left (s +:+ " ") = s +:+ " ") as ->; [|by apply trim_right_space].
  destruct s as [|c s]; [done|]. simpl. rewrite Hs; [done|]. simpl. by rewrite bool_decide_true.
Qed.

(** The bytes of a printed integer. *)
Lemma Itoa_chars c z : has_char c (Itoa z) = true → is_Some (digit_value c) ∨ c = "-"%char.
Proof.
  unfold Itoa. destruct z as [|p|p].
  - intros H. left. by apply (pretty_N_has_char c 0).
  - intros H. left. by apply (pretty_N_has_char c (Npos p)).
  - change (pretty (Z.neg p)) with (String "-"%char (pretty (Npos p))). simpl.
    intros [->%bool_decide_eq_true|H]%orb_true_iff; [by right|left].
    by apply (pretty_N_has_char c (Npos p)).
Qed.

Lemma digit_not_space c : is_Some (digit_value c) → is_space c = false.
Proof.
  unfold digit_value, is_space. intros [d Hd].
  destruct ((48 <=? Z.of_N (N_of_ascii c)) && (Z.of_N (N_of_ascii c) <=? 57)) eqn:E; [|done].
  apply andb_true_iff in E as [H1%Z.leb_le H2%Z.leb_le].
  apply orb_false_iff. split; [apply andb_false_iff; right; apply N.leb_gt; lia|].
  apply N.eqb_neq. lia.
Qed.

Lemma Itoa_no_space z c : has_char c (Itoa z) = true → is_space c = false.
Proof. intros [H| ->]%Itoa_chars; [by apply digit_not_space|done]. Qed.

Lemma Itoa_no_other c z :
  digit_value c = None → c ≠ "-"%char → has_char c (Itoa z) = false.
Proof.
  intros Hd Hc. destruct (has_char c (Itoa z)) eqn:E; [|done].
  apply Itoa_chars in E as [[? ?]|?]; congruence.
Qed.

Lemma parse_signed_Itoa z : parse_signed (Itoa z) = Some z.
Proof.
  unfold Itoa. destruct z as [|p|p]; [done|exact (parse_signed_pretty_N (Npos p))|].
  change (pretty (Z.neg p)) with (String "-"%char (pretty (Npos p))). simpl.
  by rewrite parse_magnitude_pretty.
Qed.

Lemma Itoa_nonempty z : Itoa z ≠ "".
Proof. intros H. pose proof (parse_signed_Itoa z) as Hp. by rewrite H in Hp. Qed.

(** A text that a print put a blank after parses back. *)
Lemma Atoi_field z : in_int64 z → Atoi (TrimSpace (Itoa z +:+ " ")) = Some z.
Proof.
  intros Hz. rewrite TrimSpace_field; [by apply Atoi_Itoa|apply Itoa_nonempty|].
  apply Itoa_no_space.
Qed.

(** ** Loops *)

(** [0], ..., [n - 1] *)
Definition upto (n : Z) : list Z := Z.of_nat <$> seq 0 (Z.to_nat n).

Lemma elem_of_upto n i : i ∈ upto n ↔ 0 ≤ i < n.
Proof.
  unfold upto. rewrite list_elem_of_fmap. split.
  - intros (k & -> & Hk%elem_of_seq). lia.
  - intros Hi. exists (Z.to_nat i). split; [lia|]. apply elem_of_seq. lia.
Qed.

Section loops.
Context {K : K8s} {ES : ExpStore} {AS : ApiServer} {RT : GoRuntime}.

(** A loop that builds a value and may return an error. *)
Fixpoint foldM {S A : Type} (f : S → A → M S) (s : S) (xs : list A) : M S :=
  match xs with
  | [] => mret s
  | x :: xs => s' ← f s x; foldM f s' xs
  end.

Lemma stable_foldM (R : World → World → Prop) `{!PreOrder R} {S A} (f : S → A → M S) s xs :
  (∀ s x, x ∈ xs → stable R (f s x)) → stable R (foldM f s xs).
Proof.
  revert s. induction xs as [|x xs IH]; intros s Hf; simpl; [apply (stable_ret R)|].
  apply (stable_bind R); [apply Hf; left|]. intros s'. apply IH. intros. apply Hf. by right.
Qed.

(** A loop that has not come to its end within its fuel. *)
Definition out_of_fuel {A} : M A := fail EUnfinished.

(** *** Random numbers

    [rand_Intn seed n] is [rand.New(rand.NewSource(seed)).Intn(n)]; the process's
    own source gives [src_Int63 k] at its [k]-th use. *)
Class GoRand := {
  rand_Intn : Time → Z → Z;
  src_Int63 : nat → Z
}.

Class GoRandLaws (R : GoRand) : Prop := {
  rand_Intn_bound seed n : 0 < n → 0 ≤ rand_Intn seed n < n;
  src_Int63_bound k : 0 ≤ src_Int63 k < 2 ^ 63
}.

Context {GR : GoRand}.

Definition src_next : M Z := λ w, (w_next_tick w, Ok (src_Int63 (w_tick w))).

Lemma ticks_src_next : stable ticks_rel src_next.
Proof. intros w. apply ticks_next. Qed.

Definition letters : string := "abcdefghijklmnopqrstuvwxyzABCDEFGHIJKLMNOPQRSTUVWXYZ".
Definition letterIdBits : Z := 6.
Definition letterIdMask : Z := Z.shiftl 1 letterIdBits - 1.
Definition letterIdMax : Z := Z.quot 63 letterIdBits.

(** One round of [RandStr]; [b] holds the bytes above [i]. *)
Fixpoint RandStr_loop (fuel : nat) (b : string) (i cache remain : Z) : M string :=
  if decide (i < 0) then mret b
  else
    match fuel with
    | O => out_of_fuel
    | S fuel =>
        cr ← (if decide (remain = 0) then c ← src_next; mret (c, letterIdMax) else mret (cache, remain));
        let '(cache, remain) := cr in
        let idx := Z.land cache letterIdMask in
        match String.get (Z.to_nat idx) letters with
        | Some l => RandStr_loop fuel (String l b) (i - 1) (Z.shiftr cache letterIdBits) (remain - 1)
        | None => RandStr_loop fuel b i (Z.shiftr cache letterIdBits) (remain - 1)
        end
    end.

Definition RandStr (fuel : nat) (n : Z) : M string :=
  c ← src_next; RandStr_loop fuel "" (n - 1) c letterIdMax.
End loops.

#[export] Hint Resolve ticks_src_next : ticks.

(** ** Edits of a pod template *)

Section edits.
Context `{K : K8s}.

Definition Container_set_Command (cmd : list string) (c : Container) : Container := {|
  c_Name := c_Name c; c_Image := c_Image c; c_Command := cmd; c_Ports := c_Ports c;
  c_Env := c_Env c; c_Requests := c_Requests c; c_Limits := c_Limits c;
  c_VolumeMounts := c_VolumeMounts c; c_SecurityContext := c_SecurityContext c |}.

(** [append(c.Env, env...)]; a nil slice and an empty one append alike. *)
Definition Container_add_Env (env : list EnvVar) (c : Container) : Container := {|
  c_Name := c_Name c; c_Image := c_Image c; c_Command := c_Command c; c_Ports := c_Ports c;
  c_Env := (c_Env c ++ env)%list; c_Requests := c_Requests c; c_Limits := c_Limits c;
  c_VolumeMounts := c_VolumeMounts c; c_SecurityContext := c_SecurityContext c |}.

Definition Container_add_Mounts (ms : list VolumeMount) (c : Container) : Container := {|
  c_Name := c_Name c; c_Image := c_Image c; c_Command := c_Command c; c_Ports := c_Ports c;
  c_Env := c_Env c; c_Requests := c_Requests c; c_Limits := c_Limits c;
  c_VolumeMounts := (c_VolumeMounts c ++ ms)%list; c_SecurityContext := c_SecurityContext c |}.

Definition Container_set_Security (s : option SecurityContext) (c : Container) : Container := {|
  c_Name := c_Name c; c_Image := c_Image c; c_Command := c_Command c; c_Ports := c_Ports c;
  c_Env := c_Env c; c_Requests := c_Requests c; c_Limits := c_Limits c;
  c_VolumeMounts := c_VolumeMounts c; c_SecurityContext := s |}.

(** A loop over the containers that skips those of another name. *)
Definition edit_containers (defaultContainerName : string) (f : Container → Container)
    (s : PodSpec) : PodSpec :=
  PodSpec_set_Containers
    ((λ c, if decide (c_Name c = defaultContainerName) then f c else c) <$> ps_Containers s) s.

(** A loop over all init containers. *)
Definition edit_init_containers (f : Container → Container) (s : PodSpec) : PodSpec :=
  PodSpec_set_InitContainers (f <$> ps_InitContainers s) s.

Definition env_value (name value : string) : EnvVar :=
  {| env_Name := name; env_Value := value; env_FieldPath := None |}.
Definition env_field (name path : string) : EnvVar :=
  {| env_Name := name; env_Value := ""; env_FieldPath := Some path |}.

Definition mount (name path subPath : string) (readOnly : bool) : VolumeMount :=
  {| vm_Name := name; vm_MountPath := path; vm_SubPath := subPath; vm_ReadOnly := readOnly |}.

(** *** Config maps *)

Definition cm_put (k v : string) (cm : ConfigMap) : ConfigMap :=
  {| cm_Meta := cm_Meta cm; cm_Data := <[k := v]> (cm_Data cm); cm_BinaryData := cm_BinaryData cm |}.
Definition cm_put_binary (k v : string) (cm : ConfigMap) : ConfigMap :=
  {| cm_Meta := cm_Meta cm; cm_Data := cm_Data cm; cm_BinaryData := <[k := v]> (cm_BinaryData cm) |}.

(** [if _, exists := configMap.Data[k]; !exists { configMap.Data[k] = v }] *)
Definition cm_fill (k v : string) (cm : ConfigMap) : ConfigMap :=
  match cm_Data cm !! k with
  | Some _ => cm
  | None => cm_put k v cm
  end.

Lemma cm_fill_lookup k v cm k' :
  cm_Data (cm_fill k v cm) !! k' =
  if decide (k = k') then Some (default v (cm_Data cm !! k)) else cm_Data cm !! k'.
Proof.
  unfold cm_fill. destruct (cm_Data cm !! k) as [u|] eqn:Hk; case_decide as Heq; subst; simpl.
  - done.
  - done.
  - by rewrite lookup_insert_eq.
  - by rewrite lookup_insert_ne.
Qed.

Lemma cm_fill_meta k v cm : cm_Meta (cm_fill k v cm) = cm_Meta cm.
Proof. unfold cm_fill. by destruct (_ !! _). Qed.

(** The entry of a replica type, replaced through its pointer. *)
Definition put_template (rtype : ReplicaType) (spec : ReplicaSpec) (p : PodSpec) (k : KubeCluster) :
    KubeCluster :=
  KubeCluster_set_Spec
    (ClusterSpec_set_ReplicaSpec
       (<[rtype := Some (ReplicaSpec_set_Template
            {| pt_Meta := pt_Meta (r_Template spec); pt_Spec := p |} spec)]>
          (sp_ClusterReplicaSpec (kc_Spec k))) (kc_Spec k)) k.
End edits.

(** ** Ports of a template *)

Section default_port.
Context `{K : K8s}.

(** [if ok := HasDefaultPort(...); !ok { SetDefaultPort(...) }] *)
Definition ensure_port (spec : PodSpec) (index : nat) (name : string) (port : Z) : res PodSpec :=
  let! ok := HasDefaultPort spec index name in
  if (ok : bool) then Ok spec else SetDefaultPort spec name port index.

Lemma GetDefaultContainerIndex_names s s' d :
  c_Name <$> ps_Containers s' = c_Name <$> ps_Containers s →
  GetDefaultContainerIndex s' d = GetDefaultContainerIndex s d.
Proof.
  intros Hn. unfold GetDefaultContainerIndex.
  assert (∀ l : list Container, match list_find (λ c, c_Name c = d) l with Some (i, _) => i | None => 0%nat end
    = match list_find (λ n, n = d) (c_Name <$> l) with Some (i, _) => i | None => 0%nat end) as Hl.
  { intros l. rewrite list_find_fmap. unfold compose. by destruct (list_find _ l) as [[]|]. }
  by rewrite !Hl, Hn.
Qed.

Lemma SetDefaultPort_ok s name p i s' :
  SetDefaultPort s name p i = Ok s' →
  c_Name <$> ps_Containers s' = c_Name <$> ps_Containers s ∧ HasDefaultPort s' i name = Ok true ∧
  (∀ n, HasDefaultPort s i n = Ok true → HasDefaultPort s' i n = Ok true).
Proof.
  unfold SetDefaultPort, HasDefaultPort. destruct (ps_Containers s !! i) as [c|] eqn:Hc; [|done].
  intros H. injection H as <-. simpl.
  rewrite list_lookup_insert_eq by by eapply lookup_lt_Some. simpl. split_and!.
  - rewrite list_fmap_insert. simpl. apply list_insert_id. by rewrite list_lookup_fmap, Hc.
  - by rewrite existsb_app, orb_comm; simpl; rewrite bool_decide_true.
  - intros n H. injection H as H. by rewrite existsb_app, H.
Qed.

Lemma HasDefaultPort_false s i n : HasDefaultPort s i n = Ok false ∨ HasDefaultPort s i n = Ok true ∨ HasDefaultPort s i n = Panic.
Proof. unfold HasDefaultPort. destruct (_ !! _); [|auto]. destruct (existsb _ _); auto. Qed.

Lemma ensure_port_ok s i name p s' :
  ensure_port s i name p = Ok s' →
  c_Name <$> ps_Containers s' = c_Name <$> ps_Containers s ∧ HasDefaultPort s' i name = Ok true ∧
  (∀ n, HasDefaultPort s i n = Ok true → HasDefaultPort s' i n = Ok true).
Proof.
  unfold ensure_port.
  destruct (HasDefaultPort_false s i name) as [H|[H|H]]; rewrite H; simpl; [|by intros [= <-]|done].
  apply SetDefaultPort_ok.
Qed.

End default_port.

(** ** A loop over the templates of a cluster *)

Section templates.
Context {K : K8s} {ES : ExpStore} {AS : ApiServer} {RT : GoRuntime} {RTL : GoRuntimeLaws RT}.
Context (f : PodSpec → res PodSpec).

(** [for _, spec := range kcluster.Spec.ClusterReplicaSpec], changing the template
    of each through the pointer. *)
Definition map_templates (entries : list (string * option ReplicaSpec)) : M unit :=
  for_each entries (λ entry,
    spec ← lift (deref entry.2);
    p ← lift (f (pt_Spec (r_Template spec)));
    kcluster ← get_kc;
    set_kc (put_template entry.1 spec p kcluster)).

Definition specs (w : World) : gmap string (option ReplicaSpec) :=
  sp_ClusterReplicaSpec (kc_Spec (w_kc w)).

(** Only the replica specs may differ. *)
Definition spec_rel (w w' : World) : Prop :=
  w_log w' = w_log w ∧ kc_Meta (w_kc w') = kc_Meta (w_kc w) ∧ kc_Status (w_kc w') = kc_Status (w_kc w).

#[export] Instance spec_rel_preorder : PreOrder spec_rel.
Proof.
  split; [done|]. intros w1 w2 w3 (? & ? & ?) (? & ? & ?). unfold spec_rel. split_and!; congruence.
Qed.

(** What one pass makes of a spec. *)
Definition mapped (o o' : option ReplicaSpec) : Prop :=
  ∃ s ps, o = Some s ∧ f (pt_Spec (r_Template s)) = Ok ps ∧
    o' = Some (ReplicaSpec_set_Template {| pt_Meta := pt_Meta (r_Template s); pt_Spec := ps |} s).

Lemma map_templates_ok entries w w' :
  NoDup entries.*1 → map_templates entries w = (w', Ok tt) →
  spec_rel w w' ∧
  (∀ rt, rt ∉ entries.*1 → specs w' !! rt = specs w !! rt) ∧
  (∀ rt o, (rt, o) ∈ entries → ∃ o', specs w' !! rt = Some o' ∧ mapped o o').
Proof using Type.
  clear RTL. unfold map_templates.
  revert w. induction entries as [|[rt o] entries IH]; intros w Hnd; cbn [for_each].
  { intros [= <-]. split_and!; [done..|]. by intros ?? ?%elem_of_nil. }
  rewrite fmap_cons in Hnd. apply NoDup_cons in Hnd as [Hrt Hnd].
  intros ([] & w1 & H1 & H)%bind_Ok.
  apply bind_Ok in H1 as (s & w2 & Hs & H1). destruct o as [s'|]; [|done]. injection Hs as <- ->.
  apply bind_Ok in H1 as (ps & w2 & Hps & H1). injection Hps as <- Hps.
  apply bind_Ok in H1 as (k & w2 & Hk & H1). injection Hk as <- <-. injection H1 as <-.
  apply IH in H as (Hrel & Hout & Hin); [|done]. split_and!.
  - etransitivity; [|exact Hrel]. done.
  - intros rt' [Hne Hni]%not_elem_of_cons. rewrite Hout by done. unfold specs. simpl.
    by rewrite lookup_insert_ne.
  - intros rt' o' [[= -> ->]|Hi]%elem_of_cons; [|by apply Hin].
    eexists. split; [rewrite Hout by done; unfold specs; simpl; by rewrite lookup_insert_eq|].
    eexists _, _. split_and!; done.
Qed.

(** A pass over all replica types. *)
Lemma map_templates_range w w' :
  (kcluster ← get_kc; entries ← range_of (sp_ClusterReplicaSpec (kc_Spec kcluster));
   map_templates entries) w = (w', Ok tt) →
  spec_rel w w' ∧ ∀ rt o', specs w' !! rt = Some o' → ∃ s ps, specs w !! rt = Some (Some s) ∧
    f (pt_Spec (r_Template s)) = Ok ps ∧
    o' = Some (ReplicaSpec_set_Template {| pt_Meta := pt_Meta (r_Template s); pt_Spec := ps |} s).
Proof.
  intros (k & w1 & Hk & H)%bind_Ok. injection Hk as <- <-.
  apply bind_Ok in H as (entries & w1 & He & H). injection He as <- <-.
  apply map_templates_ok in H as (Hrel & Hout & Hin); [|apply NoDup_range].
  split; [exact Hrel|]. intros rt o' Ho'. change (specs (w_next_tick w)) with (specs w) in Hout.
  destruct (specs w !! rt) as [o|] eqn:Ho.
  - destruct (Hin rt o) as (o1 & Ho1 & s & ps & -> & Hps & ->); [by apply elem_of_range|].
    rewrite Ho1 in Ho'. injection Ho' as <-. by exists s, ps.
  - rewrite Hout, Ho in Ho'; [done|]. rewrite list_elem_of_fmap.
    intros ([rt' o] & -> & Hi). apply elem_of_range in Hi. unfold specs in Ho. simpl in *. congruence.
Qed.

Lemma map_templates_dom w w' :
  (kcluster ← get_kc; entries ← range_of (sp_ClusterReplicaSpec (kc_Spec kcluster));
   map_templates entries) w = (w', Ok tt) → dom (specs w') = dom (specs w).
Proof.
  intros H. pose proof (map_templates_range _ _ H) as [_ Hback].
  apply bind_Ok in H as (k & w1 & Hk & H). injection Hk as <- <-.
  apply bind_Ok in H as (entries & w1 & He & H). injection He as <- <-.
  apply map_templates_ok in H as (_ & _ & Hin); [|apply NoDup_range].
  apply set_eq. intros rt. rewrite !elem_of_dom. split.
  - intros [o' Ho']. destruct (Hback rt o' Ho') as (s & _ & Hs & _). by eexists.
  - intros [o Ho]. destruct (Hin rt o) as (o' & Ho' & _); [by apply elem_of_range|]. by eexists.
Qed.
End templates.

(** ** The status of a cluster *)

Section status_steps.
Context {K : K8s} {ES : ExpStore} {AS : ApiServer} {RT : GoRuntime}.

(** The last restarting condition. *)
Definition restarting_condition (conditions : list ClusterCondition) : option ClusterCondition :=
  foldl (λ existing c, if decide (cc_Type c = ClusterRestarting) then Some c else existing)
    None conditions.

Definition mark_running : M unit :=
  kcluster ← get_kc;
  update_condition ClusterRunning ConditionTrue (NewReason KubeClusterKind ClusterRunningReason)
    ("KubeCLuster " +:+ om_Name (kc_Meta kcluster) +:+ " is avtivating.").

(** The restarting condition is put back. *)
Definition mark_restarting (c : ClusterCondition) : M unit :=
  kcluster ← get_kc;
  _ ← update_condition ClusterRestarting ConditionTrue (cc_Reason c) (cc_Message c);
  RestartedClustersCounterInc (om_Namespace (kc_Meta kcluster)) (sp_ClusterType (kc_Spec kcluster)).

Definition set_completion : M unit :=
  kcluster ← get_kc;
  match st_CompletionTime (kc_Status kcluster) with
  | None => t ← now; modify_status (Status_set_CompletionTime (Some t))
  | Some _ => mret tt
  end.

Definition mark_failed (msg : string) : M unit :=
  kcluster ← get_kc;
  _ ← record_event EventNormal (NewReason KubeClusterKind ClusterFailedReason) msg;
  _ ← set_completion;
  _ ← update_condition ClusterFailed ConditionTrue (NewReason KubeClusterKind ClusterFailedReason) msg;
  FailedClustersCounterInc (om_Namespace (kc_Meta kcluster)) (sp_ClusterType (kc_Spec kcluster)).

(** *** What they leave *)

Lemma update_condition_ok t s r m w :
  ∃ w' t1 t2, update_condition t s r m w = (w', Ok tt) ∧ w_log w' = w_log w ∧
    kc_Meta (w_kc w') = kc_Meta (w_kc w) ∧ kc_Spec (w_kc w') = kc_Spec (w_kc w) ∧
    kc_Status (w_kc w') = UpdateClusterConditions t1 t2 (kc_Status (w_kc w)) t s r m.
Proof. by eexists _, (clock (w_tick w)), (clock (S (w_tick w))). Qed.

Lemma restarting_condition_None cs :
  restarting_condition cs = None ↔ ClusterRestarting ∉ (cc_Type <$> cs).
Proof.
  unfold restarting_condition. induction cs as [|c cs IH] using rev_ind; simpl.
  - split; [by intros _ ?%elem_of_nil|done].
  - rewrite foldl_app, fmap_app, elem_of_app. simpl. rewrite list_elem_of_singleton.
    case_decide as Hc; [split; [done|]|rewrite IH]; [intros Hn; destruct Hn; by right|].
    split; [|tauto]. intros ? [?|?]; [tauto|congruence].
Qed.

(** A cluster marked Running is not restarting, and fails or not as before. *)
Lemma mark_running_ok w :
  conditions_wf (kc_Status (w_kc w)) → IsFailed (kc_Status (w_kc w)) = false →
  ∃ w', mark_running w = (w', Ok tt) ∧ w_log w' = w_log w ∧
    IsFailed (kc_Status (w_kc w')) = false ∧ IsRunning (kc_Status (w_kc w')) = true ∧
    restarting_condition (st_Conditions (kc_Status (w_kc w'))) = None.
Proof.
  intros Hwf Hf. unfold mark_running, mbind, M_bind, get_kc.
  destruct (update_condition_ok ClusterRunning ConditionTrue
    (NewReason KubeClusterKind ClusterRunningReason)
    ("KubeCLuster " +:+ om_Name (kc_Meta (w_kc w)) +:+ " is avtivating.") w)
    as (w' & t1 & t2 & H & Hl & _ & _ & Hst).
  exists w'. rewrite Hst, restarting_condition_None. split_and!; [done..| | |].
  - by rewrite UpdateClusterConditions_failed.
  - apply UpdateClusterConditions_true. by left.
  - by apply UpdateClusterConditions_not_restarting.
Qed.

Lemma mark_restarting_ok c w :
  ∃ w', mark_restarting c w = (w', Ok tt) ∧ w_log w' = w_log w ∧
    IsFailed (kc_Status (w_kc w')) = IsFailed (kc_Status (w_kc w)).
Proof.
  unfold mark_restarting. rewrite (bind_run _ _ w w (w_kc w)) by done.
  destruct (update_condition_ok ClusterRestarting ConditionTrue (cc_Reason c) (cc_Message c) w)
    as (w1 & t1 & t2 & H & Hl & _ & _ & Hst).
  eexists. split; [by rewrite (bind_run _ _ _ _ _ H)|]. simpl.
  split; [done|]. by rewrite Hst, UpdateClusterConditions_failed.
Qed.

Lemma set_completion_ok w :
  ∃ w', set_completion w = (w', Ok tt) ∧ w_log w' = w_log w ∧
    is_Some (st_CompletionTime (kc_Status (w_kc w'))).
Proof.
  unfold set_completion. rewrite (bind_run _ _ w w (w_kc w)) by done.
  destruct (st_CompletionTime (kc_Status (w_kc w))) eqn:E.
  - exists w. rewrite E. by split_and!; [..|eexists].
  - eexists. split; [done|]. simpl. by split_and!; [..|eexists].
Qed.

Lemma UpdateClusterConditions_completion now now' st t s r m :
  st_CompletionTime (UpdateClusterConditions now now' st t s r m) = st_CompletionTime st.
Proof.
  destruct (UpdateClusterConditions_cases now now' st t s r m)
    as [[_ ->]|[(_ & -> & _)|(_ & _ & ltt & _ & ->)]]; done.
Qed.

Lemma mark_failed_ok msg w :
  ∃ w', mark_failed msg w = (w', Ok tt) ∧ w_log w' = w_log w ∧
    IsFailed (kc_Status (w_kc w')) = true ∧ is_Some (st_CompletionTime (kc_Status (w_kc w'))).
Proof.
  unfold mark_failed. rewrite (bind_run _ _ w w (w_kc w)) by done.
  erewrite (bind_run (record_event _ _ _)) by done.
  match goal with |- context [(set_completion ≫= _) ?x] => destruct (set_completion_ok x) as (w1 & H1 & Hl1 & Ht1) end.
  rewrite (bind_run _ _ _ _ _ H1).
  destruct (update_condition_ok ClusterFailed ConditionTrue (NewReason KubeClusterKind ClusterFailedReason) msg w1)
    as (w2 & t1 & t2 & H2 & Hl2 & _ & _ & Hst).
  eexists. split; [by rewrite (bind_run _ _ _ _ _ H2)|]. simpl. rewrite Hst.
  split_and!; [by rewrite Hl2, Hl1|apply UpdateClusterConditions_true; by right|].
  by rewrite UpdateClusterConditions_completion.
Qed.
End status_steps.

(** ** A random source

    The seed's seconds, and a linear congruence. *)
Module SampleRand.
#[export] Instance rand : GoRand := {|
  rand_Intn seed n := (seed / 1000000000) mod n;
  src_Int63 k := (Z.of_nat k * 6364136223846793005 + 1442695040888963407) mod 2 ^ 63 |}.

Lemma rand_laws : GoRandLaws rand.
Proof.
  split; intros; simpl; [by apply Z.mod_pos_bound|].
  apply Z.mod_pos_bound. lia.
Qed.
End SampleRand.
