(* ===== verification/Slurm.v ===== *)
(** * The slurm schema

    pkg/controller/cluster_schema/slurm_schema: the config map with slurm.conf, the
    ports of the containers, the pod templates and the status of a slurm cluster.

    [valid] is the check [metav1.LabelSelectorAsSelector] makes of label values,
    [init_containers] what the init container template of the deployment (a file
    or the default, rendered by html/template and decoded from YAML) gives for an
    address, and [fuel] bounds the rounds of the loops that wait for the random
    source. *)

From S2P Require Import Prelude K8s Api Defaults Names Status Expectations Core Quota World Control.
From S2P Require Import Schema Controller SchemaLib.

(** What [resource.Quantity] offers to print and convert amounts. *)
Class QuantityFormat `{K8s} := {
  q_String : Quantity → string;
  q_MilliValue : Quantity → Z;
  q_AsInt64 : Quantity → option Z;
  q_ParseQuantity : string → option Quantity
}.

(** ** Constants *)

Definition ClusterSchemaKind : string := "slurm".
Definition SchemaReplicaTypeController : ReplicaType := "Controller".
Definition SlurmConfDir : string := "/etc/slurm".
Definition SlurmctlPortName : string := "slurmctl-port".
Definition SlurmdPortName : string := "slurmd-port".
Definition SlurmCmdDir : string := SlurmConfDir.
Definition EmptyVolume : string := "slurm-config-dir".
Definition EmptyVolumeMountPathInInitContainer : string := "/mnt/share".
Definition EmptyVolumeMountPathInMainContainer : string := SlurmConfDir.
Definition EntrypointFilePath : string := "/tmp/entrypoint.sh".

Definition placeHolderClusterName : string := "${CLUSTER_NAME}".
Definition placeHolderControlMachine : string := "${CONTROL_MACHINE}".
Definition placeHolderControlAddr : string := "${CONTROL_ADDRESS}".
Definition placeHolderSlurmctldPort : string := "${SLURMCTLD_PORT}".
Definition placeHolderSlurmdPort : string := "${slurmd_port}".
Definition spoolDir : string := "/var/spool".

Definition slurmConfKey : string := "slurm.conf".
Definition mungeKey : string := "munge.key".
Definition mungeKeylenInInt : Z := 1024.
Definition configMapReadyKey : string := "ready".
Definition configMapReady : string := "true".
Definition configMapReadyFile : string := "/tmp/configmap-ready".
Definition hostNetWorkNodesListKey : string := "hostNetWorkNodesList".
Definition controllerEntrypoint : string := "controller-entrypoint".
Definition workerEntrypoint : string := "worker-entrypoint".
Definition resourceTypeGpu : string := "gpu".

Definition slurmConfTemplate : string :=
  "#" +:+ nl +:+ "# slurm.conf file. Please run configurator.html" +:+ nl
  +:+ "# (in doc/html) to build a configuration file customized" +:+ nl
  +:+ "# for your environment." +:+ nl +:+ "#" +:+ nl +:+ "#" +:+ nl
  +:+ "# slurm.conf file generated by configurator.html." +:+ nl
  +:+ "# Put this file on all nodes of your cluster." +:+ nl
  +:+ "# See the slurm.conf man page for more information." +:+ nl +:+ "#" +:+ nl
  +:+ "################################################" +:+ nl
  +:+ "#                   CONTROL                    #" +:+ nl
  +:+ "################################################" +:+ nl
  +:+ "ClusterName=" +:+ placeHolderClusterName +:+ " " +:+ nl
  +:+ "ControlMachine=" +:+ placeHolderControlMachine +:+ " " +:+ nl
  +:+ "ControlAddr=" +:+ placeHolderControlAddr +:+ " " +:+ nl
  +:+ nl +:+ "################################################" +:+ nl
  +:+ "#            LOGGING & OTHER PATHS             #" +:+ nl
  +:+ "################################################" +:+ nl
  +:+ "SlurmctldPidFile=/var/run/slurmctld.pid " +:+ nl
  +:+ "SlurmdPidFile=/var/run/slurmd.pid " +:+ nl
  +:+ "SlurmctldDebug=3 " +:+ nl +:+ "SlurmdDebug=3 " +:+ nl
  +:+ "SlurmctldPort=" +:+ placeHolderSlurmctldPort +:+ " " +:+ nl
  +:+ "SlurmdPort=" +:+ placeHolderSlurmdPort +:+ " " +:+ nl
  +:+ "SlurmdSpoolDir=" +:+ spoolDir +:+ "/slurmd " +:+ nl
  +:+ "SlurmdUser=root " +:+ nl
  +:+ "StateSaveLocation=" +:+ spoolDir +:+ " " +:+ nl
  +:+ nl +:+ "################################################" +:+ nl
  +:+ "#           SCHEDULING & ALLOCATION            #" +:+ nl
  +:+ "################################################" +:+ nl
  +:+ "SchedulerType=sched/backfill " +:+ nl +:+ "SelectType=select/cons_tres " +:+ nl
  +:+ "SelectTypeParameters=CR_Core_Memory " +:+ nl
  +:+ nl +:+ "################################################" +:+ nl
  +:+ "#                    OTHER                     #" +:+ nl
  +:+ "################################################" +:+ nl
  +:+ "MpiDefault=none " +:+ nl +:+ "SwitchType=switch/none " +:+ nl
  +:+ "ProctrackType=proctrack/pgid " +:+ nl +:+ "ReturnToService=1 " +:+ nl
  +:+ "TaskPlugin=task/none " +:+ nl
  +:+ "################################################" +:+ nl
  +:+ "#                  ACCOUNTING                  #" +:+ nl
  +:+ "################################################" +:+ nl
  +:+ "AccountingStorageType=accounting_storage/none " +:+ nl
  +:+ "jobAcctGatherType=jobacct_gather/none " +:+ nl +:+ "GresTypes=gpu " +:+ nl.

Definition entrypointShellTemplate : string := quoted
"#!/bin/bash

addUserIfNotExist(){
  if id -u `$1` >/dev/null 2>&1; then
     echo `$1 exists`
  else
     echo `create user $1`
     useradd `$1`
  fi
}
addUserIfNotExist slurm
addUserIfNotExist munge

mkdir -p /etc/munge
chown  munge:munge /etc/munge
# shellcheck disable=SC2024

##cp  relative cmd

# shellcheck disable=SC2162
read -p `please input slurm relative cmd source dir :` cmddir

if [ ! -d `$cmddir` ]; then
   echo `$cmddir not exist, skip cp  slurm relative cmd`
   exit 0;
fi


cp  -p -L `$cmddir`/slurm/bin/* /usr/bin
cp  -p -L `$cmddir`/slurm/sbin/* /usr/sbin
cp  -p -L `$cmddir`/munge/bin/* /usr/bin
cp  -p -L `$cmddir`/munge/sbin/* /usr/sbin
if [ ! -e /etc/munge/munge.key ];then
  cp  -p -L `$cmddir`/munge/munge/munge.key /etc/munge/munge.key
fi
#dd if=/dev/urandom bs=1 count=1024 > /etc/munge/munge.key

# shellcheck disable=SC2024
echo `$cmddir/slurm/lib`  >> /etc/ld.so.conf.d/slurm-x86_64.conf
# shellcheck disable=SC2024
echo `$cmddir/slurm/lib/slurm` >> /etc/ld.so.conf.d/slurm-x86_64.conf
# shellcheck disable=SC2024
echo `$cmddir/munge/lib` >>  /etc/ld.so.conf.d/munge-x86_64.conf

ldconfig

chown munge:munge /etc/munge/munge.key
chmod 400 /etc/munge/munge.key
mkdir -p /var/lib/munge
mkdir -p /var/run/munge
mkdir -p /var/log/munge
chown -R munge:munge /var/lib/munge
chown -R munge:munge /var/run/munge
chown -R munge:munge /var/log/munge

echo `configure completed`".

Section slurm.
Context {K : K8s} {QF : QuantityFormat} {ES : ExpStore} {AS : ApiServer} {RT : GoRuntime}
  {GR : GoRand}.
Context (valid : gmap string string → bool) (init_containers : string → res (list Container))
  (fuel : nat).

(** ** slurm_schema.go, first part *)

Definition GetDefaultContainerName : string := ClusterDefaultContainerName.

Definition Default : M unit :=
  kcluster ← get_kc;
  entries ← range_of (sp_ClusterReplicaSpec (kc_Spec kcluster));
  set_kc (KubeCluster_set_Spec
    (ClusterSpec_set_ReplicaSpec
       (SetTypeNameToCamelCase entries.*1 (sp_ClusterReplicaSpec (kc_Spec kcluster))
          SchemaReplicaTypeController) (kc_Spec kcluster)) kcluster).

Definition IsController (spec : gmap string (option ReplicaSpec)) (rType : ReplicaType) (index : Z) :
    bool :=
  bool_decide (SchemaReplicaTypeController = rType).

(** The loop over the keys finds the controller in any order. *)
Definition ValidateV1KubeCluster (kcluster : KubeCluster) : res unit :=
  if existsb (λ entry, bool_decide (SchemaReplicaTypeController = entry.1))
       (range 0 (sp_ClusterReplicaSpec (kc_Spec kcluster)))
  then Ok tt
  else Err (EText ("slurm cluster need a replica named " +:+ SchemaReplicaTypeController)).

(** ** util.go: ports *)

Definition GenRandomInt31n (min max : Z) : M Z :=
  t ← now; mret (rand_Intn t (max - min + 1) + min).

Fixpoint genSlurmRandomPort_loop (fuel : nat) (slurmctlPort : Z) : M (Z * Z) :=
  match fuel with
  | O => out_of_fuel
  | S fuel =>
      slurmdPort ← GenRandomInt31n 10000 20000;
      if decide (slurmctlPort ≠ slurmdPort) then mret (slurmctlPort, slurmdPort)
      else genSlurmRandomPort_loop fuel slurmctlPort
  end.

Definition genSlurmRandomPort : M (Z * Z) :=
  slurmctlPort ← GenRandomInt31n 10000 20000;
  genSlurmRandomPort_loop fuel slurmctlPort.

Definition setSlurmDefaultPorts (spec : PodSpec) (defaultContainerName : string)
    (slurmctlPort slurmdPort : Z) : res PodSpec :=
  let index := GetDefaultContainerIndex spec defaultContainerName in
  let! spec := ensure_port spec index SlurmctlPortName (int32 slurmctlPort) in
  ensure_port spec index SlurmdPortName (int32 slurmdPort).

(** The loop ends early when both ports are found. *)
Fixpoint find_ports (ports : list ContainerPort) (slurmctlPort slurmdPort : Z) : Z * Z :=
  match ports with
  | [] => (slurmctlPort, slurmdPort)
  | p :: ports =>
      let slurmctlPort' :=
        if decide (cp_Name p = SlurmctlPortName) then cp_ContainerPort p else slurmctlPort in
      let slurmdPort' :=
        if decide (cp_Name p = SlurmctlPortName) then slurmdPort
        else if decide (cp_Name p = SlurmdPortName) then cp_ContainerPort p else slurmdPort in
      if decide (slurmdPort' ≠ 0 ∧ slurmctlPort' ≠ 0) then (slurmctlPort', slurmdPort')
      else find_ports ports slurmctlPort' slurmdPort'
  end.

Definition getSlurmDefaultPort (spec : PodSpec) (defaultContainerName : string) : res (Z * Z) :=
  match ps_Containers spec !! GetDefaultContainerIndex spec defaultContainerName with
  | Some c => Ok (find_ports (c_Ports c) 0 0)
  | None => Panic
  end.

Fixpoint first_ports (entries : list (string * option ReplicaSpec)) (defaultContainerName : string) :
    res (Z * Z) :=
  match entries with
  | [] => Err (EText "can not find slurm ports for kclusetr")
  | (_, spec) :: entries =>
      let! spec := deref spec in
      let! ports := getSlurmDefaultPort (pt_Spec (r_Template spec)) defaultContainerName in
      let '(slurmctlPort, slurmdPort) := ports in
      if decide (slurmdPort ≠ 0 ∧ slurmctlPort ≠ 0) then Ok (slurmctlPort, slurmdPort)
      else first_ports entries defaultContainerName
  end.

Definition getSlurmPortsFromSpec (defaultContainerName : string) : M (Z * Z) :=
  kcluster ← get_kc;
  entries ← range_of (sp_ClusterReplicaSpec (kc_Spec kcluster));
  lift (first_ports entries defaultContainerName).

(** The template of every replica type is changed through its pointer. *)
Definition setSlurmPorts (slurmctlPort slurmdPort : Z) : M unit :=
  kcluster ← get_kc;
  entries ← range_of (sp_ClusterReplicaSpec (kc_Spec kcluster));
  map_templates (λ p, setSlurmDefaultPorts p GetDefaultContainerName slurmctlPort slurmdPort) entries.

Definition SlurmctldPrefix : string := "SlurmctldPort=".
Definition SlurmdPrefix : string := "SlurmdPort=".

(** [strconv.Atoi] with its error *)
Definition parse_port (line : string) : res Z :=
  match Atoi line with
  | Some z => Ok z
  | None =>
      Err (EText ("strconv.Atoi: parsing " +:+ dq +:+ line +:+ dq +:+
        match parse_signed line with None => ": invalid syntax" | Some _ => ": value out of range" end))
  end.

Fixpoint scan_ports (lines : list string) (slurmctlPort slurmdPort : Z) : res (Z * Z) :=
  match lines with
  | [] => Err (EText "failed to parse slurm relative ports")
  | line :: lines =>
      if negb (HasPrefix line SlurmctldPrefix) && negb (HasPrefix line SlurmdPrefix) then
        scan_ports lines slurmctlPort slurmdPort
      else
        let! ports :=
          (if HasPrefix line SlurmctldPrefix then
             let! p := parse_port (TrimSpace (TrimPrefix line SlurmctldPrefix)) in Ok (p, slurmdPort)
           else
             let! p := parse_port (TrimSpace (TrimPrefix line SlurmdPrefix)) in Ok (slurmctlPort, p)) in
        let '(slurmctlPort, slurmdPort) := ports in
        if decide (slurmctlPort ≠ 0 ∧ slurmdPort ≠ 0) then Ok (slurmctlPort, slurmdPort)
        else scan_ports lines slurmctlPort slurmdPort
  end.

Definition getSlurmPortsFromConf (slurmConf : string) : res (Z * Z) :=
  scan_ports (Split newline slurmConf) 0 0.

(** ** util.go: resources *)

(** [ResourceList.Cpu], [ResourceList.Memory]: zero when the name is missing. *)
Definition rl_Cpu (l : ResourceList) : Quantity := default q_zero (l !! "cpu").
Definition rl_Memory (l : ResourceList) : Quantity := default q_zero (l !! "memory").

(** The first entry of the visit whose name mentions a GPU. *)
Definition getGpuQuantity (resourceList : ResourceList) : M Quantity :=
  entries ← range_of resourceList;
  mret (match list_find (λ kv, ContainsStr (ToLower kv.1) resourceTypeGpu = true) entries with
        | Some (_, kv) => kv.2
        | None => q_zero
        end).

(** [resource.MustParse] *)
Definition MustParse (s : string) : res Quantity := deref (q_ParseQuantity s).

Definition getResourceRequest (masterResourceList : option ResourceList) : M (Z * Z * Z) :=
  match masterResourceList with
  | None => fail (EText "container resource request(cpu or memory or gpu) must be set")
  | Some l =>
      memory ← lift (if decide (q_String (rl_Memory l) ≠ "0") then MustParse (q_String (rl_Memory l))
                     else MustParse "32Gi");
      match q_AsInt64 memory with
      | None => fail (EText "exchange memory to realMemory failed")
      | Some realMemory =>
          let realMemory := Z.quot (int64 (realMemory * 1000)) (1024 * 1024 * 1024) in
          let cpus := if decide (q_MilliValue (rl_Cpu l) ≠ 0)
                      then Z.quot (q_MilliValue (rl_Cpu l)) 1000 else 8 in
          gpu ← getGpuQuantity l;
          mret (cpus, realMemory, Z.quot (q_MilliValue gpu) 1000)
      end
  end.

Definition getResourceRequestList (spec : ReplicaSpec) : ResourceList :=
  let s := pt_Spec (r_Template spec) in
  let result : ResourceList :=
    foldl (λ (result : ResourceList) c, Add result (default ∅ (c_Requests c))) ∅ (ps_Containers s) in
  let result :=
    foldl (λ (result : ResourceList) c, Max result (default ∅ (c_Requests c))) result
      (ps_InitContainers s) in
  match ps_Overhead s with
  | Some overhead => Add result overhead
  | None => result
  end.

Definition isHostNetWork (spec : option ReplicaSpec) : res bool :=
  let! spec := deref spec in Ok (ps_HostNetwork (pt_Spec (r_Template spec))).

(** ** configmap.go *)

(** The names of the host-network replicas of one type. *)
Definition host_names (clusterName : string) (entry : string * option ReplicaSpec) : res (list string) :=
  let! spec := deref entry.2 in
  let! host := isHostNetWork entry.2 in
  match r_Replicas spec with
  | Some n =>
      if negb host then Ok []
      else Ok ((λ i, GenGeneralName clusterName entry.1 (Itoa i)) <$> upto n)
  | None => Ok []
  end.

Definition getHostNetWorkNodeList : M (list string) :=
  kcluster ← get_kc;
  entries ← range_of (sp_ClusterReplicaSpec (kc_Spec kcluster));
  lift (result_foldl (λ hostNetWorkNodeList entry,
    let! names := host_names (om_Name (kc_Meta kcluster)) entry in
    Ok (hostNetWorkNodeList ++ names)%list) [] entries).

Definition genMungeKey : M string := RandStr fuel mungeKeylenInInt.

Definition needReconcileConfigMap (configMap : ConfigMap) : bool :=
  let cmReady := default "" (cm_Data configMap !! configMapReadyKey) in
  let exists_ := bool_decide (is_Some (cm_Data configMap !! configMapReadyKey)) in
  if exists_ || bool_decide (cmReady = "true") then false else true.

Definition section_header (title : string) : string :=
  "################################################" +:+ nl +:+ title +:+ nl
  +:+ "################################################" +:+ nl.

Definition createSlurmConfPartitions : string :=
  section_header "#                  PARTITIONS                  #"
  +:+ "PartitionName=all Nodes=ALL Default=YES MaxTime=INFINITE State=UP" +:+ nl.

Definition node_line (generalName : string) (cpus realMemory gpus : Z) : string :=
  "NodeName=" +:+ generalName +:+ " " +:+ "NodeAddr=" +:+ generalName +:+ " "
  +:+ "CPUs=" +:+ Itoa cpus +:+ " " +:+ "RealMemory=" +:+ Itoa realMemory +:+ " "
  +:+ "Gres=gpu:" +:+ Itoa gpus +:+ " " +:+ "State=UNKNOWN " +:+ nl.

Definition createSlurmConfNodesByReplica (clusterName : string) (replicaType : ReplicaType)
    (spec : option ReplicaSpec) : M string :=
  spec ← lift (deref spec);
  match r_Replicas spec with
  | None => mret ""
  | Some n =>
      r ← getResourceRequest (Some (getResourceRequestList spec));
      let '(cpus, realMemory, gpus) := r in
      mret (foldl (λ tempConfig i,
              tempConfig +:+ node_line (GenGeneralName clusterName replicaType (Itoa i)) cpus realMemory gpus)
              "" (upto n))
  end.

(** The controller takes no part in the computing: its line stays empty. *)
Definition createSlurmConfNodes (kcluster : KubeCluster) : M string :=
  entries ← range_of (sp_ClusterReplicaSpec (kc_Spec kcluster));
  nodeConf ← foldM (λ nodeConf entry,
    if decide (entry.1 = SchemaReplicaTypeController) then mret nodeConf
    else
      replicaConf ← createSlurmConfNodesByReplica (om_Name (kc_Meta kcluster)) entry.1 entry.2;
      mret (nodeConf +:+ replicaConf)) "" entries;
  mret (section_header "#                    NODES                     #" +:+ "" +:+ nl +:+ nodeConf).

(** The placeholders of the template, filled one after the other. *)
Definition fill_template (clusterName : string) (masterPort workerPort : Z) : string :=
  let controller := GenGeneralName clusterName SchemaReplicaTypeController (Itoa 0) in
  let tempConfig := slurmConfTemplate in
  let tempConfig := Replace1 tempConfig placeHolderClusterName clusterName in
  let tempConfig := Replace1 tempConfig placeHolderControlMachine controller in
  let tempConfig := Replace1 tempConfig placeHolderControlAddr controller in
  let tempConfig := Replace1 tempConfig placeHolderSlurmctldPort (Itoa masterPort) in
  Replace1 tempConfig placeHolderSlurmdPort (Itoa workerPort).

Definition createSlurmConf (masterPort workerPort : Z) : M string :=
  kcluster ← get_kc;
  let tempConfig := fill_template (om_Name (kc_Meta kcluster)) masterPort workerPort in
  nodesConf ← createSlurmConfNodes kcluster;
  mret (tempConfig +:+ nl +:+ nodesConf +:+ nl +:+ createSlurmConfPartitions +:+ nl).

Definition genSlurmConf : M string :=
  r ← try (getSlurmPortsFromSpec GetDefaultContainerName);
  ports ← (match r with
           | inr ports => mret ports
           | inl _ =>
               ports ← genSlurmRandomPort;
               _ ← record_event EventNormal "SlurmPortsNotSet"
                     ("Will use defaul slurmctld's port:" +:+ Itoa ports.1 +:+ ", slurmd's port : "
                      +:+ Itoa ports.2);
               mret ports
           end);
  let '(slurmctlPort, slurmdPort) := ports in
  _ ← setSlurmPorts slurmctlPort slurmdPort;
  conf ← try (createSlurmConf slurmctlPort slurmdPort);
  match conf with
  | inl err => fail (EText ("generateSlurmConfig err:" +:+ err_string err))
  | inr slurmConf => mret slurmConf
  end.

(** The scripts, but for the commands that tell the two apart. *)
Definition gres_command : string :=
  quoted ">> /tmp/gres.conf && for (( i=0; i < 8; i++ )) do if [ -a /dev/nvidia${i} ]; then echo `Name=gpu Type=gpu File=/dev/nvidia${i}` >> /tmp/gres.conf; fi ; done".
Definition cp_gres_command : string := "cp /tmp/gres.conf " +:+ SlurmConfDir +:+ " ".
Definition clear_spool_command : string :=
  "echo " +:+ dq +:+ "clear spool-cluster-name: " +:+ spoolDir +:+ "/clustername " +:+ dq
  +:+ " && rm -rf " +:+ spoolDir +:+ "/clustername".
Definition munged_command : string :=
  quoted "echo `starting munged` && munged -f --key-file /etc/munge/munge.key --log-file /var/log/munge/munged.log --pid-file /var/run/munge/munged.pid --seed-file /var/lib/munge/munge.seed --socket /var/run/munge/munge.socket.2 && echo `munged started` ".

Definition entrypoint (pause start : string) : string :=
  let entrypointShell :=
    two_lines entrypointShellTemplate (String.concat " && " [gres_command; cp_gres_command]) in
  let entrypointShell := two_lines entrypointShell pause in
  let entrypointShell := two_lines entrypointShell clear_spool_command in
  let entrypointShell := two_lines entrypointShell munged_command in
  two_lines entrypointShell start.

Definition genControllerEntrypoint : string :=
  entrypoint "sleep 5"
    (quoted "echo `starting slurmctld` && slurmctld -D && echo `slurmctld started`").
Definition genWorkerEntrypoint : string :=
  entrypoint "sleep 30" (quoted "echo `starting slurmd` && slurmd -D ").

(** The keys that a config map which is not ready gets. *)
Definition fill_configmap (configMap : ConfigMap) : M ConfigMap :=
  let configMap := cm_fill controllerEntrypoint genControllerEntrypoint configMap in
  let configMap := cm_fill workerEntrypoint genWorkerEntrypoint configMap in
  configMap ← (match cm_Data configMap !! slurmConfKey with
               | Some _ => mret configMap
               | None => slurmConf ← genSlurmConf; mret (cm_put slurmConfKey slurmConf configMap)
               end);
  hostNetWorkNodeList ← getHostNetWorkNodeList;
  let configMap :=
    if decide (length hostNetWorkNodeList = 0%nat) then cm_put configMapReadyKey "true" configMap
    else cm_put hostNetWorkNodesListKey (String.concat "," hostNetWorkNodeList)
           (cm_put configMapReadyKey "false" configMap) in
  match cm_Data configMap !! mungeKey with
  | Some _ => mret configMap
  | None => key ← genMungeKey; mret (cm_put_binary mungeKey key configMap)
  end.

Definition ReconcileConfigMap (configMap : ConfigMap) : M ConfigMap :=
  _ ← (match cm_Data configMap !! slurmConfKey with
       | Some slurmConf =>
           ports ← lift (getSlurmPortsFromConf slurmConf);
           setSlurmPorts ports.1 ports.2
       | None => mret tt
       end);
  if bool_decide (is_Some (cm_Data configMap !! slurmConfKey)) &&
     negb (needReconcileConfigMap configMap)
  then mret configMap
  else fill_configmap configMap.

(** One pod of the list; the set of names still to be found is a map to unit, as
    the sets of the library are. *)
Definition note_host (acc : gmap string unit * string) (pod : Pod) : gmap string unit * string :=
  let '(names, slurmConf) := acc in
  let name := om_Name (pod_Meta pod) in
  match names !! name with
  | None => (names, slurmConf)
  | Some _ =>
      if decide (ps_NodeName (pod_Spec pod) = "" ∨ ps_Hostname (pod_Spec pod) = "") then
        (names, slurmConf)
      else
        let hostName := ps_Hostname (pod_Spec pod) in
        let hostName := if decide (hostName = "") then ps_NodeName (pod_Spec pod) else hostName in
        (delete name names, Replace1 slurmConf ("NodeName=" +:+ name) ("NodeName=" +:+ hostName))
  end.

Definition host_selector (kcluster : KubeCluster) (replicaType : ReplicaType) : gmap string string :=
  SetClusterType
    (SetReplicaType (GenLabels ControllerName (om_Name (kc_Meta kcluster))) replicaType)
    (sp_ClusterType (kc_Spec kcluster)).

Fixpoint host_loop (kcluster : KubeCluster) (entries : list (string * option ReplicaSpec))
    (acc : gmap string unit * string) : M (gmap string unit * string) :=
  match entries with
  | [] => mret acc
  | (replicaType, spec) :: entries =>
      if decide (size acc.1 = 0%nat) then mret acc
      else
        host ← lift (isHostNetWork spec);
        if negb host then host_loop kcluster entries acc
        else if negb (valid (host_selector kcluster replicaType)) then
          fail (EText "couldn't convert Cluster selector: invalid label value")
        else
          items ← api (ListPods (om_Namespace (kc_Meta kcluster)) (host_selector kcluster replicaType));
          let replicaPodList := ConvertPodListWithFilter items
            (Some (λ p, IsControlledBy (om_OwnerReferences (pod_Meta p)) (om_UID (kc_Meta kcluster)))) in
          host_loop kcluster entries (foldl note_host acc replicaPodList)
  end.

(** The data of a config map that is not ready is not nil here. *)
Definition UpdateConfigMap (configMap : ConfigMap) : M ConfigMap :=
  let cmReady := default "" (cm_Data configMap !! configMapReadyKey) in
  let exist := bool_decide (is_Some (cm_Data configMap !! configMapReadyKey)) in
  if exist || bool_decide (cmReady = configMapReady) then mret configMap
  else
    let hostNetWorkNodesList := default "" (cm_Data configMap !! hostNetWorkNodesListKey) in
    if decide (hostNetWorkNodesList = "") then mret (cm_put configMapReadyKey configMapReady configMap)
    else
      kcluster ← get_kc;
      let names : gmap string unit :=
        list_to_map ((λ n, (n, tt)) <$> Split comma hostNetWorkNodesList) in
      let slurmConf := default "" (cm_Data configMap !! slurmConfKey) in
      entries ← range_of (sp_ClusterReplicaSpec (kc_Spec kcluster));
      r ← host_loop kcluster entries (names, slurmConf);
      let '(names, slurmConf) := r in
      let configMap := cm_put slurmConfKey slurmConf configMap in
      if decide (size names = 0%nat) then
        mret (cm_put configMapReadyKey configMapReady (cm_put hostNetWorkNodesListKey "" configMap))
      else
        left ← range_of names;
        mret (cm_put configMapReadyKey configMapReady
                (cm_put hostNetWorkNodesListKey (String.concat "," left.*1) configMap)).

(** ** env.go *)

Definition getTotalReplicas (entries : list (string * option ReplicaSpec)) : res Z :=
  result_foldl (λ kclusterReplicas entry,
    let! r := deref entry.2 in
    let! n := deref (r_Replicas r) in
    Ok (int32 (kclusterReplicas + n))) 0 entries.

(** The variables every container gets; [workers] is the last one's value. *)
Definition common_env (kcluster : KubeCluster) (rtype : ReplicaType) (slurmctlPort slurmdPort workers : Z) :
    list EnvVar :=
  [ env_value "SLURMD_PORT" (Itoa slurmdPort);
    env_value "SLURMCTL_PORT" (Itoa slurmctlPort);
    env_value "SLURM_CONTROLLER_ADDRESS"
      (GenGeneralName (om_Name (kc_Meta kcluster)) SchemaReplicaTypeController (Itoa 0));
    env_field "LOCAL_NAME" "metadata.name";
    env_field "LOCAL_IP" "status.podIP";
    env_value "SLURM_CONF" (SlurmConfDir +:+ "/" +:+ slurmConfKey);
    env_value "SLURM_ROLE" rtype;
    env_value "SLURM_WORKER_REPLICAS" (Itoa workers) ].

(** The GPU entry is looked for again for every container. *)
Definition setPodEnv (kcluster : KubeCluster) (podTemplateSpec : PodTemplateSpec)
    (defaultContainerName : string) (rtype : ReplicaType) (index : string)
    (slurmctlPort slurmdPort : Z) : M PodTemplateSpec :=
  let replicas := sp_ClusterReplicaSpec (kc_Spec kcluster) in
  entries ← range_of replicas;
  totalReplicas ← lift (getTotalReplicas entries);
  controller ← lift (deref (default None (replicas !! SchemaReplicaTypeController)));
  controllers ← lift (deref (r_Replicas controller));
  let env := common_env kcluster rtype slurmctlPort slurmdPort (int32 (totalReplicas - controllers)) in
  let podSpec := edit_init_containers (Container_add_Env env) (pt_Spec podTemplateSpec) in
  replicaSpec ← lift (deref (default None (replicas !! rtype)));
  let resourceList := getResourceRequestList replicaSpec in
  containers ← foldM (λ done c,
    if decide (c_Name c = defaultContainerName) then
      gpu ← getGpuQuantity resourceList;
      mret (done ++ [Container_add_Env (env ++
        [ env_value "LOCAL_CPU" (q_String (rl_Cpu resourceList));
          env_value "LOCAL_GPU" (q_String gpu);
          env_value "LOCAL_MEM" (q_String (rl_Memory resourceList)) ])%list c])%list
    else mret (done ++ [c])%list) [] (ps_Containers podSpec);
  mret (PodTemplateSpec_map_Spec (λ _, PodSpec_set_Containers containers podSpec) podTemplateSpec).

(** ** initcontainer.go *)

Definition waitReadyCommand : string :=
  "while [ " +:+ dq +:+ "$(cat " +:+ configMapReadyFile +:+ ")" +:+ dq +:+ " != " +:+ dq
  +:+ configMapReady +:+ dq +:+ " ]; do echo " +:+ dq +:+ "slurm.conf not ready" +:+ dq
  +:+ "; sleep 5; done && echo " +:+ dq +:+ "slurm.conf ready" +:+ dq.
Definition cpSlurmCmdCommand : string :=
  "if [ -d " +:+ SlurmCmdDir +:+ " ] && [ -d " +:+ EmptyVolumeMountPathInInitContainer
  +:+ " ];then cp -r " +:+ SlurmCmdDir +:+ "/* " +:+ EmptyVolumeMountPathInInitContainer +:+ ";fi".

(** At most one container is used; [initContainers[0]] panics without one. *)
Definition setInitContainer (kcluster : KubeCluster) (podTemplate : PodTemplateSpec)
    (rtype : ReplicaType) : res PodTemplateSpec :=
  let controllerAddress :=
    GenGeneralName (om_Name (kc_Meta kcluster)) SchemaReplicaTypeController (Itoa 0) in
  let! initContainers := init_containers controllerAddress in
  match take 1 initContainers with
  | [] => Panic
  | c :: rest =>
      let command :=
        if decide (rtype = SchemaReplicaTypeController)
        then ["sh"; "-c"; String.concat " && " [waitReadyCommand; cpSlurmCmdCommand]]
        else ["sh"; "-c"; String.concat " && "
                [waitReadyCommand; cpSlurmCmdCommand; String.concat " " (c_Command c)]] in
      Ok (PodTemplateSpec_map_Spec (λ s,
            PodSpec_set_InitContainers
              (ps_InitContainers s ++ Container_set_Command command c :: rest)%list s) podTemplate)
  end.

(** ** util.go: the pod template *)

Definition setPodNetwork (template : PodTemplateSpec) : PodTemplateSpec :=
  PodTemplateSpec_map_Spec (PodSpec_set_DNSPolicy "ClusterFirstWithHostNet") template.

Definition setVolumes (template : PodTemplateSpec) (defaultContainerName : string)
    (rtype : ReplicaType) (configMapName : string) : PodTemplateSpec :=
  let conf := SlurmConfDir +:+ "/" +:+ slurmConfKey in
  let script := if decide (rtype = SchemaReplicaTypeController)
                then controllerEntrypoint else workerEntrypoint in
  PodTemplateSpec_map_Spec (λ s,
    let s := PodSpec_set_Volumes (ps_Volumes s ++
      [ {| vol_Name := configMapName; vol_Source := VolConfigMap configMapName 511 |};
        {| vol_Name := EmptyVolume; vol_Source := VolEmptyDir |} ])%list s in
    let s := edit_init_containers (Container_add_Mounts
      [ mount configMapName conf slurmConfKey true;
        mount EmptyVolume EmptyVolumeMountPathInInitContainer "" false;
        mount configMapName configMapReadyFile configMapReadyKey false ]) s in
    edit_containers defaultContainerName (Container_add_Mounts
      [ mount EmptyVolume EmptyVolumeMountPathInMainContainer "" false;
        mount configMapName conf slurmConfKey true;
        mount configMapName (SlurmConfDir +:+ "/munge/munge/" +:+ mungeKey) mungeKey false;
        mount configMapName EntrypointFilePath script false ]) s) template.

Definition setSecurity (podTemplateSpec : PodTemplateSpec) (defaultContainerName : string) :
    PodTemplateSpec :=
  PodTemplateSpec_map_Spec (edit_containers defaultContainerName
    (Container_set_Security (Some {| sc_RunAsUser := Some 0; sc_Other := "" |}))) podTemplateSpec.

Definition setCmd (podTemplateSpec : PodTemplateSpec) (defaultContainerName : string) :
    PodTemplateSpec :=
  PodTemplateSpec_map_Spec (edit_containers defaultContainerName
    (Container_set_Command ["/bin/bash"; "-c";
       EntrypointFilePath +:+ " <<< " +:+ EmptyVolumeMountPathInMainContainer])) podTemplateSpec.

(** ** slurm_schema.go, second part *)

Definition SetClusterSpec (kcluster : KubeCluster) (podTemplate : PodTemplateSpec)
    (rtype : ReplicaType) (index : string) (configMap : ConfigMap) : M PodTemplateSpec :=
  let slurmConf := default "" (cm_Data configMap !! slurmConfKey) in
  ports ← lift (getSlurmPortsFromConf slurmConf);
  podTemplate ← setPodEnv kcluster podTemplate GetDefaultContainerName rtype index ports.1 ports.2;
  podTemplate ← lift (setInitContainer kcluster podTemplate rtype);
  let podTemplate :=
    setVolumes podTemplate GetDefaultContainerName rtype (om_Name (cm_Meta configMap)) in
  let podTemplate := setPodNetwork podTemplate in
  let podTemplate := setCmd podTemplate GetDefaultContainerName in
  mret (setSecurity podTemplate GetDefaultContainerName).

Definition failed_message (kcluster : KubeCluster) (failed : Z) (rtype : ReplicaType) : string :=
  "KubeCLuster " +:+ om_Namespace (kc_Meta kcluster) +:+ "/" +:+ om_Name (kc_Meta kcluster)
  +:+ " has failed because " +:+ Itoa failed +:+ " " +:+ rtype +:+ " replica(s) failed.".

Definition UpdateClusterStatus (rtype : ReplicaType) (spec : option ReplicaSpec) : M unit :=
  kcluster ← get_kc;
  status ← lift (deref (st_ReplicaStatuses (kc_Status kcluster) !! rtype));
  let running := rs_Active status in
  let failed := rs_Failed status in
  _ ← when (bool_decide (rtype = SchemaReplicaTypeController)) mark_running;
  if decide (failed > 0) then
    kcluster ← get_kc;
    match restarting_condition (st_Conditions (kc_Status kcluster)) with
    | Some c => mark_restarting c
    | None =>
        if decide (rtype ≠ SchemaReplicaTypeController ∨ running ≠ 0) then mret tt
        else mark_failed (failed_message kcluster failed rtype)
    end
  else mret tt.

(** The schema that main registers. *)
Definition NewSlurmClusterReconciler : ClusterSchemaReconciler := {|
  sr_Name := ClusterSchemaKind;
  sr_GetDefaultContainerName := GetDefaultContainerName;
  sr_ReconcileConfigMap := ReconcileConfigMap;
  sr_ValidateV1KubeCluster := ValidateV1KubeCluster;
  sr_UpdateConfigMap := UpdateConfigMap;
  sr_Default := Default;
  sr_SetClusterSpec := SetClusterSpec;
  sr_IsController := IsController;
  sr_UpdateClusterStatus := UpdateClusterStatus |}.
End slurm.

(** Whole numbers, in the units of the sample cluster. *)
Module SampleSlurm.
Import Sample.
#[export] Instance quantity_format : QuantityFormat (H := K8s_example) :=
  Build_QuantityFormat K8s_example pretty (λ q, q * 1000) Some
    (λ s, if decide (s = "32Gi") then Some 34359738368 else parse_signed s).
End SampleSlurm.
