(* ===== verification/SlurmSpec.v ===== *)
(** * What the slurm schema does

    Proofs about Slurm.v: slurm.conf carries the ports it was written with, the
    config map settles in one reconciliation, the random ports are found, and the
    status of a cluster fails exactly when its controller has. *)

From S2P Require Import Prelude K8s Api Defaults Names Status Expectations Core Quota World Control.
From S2P Require Import Schema Controller Reconciler SchemaLib Slurm.

(** ** slurm.conf *)

(** The text of the template before and after a placeholder. *)
Fixpoint text_before (s old : string) : string :=
  if String.prefix old s then ""
  else match s with EmptyString => "" | String c s => String c (text_before s old) end.
Fixpoint text_after (s old : string) : string :=
  if String.prefix old s then string_drop (String.length old) s
  else match s with EmptyString => "" | String _ s => text_after s old end.

(** The lines before the cluster's name, between the addresses and the ports,
    and after the ports. *)
Definition conf_head : string :=
  Eval vm_compute in text_before slurmConfTemplate (nl +:+ "ClusterName=").
Definition conf_middle : string :=
  Eval vm_compute in
    text_before (text_after slurmConfTemplate (placeHolderControlAddr +:+ " " +:+ nl))
      (nl +:+ "SlurmctldPort=").
Definition conf_tail : string :=
  Eval vm_compute in text_after slurmConfTemplate (placeHolderSlurmdPort +:+ " " +:+ nl).

Definition dollar : ascii := "$"%char.

(** What the names of objects are made of holds neither byte. *)
Definition plain (s : string) : Prop := has_char dollar s = false ∧ has_char newline s = false.

Lemma plain_app s t : plain s → plain t → plain (s +:+ t).
Proof. intros [H1 H2] [H3 H4]. split; rewrite has_char_app; by rewrite ?H1, ?H2, ?H3, ?H4. Qed.

Lemma plain_Itoa z : plain (Itoa z).
Proof. split; by apply Itoa_no_other. Qed.

Lemma has_char_string_map c f s :
  (∀ d, f d = c → d = c) → has_char c s = false → has_char c (string_map f s) = false.
Proof.
  intros Hf. induction s as [|d s IH]; simpl; [done|].
  intros [Hd Hs]%orb_false_iff. rewrite IH by done.
  apply bool_decide_eq_false in Hd. rewrite bool_decide_false; [done|]. intros Heq.
  apply Hd. symmetry. by apply Hf.
Qed.

Lemma lower_char_other c d : (N_of_ascii c < 65)%N → lower_char d = c → d = c.
Proof.
  intros Hc. unfold lower_char. set (n := N_of_ascii d).
  destruct ((65 <=? n)%N && (n <=? 90)%N) eqn:Hn; [|done].
  apply andb_true_iff in Hn as [H1%N.leb_le H2%N.leb_le]. intros <-. exfalso.
  rewrite N_ascii_embedding in Hc by lia. lia.
Qed.

Lemma plain_GenGeneralName name i : plain name → plain (GenGeneralName name SchemaReplicaTypeController (Itoa i)).
Proof.
  intros Hn. assert (plain (name +:+ "-" +:+ ToLower SchemaReplicaTypeController +:+ "-" +:+ Itoa i)) as [H1 H2].
  { apply plain_app; [done|]. apply plain_app; [done|]. apply plain_app; [done|].
    apply plain_app; [done|apply plain_Itoa]. }
  unfold GenGeneralName, ReplaceAllChar.
  split; (apply has_char_string_map; [|done]); intros d; case_decide; done.
Qed.

(** Filling five placeholders, one after the other. *)
Lemma fill_five a1 b1 b2 b3 b4 b5 o1 o2 o3 o4 o5 n c d p q :
  has_char dollar a1 = false → has_char dollar b1 = false → has_char dollar b2 = false →
  has_char dollar b3 = false → has_char dollar b4 = false →
  has_char dollar n = false → has_char dollar c = false → has_char dollar d = false →
  has_char dollar p = false →
  Replace1 (Replace1 (Replace1 (Replace1 (Replace1
    (a1 +:+ String dollar o1 +:+ b1 +:+ String dollar o2 +:+ b2 +:+ String dollar o3 +:+ b3
     +:+ String dollar o4 +:+ b4 +:+ String dollar o5 +:+ b5)
    (String dollar o1) n) (String dollar o2) c) (String dollar o3) d) (String dollar o4) p)
    (String dollar o5) q =
  a1 +:+ n +:+ b1 +:+ c +:+ b2 +:+ d +:+ b3 +:+ p +:+ b4 +:+ q +:+ b5.
Proof.
  intros Ha Hb1 Hb2 Hb3 Hb4 Hn Hc Hd Hp.
  rewrite (Replace1_at dollar o1 a1) by done.
  rewrite <- (string_app_assoc a1), <- (string_app_assoc (a1 +:+ n)).
  rewrite (Replace1_at dollar o2) by (by rewrite !has_char_app, Ha, Hn, Hb1).
  rewrite <- (string_app_assoc _ c), <- (string_app_assoc _ b2).
  rewrite (Replace1_at dollar o3) by (by rewrite !has_char_app, Ha, Hn, Hb1, Hc, Hb2).
  rewrite <- (string_app_assoc _ d), <- (string_app_assoc _ b3).
  rewrite (Replace1_at dollar o4) by (by rewrite !has_char_app, Ha, Hn, Hb1, Hc, Hb2, Hd, Hb3).
  rewrite <- (string_app_assoc _ p), <- (string_app_assoc _ b4).
  rewrite (Replace1_at dollar o5) by (by rewrite !has_char_app, Ha, Hn, Hb1, Hc, Hb2, Hd, Hb3, Hp, Hb4).
  by rewrite !string_app_assoc.
Qed.

(** The texts between the placeholders. *)
Definition before_name : string := Eval vm_compute in conf_head +:+ nl +:+ "ClusterName=".
Definition before_machine : string := Eval vm_compute in " " +:+ nl +:+ "ControlMachine=".
Definition before_addr : string := Eval vm_compute in " " +:+ nl +:+ "ControlAddr=".
Definition before_ctld : string :=
  Eval vm_compute in " " +:+ nl +:+ conf_middle +:+ nl +:+ "SlurmctldPort=".
Definition before_slurmd : string := Eval vm_compute in " " +:+ nl +:+ "SlurmdPort=".
Definition after_slurmd : string := Eval vm_compute in " " +:+ nl +:+ conf_tail.

Lemma fill_template_eq name p q :
  plain name →
  let controller := GenGeneralName name SchemaReplicaTypeController (Itoa 0) in
  fill_template name p q =
    before_name +:+ name +:+ before_machine +:+ controller +:+ before_addr +:+ controller
    +:+ before_ctld +:+ Itoa p +:+ before_slurmd +:+ Itoa q +:+ after_slurmd.
Proof.
  intros Hn controller. pose proof (plain_GenGeneralName name 0 Hn) as [Hc _]. fold controller in Hc.
  destruct Hn as [Hn _]. destruct (plain_Itoa p) as [Hp _].
  rewrite <- (fill_five before_name before_machine before_addr before_ctld before_slurmd after_slurmd
    "{CLUSTER_NAME}" "{CONTROL_MACHINE}" "{CONTROL_ADDRESS}" "{SLURMCTLD_PORT}" "{slurmd_port}"
    name controller controller (Itoa p) (Itoa q)) by (done || by_vm).
  unfold fill_template. fold controller. f_equal.
Qed.

(** *** Reading the ports back *)

Definition other_line `{K : K8s} (line : string) : bool :=
  negb (HasPrefix line SlurmctldPrefix) && negb (HasPrefix line SlurmdPrefix).

Section ports.
Context {K : K8s}.

Lemma scan_ports_skip ls rest a b :
  forallb other_line ls = true → scan_ports (ls ++ rest)%list a b = scan_ports rest a b.
Proof.
  induction ls as [|l ls IH]; [done|]. simpl. intros [Hl Hls]%andb_true_iff.
  unfold other_line in Hl. rewrite Hl. by apply IH.
Qed.

Lemma parse_port_field z : in_int64 z → parse_port (TrimSpace (Itoa z +:+ " ")) = Ok z.
Proof. intros Hz. unfold parse_port. by rewrite Atoi_field. Qed.

(** The two lines, whatever follows. *)
Lemma scan_ports_found p q rest :
  in_int64 p → in_int64 q → p ≠ 0 → q ≠ 0 →
  scan_ports (("SlurmctldPort=" +:+ Itoa p +:+ " ") :: ("SlurmdPort=" +:+ Itoa q +:+ " ") :: rest) 0 0
  = Ok (p, q).
Proof.
  intros Hp Hq Hp0 Hq0.
  assert (HasPrefix ("SlurmctldPort=" +:+ Itoa p +:+ " ") SlurmctldPrefix = true) as H1
    by apply (prefix_app SlurmctldPrefix).
  assert (HasPrefix ("SlurmdPort=" +:+ Itoa q +:+ " ") SlurmdPrefix = true) as H2
    by apply (prefix_app SlurmdPrefix).
  assert (HasPrefix ("SlurmdPort=" +:+ Itoa q +:+ " ") SlurmctldPrefix = false) as H3 by done.
  assert (TrimPrefix ("SlurmctldPort=" +:+ Itoa p +:+ " ") SlurmctldPrefix = Itoa p +:+ " ") as H4
    by apply (TrimPrefix_app SlurmctldPrefix).
  assert (TrimPrefix ("SlurmdPort=" +:+ Itoa q +:+ " ") SlurmdPrefix = Itoa q +:+ " ") as H5
    by apply (TrimPrefix_app SlurmdPrefix).
  cbn [scan_ports]. rewrite H1, H4, parse_port_field by done. cbn [negb andb result_bind].
  rewrite decide_False by tauto. rewrite H2, H3, H5, parse_port_field by done.
  cbn [negb andb result_bind]. by rewrite decide_True.
Qed.

Lemma plain_line k s : plain k → plain s → Split newline (k +:+ s +:+ " ") = [k +:+ s +:+ " "].
Proof.
  intros [_ Hk] [_ Hs]. apply Split_line. rewrite !has_char_app, Hk, Hs. done.
Qed.

Lemma lines_text n c p q rest :
  before_name +:+ n +:+ before_machine +:+ c +:+ before_addr +:+ c +:+ before_ctld +:+ p
    +:+ before_slurmd +:+ q +:+ after_slurmd +:+ rest =
  conf_head +:+ String newline (("ClusterName=" +:+ n +:+ " ") +:+
    String newline (("ControlMachine=" +:+ c +:+ " ") +:+ String newline (("ControlAddr=" +:+ c +:+ " ") +:+
    String newline (conf_middle +:+ String newline (("SlurmctldPort=" +:+ p +:+ " ") +:+
    String newline (("SlurmdPort=" +:+ q +:+ " ") +:+ String newline (conf_tail +:+ rest))))))).
Proof.
  assert (before_name = conf_head +:+ nl +:+ "ClusterName=") as -> by by_vm.
  assert (before_ctld = " " +:+ nl +:+ conf_middle +:+ nl +:+ "SlurmctldPort=") as -> by by_vm.
  assert (after_slurmd = " " +:+ nl +:+ conf_tail) as -> by by_vm.
  generalize conf_head, conf_middle, conf_tail. intros h m t. by rewrite !string_app_assoc.
Qed.

(** The lines of a filled template. *)
Lemma fill_template_lines name p q rest :
  plain name →
  ∃ head tail, forallb other_line head = true ∧
    Split newline (fill_template name p q +:+ rest) =
      (head ++ ("SlurmctldPort=" +:+ Itoa p +:+ " ") :: ("SlurmdPort=" +:+ Itoa q +:+ " ") :: tail)%list.
Proof.
  intros Hn. rewrite fill_template_eq by done.
  set (c := GenGeneralName name SchemaReplicaTypeController (Itoa 0)).
  pose proof (plain_GenGeneralName name 0 Hn) as Hc. fold c in Hc.
  assert (∀ k s, Split newline (k +:+ String newline s) = (Split newline k ++ Split newline s)%list) as Hsplit
    by (intros; apply Split_app).
  exists (Split newline conf_head ++ ("ClusterName=" +:+ name +:+ " ") :: ("ControlMachine=" +:+ c +:+ " ")
    :: ("ControlAddr=" +:+ c +:+ " ") :: Split newline conf_middle)%list, (Split newline (conf_tail +:+ rest)).
  split.
  { rewrite forallb_app. apply andb_true_iff. split; [by_vm|]. simpl. by_vm. }
  rewrite !string_app_assoc, lines_text.
  rewrite !Hsplit, !plain_line by (done || apply plain_Itoa). by rewrite <- app_assoc.
Qed.

Lemma fill_template_ports name p q rest :
  plain name → in_int64 p → in_int64 q → p ≠ 0 → q ≠ 0 →
  getSlurmPortsFromConf (fill_template name p q +:+ rest) = Ok (p, q).
Proof.
  intros Hn Hp Hq Hp0 Hq0. unfold getSlurmPortsFromConf.
  destruct (fill_template_lines name p q rest Hn) as (head & tail & Hh & ->).
  rewrite scan_ports_skip by done. by apply scan_ports_found.
Qed.
End ports.

(** ** The ports of the containers *)

Section default_ports.
Context {K : K8s}.

(** Both ports are there. *)
Definition has_ports (s : PodSpec) : Prop :=
  let index := GetDefaultContainerIndex s GetDefaultContainerName in
  HasDefaultPort s index SlurmctlPortName = Ok true ∧ HasDefaultPort s index SlurmdPortName = Ok true.

(** After setting the ports both are there, and setting them again with any numbers
    changes nothing. *)
Lemma setSlurmDefaultPorts_ok s p q s' :
  setSlurmDefaultPorts s GetDefaultContainerName p q = Ok s' → has_ports s'.
Proof.
  unfold setSlurmDefaultPorts. set (i := GetDefaultContainerIndex s GetDefaultContainerName).
  destruct (ensure_port s i SlurmctlPortName (int32 p)) as [s1| |] eqn:H1; simpl; [|done..]. intros H2.
  apply ensure_port_ok in H1 as (N1 & C1 & _). apply ensure_port_ok in H2 as (N2 & D2 & K2).
  assert (GetDefaultContainerIndex s' GetDefaultContainerName = i) as Hi.
  { apply GetDefaultContainerIndex_names. congruence. }
  unfold has_ports. rewrite Hi. split; [by apply K2|done].
Qed.

Lemma setSlurmDefaultPorts_noop s p q :
  has_ports s → setSlurmDefaultPorts s GetDefaultContainerName p q = Ok s.
Proof. intros [H1 H2]. unfold setSlurmDefaultPorts, ensure_port. rewrite H1. simpl. by rewrite H2. Qed.

(** The main container, and the number of the first port of a name. *)
Definition main_container (s : PodSpec) : option Container :=
  ps_Containers s !! GetDefaultContainerIndex s GetDefaultContainerName.
Fixpoint number_of (name : string) (ports : list ContainerPort) : option Z :=
  match ports with
  | [] => None
  | p :: ports => if decide (cp_Name p = name) then Some (cp_ContainerPort p) else number_of name ports
  end.

(** A container keeps the port of a name it has, and gets [z] when it has none. *)
Definition given (name : string) (z : Z) (c c' : Container) : Prop :=
  number_of name (c_Ports c') = Some (default z (number_of name (c_Ports c))).

Lemma number_of_app name ports x :
  number_of name (ports ++ [x]) =
    match number_of name ports with
    | Some z => Some z
    | None => if decide (cp_Name x = name) then Some (cp_ContainerPort x) else None
    end.
Proof. induction ports as [|p ports IH]; simpl; [done|]. by destruct (decide (cp_Name p = name)). Qed.

Lemma number_of_has name ports :
  existsb (λ p, bool_decide (cp_Name p = name)) ports = bool_decide (is_Some (number_of name ports)).
Proof.
  induction ports as [|p ports IH]; simpl; [done|]. rewrite IH. case_decide.
  - by rewrite bool_decide_true.
  - by rewrite bool_decide_false.
Qed.

Lemma ensure_port_number s i name z s' :
  ensure_port s i name z = Ok s' →
  ∃ c c', ps_Containers s !! i = Some c ∧ ps_Containers s' !! i = Some c' ∧ given name z c c' ∧
    ∀ n, n ≠ name → number_of n (c_Ports c') = number_of n (c_Ports c).
Proof.
  unfold ensure_port, HasDefaultPort, SetDefaultPort, given.
  destruct (ps_Containers s !! i) as [c|] eqn:Hc; [|done]. simpl. rewrite number_of_has.
  case_bool_decide as Hn; simpl; intros [= <-]; exists c.
  - exists c. destruct Hn as [v Hv]. rewrite Hv. by rewrite Hc.
  - eexists. split_and!;
      [done|simpl; by rewrite list_lookup_insert_eq by by eapply lookup_lt_Some| |]; simpl.
    + rewrite number_of_app, decide_True by done. destruct (number_of name (c_Ports c)); [|done].
      destruct Hn. by eexists.
    + intros n Hne. rewrite number_of_app, decide_False by (simpl; congruence). by destruct (number_of n _).
Qed.

Lemma setSlurmDefaultPorts_numbers s p q s' :
  setSlurmDefaultPorts s GetDefaultContainerName p q = Ok s' →
  ∃ c c', main_container s = Some c ∧ main_container s' = Some c' ∧
    given SlurmctlPortName (int32 p) c c' ∧ given SlurmdPortName (int32 q) c c'.
Proof.
  unfold setSlurmDefaultPorts, main_container.
  set (i := GetDefaultContainerIndex s GetDefaultContainerName).
  destruct (ensure_port s i SlurmctlPortName (int32 p)) as [s1| |] eqn:H1; simpl; [|done..]. intros H2.
  destruct (ensure_port_ok _ _ _ _ _ H1) as [N1 _]. destruct (ensure_port_ok _ _ _ _ _ H2) as [N2 _].
  apply ensure_port_number in H1 as (c & c1 & Hc & Hc1 & G1 & O1).
  apply ensure_port_number in H2 as (c2 & c' & Hc2 & Hc' & G2 & O2).
  rewrite Hc1 in Hc2. injection Hc2 as <-.
  rewrite (GetDefaultContainerIndex_names s s') by congruence. exists c, c'.
  split_and!; [done|done| |]; unfold given in *.
  - by rewrite O2.
  - by rewrite G2, O1.
Qed.

(** *** Ports found in a template *)

(** One of the ports has this name and number. *)
Definition has_port (ports : list ContainerPort) (name : string) (z : Z) : Prop :=
  ∃ p, p ∈ ports ∧ cp_Name p = name ∧ cp_ContainerPort p = z.

Lemma find_ports_in ports a b x y :
  find_ports ports a b = (x, y) →
  (x = a ∨ has_port ports SlurmctlPortName x) ∧ (y = b ∨ has_port ports SlurmdPortName y).
Proof.
  revert a b. induction ports as [|p ports IH]; intros a b; simpl; [intros [= -> ->]; auto|].
  set (a' := if decide _ then _ else a). set (b' := if decide (_ = SlurmctlPortName) then b else _).
  assert (a' = a ∨ has_port (p :: ports) SlurmctlPortName a') as Ha.
  { unfold a'. case_decide; [right; exists p; split; [by left|done]|by left]. }
  assert (b' = b ∨ has_port (p :: ports) SlurmdPortName b') as Hb.
  { unfold b'. repeat case_decide; try (by left). right. exists p. split; [by left|done]. }
  assert (∀ n v z z0, (v = z0 ∨ has_port ports n v) → (z0 = z ∨ has_port (p :: ports) n z0) →
    v = z ∨ has_port (p :: ports) n v) as Hw.
  { intros n v z z0 [->|(p1 & ? & ?)] ?; [done|]. right. exists p1. split; [by right|done]. }
  clearbody a' b'. case_decide; [by intros [= -> ->]|]. intros [Hx Hy]%IH. eauto.
Qed.

(** The two ports of a main container. *)
Definition template_ports (p q : Z) (m : gmap string (option ReplicaSpec)) : Prop :=
  ∃ rt s c, m !! rt = Some (Some s) ∧ main_container (pt_Spec (r_Template s)) = Some c ∧
    has_port (c_Ports c) SlurmctlPortName p ∧ has_port (c_Ports c) SlurmdPortName q.

(** No main container has both. *)
Definition no_template_ports (m : gmap string (option ReplicaSpec)) : Prop :=
  ∀ rt s x y, m !! rt = Some (Some s) →
    getSlurmDefaultPort (pt_Spec (r_Template s)) GetDefaultContainerName = Ok (x, y) → x = 0 ∨ y = 0.

Definition ports_in_range (replicas : gmap string (option ReplicaSpec)) : Prop :=
  ∀ rt spec c p, replicas !! rt = Some (Some spec) → c ∈ ps_Containers (pt_Spec (r_Template spec)) →
    p ∈ c_Ports c → in_int32 (cp_ContainerPort p).

Lemma in_int32_64 z : in_int32 z → in_int64 z.
Proof. unfold in_int32, in_int64. lia. Qed.

Lemma first_ports_ok replicas entries p q :
  ports_in_range replicas → (∀ rt o, (rt, o) ∈ entries → replicas !! rt = Some o) →
  first_ports entries GetDefaultContainerName = Ok (p, q) →
  template_ports p q replicas ∧ p ≠ 0 ∧ q ≠ 0 ∧ in_int64 p ∧ in_int64 q.
Proof.
  intros Hr. induction entries as [|[rt o] entries IH]; intros Hin; [done|]. simpl.
  destruct o as [spec|]; simpl; [|done].
  unfold getSlurmDefaultPort. destruct (ps_Containers _ !! _) as [c|] eqn:Hc; simpl; [|done].
  destruct (find_ports (c_Ports c) 0 0) as [x y] eqn:Hf. case_decide as Hxy.
  - intros [= -> ->].
    apply find_ports_in in Hf as [[-> |Hp] [-> |Hq]]; try tauto.
    assert (replicas !! rt = Some (Some spec)) as Hl by (apply Hin; by left).
    assert (∀ n z, has_port (c_Ports c) n z → in_int64 z) as Hz.
    { intros n z (x & Hx & _ & <-). eapply in_int32_64, (Hr rt spec c); eauto using list_elem_of_lookup_2. }
    split_and!; [by exists rt, spec, c|tauto|tauto|by eapply Hz..].
  - intros H. apply IH; [|done]. intros. apply Hin. by right.
Qed.

Lemma first_ports_none entries e rt s x y :
  first_ports entries GetDefaultContainerName = Err e → (rt, Some s) ∈ entries →
  getSlurmDefaultPort (pt_Spec (r_Template s)) GetDefaultContainerName = Ok (x, y) → x = 0 ∨ y = 0.
Proof.
  induction entries as [|[rt' o] entries IH]; [by intros _ ?%elem_of_nil|]. simpl.
  destruct o as [spec|]; simpl; [|done].
  destruct (getSlurmDefaultPort (pt_Spec (r_Template spec)) _) as [[x' y']| |] eqn:Hg; simpl; [| |done].
  2: { unfold getSlurmDefaultPort in Hg. by destruct (ps_Containers _ !! _). }
  case_decide as Hxy; [done|]. intros He [[= -> ->]|Hi]%elem_of_cons; [|by apply IH].
  rewrite Hg. intros [= -> ->]. destruct (decide (x = 0)); [by left|]. destruct (decide (y = 0)); [by right|]. tauto.
Qed.

Lemma scan_ports_nonzero lines a b p q : scan_ports lines a b = Ok (p, q) → p ≠ 0 ∧ q ≠ 0.
Proof.
  revert a b. induction lines as [|l lines IH]; intros a b; cbn [scan_ports]; [done|].
  destruct (_ && _); [apply IH|].
  destruct (if HasPrefix l SlurmctldPrefix then _ else _) as [[x y]| |]; simpl; [|done..].
  case_decide; [by intros [= <- <-]|apply IH].
Qed.
End default_ports.

(** ** The ports of the whole cluster *)

Arguments setSlurmDefaultPorts : simpl never.

Section slurm_ports.
Context {K : K8s} {QF : QuantityFormat} {ES : ExpStore} {AS : ApiServer} {RT : GoRuntime}
  {RTL : GoRuntimeLaws RT} {GR : GoRand} {GRL : GoRandLaws GR}.

Definition all_have_ports (m : gmap string (option ReplicaSpec)) : Prop :=
  ∀ rt o, m !! rt = Some o → ∃ s, o = Some s ∧ has_ports (pt_Spec (r_Template s)).

(** What the two numbers become in the specs of a cluster. *)
Definition carried (p q : Z) (m m' : gmap string (option ReplicaSpec)) : Prop :=
  dom m' = dom m ∧ ∀ rt o', m' !! rt = Some o' → ∃ s s' c c',
    m !! rt = Some (Some s) ∧ o' = Some s' ∧
    main_container (pt_Spec (r_Template s)) = Some c ∧ main_container (pt_Spec (r_Template s')) = Some c' ∧
    given SlurmctlPortName (int32 p) c c' ∧ given SlurmdPortName (int32 q) c c'.

Lemma setSlurmPorts_ok p q w w' :
  setSlurmPorts p q w = (w', Ok tt) →
  spec_rel w w' ∧ all_have_ports (specs w') ∧ carried p q (specs w) (specs w').
Proof.
  intros H. pose proof (map_templates_dom _ w w' H) as Hd.
  apply (map_templates_range _ w) in H as [Hrel Hall]. split; [exact Hrel|]. split; [|split; [exact Hd|]].
  - intros rt o' Ho'. destruct (Hall rt o' Ho') as (s & ps & Hs & Hps & ->).
    eexists. split; [done|]. by eapply setSlurmDefaultPorts_ok.
  - intros rt o' Ho'. destruct (Hall rt o' Ho') as (s & ps & Hs & Hps & ->).
    apply setSlurmDefaultPorts_numbers in Hps as (c & c' & ? & ? & ? & ?). eexists _, _, c, c'. by split_and!.
Qed.

(** *** Random ports *)

(** The port that a reading of the clock gives. *)
Definition draw (n : nat) : Z := rand_Intn (clock n) (20000 - 10000 + 1) + 10000.

Lemma draw_range n : 10000 ≤ draw n ≤ 20000.
Proof.
  unfold draw. pose proof (rand_Intn_bound (clock n) (20000 - 10000 + 1)). lia.
Qed.

(** The loop ends at the first reading, at most [n] further on, that gives another
    port. *)
Lemma random_loop_ends p n fuel w :
  draw (n + w_tick w)%nat ≠ p → (n < fuel)%nat →
  ∃ m w', (m ≤ n)%nat ∧ draw (m + w_tick w)%nat ≠ p ∧ ticks_rel w w' ∧
    ∀ fuel', (m < fuel')%nat →
      genSlurmRandomPort_loop fuel' p w = (w', Ok (p, draw (m + w_tick w)%nat)).
Proof.
  revert fuel w. induction n as [|n IH]; intros fuel w Hn Hf.
  - exists 0%nat, (w_next_tick w). split_and!; [lia|done|apply ticks_next|].
    intros [|fuel'] Hf'; [lia|]. simpl. unfold mbind, M_bind. simpl. fold (draw (w_tick w)).
    by rewrite decide_True by done.
  - destruct (decide (draw (w_tick w) = p)) as [Heq|Hne].
    + destruct (IH (pred fuel) (w_next_tick w)) as (m & w' & Hm & Hd & Ht & Hw).
      { simpl. by rewrite Nat.add_succ_r. } { lia. }
      exists (S m), w'. simpl in Hd, Hw. rewrite Nat.add_succ_r in Hd, Hw.
      split_and!; [lia|done|etransitivity; [apply ticks_next|done]|].
      intros [|fuel'] Hf'; [lia|]. simpl. unfold mbind, M_bind at 1. simpl. fold (draw (w_tick w)).
      rewrite decide_False by (rewrite Heq; tauto). apply Hw. lia.
    + exists 0%nat, (w_next_tick w). split_and!; [lia|done|apply ticks_next|].
      intros [|fuel'] Hf'; [lia|]. simpl. unfold mbind, M_bind at 1. simpl. fold (draw (w_tick w)).
      by rewrite decide_True by done.
Qed.

Lemma genSlurmRandomPort_ok fuel w w' p q :
  genSlurmRandomPort fuel w = (w', Ok (p, q)) →
  ticks_rel w w' ∧ p ≠ q ∧ 10000 ≤ p ≤ 20000 ∧ 10000 ≤ q ≤ 20000.
Proof.
  unfold genSlurmRandomPort, mbind, M_bind at 1. simpl. fold (draw (w_tick w)).
  pose proof (draw_range (w_tick w)) as Hp. revert Hp. generalize (draw (w_tick w)). intros d Hd.
  assert (∀ w1, genSlurmRandomPort_loop fuel d w1 = (w', Ok (p, q)) →
    ticks_rel w1 w' ∧ p = d ∧ p ≠ q ∧ 10000 ≤ q ≤ 20000) as Hl.
  { induction fuel as [|fuel IH]; intros w1; [done|]. simpl. unfold mbind, M_bind at 1. simpl.
    fold (draw (w_tick w1)). pose proof (draw_range (w_tick w1)) as Hq. case_decide.
    - intros [= <- -> <-]. split_and!; (done || lia || apply ticks_next).
    - intros (Ht & ? & ? & ?)%IH. split_and!; try done; try lia.
      etransitivity; [apply ticks_next|done]. }
  intros (Ht & -> & ? & ?)%Hl. split_and!; try done; try lia.
  etransitivity; [apply ticks_next|done].
Qed.
End slurm_ports.

(** ** The config map *)

Section configmap.
Context {K : K8s} {QF : QuantityFormat} {ES : ExpStore} {AS : ApiServer} {RT : GoRuntime}
  {RTL : GoRuntimeLaws RT} {GR : GoRand} {GRL : GoRandLaws GR}.

Lemma ticks_getGpuQuantity l : stable ticks_rel (getGpuQuantity l).
Proof. unfold getGpuQuantity. ticks_auto. Qed.
Lemma ticks_getResourceRequest l : stable ticks_rel (getResourceRequest l).
Proof. unfold getResourceRequest. ticks_auto. apply ticks_getGpuQuantity. Qed.
Lemma ticks_createSlurmConfNodes k : stable ticks_rel (createSlurmConfNodes k).
Proof.
  unfold createSlurmConfNodes, createSlurmConfNodesByReplica. ticks_auto.
  apply (stable_foldM ticks_rel). intros. ticks_auto. apply ticks_getResourceRequest.
Qed.
Lemma ticks_RandStr fuel n : stable ticks_rel (RandStr fuel n).
Proof.
  unfold RandStr. ticks_auto. generalize "", (n - 1), letterIdMax. revert a.
  induction fuel as [|fuel IH]; intros; simpl; ticks_auto; try apply IH. apply (stable_fail ticks_rel).
Qed.

Lemma ticks_spec w w' : ticks_rel w w' → spec_rel w w' ∧ specs w' = specs w.
Proof.
  intros (_ & Hl & _ & _ & _ & Hk)%ticks_same. unfold spec_rel, specs. by rewrite Hk.
Qed.

(** The outcome of a step that only reads. *)
Lemma ticks_ok {A} (m : M A) w w' r : stable ticks_rel m → m w = (w', r) → ticks_rel w w'.
Proof. intros Hm H. specialize (Hm w). by rewrite H in Hm. Qed.

Lemma createSlurmConf_ok p q w w' conf :
  plain (om_Name (kc_Meta (w_kc w))) → in_int64 p → in_int64 q → p ≠ 0 → q ≠ 0 →
  createSlurmConf p q w = (w', Ok conf) →
  ticks_rel w w' ∧ getSlurmPortsFromConf conf = Ok (p, q).
Proof.
  intros Hn Hp Hq Hp0 Hq0 (k & w1 & Hk & H)%bind_Ok. injection Hk as <- <-.
  apply bind_Ok in H as (nodes & w2 & Hnodes & H). injection H as <- <-.
  split; [by eapply ticks_ok; [apply ticks_createSlurmConfNodes|]|]. by apply fill_template_ports.
Qed.

(** Where the two numbers of a generated conf come from. *)
Definition conf_ports (p q : Z) (m : gmap string (option ReplicaSpec)) : Prop :=
  template_ports p q m ∨
  (no_template_ports m ∧ p ≠ q ∧ 10000 ≤ p ≤ 20000 ∧ 10000 ≤ q ≤ 20000).

Lemma genSlurmConf_ok fuel w w' conf :
  plain (om_Name (kc_Meta (w_kc w))) → ports_in_range (specs w) →
  genSlurmConf fuel w = (w', Ok conf) →
  spec_rel w w' ∧ all_have_ports (specs w') ∧
  ∃ p q, getSlurmPortsFromConf conf = Ok (p, q) ∧ p ≠ 0 ∧ q ≠ 0 ∧
    carried p q (specs w) (specs w') ∧ conf_ports p q (specs w).
Proof.
  intros Hn Hr (r & w1 & Htry & H)%bind_Ok.
  assert (ticks_rel w w1 ∧ match r with
    | inr ports => template_ports ports.1 ports.2 (specs w) ∧
        ports.1 ≠ 0 ∧ ports.2 ≠ 0 ∧ in_int64 ports.1 ∧ in_int64 ports.2
    | inl _ => no_template_ports (specs w)
    end) as [Ht1 Hports].
  { revert Htry. unfold try, getSlurmPortsFromSpec, mbind, M_bind, get_kc, range_of, lift.
    destruct (first_ports _ _) as [[p q]|e|] eqn:Hf; [| |done]; intros [= <- <-];
      (split; [apply ticks_next|]).
    - eapply first_ports_ok; [exact Hr| |exact Hf]. intros rt o Hi. by apply elem_of_range in Hi.
    - intros rt s x y Hl. eapply first_ports_none; [exact Hf|]. by apply elem_of_range. }
  apply bind_Ok in H as ([p q] & w2 & Hpq & H).
  assert (spec_rel w1 w2 ∧ specs w2 = specs w1 ∧ conf_ports p q (specs w) ∧
    p ≠ 0 ∧ q ≠ 0 ∧ in_int64 p ∧ in_int64 q) as (Hr2 & Hs2 & Hsrc & Hp0 & Hq0 & Hp & Hq).
  { destruct r as [e|ports].
    - apply bind_Ok in Hpq as ([p1 q1] & w3 & Hg & Hpq). apply genSlurmRandomPort_ok in Hg as (Ht & ? & ? & ?).
      apply bind_Ok in Hpq as (? & w4 & Hev & Hpq). injection Hpq as <- <- <-. injection Hev as <- _.
      apply ticks_spec in Ht as [Hrel Hs]. split; [etransitivity; [exact Hrel|done]|].
      unfold in_int64. split; [exact Hs|]. split; [by right|]. lia.
    - injection Hpq as <- ->. destruct Hports as (? & ? & ? & ? & ?). split_and!; try done. by left. }
  apply bind_Ok in H as ([] & w3 & Hset & H). apply setSlurmPorts_ok in Hset as (Hr3 & Hall & Hcar).
  apply bind_Ok in H as (c & w4 & Hc & H). apply ticks_spec in Ht1 as [Hr1 Hs1].
  assert (spec_rel w w3) as Hrel by (etransitivity; [exact Hr1|]; by etransitivity).
  revert Hc. unfold try. destruct (createSlurmConf p q w3) as [w5 [conf'|e|]] eqn:Hconf; [| |done];
    intros Hc; injection Hc as <- <-; [|done].
  injection H as <- <-. apply createSlurmConf_ok in Hconf as [Ht5 Hparse]; [|by destruct Hrel as (_ & -> & _)|done..].
  apply ticks_spec in Ht5 as [Hr5 Hs5]. split; [by etransitivity|]. rewrite Hs5.
  split; [done|]. exists p, q. rewrite <- Hs1, <- Hs2 at 1. by split_and!.
Qed.

(** Some replica of the cluster runs in the network of its host. *)
Definition on_host_network (m : gmap string (option ReplicaSpec)) : Prop :=
  ∃ rt s n, m !! rt = Some (Some s) ∧ ps_HostNetwork (pt_Spec (r_Template s)) = true ∧
    r_Replicas s = Some n ∧ 0 < n.

Lemma upto_nil n : upto n = [] ↔ n ≤ 0.
Proof.
  unfold upto. split.
  - intros H%fmap_nil_inv. destruct (Z.to_nat n) eqn:E; [lia|done].
  - intros H. by replace (Z.to_nat n) with 0%nat by lia.
Qed.

Lemma host_names_fold name entries acc names :
  result_foldl (λ l entry, let! ns := host_names name entry in Ok (l ++ ns)%list) acc entries = Ok names →
  names = [] ↔ acc = [] ∧ ∀ rt s n, (rt, Some s) ∈ entries →
    ps_HostNetwork (pt_Spec (r_Template s)) = true → r_Replicas s = Some n → n ≤ 0.
Proof.
  revert acc. induction entries as [|[rt o] entries IH]; intros acc; simpl.
  { intros [= ->]. split; [|by intros [? _]]. intros ->. split; [done|]. by intros ??? ?%elem_of_nil. }
  destruct (host_names name (rt, o)) as [ns| |] eqn:Hns; simpl; [|done..].
  intros H%IH. rewrite H, app_nil. unfold host_names in Hns. simpl in Hns.
  destruct o as [s|]; simpl in Hns; [|done].
  assert (ns = [] ↔ ∀ n, ps_HostNetwork (pt_Spec (r_Template s)) = true → r_Replicas s = Some n → n ≤ 0)
    as Hiff.
  { destruct (r_Replicas s) as [n|]; [|injection Hns as <-; naive_solver].
    destruct (ps_HostNetwork _); simpl in Hns; injection Hns as <-; [|naive_solver].
    pose proof (upto_nil n) as Hu. split.
    - intros Hm%fmap_nil_inv n' _ [= <-]. by apply Hu.
    - intros Hn. rewrite (proj2 Hu); [done|]. by apply Hn. }
  rewrite Hiff. setoid_rewrite elem_of_cons. naive_solver.
Qed.

Lemma getHostNetWorkNodeList_ok w w' names :
  getHostNetWorkNodeList w = (w', Ok names) →
  ticks_rel w w' ∧ (names = [] ↔ ¬ on_host_network (specs w)).
Proof.
  unfold getHostNetWorkNodeList, mbind, M_bind, get_kc, range_of, lift.
  intros H. injection H as <- H. split; [apply ticks_next|].
  apply host_names_fold in H as ->. unfold on_host_network. split.
  - intros [_ Hall] (rt & s & n & Hl & Hh & Hr & Hn).
    specialize (Hall rt s n). rewrite elem_of_range in Hall. specialize (Hall Hl Hh Hr). lia.
  - intros Hno. split; [done|]. intros rt s n Hi Hh Hr. apply elem_of_range in Hi.
    destruct (decide (n ≤ 0)); [done|]. destruct Hno. exists rt, s, n. split_and!; (done || lia).
Qed.

(** *** Filling in the keys *)

(** What filling a config map that is not ready leaves. *)
Record filled (cm cm' : ConfigMap) (w w' : World) : Prop := {
  fl_rel : spec_rel w w';
  fl_meta : cm_Meta cm' = cm_Meta cm;
  fl_keep k v : k ≠ configMapReadyKey → k ≠ hostNetWorkNodesListKey →
    cm_Data cm !! k = Some v → cm_Data cm' !! k = Some v;
  fl_conf : match cm_Data cm !! slurmConfKey with
            | Some _ => specs w' = specs w
            | None => all_have_ports (specs w') ∧
                ∃ conf p q, cm_Data cm' !! slurmConfKey = Some conf ∧
                  getSlurmPortsFromConf conf = Ok (p, q) ∧ p ≠ 0 ∧ q ≠ 0 ∧
                  carried p q (specs w) (specs w') ∧ conf_ports p q (specs w)
            end;
  fl_scripts : is_Some (cm_Data cm' !! controllerEntrypoint) ∧ is_Some (cm_Data cm' !! workerEntrypoint);
  fl_ready : ∃ b : bool, cm_Data cm' !! configMapReadyKey = Some (if b then "true" else "false") ∧
    (b = true ↔ ¬ on_host_network (specs w'))
}.

(** The data of a filled config map, key by key. *)
Lemma fill_configmap_data fuel cm w w' cm' :
  fill_configmap fuel cm w = (w', Ok cm') →
  let cm2 := cm_fill workerEntrypoint genWorkerEntrypoint
               (cm_fill controllerEntrypoint genControllerEntrypoint cm) in
  ∃ w1 w2 cm3 names,
    (match cm_Data cm2 !! slurmConfKey with
     | Some _ => w1 = w ∧ cm3 = cm2
     | None => ∃ conf, genSlurmConf fuel w = (w1, Ok conf) ∧ cm3 = cm_put slurmConfKey conf cm2
     end) ∧
    getHostNetWorkNodeList w1 = (w2, Ok names) ∧ ticks_rel w2 w' ∧
    cm_Meta cm' = cm_Meta cm ∧
    cm_Data cm' = cm_Data
      (if decide (length names = 0%nat) then cm_put configMapReadyKey "true" cm3
       else cm_put hostNetWorkNodesListKey (String.concat "," names)
              (cm_put configMapReadyKey "false" cm3)).
Proof.
  intros H cm2. unfold fill_configmap in H. fold cm2 in H. cbv zeta in H.
  apply bind_Ok in H as (cm3 & w1 & H3 & H).
  apply bind_Ok in H as (names & w2 & Hnames & H).
  exists w1, w2, cm3, names. split.
  { destruct (cm_Data cm2 !! slurmConfKey); [by injection H3 as <- <-|].
    apply bind_Ok in H3 as (conf & w3 & Hconf & H3). injection H3 as <- <-. by exists conf. }
  assert (cm_Meta cm3 = cm_Meta cm) as Hmeta.
  { transitivity (cm_Meta cm2); [|unfold cm2; by rewrite !cm_fill_meta].
    destruct (cm_Data cm2 !! slurmConfKey); [by injection H3 as _ <-|].
    apply bind_Ok in H3 as (conf & w3 & _ & H3). by injection H3 as _ <-. }
  split; [done|].
  set (cm4 := if decide (length names = 0%nat) then _ else _) in *.
  assert (cm_Meta cm4 = cm_Meta cm) as Hm4 by (unfold cm4; by case_decide).
  destruct (cm_Data cm4 !! mungeKey).
  - injection H as <- <-. split_and!; [by exists 0%nat|done..].
  - apply bind_Ok in H as (key & w3 & Hkey & H). injection H as <- <-.
    split_and!; [by eapply ticks_ok; [apply ticks_RandStr|]|done..].
Qed.

Lemma fill_configmap_ok fuel cm w w' cm' :
  plain (om_Name (kc_Meta (w_kc w))) →
  (cm_Data cm !! slurmConfKey = None → ports_in_range (specs w)) →
  fill_configmap fuel cm w = (w', Ok cm') → filled cm cm' w w'.
Proof.
  intros Hn Hr H. apply fill_configmap_data in H as (w1 & w2 & cm3 & names & H3 & Hnames & Ht & Hmeta & Hdata).
  set (cm2 := cm_fill workerEntrypoint genWorkerEntrypoint
               (cm_fill controllerEntrypoint genControllerEntrypoint cm)) in *.
  apply getHostNetWorkNodeList_ok in Hnames as [Ht1 Hhost].
  apply (ticks_spec w1) in Ht1 as [Hr1 Hs1]. apply ticks_spec in Ht as [Hr2 Hs2].
  assert (spec_rel w1 w' ∧ specs w' = specs w1) as [Hr3 Hs3] by (split; [by etransitivity|congruence]).
  assert (∀ k, k ≠ configMapReadyKey → k ≠ hostNetWorkNodesListKey → cm_Data cm' !! k = cm_Data cm3 !! k) as Hk.
  { intros k ??. rewrite Hdata. case_decide; simpl; by rewrite ?lookup_insert_ne by done. }
  assert (cm_Data cm2 !! slurmConfKey = cm_Data cm !! slurmConfKey) as Hc2
    by (unfold cm2; by rewrite !cm_fill_lookup).
  assert (∀ k, k ≠ slurmConfKey → cm_Data cm3 !! k = cm_Data cm2 !! k) as Hk3.
  { intros k ?. destruct (cm_Data cm2 !! slurmConfKey); [by destruct H3 as [_ ->]|].
    destruct H3 as (conf & _ & ->). simpl. by rewrite lookup_insert_ne by done. }
  split.
  - rewrite Hc2 in H3. destruct (cm_Data cm !! slurmConfKey); [by destruct H3 as [-> _]|].
    destruct H3 as (conf & Hg & _). apply genSlurmConf_ok in Hg as [Hg _]; [|by auto..]. by etransitivity.
  - done.
  - intros k v Hk1 Hk2 Hv. rewrite Hk by done.
    destruct (decide (k = slurmConfKey)) as [->|Hne].
    + rewrite Hc2, Hv in H3. destruct H3 as [_ ->]. by rewrite Hc2.
    + rewrite Hk3 by done. unfold cm2. rewrite !cm_fill_lookup.
      repeat case_decide; subst; rewrite ?Hv; done.
  - rewrite Hc2 in H3. destruct (cm_Data cm !! slurmConfKey) as [conf|].
    + destruct H3 as [-> _]. done.
    + destruct H3 as (conf & Hg & ->). apply genSlurmConf_ok in Hg as (_ & Hall & p & q & Hpq & ?); [|by auto..].
      rewrite Hs3. split; [done|]. exists conf, p, q. rewrite Hk by done. simpl. by rewrite lookup_insert_eq.
  - rewrite !Hk, !Hk3 by done. unfold cm2. rewrite !cm_fill_lookup. split; by eexists.
  - exists (bool_decide (names = [])). split; [|by rewrite bool_decide_eq_true, Hs3].
    rewrite Hdata. case_decide as Hlen.
    + apply nil_length_inv in Hlen. rewrite bool_decide_true by done. simpl. by rewrite lookup_insert_eq.
    + rewrite bool_decide_false by (by intros ->). simpl. rewrite lookup_insert_ne by done.
      by rewrite lookup_insert_eq.
Qed.

(** ** Properties *)

(** C21 (slurm.conf carries its ports). Reconciling the config map of a slurm cluster,
    whose name holds neither a dollar sign nor a newline and whose ports fit their 32
    bits, makes no request when it succeeds. It leaves a slurm.conf from which the ports
    of slurmctld and of slurmd are read back, neither of them 0. A main container that
    had a port named for slurmctld keeps its number, any other gets that of the conf, and
    the same for slurmd; no replica type comes or goes. A conf that was there stays; one
    that is generated has, each under its name, the two ports of some main container, or,
    when none has both, two different random ones from 10000 to 20000. *)
Theorem slurm_conf_carries_ports (fuel : nat) (cm cm' : ConfigMap) (w w' : World) :
  plain (om_Name (kc_Meta (w_kc w))) → ports_in_range (specs w) →
  ReconcileConfigMap fuel cm w = (w', Ok cm') →
  w_log w' = w_log w ∧ all_have_ports (specs w') ∧
  ∃ conf p q, cm_Data cm' !! slurmConfKey = Some conf ∧
    getSlurmPortsFromConf conf = Ok (p, q) ∧ p ≠ 0 ∧ q ≠ 0 ∧
    carried p q (specs w) (specs w') ∧
    match cm_Data cm !! slurmConfKey with
    | Some old => conf = old
    | None => conf_ports p q (specs w)
    end.
Proof.
  intros Hn Hr H. unfold ReconcileConfigMap in H. apply bind_Ok in H as ([] & w1 & Hset & H).
  destruct (cm_Data cm !! slurmConfKey) as [conf|] eqn:Hconf.
  - apply bind_Ok in Hset as ([p q] & w2 & Hp & Hset). injection Hp as <- Hp.
    pose proof (scan_ports_nonzero _ _ _ _ _ Hp) as [Hp0 Hq0].
    apply setSlurmPorts_ok in Hset as (Hrel & Hall & Hcar).
    destruct (needReconcileConfigMap cm); simpl in H.
    + apply fill_configmap_ok in H as [[Hl _] _ Hkeep Hc _ _]; rewrite ?Hconf in *; [|by destruct Hrel as (_ & -> & _)|done].
      split; [destruct Hrel as [? _]; congruence|]. rewrite Hc. split; [done|].
      exists conf, p, q. split; [by apply Hkeep|done].
    + injection H as <- <-. split; [by destruct Hrel|]. split; [done|]. exists conf, p, q. by split_and!.
  - injection Hset as <-. apply fill_configmap_ok in H as [[Hl _] _ _ Hc _ _]; [|done..].
    rewrite Hconf in Hc. split; [done|]. destruct Hc as [Hall (conf & p & q & Hc)].
    split; [done|]. exists conf, p, q. by destruct_and!.
Qed.

(** A config map with slurm.conf and the ready key is never written again. *)
Lemma settled_configmap fuel valid cm :
  is_Some (cm_Data cm !! slurmConfKey) → is_Some (cm_Data cm !! configMapReadyKey) →
  (∀ w w' cm', ReconcileConfigMap fuel cm w = (w', Ok cm') → cm' = cm) ∧
  (∀ w, UpdateConfigMap valid cm w = (w, Ok cm)).
Proof.
  intros [conf Hc] [r Hr]. split.
  - intros w w' cm' H. unfold ReconcileConfigMap in H. apply bind_Ok in H as (? & w1 & _ & H).
    unfold needReconcileConfigMap in H. rewrite Hc, Hr in H. by injection H as _ <-.
  - intros w. unfold UpdateConfigMap. by rewrite Hr.
Qed.

(** C22 (a config map settles at once, ready or not). The reconciliation that first
    fills a slurm config map marks it ready exactly when no replica runs in the
    network of its host; otherwise it is marked not ready, and neither
    ReconcileConfigMap nor UpdateConfigMap ever changes it again, so that the
    init containers that wait for the ready mark wait for ever. *)
Theorem slurm_configmap_frozen (fuel : nat) (valid : gmap string string → bool)
    (cm cm' : ConfigMap) (w w' : World) :
  plain (om_Name (kc_Meta (w_kc w))) → ports_in_range (specs w) →
  cm_Data cm !! configMapReadyKey = None →
  ReconcileConfigMap fuel cm w = (w', Ok cm') →
  (cm_Data cm' !! configMapReadyKey = Some "true" ∨ cm_Data cm' !! configMapReadyKey = Some "false") ∧
  (cm_Data cm' !! configMapReadyKey = Some "true" ↔ ¬ on_host_network (specs w')) ∧
  (∀ w1 w2 cm2, ReconcileConfigMap fuel cm' w1 = (w2, Ok cm2) → cm2 = cm') ∧
  (∀ w1, UpdateConfigMap valid cm' w1 = (w1, Ok cm')).
Proof.
  intros Hn Hr Hready H. unfold ReconcileConfigMap in H. apply bind_Ok in H as ([] & w1 & Hset & H).
  assert (spec_rel w w1 ∧ (cm_Data cm !! slurmConfKey = None → ports_in_range (specs w1))) as [Hrel Hr1].
  { destruct (cm_Data cm !! slurmConfKey); [|injection Hset as <-; by split].
    apply bind_Ok in Hset as ([p q] & w2 & Hp & Hset). injection Hp as <- _.
    by apply setSlurmPorts_ok in Hset as (? & _). }
  assert (fill_configmap fuel cm w1 = (w', Ok cm')) as Hf.
  { revert H. unfold needReconcileConfigMap. rewrite Hready. simpl. by rewrite andb_false_r. }
  apply fill_configmap_ok in Hf as [_ _ Hkeep Hc _ (b & Hb & Hiff)]; [|by destruct Hrel as (_ & -> & _)|done].
  rewrite Hb. split; [destruct b; auto|]. split; [rewrite <- Hiff; by destruct b|].
  apply settled_configmap; [|by eexists].
  destruct (cm_Data cm !! slurmConfKey) as [conf|] eqn:E; [by exists conf; apply Hkeep|].
  destruct Hc as (_ & conf & p & q & Hconf & _). by exists conf.
Qed.

(** C24 (the random ports are found). If some reading of the clock after the first
    gives a port other than the first one, the loop ends: there is a bound on its
    rounds from which on it gives the same two ports, which differ and lie between
    10000 and 20000, whatever the bound. *)
Theorem genSlurmRandomPort_terminates (w : World) (n : nat) :
  draw (S n + w_tick w)%nat ≠ draw (w_tick w) →
  ∃ w' p q, p ≠ q ∧ 10000 ≤ p ≤ 20000 ∧ 10000 ≤ q ≤ 20000 ∧ ticks_rel w w' ∧
    ∀ fuel, (n < fuel)%nat → genSlurmRandomPort fuel w = (w', Ok (p, q)).
Proof.
  intros Hn. destruct (random_loop_ends (draw (w_tick w)) n (S n) (w_next_tick w))
    as (m & w' & Hm & Hd & Ht & Hw).
  { simpl. by rewrite Nat.add_succ_r. } { lia. }
  simpl in Hd, Hw. eexists w', _, _. split_and!; [by apply not_eq_sym, Hd|apply draw_range..| |].
  - etransitivity; [apply ticks_next|done].
  - intros fuel Hf. unfold genSlurmRandomPort, mbind, M_bind at 1. simpl. fold (draw (w_tick w)).
    apply Hw. lia.
Qed.
End configmap.

(** ** The status of a cluster *)

Section status.
Context {K : K8s} {QF : QuantityFormat} {ES : ExpStore} {AS : ApiServer} {RT : GoRuntime}
  {GR : GoRand}.

(** C23 (when a slurm cluster fails). The status update of a replica type that has a
    status always succeeds and makes no request. It marks a cluster that had not
    failed as Failed exactly when the type is the controller, one of its pods has failed
    and none is active, also when the cluster was restarting until then, for the
    controller's Running condition has by then removed the Restarting one. A
    controller that is not marked Failed is marked Running, whether a pod of it is
    active or not, and a cluster marked Failed has a completion time. *)
Theorem slurm_status_failed_iff (rtype : ReplicaType) (spec : option ReplicaSpec)
    (rs : ReplicaStatus) (w : World) :
  conditions_wf (kc_Status (w_kc w)) → IsFailed (kc_Status (w_kc w)) = false →
  st_ReplicaStatuses (kc_Status (w_kc w)) !! rtype = Some rs →
  ∃ w', UpdateClusterStatus rtype spec w = (w', Ok tt) ∧ w_log w' = w_log w ∧
    (IsFailed (kc_Status (w_kc w')) = true ↔
       rtype = SchemaReplicaTypeController ∧ rs_Failed rs > 0 ∧ rs_Active rs = 0) ∧
    (rtype = SchemaReplicaTypeController → IsFailed (kc_Status (w_kc w')) = false →
       IsRunning (kc_Status (w_kc w')) = true) ∧
    (IsFailed (kc_Status (w_kc w')) = true → is_Some (st_CompletionTime (kc_Status (w_kc w')))).
Proof.
  intros Hwf Hf Hrs. unfold UpdateClusterStatus.
  rewrite (bind_run _ _ w w (w_kc w)) by done. rewrite (bind_run _ _ w w rs) by (unfold lift; by rewrite Hrs).
  set (c := bool_decide (rtype = SchemaReplicaTypeController)).
  assert (c = true ↔ rtype = SchemaReplicaTypeController) as Hciff by apply bool_decide_eq_true.
  assert (∃ w1, when c mark_running w = (w1, Ok tt) ∧
    w_log w1 = w_log w ∧ IsFailed (kc_Status (w_kc w1)) = false ∧
    (c = true → IsRunning (kc_Status (w_kc w1)) = true ∧
       restarting_condition (st_Conditions (kc_Status (w_kc w1))) = None))
    as (w1 & H1 & Hl1 & Hf1 & Hc1).
  { destruct c; simpl; [|by exists w].
    destruct (mark_running_ok w Hwf Hf) as (w1 & ? & ? & ? & ? & ?). exists w1. by split_and!. }
  rewrite (bind_run _ _ _ _ _ H1). clearbody c. clear H1.
  case_decide as Hfail.
  2: { exists w1. split_and!; [done..| | |by rewrite Hf1].
       - rewrite Hf1. split; [done|]. intros (_ & ? & _). lia.
       - intros Hrt _. by apply Hc1, Hciff. }
  rewrite (bind_run _ _ w1 w1 (w_kc w1)) by done.
  destruct (restarting_condition (st_Conditions (kc_Status (w_kc w1)))) as [d|] eqn:Hres.
  { destruct (mark_restarting_ok d w1) as (w2 & H2 & Hl2 & Hf2). exists w2. rewrite Hf2, Hf1.
    assert (rtype ≠ SchemaReplicaTypeController) as Hne by (intros Hrt; apply Hciff, Hc1 in Hrt as [_ ?]; congruence).
    split_and!; [done|congruence| |done|done]. split; [done|]. tauto. }
  case_decide as Hskip.
  { exists w1. split_and!; [done..| | |by rewrite Hf1].
    - rewrite Hf1. split; [done|]. intros (? & _ & ?). tauto.
    - intros Hrt _. by apply Hc1, Hciff. }
  destruct (mark_failed_ok (failed_message (w_kc w1) (rs_Failed rs) rtype) w1) as (w2 & H2 & Hl2 & Hf2 & Ht2).
  exists w2. rewrite Hf2. split_and!; [done|congruence| |done|done]. split; [|done]. intros _.
  destruct (decide (rtype = SchemaReplicaTypeController)), (decide (rs_Active rs = 0)); tauto.
Qed.
End status.

(** ** The contract of a schema *)

Section contract.
Context {K : K8s} {QF : QuantityFormat} {ES : ExpStore} {AS : ApiServer} {RT : GoRuntime}
  {GR : GoRand}.

Lemma setPodEnv_ticks kc t d rt i p q : stable ticks_rel (setPodEnv kc t d rt i p q).
Proof.
  unfold setPodEnv. ticks_auto. apply (stable_foldM ticks_rel). intros. ticks_auto.
  apply ticks_getGpuQuantity.
Qed.

Lemma setPodEnv_meta kc t d rt i p q w w' t' :
  setPodEnv kc t d rt i p q w = (w', Ok t') → pt_Meta t' = pt_Meta t.
Proof.
  unfold setPodEnv. intros (? & ? & _ & H)%bind_Ok. do 5 apply bind_Ok in H as (? & ? & _ & H).
  by injection H as _ <-.
Qed.

Lemma setInitContainer_meta ic kc t rt t' :
  setInitContainer ic kc t rt = Ok t' → pt_Meta t' = pt_Meta t.
Proof.
  unfold setInitContainer. destruct (ic _) as [cs| |]; simpl; [|done..].
  destruct (take 1 cs); [done|]. by intros [= <-].
Qed.

Lemma slurm_schema_spec valid ic fuel : SchemaSpec (NewSlurmClusterReconciler valid ic fuel).
Proof.
  split; simpl.
  - intros. unfold SetClusterSpec. ticks_auto. apply setPodEnv_ticks.
  - intros kc t rt i cm w w' t' H. unfold SetClusterSpec in H.
    apply bind_Ok in H as (ports & w1 & _ & H). apply bind_Ok in H as (t1 & w2 & H1 & H).
    apply bind_Ok in H as (t2 & w3 & H2 & H). injection H as _ <-. simpl.
    injection H2 as _ H2. apply setInitContainer_meta in H2. apply setPodEnv_meta in H1. congruence.
Qed.
End contract.

Section slurm_witnesses.
Import Sample MemServer SampleController SampleRand SampleSlurm.

Definition slurm_run : World * result error ConfigMap :=
  ReconcileConfigMap 5000 configmap (world ∅).

Lemma slurm_run_ok : ∃ w' cm, slurm_run = (w', Ok cm).
Proof.
  assert (is_Ok slurm_run.2 = true) as H by by_vm.
  destruct slurm_run as [w' [cm|e|]]; [by exists w', cm|discriminate H|discriminate H].
Qed.

Lemma sample_name_plain : plain (om_Name (kc_Meta (w_kc (world ∅)))).
Proof. by split. Qed.

Lemma sample_ports_in_range : ports_in_range (specs (world ∅)).
Proof.
  intros rt spec c p Hl Hc Hp. exfalso. revert Hp.
  assert (c_Ports c = []) as ->; [|by apply elem_of_nil].
  change (specs (world ∅)) with (<["Controller" := Some (replica None RestartPolicyNever)]>
    ({[ "Worker" := Some (replica (Some 2) RestartPolicyOnFailure) ]} : gmap string _)) in Hl.
  apply lookup_insert_Some in Hl as [[_ Heq]|[_ [_ Heq]%lookup_singleton_Some]]; injection Heq as <-;
    by apply list_elem_of_singleton in Hc as ->.
Qed.

(** The workers are on ports of the conf that the controller says in its template. *)
Definition with_ports (ports : list ContainerPort) (s : ReplicaSpec) : ReplicaSpec :=
  ReplicaSpec_set_Template {| pt_Meta := pt_Meta (r_Template s);
    pt_Spec := PodSpec_set_Containers (foldr Container_add_Port container ports :: []) (pt_Spec (r_Template s)) |} s.
Definition ported_world : World :=
  w_set_kc (KubeCluster_set_Spec (ClusterSpec_set_ReplicaSpec
    (<["Controller" := Some (with_ports [{| cp_Name := SlurmdPortName; cp_ContainerPort := 7001 |};
        {| cp_Name := SlurmctlPortName; cp_ContainerPort := 7000 |}] (replica None RestartPolicyNever))]>
      (specs (world ∅))) (kc_Spec (w_kc (world ∅)))) (w_kc (world ∅))) (world ∅).

Lemma ported_in_range : ports_in_range (specs ported_world).
Proof.
  intros rt s c p Hl Hc Hp.
  change (specs ported_world) with (<["Controller" := Some (with_ports
    [{| cp_Name := SlurmdPortName; cp_ContainerPort := 7001 |};
     {| cp_Name := SlurmctlPortName; cp_ContainerPort := 7000 |}] (replica None RestartPolicyNever))]>
    (specs (world ∅))) in Hl.
  apply lookup_insert_Some in Hl as [[_ Heq]|[_ Hl]].
  - injection Heq as <-. apply list_elem_of_singleton in Hc as ->. simpl in Hp.
    rewrite !elem_of_cons in Hp. destruct Hp as [->|[->|[]%elem_of_nil]]; by vm_compute.
  - by eapply sample_ports_in_range.
Qed.

Definition ported_run : World * result error ConfigMap := ReconcileConfigMap 5000 configmap ported_world.

Lemma slurm_conf_carries_ports_witness :
  ∃ w' cm, ported_run = (w', Ok cm) ∧ w_log w' = [] ∧
    ∃ conf p q, cm_Data cm !! slurmConfKey = Some conf ∧
      getSlurmPortsFromConf conf = Ok (p, q) ∧ p ≠ 0 ∧ q ≠ 0 ∧
      carried p q (specs ported_world) (specs w') ∧ conf_ports p q (specs ported_world).
Proof.
  assert (is_Ok ported_run.2 = true) as H by by_vm.
  destruct ported_run as [w' [cm|e|]] eqn:Hrun; [|discriminate H|discriminate H].
  exists w', cm. split; [reflexivity|].
  destruct (slurm_conf_carries_ports (RTL := runtime_laws) (GRL := rand_laws) 5000 configmap cm
    ported_world w') as (Hl & _ & Hc).
  - exact sample_name_plain.
  - exact ported_in_range.
  - exact Hrun.
  - exact (conj Hl Hc).
Defined.

(** The numbers of that run. *)
Lemma ported_conf :
  match ported_run.2 with
  | Ok cm => getSlurmPortsFromConf <$> cm_Data cm !! slurmConfKey
  | _ => None
  end = Some (Ok (7000, 7001)).
Proof. by_vm. Qed.

Lemma slurm_configmap_frozen_witness :
  ∃ w' cm, slurm_run = (w', Ok cm) ∧
    (cm_Data cm !! configMapReadyKey = Some "true" ∨
     cm_Data cm !! configMapReadyKey = Some "false") ∧
    UpdateConfigMap (λ _, true) cm (world ∅) = (world ∅, Ok cm).
Proof.
  destruct slurm_run_ok as (w' & cm & Hrun). exists w', cm. split; [exact Hrun|].
  destruct (slurm_configmap_frozen (RTL := runtime_laws) (GRL := rand_laws) 5000 (λ _, true) configmap
    cm (world ∅) w') as (Hr & _ & _ & Hu).
  - exact sample_name_plain.
  - exact sample_ports_in_range.
  - reflexivity.
  - exact Hrun.
  - exact (conj Hr (Hu _)).
Defined.

Lemma genSlurmRandomPort_terminates_witness :
  ∃ w' p q, genSlurmRandomPort 5 (world ∅) = (w', Ok (p, q)) ∧ p ≠ q.
Proof.
  destruct (genSlurmRandomPort_terminates (GRL := rand_laws) (world ∅) 0) as (w' & p & q & Hne & _ & _ & _ & H).
  - by apply (bool_decide_unpack _); vm_compute.
  - exists w', p, q. split; [apply H; lia|exact Hne].
Defined.

Definition failed_world : World :=
  w_set_kc (KubeCluster_set_Status
    (Status_set_ReplicaStatuses {[ "Controller" := {| rs_Active := 0; rs_Activating := 0; rs_Failed := 1;
       rs_Selector := "" |} ]} Sample.status) cluster) (world ∅).

Lemma slurm_status_failed_iff_witness :
  ∃ w', UpdateClusterStatus "Controller" None failed_world = (w', Ok tt) ∧
    IsFailed (kc_Status (w_kc w')) = true.
Proof.
  destruct (slurm_status_failed_iff "Controller" None {| rs_Active := 0; rs_Activating := 0; rs_Failed := 1;
    rs_Selector := "" |} failed_world) as (w' & H & _ & Hf & _).
  - by apply conditions_wf_nil.
  - reflexivity.
  - reflexivity.
  - exists w'. split; [exact H|]. apply Hf. by split.
Defined.
End slurm_witnesses.
