(* ===== verification/Pbspro.v ===== *)
(** * The PBS Pro schema

    pkg/controller/cluster_schema/pbspro_schema: the config map with pbs.conf and the
    entry points, the pod templates and the status of a PBS Pro cluster.
    [init_containers] is what the init container template of the deployment gives
    for an address. *)

From S2P Require Import Prelude K8s Api Defaults Names Status Expectations Core World Control.
From S2P Require Import Schema Controller SchemaLib.

Definition ClusterSchemaKind : string := "pbspro".
Definition PBSSH : string := "/etc/profile.d/pbs.sh".
Definition PBSCmd : string := "/etc/init.d/pbs".
Definition PBSExec : string := "/opt/pbs".
Definition PBSBin : string := PBSExec +:+ "/bin".
Definition PBSSBin : string := PBSExec +:+ "/sbin".
Definition PBSNodes : string := PBSBin +:+ "/pbsnodes".
Definition PBSIff : string := PBSSBin +:+ "/pbs_iff".
Definition PBSRcp : string := PBSSBin +:+ "/pbs_rcp".
Definition PBSInitShell : string := "/opt/pbs/init.sh".
Definition EmptyVolume : string := "pbs-opt-dir".
Definition EmptyVolumeMountPathInInitContainer : string := "/mnt/share".
Definition EmptyVolumeMountPathInMainContainer : string := "/mnt/share".
Definition PBSProDir : string := "/opt/pbs".
Definition PostGresDir : string := "/opt/postgres".
Definition SchemaReplicaTypeServer : ReplicaType := "Server".

Definition placeHolderPBS_SERVER : string := "${PBS_SERVER}".
Definition placeHolderPBS_START_MOM : string := "${PBS_START_MOM}".
Definition placeHolderClientHost : string := "${CLIENT_HOST}".
Definition placeHolderPBS_EXEC : string := "${PBS_EXEC}".

Definition pbsproConfDir : string := "/etc".
Definition PBSConfKey : string := "pbs.conf".
Definition PBSServerConfKey : string := "pbs-server.conf".
Definition PBSWorkerConfKey : string := "pbs-worker.conf".
Definition PBSConf : string := pbsproConfDir +:+ "/" +:+ PBSConfKey.
Definition PBSMomConfigKey : string := "privConfig".
Definition PBSMonPrivMountPath : string := "/tmp/var/spool/pbs/mom_priv/config".
Definition ServerEntrypoint : string := "entrypoint.sh".
Definition WorkerEntrypoint : string := "worker-entrypoint.sh".
Definition ServerEntryPointMountPath : string := "/tmp/" +:+ ServerEntrypoint.
Definition WorkerEntryPointMountPath : string := "/tmp/" +:+ WorkerEntrypoint.

Definition pbsServerConfTemplate : string :=
"PBS_SERVER=${PBS_SERVER}
PBS_START_MOM=${PBS_START_MOM}
PBS_EXEC=${PBS_EXEC}
PBS_START_SERVER=1
PBS_START_SCHED=1
PBS_START_COMM=1
PBS_HOME=/var/spool/pbs
PBS_CORE_LIMIT=unlimited
".
Definition pbsWorkerConfTemplate : string :=
"PBS_SERVER=${PBS_SERVER}
PBS_START_MOM=1
PBS_EXEC=${PBS_EXEC}
PBS_START_COMM=1
PBS_HOME=/var/spool/pbs
".
Definition pbsMonPrivConfigTemplate : string :=
"$clienthost ${CLIENT_HOST}
".

Definition qmgrCreateNodeCmds : string := quoted
"for node_name in `${node_names[@]}`; do
  node_exists=0
  
  while [ $node_exists -eq 0 ]; do
	echo `try create node $node_name`
    {{.Pbsnodes}} `$node_name` > /dev/null 2>&1

    return_code=$?
    if [ $return_code -eq 0 ]; then
      echo `create node $node_name success`
      node_exists=1
    else
	  {{.Qmgr}} -c `create node $node_name`
      sleep 5
    fi
  done
done".

Section pbspro.
Context {K : K8s} {ES : ExpStore} {AS : ApiServer} {RT : GoRuntime}.
Context (init_containers : string → res (list Container)).

(** ** pbspro_schema.go, first part *)

Definition GetDefaultContainerName : string := ClusterDefaultContainerName.

Definition set_ports (spec : PodSpec) : res PodSpec :=
  let index := GetDefaultContainerIndex spec GetDefaultContainerName in
  let! spec := ensure_port spec index "serve-port" 15001 in
  let! spec := ensure_port spec index "comm-port" 17001 in
  ensure_port spec index "sched-port" 15004.

Definition Default : M unit :=
  kcluster ← get_kc;
  entries ← range_of (sp_ClusterReplicaSpec (kc_Spec kcluster));
  let replicas := SetTypeNameToCamelCase entries.*1 (sp_ClusterReplicaSpec (kc_Spec kcluster))
                    SchemaReplicaTypeServer in
  _ ← set_kc (KubeCluster_set_Spec (ClusterSpec_set_ReplicaSpec replicas (kc_Spec kcluster)) kcluster);
  entries ← range_of replicas;
  map_templates set_ports entries.

Definition IsController (spec : gmap string (option ReplicaSpec)) (rType : ReplicaType) (index : Z) :
    bool :=
  bool_decide (SchemaReplicaTypeServer = rType).

(** The loop looks at the server's entry only, wherever it comes in the visit. *)
Fixpoint validate_server (entries : list (string * option ReplicaSpec)) : res unit :=
  match entries with
  | [] => Err (EText ("pbspro cluster need a replica named " +:+ SchemaReplicaTypeServer))
  | (replicaType, spec) :: entries =>
      if decide (SchemaReplicaTypeServer ≠ replicaType) then validate_server entries
      else
        let! spec := deref spec in
        let! n := deref (r_Replicas spec) in
        if decide (n ≠ 1) then Err (EText "pbspro clusetr server replica must be 1") else Ok tt
  end.

Definition ValidateV1KubeCluster (kcluster : KubeCluster) : res unit :=
  validate_server (range 0 (sp_ClusterReplicaSpec (kc_Spec kcluster))).

Definition failed_message (kcluster : KubeCluster) (failed : Z) (rtype : ReplicaType) : string :=
  "KubeCLuster " +:+ om_Namespace (kc_Meta kcluster) +:+ "/" +:+ om_Name (kc_Meta kcluster)
  +:+ " has failed because " +:+ Itoa failed +:+ " " +:+ rtype +:+ " replica(p) failed.".

Definition UpdateClusterStatus (rtype : ReplicaType) (spec : option ReplicaSpec) : M unit :=
  kcluster ← get_kc;
  status ← lift (deref (st_ReplicaStatuses (kc_Status kcluster) !! rtype));
  let running := rs_Active status in
  let failed := rs_Failed status in
  _ ← when (bool_decide (rtype = SchemaReplicaTypeServer) && bool_decide (running > 0)) mark_running;
  if decide (failed > 0) then
    kcluster ← get_kc;
    match restarting_condition (st_Conditions (kc_Status kcluster)) with
    | Some c => mark_restarting c
    | None =>
        if decide (rtype ≠ SchemaReplicaTypeServer) then mret tt
        else mark_failed (failed_message kcluster failed rtype)
    end
  else mret tt.

(** ** configmap.go *)

Definition server_name (kcluster : KubeCluster) : string :=
  GenGeneralName (om_Name (kc_Meta kcluster)) SchemaReplicaTypeServer (Itoa 0).

Definition genServerPBSConf (kcluster : KubeCluster) : string :=
  let pbsConf := Replace1 pbsServerConfTemplate placeHolderPBS_SERVER (server_name kcluster) in
  let pbsConf := Replace1 pbsConf placeHolderPBS_START_MOM "1" in
  Replace1 pbsConf placeHolderPBS_EXEC PBSExec.

Definition genWorkerPBSConf (kcluster : KubeCluster) : string :=
  let pbsConf := Replace1 pbsWorkerConfTemplate placeHolderPBS_SERVER (server_name kcluster) in
  Replace1 pbsConf placeHolderPBS_EXEC PBSExec.

Definition genPBSMomConfig (kcluster : KubeCluster) : string :=
  Replace1 pbsMonPrivConfigTemplate placeHolderClientHost (server_name kcluster).

(** The command list of util.go *)
Definition getGeneralCommand : list string :=
  let share := EmptyVolumeMountPathInMainContainer in
  [ "if [ -d " +:+ share +:+ " ];then cp -r -p -n " +:+ share +:+ "/* /opt;fi";
    "if [ -d " +:+ PBSExec +:+ " ];then chmod a+s " +:+ PBSIff +:+ " " +:+ PBSRcp +:+ ";fi ";
    "if [ -e " +:+ PBSInitShell +:+ " ];then sh " +:+ PBSInitShell +:+ ";fi";
    "if [ -e " +:+ PBSSH +:+ " ];then chmod +x " +:+ PBSSH +:+ " && . " +:+ PBSSH +:+ ";fi ";
    PBSCmd +:+ " status " ].
Definition genServerCommand : list string := "rm -rf /var/spool/pbs" :: getGeneralCommand.
Definition genWorkerCommand : list string := (getGeneralCommand ++ ["sleep infinity"])%list.

Definition shell_script (cmds : list string) : string :=
  foldl two_lines ("#!/bin/bash" +:+ nl) cmds.

(** The quoted names of the replicas of one type. *)
Definition node_names (clusterName : string) (entry : string * option ReplicaSpec) : res (list string) :=
  let! spec := deref entry.2 in
  let! totalReplica := deref (r_Replicas spec) in
  Ok ((λ i, dq +:+ GenGeneralName clusterName entry.1 (Itoa i) +:+ dq) <$> upto totalReplica).

Definition genPBSServerEntrypoint (kcluster : KubeCluster) : M string :=
  let entrypointShell := shell_script genServerCommand in
  entries ← range_of (sp_ClusterReplicaSpec (kc_Spec kcluster));
  nodeNames ← lift (result_foldl (λ nodeNames entry,
    let! names := node_names (om_Name (kc_Meta kcluster)) entry in
    Ok (nodeNames ++ names)%list) [] entries);
  let entrypointShell :=
    two_lines entrypointShell ("node_names=(" +:+ String.concat " " nodeNames +:+ ")") in
  let qmgrCreateNodeCmd := Replace1 qmgrCreateNodeCmds "{{.Pbsnodes}}" PBSNodes in
  let qmgrCreateNodeCmd := Replace1 qmgrCreateNodeCmd "{{.Qmgr}}" (PBSBin +:+ "/qmgr") in
  let entrypointShell := two_lines entrypointShell qmgrCreateNodeCmd in
  mret (two_lines entrypointShell "sleep infinity").

Definition genPBSWorkerEntrypoint : string := shell_script genWorkerCommand.

Definition isNeedReconcileConfigMap (configMap : ConfigMap) : bool :=
  match cm_Data configMap !! PBSConfKey with
  | None => true
  | Some _ => match cm_Data configMap !! PBSMomConfigKey with Some _ => false | None => true end
  end.

Definition ReconcileConfigMap (configMap : ConfigMap) : M ConfigMap :=
  if negb (isNeedReconcileConfigMap configMap) then mret configMap
  else
    kcluster ← get_kc;
    let configMap := cm_fill PBSServerConfKey (genServerPBSConf kcluster) configMap in
    let configMap := cm_fill PBSWorkerConfKey (genWorkerPBSConf kcluster) configMap in
    let configMap := cm_fill PBSMomConfigKey (genPBSMomConfig kcluster) configMap in
    configMap ← (match cm_Data configMap !! ServerEntrypoint with
                 | Some _ => mret configMap
                 | None =>
                     script ← genPBSServerEntrypoint kcluster;
                     mret (cm_put ServerEntrypoint script configMap)
                 end);
    mret (cm_fill WorkerEntrypoint genPBSWorkerEntrypoint configMap).

Definition UpdateConfigMap (configMap : ConfigMap) : M ConfigMap := mret configMap.

(** ** env.go *)

Definition setPodEnv (kcluster : KubeCluster) (podTemplateSpec : PodTemplateSpec)
    (defaultContainerName : string) (rtype : ReplicaType) (index : string) : PodTemplateSpec :=
  let env := [ env_value "PBS_SERVER_ADDRESS" (server_name kcluster);
               env_field "LOCAL_NAME" "metadata.name";
               env_field "LOCAL_IP" "status.podIP" ] in
  PodTemplateSpec_map_Spec (λ s,
    edit_containers defaultContainerName (Container_add_Env env)
      (edit_init_containers (Container_add_Env env) s)) podTemplateSpec.

(** ** initcontainer.go *)

Definition cp_command (dir : string) : string :=
  "if [ -d " +:+ dir +:+ " ] && [ -d " +:+ EmptyVolumeMountPathInInitContainer
  +:+ " ];then cp -r " +:+ dir +:+ " " +:+ EmptyVolumeMountPathInInitContainer +:+ ";fi".

(** At most one container is used; [initContainers[0]] panics without one. *)
Definition setInitContainer (kcluster : KubeCluster) (podTemplate : PodTemplateSpec)
    (rtype : ReplicaType) : res PodTemplateSpec :=
  let! initContainers := init_containers (server_name kcluster) in
  match take 1 initContainers with
  | [] => Panic
  | c :: rest =>
      let cp := [cp_command PBSProDir; cp_command PostGresDir] in
      let command :=
        if decide (rtype = SchemaReplicaTypeServer)
        then ["sh"; "-c"; String.concat " && " cp]
        else ["sh"; "-c"; String.concat " && " (cp ++ [String.concat " " (c_Command c)])%list] in
      Ok (PodTemplateSpec_map_Spec (λ s,
            PodSpec_set_InitContainers
              (ps_InitContainers s ++ Container_set_Command command c :: rest)%list s) podTemplate)
  end.

(** ** util.go *)

Definition setPodNetwork (template : PodTemplateSpec) : PodTemplateSpec :=
  PodTemplateSpec_map_Spec (PodSpec_set_DNSPolicy "ClusterFirstWithHostNet") template.

Definition setVolumes (template : PodTemplateSpec) (defaultContainerName : string)
    (rtype : ReplicaType) (configMapName : string) : PodTemplateSpec :=
  let own :=
    if decide (rtype = SchemaReplicaTypeServer) then
      [ mount configMapName PBSConf PBSServerConfKey false;
        mount configMapName ServerEntryPointMountPath ServerEntrypoint false ]
    else
      [ mount configMapName PBSConf PBSWorkerConfKey false;
        mount configMapName WorkerEntryPointMountPath WorkerEntrypoint false ] in
  PodTemplateSpec_map_Spec (λ s,
    let s := PodSpec_set_Volumes (ps_Volumes s ++
      [ {| vol_Name := configMapName; vol_Source := VolConfigMap configMapName 511 |};
        {| vol_Name := EmptyVolume; vol_Source := VolEmptyDir |} ])%list s in
    let s := edit_init_containers (Container_add_Mounts
      [ mount EmptyVolume EmptyVolumeMountPathInInitContainer "" false ]) s in
    edit_containers defaultContainerName (Container_add_Mounts (own ++
      [ mount configMapName PBSMonPrivMountPath PBSMomConfigKey true;
        mount EmptyVolume EmptyVolumeMountPathInMainContainer "" true ])%list) s) template.

Definition setSecurity (podTemplateSpec : PodTemplateSpec) (defaultContainerName : string) :
    PodTemplateSpec :=
  PodTemplateSpec_map_Spec (edit_containers defaultContainerName
    (Container_set_Security (Some {| sc_RunAsUser := Some 0; sc_Other := "" |}))) podTemplateSpec.

Definition setCmd (podTemplateSpec : PodTemplateSpec) (defaultContainerName : string)
    (rtype : ReplicaType) : PodTemplateSpec :=
  PodTemplateSpec_map_Spec (edit_containers defaultContainerName
    (Container_set_Command ["/bin/bash"; "-c";
       if decide (rtype = SchemaReplicaTypeServer) then ServerEntryPointMountPath
       else WorkerEntryPointMountPath])) podTemplateSpec.

(** ** pbspro_schema.go, second part *)

Definition SetClusterSpec (kcluster : KubeCluster) (podTemplate : PodTemplateSpec)
    (rtype : ReplicaType) (index : string) (configMap : ConfigMap) : M PodTemplateSpec :=
  let podTemplate := setPodEnv kcluster podTemplate GetDefaultContainerName rtype index in
  podTemplate ← lift (setInitContainer kcluster podTemplate rtype);
  let podTemplate :=
    setVolumes podTemplate GetDefaultContainerName rtype (om_Name (cm_Meta configMap)) in
  let podTemplate := setPodNetwork podTemplate in
  let podTemplate := setCmd podTemplate GetDefaultContainerName rtype in
  mret (setSecurity podTemplate GetDefaultContainerName).

(** The schema that main registers. *)
Definition NewpbsproClusterReconciler : ClusterSchemaReconciler := {|
  sr_Name := ClusterSchemaKind;
  sr_GetDefaultContainerName := GetDefaultContainerName;
  sr_ReconcileConfigMap := ReconcileConfigMap;
  sr_ValidateV1KubeCluster := ValidateV1KubeCluster;
  sr_UpdateConfigMap := UpdateConfigMap;
  sr_Default := Default;
  sr_SetClusterSpec := SetClusterSpec;
  sr_IsController := IsController;
  sr_UpdateClusterStatus := UpdateClusterStatus |}.
End pbspro.
