(* ===== verification/PbsproSpec.v ===== *)
(** * What the PBS Pro schema does

    Proofs about Pbspro.v: validation, the ports it gives every template, the config
    map it fills and fills again, and when a cluster fails. *)

From S2P Require Import Prelude K8s Api Defaults Names Status Expectations Core World Control.
From S2P Require Import Schema Controller Reconciler SchemaLib Pbspro.

Section pbspro.
Context {K : K8s} {ES : ExpStore} {AS : ApiServer} {RT : GoRuntime}.

(** ** Validation *)

Lemma validate_server_spec entries :
  NoDup entries.*1 →
  validate_server entries =
  match list_to_map (M := gmap string (option ReplicaSpec)) entries !! SchemaReplicaTypeServer with
  | None => Err (EText ("pbspro cluster need a replica named " +:+ SchemaReplicaTypeServer))
  | Some spec =>
      let! spec := deref spec in
      let! n := deref (r_Replicas spec) in
      if decide (n ≠ 1) then Err (EText "pbspro clusetr server replica must be 1") else Ok tt
  end.
Proof.
  induction entries as [|[rt spec] entries IH]; [done|]. rewrite fmap_cons. intros [Hrt Hnd]%NoDup_cons.
  simpl. case_decide as Hne.
  - rewrite lookup_insert_ne by done. by apply IH.
  - assert (rt = SchemaReplicaTypeServer) as -> by (destruct (decide (SchemaReplicaTypeServer = rt)); tauto || done).
    by rewrite lookup_insert_eq.
Qed.

(** ** Ports *)

Definition port_names : list string := ["serve-port"; "comm-port"; "sched-port"].

(** The main container has the three ports. *)
Definition has_ports (s : PodSpec) : Prop :=
  Forall (λ n, HasDefaultPort s (GetDefaultContainerIndex s GetDefaultContainerName) n = Ok true) port_names.

Lemma set_ports_ok s s' : set_ports s = Ok s' → has_ports s'.
Proof.
  unfold set_ports. set (i := GetDefaultContainerIndex s GetDefaultContainerName).
  destruct (ensure_port s i "serve-port" 15001) as [s1| |] eqn:H1; simpl; [|done..].
  destruct (ensure_port s1 i "comm-port" 17001) as [s2| |] eqn:H2; simpl; [|done..]. intros H3.
  apply ensure_port_ok in H1 as (N1 & P1 & K1). apply ensure_port_ok in H2 as (N2 & P2 & K2).
  apply ensure_port_ok in H3 as (N3 & P3 & K3).
  assert (GetDefaultContainerIndex s' GetDefaultContainerName = i) as Hi
    by (apply GetDefaultContainerIndex_names; congruence).
  unfold has_ports. rewrite Hi. repeat constructor; auto.
Qed.

Lemma set_ports_noop s : has_ports s → set_ports s = Ok s.
Proof.
  unfold has_ports, port_names. rewrite !Forall_cons. intros (H1 & H2 & H3 & _).
  unfold set_ports, ensure_port. rewrite H1. simpl. rewrite H2. simpl. by rewrite H3.
Qed.

(** ** The config map *)

Definition pbs_keys : list string :=
  [PBSServerConfKey; PBSWorkerConfKey; PBSMomConfigKey; ServerEntrypoint; WorkerEntrypoint].

Lemma cm_fill_same k v cm : is_Some (cm_Data cm !! k) → cm_fill k v cm = cm.
Proof. intros [u Hu]. unfold cm_fill. by rewrite Hu. Qed.

(** A config map that has its keys stays as it is. *)
Lemma filled_again cm w :
  Forall (λ k, is_Some (cm_Data cm !! k)) pbs_keys → ReconcileConfigMap cm w = (w, Ok cm).
Proof.
  unfold pbs_keys. rewrite !Forall_cons. intros (H1 & H2 & H3 & H4 & H5 & _).
  unfold ReconcileConfigMap. destruct (isNeedReconcileConfigMap cm); [|done]. cbn [negb].
  rewrite (bind_run _ _ w w (w_kc w)) by done. cbv zeta.
  rewrite !(cm_fill_same PBSServerConfKey), !(cm_fill_same PBSWorkerConfKey),
    !(cm_fill_same PBSMomConfigKey) by done.
  destruct H4 as [v ->]. rewrite (bind_run _ _ w w cm) by done. by rewrite cm_fill_same.
Qed.

(** What a reconciliation writes. *)
Lemma ReconcileConfigMap_data cm w w' cm' :
  isNeedReconcileConfigMap cm = true → ReconcileConfigMap cm w = (w', Ok cm') →
  ticks_rel w w' ∧ Forall (λ k, is_Some (cm_Data cm' !! k)) pbs_keys ∧
  (∀ k v, cm_Data cm !! k = Some v → cm_Data cm' !! k = Some v) ∧
  (∀ k, k ∉ pbs_keys → cm_Data cm' !! k = cm_Data cm !! k).
Proof.
  intros Hneed H. unfold ReconcileConfigMap in H. rewrite Hneed in H. cbn [negb] in H.
  apply bind_Ok in H as (k & w1 & Hk & H). injection Hk as <- <-. cbv zeta in H.
  set (cm1 := cm_fill PBSMomConfigKey _ _) in H.
  apply bind_Ok in H as (cm2 & w2 & H2 & H). injection H as <- <-.
  assert (ticks_rel w w2 ∧ ∃ script, cm2 = cm_fill ServerEntrypoint script cm1) as [Ht (script & ->)].
  { destruct (cm_Data cm1 !! ServerEntrypoint) as [v|] eqn:Hv.
    - injection H2 as <- <-. split; [by exists 0%nat|]. exists "". by rewrite cm_fill_same.
    - apply bind_Ok in H2 as (script & w3 & Hs & H2). injection H2 as <- <-. split.
      + assert (stable ticks_rel (genPBSServerEntrypoint (w_kc w))) as Hst
          by (unfold genPBSServerEntrypoint; ticks_auto).
        specialize (Hst w). by rewrite Hs in Hst.
      + exists script. unfold cm_fill. by rewrite Hv. }
  split; [done|]. unfold cm1. split_and!.
  - unfold pbs_keys. repeat constructor; rewrite !cm_fill_lookup; by eexists.
  - intros k v Hv. rewrite !cm_fill_lookup. repeat case_decide; subst; by rewrite ?Hv.
  - intros k Hk. unfold pbs_keys in Hk. rewrite !not_elem_of_cons in Hk. rewrite !cm_fill_lookup.
    by rewrite !decide_False by naive_solver.
Qed.

(** ** Properties *)

(** C26 (PBS Pro validation). The visit of the replica types in any order accepts a
    cluster exactly when it has a server with one replica. It is made before the
    defaults are filled in: a server whose number of replicas is not given, or
    whose spec is null, makes it panic. *)
Theorem pbs_validation {RTL : GoRuntimeLaws RT} (k : KubeCluster) :
  (ValidateV1KubeCluster k = Ok tt ↔
    ∃ s, sp_ClusterReplicaSpec (kc_Spec k) !! SchemaReplicaTypeServer = Some (Some s) ∧
         r_Replicas s = Some 1) ∧
  (ValidateV1KubeCluster k = Panic ↔
    ∃ o, sp_ClusterReplicaSpec (kc_Spec k) !! SchemaReplicaTypeServer = Some o ∧
         ∀ s, o = Some s → r_Replicas s = None).
Proof.
  unfold ValidateV1KubeCluster. rewrite validate_server_spec by apply NoDup_range.
  rewrite list_to_map_range. destruct (_ !! _) as [[s|]|]; simpl; [|split; split; naive_solver..].
  destruct (r_Replicas s) as [n|] eqn:E; simpl; [|split; split; naive_solver].
  case_decide; (split; split; [|naive_solver..]); naive_solver.
Qed.

(** C27 (the PBS Pro config map). When the config map needs it, a successful
    reconciliation makes no request, fills the five keys of a PBS Pro cluster, keeps
    every value that was there and adds no other key; another reconciliation then
    changes nothing. A config map without the key pbs.conf, which nothing ever
    writes, needs reconciling for ever. *)
Theorem pbs_configmap_filled (cm cm' : ConfigMap) (w w' : World) :
  isNeedReconcileConfigMap cm = true → ReconcileConfigMap cm w = (w', Ok cm') →
  w_log w' = w_log w ∧ w_kc w' = w_kc w ∧
  Forall (λ k, is_Some (cm_Data cm' !! k)) pbs_keys ∧
  (∀ k v, cm_Data cm !! k = Some v → cm_Data cm' !! k = Some v) ∧
  (∀ k, k ∉ pbs_keys → cm_Data cm' !! k = cm_Data cm !! k) ∧
  (∀ w1, ReconcileConfigMap cm' w1 = (w1, Ok cm')) ∧
  (cm_Data cm !! PBSConfKey = None → isNeedReconcileConfigMap cm' = true).
Proof.
  intros Hneed H. destruct (ReconcileConfigMap_data _ _ _ _ Hneed H) as (Ht & Hkeys & Hkeep & Hother).
  apply ticks_same in Ht as (_ & Hl & _ & _ & _ & Hk). split_and!; try done.
  - intros w1. by apply filled_again.
  - intros Hno. unfold isNeedReconcileConfigMap. by rewrite Hother, Hno by (unfold pbs_keys; set_solver).
Qed.

(** The ports of a PBS Pro cluster: when defaulting a PBS Pro cluster succeeds it
    makes no request, and the main container of every replica type has a serve, a
    comm and a sched port; a template that has them is left as it is. *)
Theorem pbs_default_ports {RTL : GoRuntimeLaws RT} (w w' : World) :
  Default w = (w', Ok tt) →
  w_log w' = w_log w ∧ kc_Status (w_kc w') = kc_Status (w_kc w) ∧
  (∀ rt o, specs w' !! rt = Some o → ∃ s, o = Some s ∧ has_ports (pt_Spec (r_Template s))) ∧
  (∀ s, has_ports s → set_ports s = Ok s).
Proof.
  intros H. unfold Default in H. apply bind_Ok in H as (k & w1 & Hk & H). injection Hk as <- <-.
  apply bind_Ok in H as (entries & w1 & He & H). injection He as <- <-. cbv zeta in H.
  apply bind_Ok in H as ([] & w1 & Hset & H). injection Hset as <-.
  match type of H with (range_of ?m ≫= _) ?w1 = _ =>
    assert ((kcluster ← get_kc; entries ← range_of (sp_ClusterReplicaSpec (kc_Spec kcluster));
             map_templates set_ports entries) w1 = (w', Ok tt)) as H' by exact H end.
  apply map_templates_range in H' as [(Hl & Hm & Hs) Hall]. split_and!; [done..| |apply set_ports_noop].
  intros rt o Ho. destruct (Hall rt o Ho) as (s & ps & _ & Hps & ->).
  eexists. split; [done|]. by eapply set_ports_ok.
Qed.

(** When a PBS Pro cluster fails. The status update of a replica type that has a
    status always succeeds and makes no request. It marks a cluster that had not
    failed as Failed exactly when the type is the server, one of its pods has failed and
    the cluster is not restarting; a server with an active pod counts as running, no
    longer as restarting. *)
Theorem pbs_status_failed_iff (rtype : ReplicaType) (spec : option ReplicaSpec)
    (rs : ReplicaStatus) (w : World) :
  let st := kc_Status (w_kc w) in
  conditions_wf st → IsFailed st = false → st_ReplicaStatuses st !! rtype = Some rs →
  ∃ w', UpdateClusterStatus rtype spec w = (w', Ok tt) ∧ w_log w' = w_log w ∧
    (IsFailed (kc_Status (w_kc w')) = true ↔
       rtype = SchemaReplicaTypeServer ∧ rs_Failed rs > 0 ∧
       (rs_Active rs > 0 ∨ ClusterRestarting ∉ (cc_Type <$> st_Conditions st))) ∧
    (IsFailed (kc_Status (w_kc w')) = true → is_Some (st_CompletionTime (kc_Status (w_kc w')))).
Proof.
  intros st Hwf Hf Hrs. unfold UpdateClusterStatus.
  rewrite (bind_run _ _ w w (w_kc w)) by done. rewrite (bind_run _ _ w w rs) by (unfold lift; fold st; by rewrite Hrs).
  set (c := bool_decide (rtype = SchemaReplicaTypeServer) && bool_decide (rs_Active rs > 0)).
  assert (c = true ↔ rtype = SchemaReplicaTypeServer ∧ rs_Active rs > 0) as Hciff
    by (unfold c; by rewrite andb_true_iff, !bool_decide_eq_true).
  assert (∃ w1, when c mark_running w = (w1, Ok tt) ∧ w_log w1 = w_log w ∧
    IsFailed (kc_Status (w_kc w1)) = false ∧
    (restarting_condition (st_Conditions (kc_Status (w_kc w1))) = None ↔
       c = true ∨ ClusterRestarting ∉ (cc_Type <$> st_Conditions st))) as (w1 & H1 & Hl1 & Hf1 & Hr1).
  { destruct c; simpl.
    - destruct (mark_running_ok w Hwf Hf) as (w1 & ? & ? & ? & _ & ?). exists w1. split_and!; [done..|].
      split; [by left|done].
    - exists w. split_and!; [done..|]. rewrite restarting_condition_None.
      split; [by right|intros [?|?]; done]. }
  rewrite (bind_run _ _ _ _ _ H1). clearbody c. clear H1.
  case_decide as Hfail.
  2: { exists w1. rewrite Hf1. split_and!; [done..| |done]. split; [done|]. intros (_ & ? & _). lia. }
  rewrite (bind_run _ _ w1 w1 (w_kc w1)) by done.
  destruct (restarting_condition (st_Conditions (kc_Status (w_kc w1)))) as [d|] eqn:Hres.
  { destruct (mark_restarting_ok d w1) as (w2 & H2 & Hl2 & Hf2). exists w2. rewrite Hf2, Hf1.
    split_and!; [done|congruence| |done]. split; [done|]. intros (Hrt & _ & Hor).
    assert (Some d = None); [|done]. apply Hr1. rewrite Hciff. tauto. }
  case_decide as Hskip.
  { exists w1. rewrite Hf1. split_and!; [done..| |done]. split; [done|]. tauto. }
  destruct (mark_failed_ok (failed_message (w_kc w1) (rs_Failed rs) rtype) w1) as (w2 & H2 & Hl2 & Hf2 & Ht2).
  exists w2. rewrite Hf2. split_and!; [done|congruence| |done]. split; [|done]. intros _.
  assert (rtype = SchemaReplicaTypeServer) as Hrt by (destruct (decide (rtype = SchemaReplicaTypeServer)); tauto).
  split_and!; [done..|]. destruct (proj1 Hr1 eq_refl) as [?|?]; [left; by apply Hciff|by right].
Qed.

(** ** The contract of a schema *)

Lemma pbs_schema_spec ic : SchemaSpec (NewpbsproClusterReconciler ic).
Proof.
  split; simpl.
  - intros. unfold SetClusterSpec. ticks_auto.
  - intros kc t rt i cm w w' t' H. unfold SetClusterSpec in H.
    apply bind_Ok in H as (t1 & w1 & H1 & H). injection H as _ <-. simpl.
    injection H1 as _ H1. unfold setInitContainer in H1.
    destruct (ic _) as [cs| |]; simpl in H1; [|done..]. destruct (take 1 cs); [done|].
    by injection H1 as <-.
Qed.
End pbspro.

Section pbspro_witnesses.
Import Sample MemServer SampleController.

Definition pbs_cluster : KubeCluster :=
  KubeCluster_set_Spec
    (ClusterSpec_set_ReplicaSpec {[ "Server" := Some (replica (Some 1) RestartPolicyNever);
                                    "Worker" := Some (replica (Some 2) RestartPolicyOnFailure) ]}
       (kc_Spec cluster)) cluster.
Definition pbs_world : World := w_set_kc pbs_cluster (world ∅).

Lemma pbs_validation_witness : ValidateV1KubeCluster pbs_cluster = Ok tt.
Proof.
  apply (pbs_validation (RTL := runtime_laws)). exists (replica (Some 1) RestartPolicyNever).
  split; reflexivity.
Defined.

Definition pbs_run : World * result error ConfigMap := ReconcileConfigMap configmap pbs_world.
Definition pbs_map : ConfigMap := match pbs_run.2 with Ok cm => cm | _ => configmap end.

Lemma pbs_configmap_filled_witness :
  w_log pbs_run.1 = [] ∧ isNeedReconcileConfigMap pbs_map = true ∧
  ReconcileConfigMap pbs_map pbs_world = (pbs_world, Ok pbs_map).
Proof.
  destruct (pbs_configmap_filled configmap pbs_map pbs_world pbs_run.1)
    as (Hl & _ & _ & _ & _ & Hagain & Hneed).
  - reflexivity.
  - by_vm.
  - exact (conj Hl (conj (Hneed eq_refl) (Hagain _))).
Defined.

Lemma pbs_default_ports_witness :
  Default pbs_world = ((Default pbs_world).1, Ok tt) ∧ w_log (Default pbs_world).1 = [].
Proof.
  split; [by_vm|].
  destruct (pbs_default_ports (RTL := runtime_laws) pbs_world (Default pbs_world).1) as (Hl & _).
  - by_vm.
  - exact Hl.
Defined.

Definition pbs_failed_status : ReplicaStatus :=
  {| rs_Active := 0; rs_Activating := 0; rs_Failed := 1; rs_Selector := "" |}.
Definition pbs_failed_world : World :=
  w_set_kc (KubeCluster_set_Status
    (Status_set_ReplicaStatuses {[ "Server" := pbs_failed_status ]} Sample.status) pbs_cluster) (world ∅).

Lemma pbs_status_failed_iff_witness :
  ∃ w', UpdateClusterStatus "Server" None pbs_failed_world = (w', Ok tt) ∧
    IsFailed (kc_Status (w_kc w')) = true.
Proof.
  destruct (pbs_status_failed_iff "Server" None pbs_failed_status pbs_failed_world) as (w' & H & _ & Hf & _).
  - by apply conditions_wf_nil.
  - reflexivity.
  - reflexivity.
  - exists w'. split; [exact H|]. apply Hf. split; [reflexivity|]. split; [reflexivity|].
    right. apply not_elem_of_nil.
Defined.
End pbspro_witnesses.
