(* ===== verification/Main.v ===== *)
(** * The controller that main sets up

    [setupController] of cmd/main.go: the gang scheduling set-up, the reconciler and
    the registration of the enabled cluster schemas. Every controller it gives keeps
    the contract that the proofs about reconciliations rely on. *)

From S2P Require Import Prelude K8s Api Defaults Names Status Expectations Core World Control.
From S2P Require Import Schema Controller Reconciler SchemaLib Slurm SlurmSpec Pbspro PbsproSpec.

Section main.
Context {K : K8s} {QF : QuantityFormat} {ES : ExpStore} {AS : ApiServer} {RT : GoRuntime}
  {RTL : GoRuntimeLaws RT} {GR : GoRand}.
Context (valid : gmap string string → bool) (lister : string → option Z)
  (slurm_init pbs_init : string → res (list Container)) (fuel : nat).

(** register_cluster_schema.go *)
Definition SupportedClusterSchemaReconciler : gmap string ClusterSchemaReconciler :=
  {[ Slurm.ClusterSchemaKind := NewSlurmClusterReconciler valid slurm_init fuel;
     Pbspro.ClusterSchemaKind := NewpbsproClusterReconciler pbs_init ]}.

(** The values of the flag, in the order they are given; [kinds] is the order of the
    visit of the supported schemas. *)
Definition parse_schemes (kinds flags : list string) : res (list string) :=
  result_foldl (EnabledSchemes_Set kinds) [] flags.

Definition gang_setup_of (gangSchedulerName : string) : ClusterController → ClusterController :=
  if EqualFold gangSchedulerName GangSchedulerVolcano then GenVolcanoSetupFunc
  else if decide (gangSchedulerName ≠ "") then GenSchedulerPluginsSetupFunc gangSchedulerName
  else GenNonGangSchedulerSetupFunc.

(** One enabled schema; an error ends the process. *)
Definition register_scheme (cc : ClusterController) (s : string) : res ClusterController :=
  match SupportedClusterSchemaReconciler !! s with
  | None => Err (EText "failed to set up controller")
  | Some schemaReconciler => RegisterSchema cc s schemaReconciler
  end.

Definition setupController (kinds enabledSchemes : list string) (gangSchedulerName : string) :
    res ClusterController :=
  let reconciler := NewReconciler valid lister (gang_setup_of gangSchedulerName) in
  let enabledSchemes :=
    if EnabledSchemes_Empty enabledSchemes then EnabledSchemes_FillAll kinds enabledSchemes
    else enabledSchemes in
  result_foldl register_scheme reconciler enabledSchemes.

(** ** Lemmas *)

Lemma gang_setup_of_ok name : gang_setup (gang_setup_of name).
Proof.
  unfold gang_setup, gang_setup_of. destruct (EqualFold _ _); [by left|].
  case_decide; [by right; right; exists name|by right; left].
Qed.

Lemma supported_spec t s : SupportedClusterSchemaReconciler !! t = Some s → SchemaSpec s.
Proof.
  unfold SupportedClusterSchemaReconciler.
  intros [[_ <-]|[_ [_ <-]%lookup_singleton_Some]]%lookup_insert_Some;
    [apply slurm_schema_spec|apply pbs_schema_spec].
Qed.

Lemma supported_dom t : is_Some (SupportedClusterSchemaReconciler !! t) ↔ t ∈ SupportedClusterSchemas.
Proof.
  unfold SupportedClusterSchemaReconciler, SupportedClusterSchemas, Slurm.ClusterSchemaKind,
    Pbspro.ClusterSchemaKind.
  rewrite lookup_insert_is_Some, lookup_singleton_is_Some, !elem_of_cons, elem_of_nil.
  destruct (decide (t = "slurm")), (decide (t = "pbspro")); subst; naive_solver.
Qed.

(** What is registered when the schemas of [es] are, after those of [m]. *)
Lemma register_all es cc :
  (∀ s, s ∈ es → s ∈ SupportedClusterSchemas) →
  (NoDup es ∧ (∀ s, s ∈ es → cc_SchemaReconcilerManager cc !! s = None) →
     ∃ m, result_foldl register_scheme cc es = Ok (cc_set_Schemas m cc) ∧
       ∀ t, m !! t = if decide (t ∈ es) then SupportedClusterSchemaReconciler !! t
                     else cc_SchemaReconcilerManager cc !! t) ∧
  (¬ (NoDup es ∧ ∀ s, s ∈ es → cc_SchemaReconcilerManager cc !! s = None) →
     ∃ e, result_foldl register_scheme cc es = Err e).
Proof.
  revert cc. induction es as [|s es IH]; intros cc Hsup.
  { split; [|intros Hn; destruct Hn; split; [constructor|by intros ? ?%elem_of_nil]].
    intros _. exists (cc_SchemaReconcilerManager cc). split; [by destruct cc|].
    intros t. by rewrite decide_False by apply not_elem_of_nil. }
  assert (is_Some (SupportedClusterSchemaReconciler !! s)) as [r Hr]
    by (apply supported_dom, Hsup; by left).
  simpl. unfold register_scheme at 1 3. rewrite Hr. unfold RegisterSchema.
  destruct (cc_SchemaReconcilerManager cc !! s) as [r'|] eqn:Hs.
  { split; [intros [_ Hn]; rewrite Hn in Hs; [done|by left]|]. intros _. by eexists. }
  simpl. set (cc1 := cc_set_Schemas _ cc).
  destruct (IH cc1) as [IH1 IH2]; [intros; apply Hsup; by right|].
  assert (NoDup (s :: es) ∧ (∀ t, t ∈ s :: es → cc_SchemaReconcilerManager cc !! t = None) ↔
          NoDup es ∧ (∀ t, t ∈ es → cc_SchemaReconcilerManager cc1 !! t = None)) as Hiff.
  { rewrite NoDup_cons. simpl. split.
    - intros [[Hni Hnd] Hall]. split; [done|]. intros t Ht.
      rewrite lookup_insert_ne by (by intros ->). apply Hall. by right.
    - intros [Hnd Hall]. split_and!; [|done|].
      + intros Hin. specialize (Hall s Hin). by rewrite lookup_insert_eq in Hall.
      + intros t [->|Ht]%elem_of_cons; [done|]. specialize (Hall t Ht).
        destruct (decide (s = t)) as [->|]; [done|]. by rewrite lookup_insert_ne in Hall. }
  rewrite Hiff. split; [|exact IH2]. intros H. destruct (IH1 H) as (m & -> & Hm).
  exists m. split; [done|]. intros t. rewrite Hm. simpl.
  destruct (decide (t = s)) as [->|Hne].
  - rewrite (decide_True (P := s ∈ s :: es)) by by left.
    case_decide; [done|]. by rewrite lookup_insert_eq, Hr.
  - rewrite lookup_insert_ne by done. repeat case_decide; try done; set_solver.
Qed.

(** A registered schema is a supported one; registering changes nothing else. *)
Lemma register_shape es cc cc' :
  result_foldl register_scheme cc es = Ok cc' →
  ∃ m, cc' = cc_set_Schemas m cc ∧
    ∀ t s, m !! t = Some s →
      SupportedClusterSchemaReconciler !! t = Some s ∨ cc_SchemaReconcilerManager cc !! t = Some s.
Proof.
  revert cc. induction es as [|e es IH]; intros cc; simpl.
  { intros [= <-]. exists (cc_SchemaReconcilerManager cc). split; [by destruct cc|auto]. }
  unfold register_scheme at 1.
  destruct (SupportedClusterSchemaReconciler !! e) as [r|] eqn:Hr; simpl; [|done].
  unfold RegisterSchema. destruct (cc_SchemaReconcilerManager cc !! e); simpl; [done|].
  intros (m & -> & Hm)%IH. exists m. split; [done|]. intros t s Hs.
  destruct (Hm t s Hs) as [?|Hn]; [auto|]. cbn in Hn.
  apply lookup_insert_Some in Hn as [[<- <-]|[_ ?]]; auto.
Qed.

Lemma setup_shape kinds es gangSchedulerName cc :
  setupController kinds es gangSchedulerName = Ok cc →
  ∃ m, cc = cc_set_Schemas m (NewReconciler valid lister (gang_setup_of gangSchedulerName)) ∧
    ∀ t s, m !! t = Some s → SupportedClusterSchemaReconciler !! t = Some s.
Proof.
  intros (m & -> & Hm)%register_shape. exists m. split; [done|]. intros t s Hs.
  destruct (Hm t s Hs) as [?|Hn]; [done|].
  destruct (gang_setup_of_ok gangSchedulerName) as [E|[E|[n E]]]; rewrite E in Hn; done.
Qed.

Lemma parse_schemes_supported kinds flags es acc :
  result_foldl (EnabledSchemes_Set kinds) acc flags = Ok es →
  (∀ s, s ∈ acc → s ∈ kinds) → ∀ s, s ∈ es → s ∈ kinds.
Proof.
  revert acc. induction flags as [|f flags IH]; intros acc; simpl; [by intros [= ->]|].
  unfold EnabledSchemes_Set at 1. destruct (list_find _ kinds) as [[i k]|] eqn:Hf; simpl; [|done].
  intros H Hacc. apply (IH _ H). intros s [?| ->%list_elem_of_singleton]%elem_of_app; [by apply Hacc|].
  apply list_find_Some in Hf as (Hk & _). by eapply list_elem_of_lookup_2.
Qed.

Lemma setup_contract (kinds flags es : list string) (gangSchedulerName : string) :
  kinds ≡ₚ SupportedClusterSchemas → parse_schemes kinds flags = Ok es →
  (is_Ok (setupController kinds es gangSchedulerName) = true ↔ NoDup es) ∧
  ∀ cc, setupController kinds es gangSchedulerName = Ok cc →
    ControllerSpec cc ∧
    ∀ t, is_Some (GetSchemaReconciler cc t) ↔
         t ∈ (if decide (es = []) then SupportedClusterSchemas else es).
Proof.
  intros Hk Hp.
  pose proof (parse_schemes_supported _ _ _ _ Hp (λ s (H : s ∈ []), False_ind _ (not_elem_of_nil s H))) as Hes.
  unfold setupController.
  set (all := if EnabledSchemes_Empty es then _ else _).
  assert (∀ s, s ∈ all → s ∈ SupportedClusterSchemas) as Hall.
  { unfold all, EnabledSchemes_FillAll. intros s. rewrite <- Hk.
    destruct (EnabledSchemes_Empty es); [|by apply Hes].
    intros [?|?]%elem_of_app; [by apply Hes|done]. }
  assert (NoDup all ↔ NoDup es) as Hnd.
  { unfold all, EnabledSchemes_Empty, EnabledSchemes_FillAll. case_bool_decide as He; [|done].
    apply nil_length_inv in He as ->. simpl. rewrite Hk.
    split; intros _; [constructor|by apply (bool_decide_unpack _); vm_compute]. }
  assert (∀ t, t ∈ all ↔ t ∈ (if decide (es = []) then SupportedClusterSchemas else es)) as Hin.
  { unfold all, EnabledSchemes_Empty, EnabledSchemes_FillAll. intros t. case_bool_decide as He.
    - apply nil_length_inv in He as ->. simpl. by rewrite Hk.
    - by rewrite decide_False by (by intros ->). }
  set (base := NewReconciler _ _ _).
  assert (cc_SchemaReconcilerManager base = ∅) as Hbase.
  { destruct (gang_setup_of_ok gangSchedulerName) as [E|[E|[n E]]]; unfold base; by rewrite E. }
  destruct (register_all all base Hall) as [H1 H2].
  assert (∀ s, s ∈ all → cc_SchemaReconcilerManager base !! s = None) as Hfree
    by (intros; by rewrite Hbase, lookup_empty).
  destruct (decide (NoDup all)) as [Hd|Hd].
  - destruct H1 as (m & -> & Hm); [done|]. split; [by rewrite <- Hnd|]. intros cc [= <-]. split.
    + apply NewReconciler_spec; [apply gang_setup_of_ok|]. intros t s. rewrite Hm.
      destruct (decide (t ∈ all)); [apply supported_spec|]. by rewrite Hbase, lookup_empty.
    + intros t. unfold GetSchemaReconciler. simpl. rewrite Hm, <- Hin, Hbase, lookup_empty.
      destruct (decide (t ∈ all)) as [Ht|]; [|split; [by intros [??]|done]].
      rewrite supported_dom. split; [done|]. intros _. by apply Hall.
  - destruct H2 as [e ->]; [tauto|]. split; [|done]. by rewrite <- Hnd.
Qed.

(** C19 (the controller main sets up). Whatever the scheme flags and the gang scheduler,
    in whatever order the supported schemas are visited: when the flags are
    accepted, setting up the controller succeeds exactly when no schema is named
    twice, be it in another case. The controller then keeps the contract that
    reconciliations rely on, and knows exactly the enabled schemas, all of them when
    no flag is given. *)
Theorem setupController_spec (kinds flags es : list string) (gangSchedulerName : string) :
  kinds ≡ₚ SupportedClusterSchemas → parse_schemes kinds flags = Ok es →
  (is_Ok (setupController kinds es gangSchedulerName) = true ↔ NoDup es) ∧
  ∀ cc, setupController kinds es gangSchedulerName = Ok cc →
    ControllerSpec cc ∧
    ∀ t, is_Some (GetSchemaReconciler cc t) ↔
         t ∈ (if decide (es = []) then SupportedClusterSchemas else es).
Proof. apply setup_contract. Qed.
End main.

Section main_witness.
Import Sample MemServer SampleRand SampleSlurm.

Lemma setupController_spec_witness :
  let setup := setupController (λ _, true) (λ _, None) (λ _, Ok []) (λ _, Ok []) 10
                 ["slurm"; "pbspro"] ["pbspro"; "slurm"] "Volcano" in
  is_Ok setup = true ∧ ∃ cc, setup = Ok cc ∧ ControllerSpec cc.
Proof.
  destruct (setupController_spec (RTL := runtime_laws) (λ _, true) (λ _, None) (λ _, Ok []) (λ _, Ok []) 10
    ["slurm"; "pbspro"] ["PBSpro"; "slurm"] ["pbspro"; "slurm"] "Volcano") as [Hok Hspec].
  - reflexivity.
  - reflexivity.
  - assert (is_Ok (setupController (λ _, true) (λ _, None) (λ _, Ok []) (λ _, Ok []) 10
                 ["slurm"; "pbspro"] ["pbspro"; "slurm"] "Volcano") = true) as H.
    { apply Hok. by apply (bool_decide_unpack _); vm_compute. }
    split; [exact H|]. destruct (setupController _ _ _ _ _ _ _ _) as [cc|e|]; [|discriminate H|discriminate H].
    exists cc. split; [reflexivity|]. exact (proj1 (Hspec cc eq_refl)).
Defined.
End main_witness.
