(* ===== verification/StatusInv.v ===== *)
(** * The conditions the API server stores

    The invariant of cluster conditions ([conditions_wf] of Status.v), carried
    through every function of a reconciliation: no status request ever sends
    conditions that are not well formed, so that the conditions the API server
    stores stay well formed however reconciliations and other clients alternate.

    [ServerStatuses] is what the server has to promise: that it stores and returns
    the statuses it is sent. The rules of the section [rules] follow the structure
    of a function; the lemmas after it are one line for each function. *)

From S2P Require Import Prelude K8s Api Defaults Names Status Expectations Core Quota World Control.
From S2P Require Import Schema Controller Reconciler Events SchemaLib Slurm SlurmSpec Pbspro PbsproSpec Main.

Section server.
Context {K : K8s} {ES : ExpStore} {AS : ApiServer}.

(** A status request sends well-formed conditions. *)
Definition wf_call (c : call) : Prop :=
  match c with
  | Call q =>
      match q with
      | UpdateKubeClusterStatus k => conditions_wf (kc_Status k)
      | _ => True
      end
  end.

(** [srv_ok]: every status the server stores is well formed. *)
Class ServerStatuses := {
  srv_ok : srv → Prop;
  srv_ok_serve {A} (q : ApiReq A) s : srv_ok s → wf_call (Call q) → srv_ok (serve q s).1;
  srv_ok_get ns n s s' k :
    srv_ok s → serve (GetKubeCluster ns n) s = (s', inr k) → conditions_wf (kc_Status k);
  srv_ok_update k s s' k' :
    srv_ok s → conditions_wf (kc_Status k) →
    serve (UpdateKubeClusterStatus k) s = (s', inr k') → conditions_wf (kc_Status k')
}.
End server.

(** ** The rules *)

Section rules.
Context {K : K8s} {ES : ExpStore} {AS : ApiServer} {RT : GoRuntime} {SS : ServerStatuses}.

Definition kc_ok (w : World) : Prop := conditions_wf (kc_Status (w_kc w)).

Definition wf_rel (w w' : World) : Prop :=
  srv_ok (w_srv w) → kc_ok w →
  srv_ok (w_srv w') ∧ kc_ok w' ∧ emits_rel wf_call w w'.

#[export] Instance wf_rel_preorder : PreOrder wf_rel.
Proof.
  split.
  - intros w Hs Hk. split_and!; [done..|reflexivity].
  - intros w1 w2 w3 H12 H23 Hs Hk. destruct (H12 Hs Hk) as (Hs2 & Hk2 & He).
    destruct (H23 Hs2 Hk2) as (Hs3 & Hk3 & He'). split_and!; [done..|]. by etransitivity.
Qed.

Definition keeps_wf {A} (m : M A) : Prop := stable wf_rel m.

Lemma keeps_wf_same {A} (m : M A) :
  (∀ w, w_srv (m w).1 = w_srv w ∧ w_log (m w).1 = w_log w ∧ w_kc (m w).1 = w_kc w) → keeps_wf m.
Proof.
  intros Hm w Hs Hk. destruct (Hm w) as (Hsrv & Hl & Hkc). unfold kc_ok. rewrite Hsrv, Hkc.
  split_and!; [done..|]. exists []. by rewrite Hl, app_nil_r.
Qed.

Lemma wf_record_event t r m : keeps_wf (record_event t r m).
Proof. by apply keeps_wf_same. Qed.
Lemma wf_record_events es : keeps_wf (record_events es).
Proof. by apply keeps_wf_same. Qed.
Lemma wf_inc c : keeps_wf (inc c).
Proof. by apply keeps_wf_same. Qed.
Lemma wf_now : keeps_wf now.
Proof. by apply keeps_wf_same. Qed.
Lemma wf_range_of {A} (m : gmap string A) : keeps_wf (range_of m).
Proof. by apply keeps_wf_same. Qed.
Lemma wf_expectations s f : keeps_wf (expectations s f).
Proof. apply keeps_wf_same. intros w. unfold expectations. by destruct (f _). Qed.

Lemma wf_ticks {A} (m : M A) : stable ticks_rel m → keeps_wf m.
Proof.
  intros Hm. apply keeps_wf_same. intros w.
  destruct (ticks_same _ _ (Hm w)) as (? & ? & ? & ? & ? & ?). done.
Qed.

(** A request that says nothing of a status. *)
Lemma wf_api {A} (q : ApiReq A) : wf_call (Call q) → keeps_wf (api q).
Proof.
  intros Hq w Hs Hk. pose proof (srv_ok_serve q (w_srv w) Hs Hq) as Hs'.
  pose proof (emits_api wf_call q Hq w) as He. unfold api in *.
  by destruct (serve q (w_srv w)) as [s [e|a]].
Qed.

(** What is read through the pointer is well formed. *)
Lemma wf_get_kc {A} (f : KubeCluster → M A) :
  (∀ k, conditions_wf (kc_Status k) → keeps_wf (f k)) → keeps_wf (get_kc ≫= f).
Proof. intros Hf w Hs Hk. exact (Hf (w_kc w) Hk w Hs Hk). Qed.

Lemma wf_lift {A B} (r : res A) (f : A → M B) :
  (∀ a, r = Ok a → keeps_wf (f a)) → keeps_wf (lift r ≫= f).
Proof.
  intros Hf w. unfold mbind, M_bind, lift. destruct r as [a|e|]; [by apply Hf|reflexivity..].
Qed.

Lemma wf_set_kc k : conditions_wf (kc_Status k) → keeps_wf (set_kc k).
Proof. intros Hk w Hs _. split_and!; [done..|]. exists []. by rewrite app_nil_r. Qed.

Lemma wf_modify_status f :
  (∀ st, conditions_wf st → conditions_wf (f st)) → keeps_wf (modify_status f).
Proof.
  intros Hf w Hs Hk. split_and!; [done|by apply Hf|]. exists []. by rewrite app_nil_r.
Qed.

Lemma wf_modify_other f :
  (∀ st, st_Conditions (f st) = st_Conditions st) → keeps_wf (modify_status f).
Proof. intros Hf. apply wf_modify_status. intros st. by apply conditions_wf_ext. Qed.

Lemma wf_update_condition t s r m : keeps_wf (update_condition t s r m).
Proof.
  apply (stable_bind wf_rel); [apply wf_now|intros t1].
  apply (stable_bind wf_rel); [apply wf_now|intros t2].
  apply wf_modify_status. intros st. by apply UpdateClusterConditions_wf.
Qed.
End rules.

(** The events of a watch do not touch the KubeCluster of a reconciliation: what they
    do to the server is all that matters. *)
Section server_only.
Context {K : K8s} {ES : ExpStore} {AS : ApiServer} {RT : GoRuntime} {SS : ServerStatuses}.

Definition srv_rel (w w' : World) : Prop :=
  srv_ok (w_srv w) → srv_ok (w_srv w') ∧ emits_rel wf_call w w'.

#[export] Instance srv_rel_preorder : PreOrder srv_rel.
Proof.
  split; [by intros w Hs|]. intros w1 w2 w3 H12 H23 Hs. destruct (H12 Hs) as [Hs2 He].
  destruct (H23 Hs2) as [Hs3 He']. split; [done|]. by etransitivity.
Qed.

Lemma srv_same {A} (m : M A) :
  (∀ w, w_srv (m w).1 = w_srv w ∧ w_log (m w).1 = w_log w) → stable srv_rel m.
Proof.
  intros Hm w Hs. destruct (Hm w) as [Hsrv Hl]. rewrite Hsrv. split; [done|].
  exists []. by rewrite Hl, app_nil_r.
Qed.

Lemma srv_expectations s f : stable srv_rel (expectations s f).
Proof. apply srv_same. intros w. unfold expectations. by destruct (f _). Qed.
Lemma srv_now : stable srv_rel now.
Proof. by apply srv_same. Qed.
Lemma srv_inc c : stable srv_rel (inc c).
Proof. by apply srv_same. Qed.

Lemma srv_api {A} (q : ApiReq A) : wf_call (Call q) → stable srv_rel (api q).
Proof.
  intros Hq w Hs. pose proof (srv_ok_serve q (w_srv w) Hs Hq) as Hs'.
  pose proof (emits_api wf_call q Hq w) as He. unfold api in *.
  by destruct (serve q (w_srv w)) as [s [e|a]].
Qed.
End server_only.

Create HintDb srv discriminated.
#[export] Hint Resolve srv_expectations srv_now srv_inc : srv.
Ltac srv_auto := repeat (first [solve [auto with srv nocore] | stable_step]).

Create HintDb wf discriminated.
#[export] Hint Resolve wf_record_event wf_record_events wf_inc wf_now wf_range_of wf_expectations
  wf_update_condition : wf.

Ltac wf_step :=
  match goal with
  | |- keeps_wf (get_kc ≫= _) => apply wf_get_kc; intros ? ?
  | |- keeps_wf (lift _ ≫= _) => apply wf_lift; intros ? ?
  | |- keeps_wf (api _) => apply wf_api; exact I
  | |- keeps_wf (modify_status _) => apply wf_modify_other; intros ?; done
  | |- keeps_wf (set_kc _) => apply wf_set_kc; done
  | |- keeps_wf _ => solve [auto with wf nocore]
  | |- keeps_wf ?m => change (stable wf_rel m); stable_step
  | |- stable wf_rel ?m => progress (change (keeps_wf m))
  end.
Ltac wf_auto := repeat wf_step.

(** ** The parts of the controller

    What the generic controller needs of its parts, and that the parts of
    [NewReconciler] and the schemas of main give it. *)

Section parts.
Context {K : K8s} {ES : ExpStore} {AS : ApiServer} {RT : GoRuntime} {SS : ServerStatuses}.

Class SchemaWf (s : ClusterSchemaReconciler) : Prop := {
  sw_ReconcileConfigMap cm : keeps_wf (sr_ReconcileConfigMap s cm);
  sw_UpdateConfigMap cm : keeps_wf (sr_UpdateConfigMap s cm);
  sw_Default : keeps_wf (sr_Default s);
  sw_SetClusterSpec kc t rt i cm : keeps_wf (sr_SetClusterSpec s kc t rt i cm);
  sw_UpdateClusterStatus rt spec : keeps_wf (sr_UpdateClusterStatus s rt spec)
}.

Class PodGroupWf (pg : PodGroupControlInterface) : Prop := {
  pw_Get ns name : keeps_wf (GetPodGroup pg ns name);
  pw_Delete ns name : keeps_wf (DeletePodGroup pg ns name);
  pw_Update g : keeps_wf (UpdatePodGroup pg g);
  pw_Create g : keeps_wf (CreatePodGroup pg g)
}.

Class ControllerWf (cc : ClusterController) : Prop := {
  cw_CreatePods ns t ref : keeps_wf (CreatePodsWithControllerRef (cc_PodControl cc) ns t ref);
  cw_DeletePod ns name : keeps_wf (DeletePod (cc_PodControl cc) ns name);
  cw_CreateServices ns s ref :
    keeps_wf (CreateServicesWithControllerRef (cc_ServiceControl cc) ns s ref);
  cw_DeleteService ns name : keeps_wf (DeleteService (cc_ServiceControl cc) ns name);
  cw_CreateConfigMap ns c ref :
    keeps_wf (CreateConfigMapWithControllerRef (cc_ConfigMapControl cc) ns c ref);
  cw_DeleteConfigMap ns name : keeps_wf (DeleteConfigMap (cc_ConfigMapControl cc) ns name);
  cw_podgroup pg : cc_PodGroupControl cc = Some pg → PodGroupWf pg;
  cw_schema t s : cc_SchemaReconcilerManager cc !! t = Some s → SchemaWf s;
  cw_GetCluster ns name :
    stable srv_rel (ci_GetClusterFromInformerCache (cc_Controller cc) ns name);
  cw_GetPods : keeps_wf (ci_GetPodsForCluster (cc_Controller cc));
  cw_GetConfigMap : keeps_wf (ci_GetConfigMapForCluster (cc_Controller cc));
  cw_GetServices : keeps_wf (ci_GetServicesForCluster (cc_Controller cc));
  cw_DeleteCluster : keeps_wf (ci_DeleteCluster (cc_Controller cc));
  cw_UpdateStatus : keeps_wf (ci_UpdateClusterStatusInApiServer (cc_Controller cc));
  cw_UpdateClusterStatus :
    keeps_wf (ci_UpdateClusterStatus (cc_Controller cc) (cc_SchemaReconcilerManager cc));
  cw_UpdateConfigMap c : keeps_wf (ci_UpdateConfigMapInApiServer (cc_Controller cc) c);
  cw_AddAfter key d : keeps_wf (wq_AddAfter (cc_WorkQueue cc) key d)
}.

#[export] Instance VolcanoControl_wf : PodGroupWf VolcanoControl.
Proof.
  split; intros; simpl; unfold Volcano_UpdatePodGroup, Volcano_CreatePodGroup; wf_auto.
Qed.

#[export] Instance SchedulerPluginsControl_wf name : PodGroupWf (SchedulerPluginsControl name).
Proof.
  split; intros; simpl; unfold SchedulerPlugins_UpdatePodGroup, SchedulerPlugins_CreatePodGroup;
    wf_auto.
Qed.

(** *** The reconciler *)

Lemma wf_KeyFunc : keeps_wf KeyFunc.
Proof. unfold KeyFunc. wf_auto. Qed.

Lemma wf_clear_kc : keeps_wf clear_kc.
Proof. unfold clear_kc. wf_auto. Qed.

Lemma wf_metrics_Deleted ns t : keeps_wf (metrics_DeletedclustersCounterInc ns t).
Proof. apply wf_inc. Qed.
Lemma wf_RestartedCounter ns t : keeps_wf (RestartedClustersCounterInc ns t).
Proof. apply wf_inc. Qed.
Lemma wf_FailedCounter ns t : keeps_wf (FailedClustersCounterInc ns t).
Proof. apply wf_inc. Qed.
End parts.

#[export] Hint Resolve wf_KeyFunc wf_clear_kc wf_metrics_Deleted wf_RestartedCounter
  wf_FailedCounter : wf.

Section reconciler.
Context {K : K8s} {ES : ExpStore} {AS : ApiServer} {RT : GoRuntime} {SS : ServerStatuses}.

(** The server's answer replaces the KubeCluster. *)
Lemma wf_UpdateClusterStatusInApiServer : keeps_wf UpdateClusterStatusInApiServer.
Proof.
  apply (stable_bind wf_rel); [apply wf_clear_kc|intros []].
  apply wf_get_kc. intros k Hwf.
  intros w Hs Hk. unfold mbind, M_bind, api.
  pose proof (srv_ok_serve (UpdateKubeClusterStatus k) (w_srv w) Hs Hwf) as Hs'.
  pose proof (srv_ok_update k (w_srv w)) as Hu.
  destruct (serve (UpdateKubeClusterStatus k) (w_srv w)) as [s [e|k']]; simpl in *.
  - split_and!; [done..|]. eexists. split; [done|by constructor].
  - split_and!; [done|by eapply Hu|]. eexists. split; [done|by constructor].
Qed.

Lemma wf_UpdateClusterStatus schemas :
  (∀ t s, schemas !! t = Some s → SchemaWf s) →
  keeps_wf (Reconciler.UpdateClusterStatus FakeWorkQueue schemas).
Proof.
  intros Hs. unfold Reconciler.UpdateClusterStatus. simpl. wf_auto.
  all: destruct (schemas !! _) as [s|] eqn:E; [|done].
  all: match goal with H : deref _ = Ok _ |- _ => injection H as <- end.
  all: apply (Hs _ _ E).
Qed.

Lemma wf_DeletePod ns name : keeps_wf (RealPodControl_DeletePod ns name).
Proof. unfold RealPodControl_DeletePod. wf_auto. Qed.
Lemma wf_DeleteService ns name : keeps_wf (RealServiceControl_DeleteService ns name).
Proof. unfold RealServiceControl_DeleteService. wf_auto. Qed.
Lemma wf_DeleteConfigMap ns name : keeps_wf (RealConfigMapControl_DeleteConfigMap ns name).
Proof. unfold RealConfigMapControl_DeleteConfigMap. wf_auto. Qed.

Lemma wf_DeleteCluster : keeps_wf DeleteCluster.
Proof. unfold DeleteCluster. wf_auto. Qed.

(** The controller of [NewReconciler], with schemas that keep statuses. *)
Lemma NewReconciler_wf valid lister setup schemas :
  gang_setup setup →
  (∀ t s, schemas !! t = Some s → SchemaWf s) →
  ControllerWf (cc_set_Schemas schemas (NewReconciler valid lister setup)).
Proof.
  intros Hg Hs.
  assert (cc_set_Schemas schemas (NewReconciler valid lister setup) =
    cc_set_Gang (cc_GangScheduling (NewReconciler valid lister setup))
      (cc_PodGroupControl (NewReconciler valid lister setup))
      (cc_set_Schemas schemas (NewReconciler valid lister id))) as ->
    by (by destruct Hg as [->|[->|[name ->]]]).
  split; simpl; try done; intros.
  - unfold RealPodControl_CreatePodsWithControllerRef, createPods. wf_auto.
  - apply wf_DeletePod.
  - unfold RealServiceControl_CreateServicesWithControllerRef, createServices. wf_auto.
  - apply wf_DeleteService.
  - unfold RealConfigMapControl_CreateConfigMapWithControllerRef, createConfigMap. wf_auto.
  - apply wf_DeleteConfigMap.
  - destruct Hg as [->|[->|[name ->]]]; simplify_eq/=; apply _.
  - by apply srv_api.
  - unfold GetPodsForCluster. wf_auto.
  - unfold GetConfigMapForCluster. wf_auto.
  - unfold GetServicesForCluster. wf_auto.
  - apply wf_DeleteCluster.
  - apply wf_UpdateClusterStatusInApiServer.
  - by apply wf_UpdateClusterStatus.
  - unfold UpdateConfigMapInApiServer. simpl. wf_auto.
Qed.
End reconciler.

(** *** The schemas *)

Section schemas.
Context {K : K8s} {QF : QuantityFormat} {ES : ExpStore} {AS : ApiServer} {RT : GoRuntime}
  {GR : GoRand} {SS : ServerStatuses}.

Lemma wf_map_templates f entries : keeps_wf (map_templates f entries).
Proof. unfold map_templates. wf_auto. Qed.

Lemma wf_set_completion : keeps_wf set_completion.
Proof. unfold set_completion. wf_auto. Qed.
Lemma wf_mark_running : keeps_wf mark_running.
Proof. unfold mark_running. wf_auto. Qed.
Lemma wf_mark_restarting c : keeps_wf (mark_restarting c).
Proof. unfold mark_restarting. wf_auto. Qed.
Lemma wf_mark_failed msg : keeps_wf (mark_failed msg).
Proof. pose proof wf_set_completion. unfold mark_failed. wf_auto. Qed.
End schemas.

#[export] Hint Resolve wf_map_templates wf_mark_running wf_mark_restarting wf_mark_failed : wf.

Section schema_parts.
Context {K : K8s} {QF : QuantityFormat} {ES : ExpStore} {AS : ApiServer} {RT : GoRuntime}
  {RTL : GoRuntimeLaws RT} {GR : GoRand} {SS : ServerStatuses}.
Context (valid : gmap string string → bool) (init_containers : string → res (list Container))
  (fuel : nat).

Lemma wf_random_port : keeps_wf (genSlurmRandomPort fuel).
Proof.
  unfold genSlurmRandomPort, GenRandomInt31n. apply (stable_bind wf_rel); [wf_auto|intros p].
  generalize fuel.
  clear fuel. intros n. induction n as [|n IH]; simpl; [apply (stable_fail wf_rel)|].
  unfold GenRandomInt31n. wf_auto.
Qed.

Lemma wf_setSlurmPorts p q : keeps_wf (setSlurmPorts p q).
Proof. unfold setSlurmPorts. wf_auto. Qed.

Lemma wf_genSlurmConf : keeps_wf (genSlurmConf fuel).
Proof.
  pose proof wf_random_port. pose proof wf_setSlurmPorts.
  assert (∀ p q, keeps_wf (createSlurmConf p q)).
  { intros. unfold createSlurmConf. wf_auto. apply wf_ticks, ticks_createSlurmConfNodes. }
  unfold genSlurmConf, getSlurmPortsFromSpec. wf_auto.
Qed.

Lemma wf_host_loop k entries acc : keeps_wf (host_loop valid k entries acc).
Proof.
  revert acc. induction entries as [|[rt spec] entries IH]; intros acc; simpl; wf_auto.
Qed.

Instance slurm_wf : SchemaWf (NewSlurmClusterReconciler valid init_containers fuel).
Proof.
  pose proof wf_setSlurmPorts. pose proof wf_genSlurmConf. split; simpl.
  - intros cm. assert (keeps_wf (genMungeKey fuel)) by apply wf_ticks, ticks_RandStr.
    unfold Slurm.ReconcileConfigMap, fill_configmap, getHostNetWorkNodeList. wf_auto.
  - intros cm. pose proof wf_host_loop. unfold Slurm.UpdateConfigMap. wf_auto.
  - unfold Slurm.Default. wf_auto.
  - intros. apply wf_ticks, (ss_SetClusterSpec_frame (SchemaSpec := slurm_schema_spec valid init_containers fuel)).
  - intros. unfold Slurm.UpdateClusterStatus. wf_auto.
Qed.

Instance pbs_wf : SchemaWf (NewpbsproClusterReconciler init_containers).
Proof.
  split; simpl.
  - intros cm. unfold Pbspro.ReconcileConfigMap, genPBSServerEntrypoint. wf_auto.
  - intros cm. unfold Pbspro.UpdateConfigMap. wf_auto.
  - unfold Pbspro.Default. wf_auto.
  - intros. apply wf_ticks, (ss_SetClusterSpec_frame (SchemaSpec := pbs_schema_spec init_containers)).
  - intros. unfold Pbspro.UpdateClusterStatus. wf_auto.
Qed.
End schema_parts.

(** ** The generic controller *)

Section controller.
Context {K : K8s} {ES : ExpStore} {AS : ApiServer} {RT : GoRuntime} {SS : ServerStatuses}.
Context (cc : ClusterController) {CW : ControllerWf cc}.

Lemma wf_schema_of t {B} (f : ClusterSchemaReconciler → M B) :
  (∀ s, SchemaWf s → keeps_wf (f s)) → keeps_wf (schema_of cc t ≫= f).
Proof.
  intros Hf. apply wf_lift. intros s. unfold GetSchemaReconciler.
  destruct (cc_SchemaReconcilerManager cc !! t) as [s'|] eqn:E; [|done]. intros [= <-].
  apply Hf. by eapply (cw_schema (ControllerWf := CW)).
Qed.

(** The schema a nil check has let through. *)
Lemma wf_nil_schema t {B} (f : ClusterSchemaReconciler → M B) :
  (∀ s, SchemaWf s → keeps_wf (f s)) → keeps_wf (lift (deref (GetSchemaReconciler cc t)) ≫= f).
Proof. apply wf_schema_of. Qed.

Lemma wf_pgctl {B} (f : PodGroupControlInterface → M B) :
  (∀ pg, PodGroupWf pg → keeps_wf (f pg)) → keeps_wf (lift (deref (cc_PodGroupControl cc)) ≫= f).
Proof.
  intros Hf. apply wf_lift. intros pg. destruct (cc_PodGroupControl cc) as [g|] eqn:E; [|done].
  intros [= <-]. apply Hf. by eapply (cw_podgroup (ControllerWf := CW)).
Qed.

Lemma wf_sr_SetExpectations s key a d : keeps_wf (sr_SetExpectations s key a d).
Proof. unfold sr_SetExpectations. wf_auto. Qed.
Lemma wf_sr_RaiseExpectations s key a d : keeps_wf (sr_RaiseExpectations s key a d).
Proof. apply wf_expectations. Qed.
Lemma wf_sr_CreationObserved s key : keeps_wf (sr_CreationObserved s key).
Proof. apply wf_expectations. Qed.
End controller.

#[export] Hint Resolve wf_sr_SetExpectations wf_sr_RaiseExpectations wf_sr_CreationObserved : wf.
#[export] Hint Resolve cw_CreatePods cw_DeletePod cw_CreateServices cw_DeleteService
  cw_CreateConfigMap cw_DeleteConfigMap cw_GetPods cw_GetConfigMap cw_GetServices
  cw_DeleteCluster cw_UpdateStatus cw_UpdateClusterStatus cw_UpdateConfigMap cw_AddAfter
  sw_ReconcileConfigMap sw_UpdateConfigMap sw_Default sw_SetClusterSpec sw_UpdateClusterStatus
  pw_Get pw_Delete pw_Update pw_Create : wf.
#[export] Hint Extern 1 (ControllerWf _) => eassumption : wf.
#[export] Hint Extern 1 (SchemaWf _) => eassumption : wf.
#[export] Hint Extern 1 (PodGroupWf _) => eassumption : wf.

Ltac cc_step :=
  match goal with
  | |- keeps_wf (schema_of _ _ ≫= _) => apply wf_schema_of; [eassumption|intros ? ?]
  | |- keeps_wf (lift (deref (GetSchemaReconciler _ _)) ≫= _) =>
      apply wf_nil_schema; [eassumption|intros ? ?]
  | |- keeps_wf (lift (deref (cc_PodGroupControl _)) ≫= _) =>
      apply wf_pgctl; [eassumption|intros ? ?]
  | |- _ => wf_step
  end.
Ltac cc_auto := repeat cc_step.

Section controller_wf.
Context {K : K8s} {ES : ExpStore} {AS : ApiServer} {RT : GoRuntime} {SS : ServerStatuses}.
Context (cc : ClusterController) {CW : ControllerWf cc}.

Lemma wf_CreateNewPod rt i spec role replicas cm :
  keeps_wf (CreateNewPod cc rt i spec role replicas cm).
Proof. unfold CreateNewPod. cc_auto. Qed.

Lemma wf_UpdateClusterReplicaStatuses st rt p st' :
  UpdateClusterReplicaStatuses st rt p = Ok st' → conditions_wf st → conditions_wf st'.
Proof.
  unfold UpdateClusterReplicaStatuses, bump. intros H. apply conditions_wf_ext.
  destruct (st_ReplicaStatuses st !! rt); simpl in H; repeat case_match; by simplify_eq/=.
Qed.

Lemma wf_reconcile_one_pod t rt spec n key i p :
  keeps_wf (reconcile_one_pod cc (GetSchemaReconciler cc t) rt spec n key i p).
Proof.
  unfold reconcile_one_pod. cc_auto. apply wf_modify_status. intros _ _.
  by eapply wf_UpdateClusterReplicaStatuses.
Qed.

Lemma wf_ReconcilePods rt spec pods cm : keeps_wf (ReconcilePods cc rt spec pods cm).
Proof.
  pose proof wf_CreateNewPod. pose proof wf_reconcile_one_pod.
  unfold ReconcilePods, reconcile_pod_slice. cc_auto.
Qed.

Lemma wf_ReconcileServices rt spec services : keeps_wf (ReconcileServices cc rt spec services).
Proof.
  unfold ReconcileServices, reconcile_service_slice, CreateNewService. cc_auto.
Qed.

Lemma wf_ReconcileConfigMap : keeps_wf (Controller.ReconcileConfigMap cc).
Proof. unfold Controller.ReconcileConfigMap, CreateNewConfigMap. cc_auto. Qed.

Lemma wf_SyncPodGroup f : keeps_wf (SyncPodGroup cc f).
Proof. unfold SyncPodGroup. cc_auto. Qed.

Lemma wf_terminate_pod_group : keeps_wf (terminate_pod_group cc).
Proof. unfold terminate_pod_group, cc_DeletePodGroup. cc_auto. Qed.

Lemma wf_DeletePodAndServices rp st pods : keeps_wf (DeletePodAndServices cc rp st pods).
Proof. unfold DeletePodAndServices, delete_pod_and_service. cc_auto. Qed.

Lemma wf_CleanupCluster rp st : keeps_wf (CleanupCluster cc rp st).
Proof. unfold CleanupCluster. cc_auto. Qed.

Lemma wf_CleanUpResources rp st pods : keeps_wf (CleanUpResources cc rp st pods).
Proof.
  pose proof wf_DeletePodAndServices. pose proof wf_CleanupCluster.
  pose proof wf_terminate_pod_group. unfold CleanUpResources. cc_auto.
Qed.

Lemma wf_ResetExpectations key replicas s : keeps_wf (ResetExpectations key replicas s).
Proof.
  unfold ResetExpectations. cc_auto. generalize (None : option error), (a.*1). intros errs rts.
  revert errs. induction rts as [|rt rts IH]; intros errs; simpl; unfold reset_type; cc_auto.
Qed.

Lemma wf_reconcile_suspended rp st pods : keeps_wf (reconcile_suspended cc rp st pods).
Proof. pose proof wf_CleanUpResources. unfold reconcile_suspended. cc_auto. Qed.

Lemma wf_exceeded_limit rp key pods n : keeps_wf (exceeded_limit cc rp key pods n).
Proof. unfold exceeded_limit. cc_auto. Qed.

Lemma wf_reconcile_exceeded rp msg pods : keeps_wf (reconcile_exceeded cc rp msg pods).
Proof.
  pose proof wf_DeletePodAndServices. pose proof wf_CleanupCluster.
  pose proof wf_terminate_pod_group. unfold reconcile_exceeded. cc_auto.
Qed.

Lemma wf_sync_gang rp n : keeps_wf (sync_gang cc rp n).
Proof. pose proof wf_SyncPodGroup. unfold sync_gang. cc_auto. Qed.

Lemma wf_reconcile_general s st pods services :
  SchemaWf s → keeps_wf (reconcile_general cc s st pods services).
Proof.
  intros Hs. pose proof wf_ReconcileConfigMap. pose proof wf_ReconcilePods.
  pose proof wf_ReconcileServices. unfold reconcile_general, reconcile_replicas. cc_auto.
Qed.

Lemma wf_ReconcileKubeCluster s : SchemaWf s → keeps_wf (ReconcileKubeCluster cc s).
Proof.
  intros Hs. pose proof wf_ResetExpectations. pose proof wf_CleanUpResources.
  pose proof wf_reconcile_suspended. pose proof wf_exceeded_limit.
  pose proof wf_reconcile_exceeded. pose proof wf_sync_gang. pose proof wf_reconcile_general.
  unfold ReconcileKubeCluster, reconcile_active, reconcile_resumed. cc_auto.
Qed.

(** Reconciling starts from whatever KubeCluster the last reconciliation left. *)
Lemma wf_needReconcile s : keeps_wf (needReconcile s).
Proof.
  unfold needReconcile. cc_auto. apply keeps_wf_same. intros w. done.
Qed.

Lemma wf_failed_validation p e : keeps_wf (failed_validation p e).
Proof. unfold failed_validation. cc_auto. Qed.

Lemma Reconcile_wf ns name w :
  srv_ok (w_srv w) →
  srv_ok (w_srv (Reconcile cc ns name w).1) ∧ emits_rel wf_call w (Reconcile cc ns name w).1.
Proof.
  intros Hs. rewrite Reconcile_run.
  pose proof (srv_ok_serve (GetKubeCluster ns name) (w_srv w) Hs I) as Hs1.
  pose proof (srv_ok_get ns name (w_srv w)) as Hget.
  assert (∀ s, emits_rel wf_call w (w_set_srv s (Call (GetKubeCluster ns name)) w)) as He1.
  { intros s. exists [Call (GetKubeCluster ns name)]. split; [done|by repeat constructor]. }
  destruct (serve (GetKubeCluster ns name) (w_srv w)) as [s [e|k]]; simpl in *; [by split|].
  specialize (Hget s k Hs eq_refl). set (w1 := w_set_srv s _ w). specialize (He1 s).
  unfold reconcile_found. erewrite (bind_run (set_kc k)) by done.
  match goal with |- context [(?m ≫= ?f) ?x] => assert (keeps_wf (m ≫= f)) as Hf end.
  { pose proof wf_failed_validation. pose proof wf_needReconcile. pose proof wf_ReconcileKubeCluster.
    cc_auto. }
  destruct (Hf (w_set_kc k w1) Hs1 Hget) as (Hs2 & _ & He2). split; [exact Hs2|]. by etransitivity.
Qed.
End controller_wf.

(** ** The system *)

Section system.
Context {K : K8s} {QF : QuantityFormat} {ES : ExpStore} {AS : ApiServer} {RT : GoRuntime}
  {RTL : GoRuntimeLaws RT} {GR : GoRand} {SS : ServerStatuses}.

(** What can happen next: a reconciliation, however it ends; an event of a watch; a
    request of another client, which may be any that is [allowed]; a restart of the
    process, which forgets the expectations. *)
Inductive sys_step (allowed : call → Prop) (cc : ClusterController) : World → World → Prop :=
| sys_reconcile ns name w : sys_step allowed cc w (Reconcile cc ns name w).1
| sys_created wt o w : sys_step allowed cc w (on_create cc wt o w).1
| sys_updated wt newObj oldObj w : sys_step allowed cc w (on_update cc wt newObj oldObj w).1
| sys_deleted wt o w : sys_step allowed cc w (on_delete cc wt o w).1
| sys_cluster_created k w : sys_step allowed cc w (onOwnerCreateFunc k w).1
| sys_other {A} (q : ApiReq A) w :
    allowed (Call q) →
    sys_step allowed cc w {| w_srv := (serve q (w_srv w)).1; w_log := w_log w;
                     w_events := w_events w; w_metrics := w_metrics w; w_exp := w_exp w;
                     w_kc := w_kc w; w_tick := w_tick w |}
| sys_restart w : sys_step allowed cc w (w_set_exp ∅ w).

Lemma setup_wf valid lister slurm_init pbs_init fuel kinds es gang cc :
  setupController valid lister slurm_init pbs_init fuel kinds es gang = Ok cc → ControllerWf cc.
Proof.
  intros H. destruct (setup_shape valid lister slurm_init pbs_init fuel kinds es gang cc H)
    as (m & -> & Hm).
  apply NewReconciler_wf; [apply gang_setup_of_ok|]. intros t s Hs. apply Hm in Hs.
  unfold SupportedClusterSchemaReconciler in Hs.
  apply lookup_insert_Some in Hs as [[_ <-]|[_ [_ <-]%lookup_singleton_Some]];
    [apply slurm_wf|apply pbs_wf].
Qed.

(** The events. *)
Lemma srv_events (cc : ClusterController) `{!ControllerWf cc} :
  (∀ wt o, stable srv_rel (on_create cc wt o)) ∧ (∀ wt o, stable srv_rel (on_delete cc wt o)) ∧
  (∀ wt o o', stable srv_rel (on_update cc wt o o')) ∧ (∀ k, stable srv_rel (onOwnerCreateFunc k)).
Proof.
  pose proof cw_GetCluster as Hget. split_and!.
  - intros [] o; simpl; unfold OnDependentCreateFunc, onDependentCreateFunc,
      OnDependentCreateFuncGeneric, sr_CreationObserved, onOwnerCreateFunc,
      metrics_CreatedclustersCounterInc, inc_labels; srv_auto.
  - intros [] o; simpl; unfold OnDependentDeleteFunc, onDependentDeleteFunc,
      OnDependentDeleteFuncGeneric, sr_DeletionObserved; srv_auto.
  - intros [] o o'; simpl; unfold OnDependentUpdateFunc, OnDependentUpdateFuncGeneric,
      owner_updated, resolveControllerRef; srv_auto; apply Hget.
  - intros k. unfold onOwnerCreateFunc, metrics_CreatedclustersCounterInc, inc_labels. srv_auto.
Qed.

(** C14 (the conditions the server stores are well formed). Whatever reconciliations,
    events, requests of other clients and restarts follow one another, and however each
    reconciliation ends, every status the controller of main sends to the API server
    has well-formed conditions: one of each type, never both Running and
    Restarting, never both failed and running. So the statuses the server
    stores stay well formed. *)
Theorem stored_conditions_wf (valid : gmap string string → bool) (lister : string → option Z)
    (slurm_init pbs_init : string → res (list Container)) (fuel : nat) (kinds es : list string)
    (gangSchedulerName : string) (cc : ClusterController) (w w' : World) :
  setupController valid lister slurm_init pbs_init fuel kinds es gangSchedulerName = Ok cc →
  srv_ok (w_srv w) → rtc (sys_step wf_call cc) w w' →
  srv_ok (w_srv w') ∧ ∃ l, w_log w' = (w_log w ++ l)%list ∧ Forall wf_call l.
Proof.
  intros Hcc%setup_wf Hs Hsteps. change (srv_ok (w_srv w') ∧ emits_rel wf_call w w').
  induction Hsteps as [w|w w1 w2 Hstep _ IH]; [by split|].
  assert (srv_ok (w_srv w1) ∧ emits_rel wf_call w w1) as [Hs1 He1].
  { destruct (srv_events cc) as (Hc & Hd & Hu & Ho).
    destruct Hstep as [ns name w|wt o w|wt o o' w|wt o w|k w|A q w Hq|w]; simpl.
    - by apply Reconcile_wf.
    - by apply Hc.
    - by apply Hu.
    - by apply Hd.
    - by apply Ho.
    - split; [by apply srv_ok_serve|]. exists []. by rewrite app_nil_r.
    - split; [done|]. exists []. by rewrite app_nil_r. }
  destruct (IH Hs1) as [Hs2 He2]. split; [done|]. by etransitivity.
Qed.
End system.

(** ** The server in memory *)

Section system_witness.
Import Sample MemServer SampleRand SampleSlurm.

Definition mem_ok (s : state) : Prop :=
  map_Forall (λ _ k, conditions_wf (kc_Status k)) (m_clusters s).

Lemma mem_ok_serve {A} (q : ApiReq A) s :
  mem_ok s → wf_call (Call q) → mem_ok (serve_mem q s).1.
Proof.
  intros Hs Hq. destruct q; simpl; unfold create, update, remove; repeat case_match; try done.
  - by apply map_Forall_insert_2.
  - by apply map_Forall_delete.
Qed.

Program Definition mem_statuses : ServerStatuses := {|
  srv_ok := mem_ok; srv_ok_serve A q s := mem_ok_serve q s |}.
Next Obligation.
  intros ns n s s' k Hs [= _ Hk]. unfold get in Hk. case_match eqn:E; [|done].
  injection Hk as <-. exact (Hs _ _ E).
Qed.
Next Obligation.
  intros k s s' k' Hs Hk H. simpl in H. unfold update in H. case_match; [|done].
  by injection H as _ <-.
Qed.

Lemma world_ok : mem_ok (w_srv (world ∅)).
Proof. apply map_Forall_singleton, conditions_wf_nil. reflexivity. Qed.

Lemma stored_conditions_wf_witness :
  let setup := setupController (λ _, true) (λ _, None) (λ _, Ok [container]) (λ _, Ok [container]) 5000
                 ["slurm"; "pbspro"] [] "" in
  ∃ cc, setup = Ok cc ∧ ∀ w', w' = (Reconcile cc "default" "c1" (w_set_exp ∅
      (Reconcile cc "default" "c1" (world ∅)).1)).1 → mem_ok (w_srv w').
Proof.
  intros setup. assert (is_Ok setup = true) as Hok by by_vm.
  destruct setup as [cc|e|] eqn:E; [|discriminate Hok|discriminate Hok].
  exists cc. split; [reflexivity|]. intros w' ->.
  refine (proj1 (stored_conditions_wf (SS := mem_statuses) (λ _, true) (λ _, None)
    (λ _, Ok [container]) (λ _, Ok [container]) 5000 ["slurm"; "pbspro"] [] "" cc (world ∅) _ E world_ok _)).
  eapply rtc_l; [apply sys_reconcile|]. eapply rtc_l; [apply sys_restart|].
  eapply rtc_l; [apply sys_reconcile|]. apply rtc_refl.
Defined.
End system_witness.
