(* ===== verification/Lifecycle.v ===== *)
(** * From a request to a reconciliation, and between two

    What [Reconcile] lets through: a KubeCluster that is gone, invalid, of an unknown
    schema or being deleted is not reconciled, and nothing but the read of it is
    requested. And what the change of the KubeCluster through its pointer does to the
    rest of the same reconciliation: writing the config map clears the UID that the
    owner references of the pods and services are made of. *)

From S2P Require Import Prelude K8s Api Defaults Names Status Expectations Core World Control.
From S2P Require Import Schema Controller Reconciler PodPlan ServicePlan.

(** ** The gates of a reconciliation *)

Section gates.
Context {K : K8s} {KL : K8sLaws K} {ES : ExpStore} {SL : ExpStoreLaws ES} {AS : ApiServer}
  {RT : GoRuntime}.

(** The event of a KubeCluster that is not valid. *)
Definition validation_event (prefix : string) (e : error) : Event := {|
  ev_Type := EventWarning;
  ev_Reason := NewReason KubeClusterKind ClusterFailedValidationReason;
  ev_Message := prefix +:+ " failed validation because " +:+ err_string e |}.

(** Where a reconciliation ends without having begun: nothing was requested after
    [w1], and these events recorded. *)
Definition stops (w1 : World) (events : list Event) (r : res unit) (o : World * res unit) : Prop :=
  o.2 = r ∧ w_log o.1 = w_log w1 ∧ w_srv o.1 = w_srv w1 ∧ w_exp o.1 = w_exp w1 ∧
  w_events o.1 = (w_events w1 ++ events)%list.

(** The stores of expectations that the calls of the repository can lead to. *)
Definition exp_reached (w : World) : Prop :=
  ∀ s, ∃ ops, exp_run ops NewControllerExpectations =
    Ok (default NewControllerExpectations (w_exp w !! s)).

(** The gate of the expectations is open. *)
Lemma needReconcile_run s w :
  exp_reached w → needReconcile s w = (w_next_tick w, Ok true).
Proof using KL SL.
  intros Hw. destruct (Hw (sr_Name s)) as [ops Hops].
  unfold needReconcile, mbind, M_bind, get_kc, range_of, schema_satisfied. simpl.
  by rewrite (gate_closed ops).
Qed.

Definition checked (w1 : World) (prefix : string) (v : res unit) (o : World * res unit)
    (pass : Prop) : Prop :=
  match v with
  | Ok _ => pass
  | Err e => stops w1 [validation_event prefix e] (Err e) o
  | Panic => stops w1 [] Panic o
  end.

(** C13 (the gates of a reconciliation). The KubeCluster is read first. When it is
    gone the request is done; another error of the read is returned. One that is not
    valid, or not valid for its schema, is reported by one warning event and an
    error; a type without a schema panics; one being deleted is left alone. In all
    these cases nothing else is requested and no expectation changes. Otherwise,
    and whatever is still expected, it is defaulted and reconciled. *)
Theorem Reconcile_gates (cc : ClusterController) (ns name : string) (w : World) :
  exp_reached w →
  let '(s, r) := serve (GetKubeCluster ns name) (w_srv w) in
  let w1 := w_set_srv s (Call (GetKubeCluster ns name)) w in
  let o := Reconcile cc ns name w in
  match r with
  | inl e => stops w1 [] (if api_IsNotFound e then Ok tt else Err (EApi e)) o
  | inr k =>
      checked w1 "KubeCLuster"
        (ValidateV1alphaCluster (range (w_tick w) (sp_ClusterReplicaSpec (kc_Spec k))) k) o
      match GetSchemaReconciler cc (sp_ClusterType (kc_Spec k)) with
      | None => stops w1 [] Panic o
      | Some s =>
          checked w1 "KubeCluster" (sr_ValidateV1KubeCluster s k) o
            (if decide (om_DeletionTimestamp (kc_Meta k) = None) then
               o = (_ ← sr_Default s; ReconcileKubeCluster cc s)
                     (w_set_kc (SetDefaults_KubeCluster k) (w_next_tick (w_next_tick w1)))
             else stops w1 [] (Ok tt) o)
      end
  end.
Proof.
  intros Hexp. pose proof (Reconcile_run cc ns name w) as Hrun.
  destruct (serve _ _) as [s [e|k]]; simpl in *; rewrite Hrun; clear Hrun.
  { by unfold stops; destruct (api_IsNotFound e); rewrite ?app_nil_r. }
  unfold reconcile_found, failed_validation, schema_of, checked, stops.
  rewrite (bind_run (set_kc k) _ _ _ tt eq_refl), (bind_run (range_of _) _ _ _ _ eq_refl). simpl.
  destruct (ValidateV1alphaCluster _ k) as [[]|e|]; [|by split_and!|by rewrite app_nil_r].
  erewrite (bind_run (try (lift (Ok tt)))) by done.
  destruct (GetSchemaReconciler cc _) as [sr|]; [|by rewrite app_nil_r].
  erewrite (bind_run (lift (deref (Some sr)))) by done.
  destruct (sr_ValidateV1KubeCluster sr k) as [[]|e|]; [|by split_and!|by rewrite app_nil_r].
  erewrite (bind_run (try (lift (Ok tt)))) by done.
  cbv beta iota. erewrite (bind_run (needReconcile sr)) by by apply needReconcile_run.
  destruct (om_DeletionTimestamp (kc_Meta k)) as [t|]; simpl; [by rewrite app_nil_r|]. done.
Qed.
End gates.

(** ** Pods without an owner *)

Section orphans.
Context {K : K8s} {KL : K8sLaws K} {ES : ExpStore} {AS : ApiServer} {RT : GoRuntime}
  {RTL : GoRuntimeLaws RT}.
Implicit Types (cc : ClusterController).

(** No KubeCluster is the controller of an object with these owners. *)
Definition unclaimable (refs : list OwnerReference) : Prop :=
  ∀ uid, uid ≠ "" → IsControlledBy refs uid = false.

Definition orphan_call (c : call) : Prop :=
  match c with
  | Call q =>
      match q with
      | CreatePod _ p => unclaimable (om_OwnerReferences (pod_Meta p))
      | CreateService _ s => unclaimable (om_OwnerReferences (svc_Meta s))
      | _ => True
      end
  end.

Lemma no_uid_unclaimable cc m : om_UID m = "" → unclaimable [GenOwnerReference cc m].
Proof using KL. clear RTL.
  intros Hm uid Huid. apply not_true_iff_false. rewrite IsControlledBy_spec.
  intros (r & Hr & <-). rewrite GetControllerOf_spec in Hr.
  simpl in Hr. injection Hr as <-. simpl in Huid. congruence.
Qed.

(** While the KubeCluster has no UID, it keeps none, and only such objects are
    created. *)
Definition orphan_rel (w w' : World) : Prop :=
  om_UID (kc_Meta (w_kc w)) = "" →
  om_UID (kc_Meta (w_kc w')) = "" ∧ emits_rel orphan_call w w'.

#[export] Instance orphan_rel_preorder : PreOrder orphan_rel.
Proof.
  split; [by intros w Hw|]. intros w1 w2 w3 H12 H23 Hw.
  destruct (H12 Hw) as [Hw2 He]. destruct (H23 Hw2) as [Hw3 He']. split; [done|]. by etransitivity.
Qed.

Lemma orphan_quiet {A} (m : M A) : stable quiet_rel m → stable orphan_rel m.
Proof.
  intros Hm w Hw. destruct (Hm w) as (Hl & Hk & _). rewrite Hk. split; [done|].
  exists []. by rewrite app_nil_r.
Qed.

Lemma orphan_run (T : KubeCluster → list call → res unit → Prop) (m : M unit) :
  (∀ w, run_spec (w_kc w) (w_log w) (T (w_kc w)) (m w)) →
  (∀ kc l r, om_UID (kc_Meta kc) = "" → T kc l r → Forall orphan_call l) →
  stable orphan_rel m.
Proof.
  intros Hm HT w Hw. destruct (Hm w) as ([Hk _] & l & Hl & Ht). rewrite Hk. split; [done|].
  exists l. split; [done|]. by eapply HT.
Qed.

Lemma orphan_access ns name l : Forall (pod_access ns name) l → Forall orphan_call l.
Proof. intros H. eapply Forall_impl; [exact H|]. by intros ? [->| ->]. Qed.
Lemma orphan_service_access ns name l : Forall (service_access ns name) l → Forall orphan_call l.
Proof. intros H. eapply Forall_impl; [exact H|]. by intros ? [->| ->]. Qed.

Lemma orphan_pod_slice cc `{!ControllerSpec cc} s rt spec n cm key slice :
  stable orphan_rel (reconcile_pod_slice cc s rt spec n cm key slice).
Proof.
  apply (orphan_run (λ kc, pod_trace cc kc rt spec n slice)).
  - intros w. by apply reconcile_pod_slice_run.
  - intros kc l r Hkc. unfold pod_trace, removal.
    destruct slice.2 as [|p [|p' ps]]; [|destruct (leaves _ _ _ _)|by intros ->].
    + intros [[-> _]|(p & -> & Hp)]; [done|]. constructor; [|done]. simpl.
      rewrite (po_owner _ _ _ _ _ Hp). by apply no_uid_unclaimable.
    + intros (l' & -> & Hl'). constructor; [done|]. by eapply orphan_access.
    + by intros ->.
Qed.

Lemma orphan_service_slice cc `{!ControllerSpec cc} s rt spec n slice :
  stable orphan_rel (reconcile_service_slice cc s rt spec n slice).
Proof.
  apply (orphan_run (λ kc, service_trace cc kc rt spec s n slice)).
  - intros w. by apply reconcile_service_slice_run.
  - intros kc l r Hkc. unfold service_trace.
    destruct slice.2 as [|p [|p' ps]]; [destruct s|case_decide|by intros [-> _]].
    + intros [[-> _]|(v & ports & -> & _ & Hs)]; [done|]. constructor; [|done]. simpl.
      rewrite (so_owner _ _ _ _ _ _ Hs). by apply no_uid_unclaimable.
    + by intros [-> _].
    + intros (l' & -> & Hl'). constructor; [done|]. by eapply orphan_service_access.
    + by intros [-> _].
Qed.

Lemma orphan_replicas cc `{!ControllerSpec cc} pods services cm :
  stable orphan_rel (reconcile_replicas cc pods services cm).
Proof.
  unfold reconcile_replicas, ReconcilePods, ReconcileServices.
  repeat first [apply orphan_pod_slice | apply orphan_service_slice
    | solve [apply orphan_quiet; quiet_auto] | stable_step]; done.
Qed.

(** C17 (writing the config map leaves the pods without an owner). Writing the
    config map to the API server clears the UID of the KubeCluster that the same
    reconciliation goes on with, whether the write succeeds or fails. Every pod and
    service created after it has an owner reference that is not one to the
    KubeCluster, so that no later reconciliation takes the pod for one of the
    cluster's. *)
Theorem configmap_update_orphans cc `{!ControllerSpec cc} (configMap cm : ConfigMap)
    (pods : list Pod) (services : list Service) (w : World) :
  let w1 := (UpdateConfigMapInApiServer RealConfigMapControl configMap w).1 in
  let w2 := (reconcile_replicas cc pods services cm w1).1 in
  om_UID (kc_Meta (w_kc w1)) = "" ∧
  ∃ l, w_log w2 = (w_log w1 ++ l)%list ∧
    ∀ ns p, Call (CreatePod ns p) ∈ l → ∀ meta, om_UID meta ≠ "" →
      KubeClusterControlledPodList [p] meta = [].
Proof.
  intros w1 w2.
  assert (om_UID (kc_Meta (w_kc w1)) = "") as Hw1.
  { unfold w1, UpdateConfigMapInApiServer, clear_kc, get_kc, set_kc, mbind, M_bind. simpl.
    unfold api. by destruct (serve _ _) as [s [e|c]]. }
  split; [done|]. destruct (orphan_replicas cc pods services cm w1 Hw1) as (_ & l & Hl & Hall).
  exists l. split; [done|]. intros ns p Hp meta Hmeta. rewrite Forall_forall in Hall.
  specialize (Hall _ Hp _ Hmeta). unfold KubeClusterControlledPodList.
  by rewrite filter_cons_False by (by rewrite Hall).
Qed.
End orphans.

(** ** Witnesses *)

Section lifecycle_witnesses.
Import Sample MemServer SampleController.
#[local] Existing Instance gmap_ExpStore_laws.

Lemma world_exp_reached : exp_reached (world ∅).
Proof. intros s. exists []. reflexivity. Qed.

Lemma Reconcile_gates_witness :
  (Reconcile controller "default" "c2" (world ∅)).2 = Ok tt ∧
  w_log (Reconcile controller "default" "c2" (world ∅)).1 = [Call (GetKubeCluster "default" "c2")].
Proof.
  destruct (Reconcile_gates (KL := K8s_example_laws) controller "default" "c2" (world ∅)
    world_exp_reached) as (H1 & H2 & _). exact (conj H1 H2).
Defined.

Definition updated_world : World :=
  (UpdateConfigMapInApiServer RealConfigMapControl configmap (world ∅)).1.

Definition creates_pod (c : call) : bool :=
  match c with Call q => match q with CreatePod _ _ => true | _ => false end end.

Lemma configmap_update_orphans_witness :
  existsb creates_pod (w_log (reconcile_replicas controller [] [] configmap updated_world).1) = true ∧
  om_UID (kc_Meta (w_kc updated_world)) = "".
Proof.
  split; [by_vm|].
  exact (proj1 (configmap_update_orphans (KL := K8s_example_laws) (RTL := runtime_laws) controller
    (ControllerSpec0 := controller_spec) configmap configmap [] [] (world ∅))).
Defined.
End lifecycle_witnesses.
