(* ===== verification/Fakes.v ===== *)
(** * The fake controls

    FakePodControl and FakeServiceControl of pkg/controller/control: they record
    what they are asked for instead of asking a server. Both have the same state
    and steps, for the templates of pods and of services. *)

From S2P Require Import Prelude K8s Api Expectations World Control.

Section fakes.
Context {K : K8s} {T : Type}.

Record FakeControl := {
  f_Templates : list T;
  f_ControllerRefs : list OwnerReference;
  f_DeleteName : list string;
  f_Patches : list string;
  f_Err : option error;
  f_CreateLimit : Z;
  f_CreateCallCount : Z
}.

Definition f_result (f : FakeControl) : res unit :=
  match f_Err f with Some err => Err err | None => Ok tt end.

Definition Fake_Patch (f : FakeControl) (data : string) : FakeControl * res unit :=
  ({| f_Templates := f_Templates f; f_ControllerRefs := f_ControllerRefs f;
      f_DeleteName := f_DeleteName f; f_Patches := (f_Patches f ++ [data])%list; f_Err := f_Err f;
      f_CreateLimit := f_CreateLimit f; f_CreateCallCount := f_CreateCallCount f |}, f_result f).

Definition Fake_Delete (f : FakeControl) (name : string) : FakeControl * res unit :=
  ({| f_Templates := f_Templates f; f_ControllerRefs := f_ControllerRefs f;
      f_DeleteName := (f_DeleteName f ++ [name])%list; f_Patches := f_Patches f; f_Err := f_Err f;
      f_CreateLimit := f_CreateLimit f; f_CreateCallCount := f_CreateCallCount f |}, f_result f).

(** The call is counted, whether or not it is within the limit. *)
Definition f_count (f : FakeControl) : FakeControl := {|
  f_Templates := f_Templates f; f_ControllerRefs := f_ControllerRefs f;
  f_DeleteName := f_DeleteName f; f_Patches := f_Patches f; f_Err := f_Err f;
  f_CreateLimit := f_CreateLimit f; f_CreateCallCount := int64 (f_CreateCallCount f + 1) |}.

Definition f_record (template : T) (refs : list OwnerReference) (f : FakeControl) : FakeControl := {|
  f_Templates := (f_Templates f ++ [template])%list;
  f_ControllerRefs := (f_ControllerRefs f ++ refs)%list;
  f_DeleteName := f_DeleteName f; f_Patches := f_Patches f; f_Err := f_Err f;
  f_CreateLimit := f_CreateLimit f; f_CreateCallCount := f_CreateCallCount f |}.

Definition limit_reached (f : FakeControl) : bool :=
  negb (bool_decide (f_CreateLimit f = 0)) && bool_decide (f_CreateCallCount f > f_CreateLimit f).

(** [kind] is "pod" or "service". *)
Definition limit_error (kind : string) (f : FakeControl) : error :=
  EText ("not creating " +:+ kind +:+ ", limit " +:+ Itoa (f_CreateLimit f)
         +:+ " already reached (create call " +:+ Itoa (f_CreateCallCount f) +:+ ")").

Definition Fake_Create (kind : string) (f : FakeControl) (template : T) : FakeControl * res unit :=
  let f := f_count f in
  if limit_reached f then (f, Err (limit_error kind f))
  else let f := f_record template [] f in (f, f_result f).

(** The reference is read after the template is recorded: nil panics then. *)
Definition Fake_CreateWithControllerRef (kind : string) (f : FakeControl) (template : T)
    (controllerRef : option OwnerReference) : FakeControl * res unit :=
  let f := f_count f in
  if limit_reached f then (f, Err (limit_error kind f))
  else
    match controllerRef with
    | None => (f_record template [] f, Panic)
    | Some r => let f := f_record template [r] f in (f, f_result f)
    end.

(** The error is kept. *)
Definition Fake_Clear (f : FakeControl) : FakeControl := {|
  f_Templates := []; f_ControllerRefs := []; f_DeleteName := []; f_Patches := [];
  f_Err := f_Err f; f_CreateLimit := 0; f_CreateCallCount := 0 |}.

(** ** The limit holds *)

Inductive fake_op :=
| FakePatch (data : string)
| FakeDelete (name : string)
| FakeCreate (kind : string) (template : T)
| FakeCreateRef (kind : string) (template : T) (ref : option OwnerReference).

Definition fake_exec (f : FakeControl) (o : fake_op) : FakeControl :=
  match o with
  | FakePatch data => (Fake_Patch f data).1
  | FakeDelete name => (Fake_Delete f name).1
  | FakeCreate kind t => (Fake_Create kind f t).1
  | FakeCreateRef kind t r => (Fake_CreateWithControllerRef kind f t r).1
  end.

(** The creations the calls ask for, in order. *)
Definition asked (o : fake_op) : list T :=
  match o with
  | FakeCreate _ t | FakeCreateRef _ t _ => [t]
  | _ => []
  end.

Record within (l : Z) (f : FakeControl) (ts : list T) : Prop := {
  wi_limit : f_CreateLimit f = l;
  wi_count : f_CreateCallCount f = Z.of_nat (length ts);
  wi_templates : f_Templates f = if decide (l = 0) then ts else take (Z.to_nat l) ts
}.

(** One more creation is asked for. *)
Lemma within_create l f ts t refs :
  0 ≤ l → within l f ts → in_int64 (Z.of_nat (length ts) + 1) →
  within l (if limit_reached (f_count f) then f_count f else f_record t refs (f_count f)) (ts ++ [t]).
Proof using Type.
  intros Hl [Hlim Hc Ht] Hlen.
  assert (f_CreateCallCount (f_count f) = Z.of_nat (length (ts ++ [t]))) as Hc'.
  { simpl. rewrite Hc, int64_id, length_app by done. simpl. lia. }
  unfold limit_reached. rewrite Hc'. change (f_CreateLimit (f_count f)) with (f_CreateLimit f).
  rewrite Hlim, length_app. simpl (length [t]).
  destruct (decide (l = 0)) as [->|Hne]; simpl.
  { split; simpl; [done|by rewrite <- Hc'|by rewrite Ht]. }
  rewrite (bool_decide_false (l = 0)) by done. simpl.
  case_bool_decide as Hgt; split; simpl; try done; try (by rewrite <- Hc'); rewrite Ht, decide_False by done.
  - rewrite take_app_le by lia. done.
  - rewrite !take_ge; [done|rewrite length_app; simpl; lia|lia].
Qed.

Lemma within_exec l f ts o :
  0 ≤ l → within l f ts → in_int64 (Z.of_nat (length ts) + 1) →
  within l (fake_exec f o) (ts ++ asked o).
Proof using Type.
  intros Hl Hw Hlen. destruct o as [d|n|k t|k t r]; simpl.
  1-2: rewrite app_nil_r; by destruct Hw.
  - pose proof (within_create l f ts t [] Hl Hw Hlen) as H. unfold Fake_Create.
    by destruct (limit_reached (f_count f)).
  - unfold Fake_CreateWithControllerRef.
    destruct r as [r|]; [pose proof (within_create l f ts t [r] Hl Hw Hlen) as H
                        |pose proof (within_create l f ts t [] Hl Hw Hlen) as H];
      by destruct (limit_reached (f_count f)).
Qed.

(** Whatever is called, in whatever order, a control that starts without templates
    and with the limit [l] holds the first [l] templates it was asked for, or all of
    them without a limit, and has counted every creation. *)
Theorem fake_limit l ops f :
  0 ≤ l → within l f [] → in_int64 (Z.of_nat (length ops)) →
  within l (foldl fake_exec f ops) (ops ≫= asked).
Proof using Type.
  intros Hl Hf Hlen.
  assert (∀ ts, within l f ts → in_int64 (Z.of_nat (length ts + length ops)) →
    within l (foldl fake_exec f ops) (ts ++ (ops ≫= asked))) as H; [|by apply (H [])].
  clear Hf Hlen. revert f. induction ops as [|o ops IH]; intros f ts Hw Hlen; simpl.
  { by rewrite app_nil_r. }
  rewrite app_assoc. simpl in Hlen. unfold in_int64 in *.
  assert (length (asked o) ≤ 1)%nat by (destruct o; simpl; lia).
  apply IH; [apply within_exec; [done..|unfold in_int64; lia]|rewrite length_app; lia].
Qed.
End fakes.

(** ** The two fakes *)

Section instances.
Context {K : K8s}.

Definition FakePodControl : Type := FakeControl (T := PodTemplateSpec).
Definition FakePodControl_CreatePods (f : FakePodControl) (namespace : string)
    (spec : PodTemplateSpec) : FakePodControl * res unit := Fake_Create "pod" f spec.
Definition FakePodControl_CreatePodsWithControllerRef (f : FakePodControl) (namespace : string)
    (spec : PodTemplateSpec) (controllerRef : option OwnerReference) : FakePodControl * res unit :=
  Fake_CreateWithControllerRef "pod" f spec controllerRef.
Definition FakePodControl_CreatePodsOnNode (f : FakePodControl) (nodeName namespace : string)
    (template : PodTemplateSpec) (controllerRef : option OwnerReference) :
    FakePodControl * res unit :=
  Fake_CreateWithControllerRef "pod" f template controllerRef.

Definition FakeServiceControl : Type := FakeControl (T := Service).
Definition FakeServiceControl_CreateServices (f : FakeServiceControl) (namespace : string)
    (service : Service) : FakeServiceControl * res unit := Fake_Create "service" f service.
Definition FakeServiceControl_CreateServicesWithControllerRef (f : FakeServiceControl)
    (namespace : string) (service : Service) (controllerRef : option OwnerReference) :
    FakeServiceControl * res unit :=
  Fake_CreateWithControllerRef "service" f service controllerRef.
Definition FakeServiceControl_PatchService (f : FakeServiceControl) (namespace name : string)
    (data : string) : FakeServiceControl * res unit := Fake_Patch f data.
Definition FakeServiceControl_DeleteService (f : FakeServiceControl) (namespace serviceID : string) :
    FakeServiceControl * res unit := Fake_Delete f serviceID.
Definition FakeServiceControl_Clear (f : FakeServiceControl) : FakeServiceControl := Fake_Clear f.
End instances.
