(* ===== verification/Converge.v ===== *)
(** * Two passes

    What the plan of one pass over the pods of a replica type (PodPlan.v) leads to:
    when a pass has succeeded and the pods it asked for exist, the next pass has
    nothing to ask for. *)

From S2P Require Import Prelude K8s Api Names Status Expectations Core World Control.
From S2P Require Import Schema Controller Reconciler PodPlan ServicePlan.

(** ** Filling the gaps of a replica type *)

Section fills.
Context {K : K8s} {A : Type} {HM : HasMeta A}.
Implicit Types (T new U : list A).

Definition has_type (rType : ReplicaType) (x : A) : Prop :=
  om_Labels (meta_of x) !! ReplicaTypeLabel = Some (ToLower rType).

(** [new] has exactly one object for each index below [n] of which [T] has none, and
    no other objects. *)
Record fills (rType : ReplicaType) (n : Z) (T new : list A) : Prop := {
  fi_count j : length (of_index j new) =
    if decide ((j < Z.to_nat n)%nat ∧ of_index j T = []) then 1%nat else 0%nat;
  fi_index x : x ∈ new → ∃ i, label_index x = Some (Z.of_nat i) ∧ (i < Z.to_nat n)%nat;
  fi_type x : x ∈ new → has_type rType x
}.

(** What a server that keeps the labels made of an object. *)
Definition same_labels (x y : A) : Prop := om_Labels (meta_of y) = om_Labels (meta_of x).

Lemma same_labels_refl (xs : list A) : Forall2 same_labels xs xs.
Proof. by induction xs; constructor. Qed.

Lemma same_labels_index x y : same_labels x y → label_index y = label_index x.
Proof. unfold label_index. by intros ->. Qed.

Lemma of_index_app i T U : of_index i (T ++ U) = (of_index i T ++ of_index i U)%list.
Proof. apply filter_app. Qed.

Lemma same_labels_count i new new' :
  Forall2 same_labels new new' → length (of_index i new') = length (of_index i new).
Proof.
  induction 1 as [|x y xs ys Hl _ IH]; [done|]. unfold of_index in *.
  rewrite !filter_cons, (same_labels_index x y Hl). by case_decide; simpl; rewrite IH.
Qed.

Lemma Forall2_elem {B} (R : A → B → Prop) xs ys y :
  Forall2 R xs ys → y ∈ ys → ∃ x, x ∈ xs ∧ R x y.
Proof.
  intros HF (i & Hi)%list_elem_of_lookup. destruct (Forall2_lookup_r _ _ _ _ _ HF Hi) as (x & Hx & HR).
  exists x. split; [by eapply list_elem_of_lookup_2|done].
Qed.

Lemma fills_stored rType n T new new' :
  Forall2 same_labels new new' → fills rType n T new → fills rType n T new'.
Proof.
  intros Hs [Hc Hi Ht]. split.
  - intros j. by rewrite (same_labels_count j _ _ Hs).
  - intros y Hy. destruct (Forall2_elem _ _ _ _ Hs Hy) as (x & Hx & Hl).
    rewrite (same_labels_index x y Hl). by apply Hi.
  - intros y Hy. destruct (Forall2_elem _ _ _ _ Hs Hy) as (x & Hx & Hl).
    unfold has_type. rewrite Hl. by apply Ht.
Qed.

(** How many objects of an index there are after the gaps have been filled. *)
Lemma fills_count rType n T new U j :
  fills rType n T new → U ≡ₚ (T ++ new)%list → (j < Z.to_nat n)%nat →
  length (of_index j U) = Nat.max 1 (length (of_index j T)).
Proof.
  intros [Hc _ _] HU Hj.
  assert (of_index j U ≡ₚ of_index j (T ++ new)%list) as -> by (unfold of_index; by rewrite HU).
  rewrite of_index_app, length_app, Hc.
  destruct (of_index j T) as [|x xs]; case_decide as Hd; simpl; [done|naive_solver|naive_solver|lia].
Qed.

(** A loop over the slices that asks for one object for each empty slice fills the
    gaps. *)
Section slices_fill.
Context (pick : call → option A) (rType : ReplicaType) (n : Z) (T : list A)
  (Tr : nat * list A → list call → Prop).
Hypothesis Tr_fills : ∀ i l, (i < Z.to_nat n)%nat → Tr (i, of_index i T) l →
  if decide (of_index i T = []) then
    ∃ x, omap pick l = [x] ∧ label_index x = Some (Z.of_nat i) ∧ has_type rType x
  else omap pick l = [].

Lemma slices_count k a ls :
  (a + k ≤ Z.to_nat n)%nat → Forall2 Tr ((λ i, (i, of_index i T)) <$> seq a k) ls →
  ∀ j, length (of_index j (omap pick (mjoin ls))) =
    if decide ((a ≤ j < a + k)%nat ∧ of_index j T = []) then 1%nat else 0%nat.
Proof using Tr_fills.
  revert a ls. induction k as [|k IH]; intros a ls Hk HF j; simpl in HF.
  { apply Forall2_nil_inv_l in HF as ->. simpl. rewrite decide_False; [done|lia]. }
  apply Forall2_cons_inv_l in HF as (l & ls' & Hl & HF & ->). simpl (mjoin _).
  rewrite omap_app, of_index_app, length_app, (IH (S a) ls') by (done || lia).
  specialize (Tr_fills a l ltac:(lia) Hl). destruct (decide (of_index a T = [])) as [Ha|Ha].
  - destruct Tr_fills as (x & -> & Hx & _). unfold of_index at 1. rewrite filter_cons, filter_nil, Hx.
    destruct (decide (Some (Z.of_nat a) = Some (Z.of_nat j))) as [Heq|Hne].
    + injection Heq as <-%Nat2Z.inj. rewrite decide_False by lia. by rewrite decide_True by (split; [lia|done]).
    + assert (a ≠ j) by congruence. simpl. repeat case_decide; naive_solver lia.
  - rewrite Tr_fills. simpl. destruct (decide (a = j)) as [<-|]; repeat case_decide; naive_solver lia.
Qed.

Lemma slices_objects k a ls x :
  (a + k ≤ Z.to_nat n)%nat → Forall2 Tr ((λ i, (i, of_index i T)) <$> seq a k) ls →
  x ∈ omap pick (mjoin ls) →
  (∃ i, label_index x = Some (Z.of_nat i) ∧ (i < Z.to_nat n)%nat) ∧ has_type rType x.
Proof using Tr_fills.
  intros Hk HF (c & Hc & Hx)%list_elem_of_omap. apply list_elem_of_join in Hc as (l & Hcl & (i & Hi)%list_elem_of_lookup).
  destruct (Forall2_lookup_r _ _ _ _ _ HF Hi) as (slice & Hsl & Htr).
  rewrite list_lookup_fmap in Hsl. apply fmap_Some in Hsl as (j & Hj & ->).
  apply lookup_seq in Hj as [-> Hj]. specialize (Tr_fills (a + i) l ltac:(lia) Htr).
  assert (x ∈ omap pick l) as Hxl by (apply list_elem_of_omap; eauto).
  case_decide; [|rewrite Tr_fills in Hxl; by apply elem_of_nil in Hxl].
  destruct Tr_fills as (y & Hy & Hyi & Ht). rewrite Hy in Hxl. apply list_elem_of_singleton in Hxl as ->.
  split; [exists (a + i)%nat; split; [done|lia]|done].
Qed.

Lemma slices_fill ls :
  max_index T ≤ n - 1 → Forall2 Tr (slices_of T n) ls → fills rType n T (omap pick (mjoin ls)).
Proof using Tr_fills.
  intros Hmax. unfold slices_of. rewrite Z.max_r by lia. intros HF. split.
  - intros j. rewrite (slices_count (Z.to_nat n) 0 ls) by (done || lia). repeat case_decide; naive_solver lia.
  - intros x Hx. by apply (slices_objects (Z.to_nat n) 0 ls x).
  - intros x Hx. by apply (slices_objects (Z.to_nat n) 0 ls x).
Qed.
End slices_fill.

Lemma max_index_below n T :
  1 ≤ n → (∀ x i, x ∈ T → label_index x = Some i → i < n) → max_index T ≤ n - 1.
Proof.
  intros Hn Hlt. destruct (max_index_bounds T 0) as (_ & _ & Hb). apply Hb; [lia|].
  intros x i Hx Hi. specialize (Hlt x i Hx Hi). lia.
Qed.

(** The slices of objects below [n], when every index has one. *)
Lemma slices_below (P : nat * list A → Prop) n U :
  1 ≤ n → (∀ x i, x ∈ U → label_index x = Some i → i < n) →
  (∀ j, (j < Z.to_nat n)%nat → P (j, of_index j U)) → Forall P (slices_of U n).
Proof.
  intros Hn Hlt HP. pose proof (max_index_below n U Hn Hlt). unfold slices_of.
  rewrite Z.max_r by lia. apply Forall_fmap, Forall_forall. intros j Hj%elem_of_seq.
  apply HP. lia.
Qed.
End fills.

(** ** The objects a list of requests asks for *)

Section created.
Context {K : K8s} {ES : ExpStore} {AS : ApiServer}.

Definition created_by (c : call) : option Pod :=
  match c with
  | Call q => match q with CreatePod _ p => Some p | _ => None end
  end.
Definition created (l : list call) : list Pod := omap created_by l.

Definition service_created_by (c : call) : option Service :=
  match c with
  | Call q => match q with CreateService _ s => Some s | _ => None end
  end.
Definition services_created (l : list call) : list Service := omap service_created_by l.

(** What the server made of a request for a pod: it kept the labels, and the pod
    has not failed. *)
Definition stored (p q : Pod) : Prop :=
  om_Labels (pod_Meta q) = om_Labels (pod_Meta p) ∧ pst_Phase (pod_Status q) ≠ PodFailed.

Lemma stored_labels ps qs : Forall2 stored ps qs → Forall2 same_labels ps qs.
Proof. intros H. eapply Forall2_impl; [exact H|]. by intros p q [Hl _]. Qed.
End created.

(** ** Pods and services of one type, over two passes *)

Section converge.
Context {K : K8s} {KL : K8sLaws K} {ES : ExpStore} {AS : ApiServer} {RT : GoRuntime}
  {RTL : GoRuntimeLaws RT}.
Implicit Types (cc : ClusterController) (kc : KubeCluster).

(** Pods in range that are not to be restarted, at most one for each index; and then
    exactly one. *)
Definition pods_stay (spec : ReplicaSpec) (n : Z) (T : list Pod) : Prop :=
  ∀ p i, p ∈ T → label_index p = Some i → 0 ≤ i < n ∧ leaves spec n i p = false.
Definition pods_fit spec n T : Prop :=
  pods_stay spec n T ∧ ∀ i, (length (of_index i T) ≤ 1)%nat.
Definition pods_settled spec n U : Prop :=
  pods_stay spec n U ∧ ∀ i, (i < Z.to_nat n)%nat → length (of_index i U) = 1%nat.

Lemma pods_stay_ok spec n T : n < 2 ^ 31 → pods_stay spec n T → ∀ p, p ∈ T → index_ok p.
Proof using Type. clear. intros Hn HT p Hp i Hi. destruct (HT p i Hp Hi). lia. Qed.

Lemma pods_fill cc kc rType spec n (T : list Pod) ls :
  1 ≤ n < 2 ^ 31 → pods_fit spec n T →
  Forall2 (λ slice l, pod_trace cc kc rType spec n slice l (Ok tt)) (slices_of T n) ls →
  fills rType n T (created (mjoin ls)).
Proof using KL. clear RTL.
  intros Hn [Hstay Hone]. apply slices_fill.
  - intros i l Hi Htr. unfold pod_trace in Htr. simpl in Htr. specialize (Hone i).
    destruct (of_index i T) as [|p [|? ?]] eqn:E; simpl in Htr, Hone; [| |lia].
    + rewrite decide_True by done. destruct Htr as [[_ ?]|(p & -> & Hp)]; [done|].
      exists p. split_and!; [done| |by eapply po_type].
      unfold label_index, ReplicaIndex. change (meta_of p) with (pod_Meta p).
      rewrite (po_index _ _ _ _ _ Hp). apply Atoi_Itoa. unfold in_int64. lia.
    + rewrite decide_False by done.
      assert (p ∈ of_index i T) as [Hip HpT]%list_elem_of_filter by (rewrite E; left).
      destruct (Hstay p _ HpT Hip) as [_ Hl]. rewrite Hl in Htr. simpl in Htr. by rewrite Htr.
  - apply max_index_below; [lia|]. intros p i Hp Hi. destruct (Hstay p i Hp Hi). lia.
Qed.

Lemma pods_settle rType spec n (T new new' U : list Pod) :
  pods_fit spec n T → fills rType n T new → Forall2 stored new new' →
  U ≡ₚ (T ++ new')%list → pods_settled spec n U.
Proof using Type. clear.
  intros [Hstay Hone] Hf Hst HU. pose proof (fills_stored _ _ _ _ _ (stored_labels _ _ Hst) Hf) as Hf'.
  split.
  - intros p i Hp Hi. rewrite HU in Hp. apply elem_of_app in Hp as [Hp|Hp]; [by apply Hstay|].
    destruct (fi_index _ _ _ _ Hf' p Hp) as (j & Hj & Hjn). rewrite Hi in Hj. injection Hj as ->.
    split; [lia|]. destruct (Forall2_elem _ _ _ _ Hst Hp) as (q & _ & _ & Hph).
    assert (0 ≤ Z.of_nat j < n) by lia. unfold leaves, restart_needed.
    rewrite !bool_decide_false by (done || lia). done.
  - intros j Hj. rewrite (fills_count _ _ _ _ _ j Hf' HU Hj). specialize (Hone j). lia.
Qed.

Lemma pods_settled_steady spec n (U : list Pod) :
  1 ≤ n → pods_settled spec n U → Forall (steady_slice spec n) (slices_of U n).
Proof using Type. clear.
  intros Hn [Hstay Hone]. apply slices_below; [done|intros p i Hp Hi; destruct (Hstay p i Hp Hi); lia|].
  intros j Hj. specialize (Hone j Hj). unfold steady_slice. simpl.
  destruct (of_index j U) as [|p [|? ?]] eqn:E; [done| |done].
  exists p. split; [done|].
  assert (p ∈ of_index j U) as [Hi Hp]%list_elem_of_filter by (rewrite E; left). by apply (Hstay p).
Qed.

(** Services below the number of replicas; and then at least one for each index. *)
Definition services_fit (n : Z) (T : list Service) : Prop :=
  ∀ s i, s ∈ T → label_index s = Some i → 0 ≤ i < n.
Definition services_settled (n : Z) (U : list Service) : Prop :=
  services_fit n U ∧ ∀ i, (i < Z.to_nat n)%nat → of_index i U ≠ [].

Lemma services_fit_ok n T : n < 2 ^ 31 → services_fit n T → ∀ s, s ∈ T → index_ok s.
Proof using Type. clear. intros Hn HT s Hs i Hi. destruct (HT s i Hs Hi). lia. Qed.

Lemma services_fill cc kc rType spec schema n (T : list Service) ls :
  1 ≤ n < 2 ^ 31 → services_fit n T →
  Forall2 (λ slice l, service_trace cc kc rType spec schema n slice l (Ok tt)) (slices_of T n) ls →
  fills rType n T (services_created (mjoin ls)).
Proof using KL. clear RTL.
  intros Hn Hfit. apply slices_fill.
  - intros i l Hi Htr. unfold service_trace in Htr. simpl in Htr.
    destruct (of_index i T) as [|s [|? ?]]; simpl in Htr.
    + rewrite decide_True by done. destruct schema as [sc|]; [|by destruct Htr].
      destruct Htr as [[_ ?]|(s & ports & -> & _ & Hs)]; [done|].
      destruct (service_labels_lookup kc rType (Itoa (Z.of_nat i))) as (H1 & H2 & _).
      exists s. unfold has_type, label_index, ReplicaIndex. change (meta_of s) with (svc_Meta s).
      rewrite (so_labels _ _ _ _ _ _ Hs). split_and!; [done| |done].
      rewrite H1. apply Atoi_Itoa. unfold in_int64. lia.
    + rewrite decide_False by done. rewrite decide_False in Htr by lia. by destruct Htr as [-> _].
    + rewrite decide_False by done. by destruct Htr as [-> _].
  - apply max_index_below; [lia|]. intros s i Hs Hi. destruct (Hfit s i Hs Hi). lia.
Qed.

Lemma services_settle rType n (T new new' U : list Service) :
  services_fit n T → fills rType n T new → Forall2 same_labels new new' →
  U ≡ₚ (T ++ new')%list → services_settled n U.
Proof using Type. clear.
  intros Hfit Hf Hst HU. pose proof (fills_stored _ _ _ _ _ Hst Hf) as Hf'. split.
  - intros s i Hs Hi. rewrite HU in Hs. apply elem_of_app in Hs as [Hs|Hs]; [by apply (Hfit s)|].
    destruct (fi_index _ _ _ _ Hf' s Hs) as (j & Hj & Hjn). rewrite Hi in Hj. injection Hj as ->. lia.
  - intros j Hj He. pose proof (fills_count _ _ _ _ _ j Hf' HU Hj) as Hc. rewrite He in Hc. simpl in Hc. lia.
Qed.

(** Nothing at all happens to services that are settled. *)
Lemma ReconcileServices_settled cc `{!ControllerSpec cc} rType spec n services w :
  r_Replicas spec = Some n → 1 ≤ n < 2 ^ 31 →
  services_settled n (typed_services services rType) →
  ReconcileServices cc rType (Some spec) services w = (w, Ok tt).
Proof.
  intros Hn Hrange [Hfit Hall].
  rewrite (ReconcileServices_loop cc rType spec n) by
    (done || (eapply services_fit_ok; [|exact Hfit]; lia)).
  assert (Forall (λ slice : nat * list Service, slice.2 ≠ [] ∧ Z.of_nat slice.1 < n)
    (slices_of (typed_services services rType) n)) as HF.
  { apply slices_below; [lia|intros s i Hs Hi; destruct (Hfit s i Hs Hi); lia|].
    intros j Hj. split; [by apply Hall|simpl; lia]. }
  induction HF as [|[i ss] xs [Hne Hlt] _ IH]; [done|]. simpl in *. erewrite bind_run; [exact IH|].
  unfold reconcile_service_slice. simpl. destruct ss as [|s [|? ?]]; [done| |done].
  by rewrite !bool_decide_false by lia.
Qed.

(** Pods that are settled are only counted. *)
Lemma ReconcilePods_settled cc `{!ControllerSpec cc} rType spec n pods cm w :
  r_Replicas spec = Some n → 1 ≤ n < 2 ^ 31 → pods_settled spec n (typed pods rType) →
  let o := ReconcilePods cc rType (Some spec) pods cm w in
  o.2 = Ok tt ∧ w_log o.1 = w_log w ∧ w_srv o.1 = w_srv w ∧ w_exp o.1 = w_exp w ∧ same_cluster (w_kc w) o.1 ∧
  kc_Status (w_kc o.1) = Status_set_ReplicaStatuses
    (<[rType := counted_status (mjoin (slices_of (typed pods rType) n).*2)]>
       (st_ReplicaStatuses (kc_Status (w_kc w)))) (kc_Status (w_kc w)).
Proof.
  intros Hn Hrange Hset.
  assert (∀ p, p ∈ typed pods rType → index_ok p) as Hok by (apply (pods_stay_ok spec n); [lia|apply Hset]).
  destruct (ReconcilePods_run cc (w_kc w) rType spec n pods cm w (w_log w)) as (Hkc & _); [done..|].
  simpl. revert Hkc. rewrite (ReconcilePods_loop cc rType spec n) by done. intros Hkc.
  by destruct (steady_loop cc (GetSchemaReconciler cc (sp_ClusterType (kc_Spec (w_kc w)))) rType spec n
    cm (GenExpectationPodsKey (cluster_key (kc_Meta (w_kc w))) rType) (kc_Status (w_kc w))
    (slices_of (typed pods rType) n) [] (init_statuses rType w)
    (pods_settled_steady spec n _ (proj1 Hrange) Hset)) as (? & ? & ? & ? & ?).
Qed.

(** Two passes settle a replica type. When the pods of a type are in range and
    not to be restarted, at most one for each index, and reconciling them succeeds,
    the pass has asked for exactly the missing pods. Once those exist, with the labels
    they were asked for and none of them failed, the next pass finds one pod for each
    index below the number of replicas, succeeds and requests nothing. *)
Theorem ReconcilePods_converges cc `{!ControllerSpec cc} (rType : ReplicaType) (spec : ReplicaSpec)
    (n : Z) (pods pods' new : list Pod) (cm cm' : ConfigMap) (w w1 w' : World) (l : list call) :
  r_Replicas spec = Some n → 1 ≤ n < 2 ^ 31 →
  (∀ p i, p ∈ typed pods rType → label_index p = Some i → 0 ≤ i < n ∧ leaves spec n i p = false) →
  (∀ i, length (of_index i (typed pods rType)) ≤ 1)%nat →
  ReconcilePods cc rType (Some spec) pods cm w = (w1, Ok tt) → w_log w1 = (w_log w ++ l)%list →
  Forall2 stored (created l) new → typed pods' rType ≡ₚ (typed pods rType ++ new)%list →
  (∀ i, (i < Z.to_nat n)%nat → length (of_index i (typed pods' rType)) = 1%nat) ∧
  let o := ReconcilePods cc rType (Some spec) pods' cm' w' in
  o.2 = Ok tt ∧ w_log o.1 = w_log w'.
Proof.
  intros Hn Hrange Hstay Hone Hrun Hlog Hnew Hperm.
  assert (pods_fit spec n (typed pods rType)) as Hfit by done.
  destruct (ReconcilePods_run cc (w_kc w) rType spec n pods cm w (w_log w))
    as (_ & l' & Hl' & ls & -> & Htr); [done|apply (pods_stay_ok spec n); [lia|apply Hfit]|done..|].
  rewrite Hrun in Hl', Htr. simpl in Hl', Htr. rewrite Hlog in Hl'. apply app_inv_head in Hl' as ->.
  apply loop_trace_Ok in Htr. pose proof (pods_fill _ _ _ _ _ _ _ Hrange Hfit Htr) as Hfill.
  pose proof (pods_settle _ _ _ _ _ _ _ Hfit Hfill Hnew Hperm) as Hset.
  split; [apply Hset|].
  by destruct (ReconcilePods_settled cc rType spec n pods' cm' w' Hn Hrange Hset) as (? & ? & _).
Qed.
End converge.

(** ** A witness: the two workers of the sample cluster *)

Section converge_witness.
Import Sample MemServer SampleController.

Definition first_pass : World * result error unit :=
  ReconcilePods controller "Worker" (Some worker_spec) [] configmap (world ∅).
Definition workers : list Pod := created (w_log first_pass.1).

Lemma first_pass_ok : first_pass = (first_pass.1, Ok tt).
Proof.
  assert (is_Ok first_pass.2 = true) as H by by_vm.
  destruct first_pass as [w [[]|e|]]; [done|discriminate H|discriminate H].
Qed.

Lemma workers_typed : typed workers "Worker" = workers.
Proof. by_vm. Qed.

Lemma workers_stored : Forall2 stored workers workers.
Proof.
  assert (forallb (λ p, negb (bool_decide (pst_Phase (pod_Status p) = PodFailed))) workers = true) as H
    by by_vm.
  revert H. generalize workers. intros ps. induction ps as [|p ps IH]; intros H; [constructor|].
  simpl in H. apply andb_true_iff in H as [Hp H]. constructor; [|by apply IH].
  split; [done|]. by apply negb_true_iff, bool_decide_eq_false in Hp.
Qed.

Lemma ReconcilePods_converges_witness :
  let o := ReconcilePods controller "Worker" (Some worker_spec) workers configmap (world ∅) in
  length workers = 2%nat ∧ o.2 = Ok tt ∧ w_log o.1 = [].
Proof.
  split; [by_vm|].
  refine (proj2 (ReconcilePods_converges (KL := K8s_example_laws) (RTL := runtime_laws) controller
    (ControllerSpec0 := controller_spec) "Worker" worker_spec 2 [] workers workers configmap configmap
    (world ∅) first_pass.1 (world ∅) (w_log first_pass.1) _ _ _ _ _ _ _ _)).
  - reflexivity.
  - split; reflexivity || discriminate.
  - intros p i Hp. by apply elem_of_nil in Hp.
  - intros i. apply Nat.le_0_l.
  - exact first_pass_ok.
  - reflexivity.
  - exact workers_stored.
  - by rewrite workers_typed.
Defined.
End converge_witness.
