(* ===== verification/Triples.v ===== *)
(** * Triples: functions that do not panic

    A program logic for the monad of World.v. [hoare P m Q E]: started in a world
    that satisfies [P], [m] does not panic; when it returns a value the value and the
    world after it satisfy [Q], and when it returns an error the world after it
    satisfies [E]. The proofs about the controller use one family of triples,
    [leads Φ Ψ Θ m Q]: [Φ], [Ψ] and [Θ] are what is known of the KubeCluster before, after
    a return and after an error, and the rest of the invariant, of the server and of
    the expectations, is the same throughout.

    [SafeServer] is what the API server has to promise: that the labels of the pods
    and services it lists, the kind of its pod groups and the KubeClusters it gives are
    such as the requests sent to it made them. *)

From S2P Require Import Prelude K8s Api Names Status Expectations Core World Control Schema.
From S2P Require Import Controller.

(** ** What the server promises *)

Section server.
Context {K : K8s} {AS : ApiServer}.
Context (admissible : KubeCluster → Prop) (group : PodGroup → Prop).

(** A request that leaves the labels, and the kind of pod groups, in order. *)
Definition safe_call (c : call) : Prop :=
  match c with
  | Call q =>
      match q with
      | CreatePod _ p => index_ok p
      | CreateService _ v => index_ok v
      | CreatePodGroupReq _ g | UpdatePodGroupReq _ g => group g
      | _ => True
      end
  end.

Class SafeServer := {
  sv_ok : srv → Prop;
  sv_serve {A} (q : ApiReq A) s : sv_ok s → safe_call (Call q) → sv_ok (serve q s).1;
  sv_cluster ns n s s' k :
    sv_ok s → serve (GetKubeCluster ns n) s = (s', inr k) → admissible k;
  sv_pods ns sel s s' l :
    sv_ok s → serve (ListPods ns sel) s = (s', inr l) → ∀ p, p ∈ l → index_ok p;
  sv_services ns sel s s' l :
    sv_ok s → serve (ListServices ns sel) s = (s', inr l) → ∀ v, v ∈ l → index_ok v;
  sv_podgroup ns n s s' g :
    sv_ok s → serve (GetPodGroupReq ns n) s = (s', inr g) → group g
}.
End server.

Arguments sv_ok {K AS admissible group SafeServer} _.

(** ** The logic *)

Section hoare.
Context {K : K8s} {ES : ExpStore} {AS : ApiServer} {RT : GoRuntime}.

Definition hoare {A} (P : World → Prop) (m : M A) (Q : A → World → Prop) (E : World → Prop) :
    Prop :=
  ∀ w, P w →
    match m w with
    | (w', Ok a) => Q a w'
    | (w', Err _) => E w'
    | (_, Panic) => False
    end.

Lemma hoare_ret {A} (P : World → Prop) (a : A) Q E :
  (∀ w, P w → Q a w) → hoare P (mret a) Q E.
Proof. intros HQ w Hw. by apply HQ. Qed.

Lemma hoare_fail {A} (P : World → Prop) e (Q : A → World → Prop) (E : World → Prop) :
  (∀ w, P w → E w) → hoare P (fail e) Q E.
Proof. intros HE w Hw. by apply HE. Qed.

(** The rule of sequences: what holds after the first part is known of the second. *)
Lemma hoare_bind {A B} P (m : M A) (f : A → M B) (R : A → World → Prop) Q (E E' : World → Prop) :
  hoare P m R E → (∀ w, E w → E' w) → (∀ a, hoare (R a) (f a) Q E') → hoare P (m ≫= f) Q E'.
Proof.
  intros Hm HE Hf w Hw. specialize (Hm w Hw). unfold mbind, M_bind.
  destruct (m w) as [w1 [a|e|]]; [by apply Hf|by apply HE|done].
Qed.

Lemma hoare_conseq {A} (P P' : World → Prop) (m : M A) (Q Q' : A → World → Prop)
    (E E' : World → Prop) :
  hoare P' m Q' E' → (∀ w, P w → P' w) → (∀ a w, Q' a w → Q a w) → (∀ w, E' w → E w) →
  hoare P m Q E.
Proof.
  intros Hm HP HQ HE w Hw. specialize (Hm w (HP w Hw)).
  destruct (m w) as [w1 [a|e|]]; [by apply HQ|by apply HE|done].
Qed.

Lemma hoare_try {A} P (m : M A) (Q : A → World → Prop) (E : World → Prop) :
  hoare P m Q E →
  hoare P (try m) (λ r w, match r with inr a => Q a w | inl _ => E w end) (λ _, False).
Proof.
  intros Hm w Hw. specialize (Hm w Hw). unfold try. by destruct (m w) as [w1 [a|e|]].
Qed.

(** A triple says that there is no panic. *)
Lemma hoare_no_panic {A} P (m : M A) Q E w : hoare P m Q E → P w → (m w).2 ≠ Panic.
Proof. intros Hm Hw. specialize (Hm w Hw). by destruct (m w) as [w1 [a|e|]]. Qed.
End hoare.

(** ** The invariant *)

Section leads.
Context {K : K8s} {KL : K8sLaws K} {ES : ExpStore} {SL : ExpStoreLaws ES} {AS : ApiServer}
  {RT : GoRuntime} {RTL : GoRuntimeLaws RT}.
Context {admissible : KubeCluster → Prop} {group : PodGroup → Prop}
  {SV : SafeServer admissible group}.
Implicit Types (Φ Ψ : KubeCluster → Prop).

(** Every store of expectations is one that calls in range have led to. *)
Definition exp_ok (w : World) : Prop :=
  ∀ s, ∃ ops, Forall op_in_range ops ∧
    exp_run ops NewControllerExpectations = Ok (default NewControllerExpectations (w_exp w !! s)).

Record inv Φ (w : World) : Prop := {
  inv_srv : sv_ok (w_srv w);
  inv_exp : exp_ok w;
  inv_kc : Φ (w_kc w)
}.

Definition leads {A} Φ Ψ Θ (m : M A) (Q : A → Prop) : Prop :=
  hoare (inv Φ) m (λ a w, inv Ψ w ∧ Q a) (inv Θ).

(** [Φ] is kept, however the function ends. *)
Notation keeps Φ m Q := (leads Φ Φ Φ m Q).
Notation safe Φ m := (leads Φ Φ Φ m (λ _, True)).

Definition anything (k : KubeCluster) : Prop := True.

Lemma inv_weaken Φ Ψ w : (∀ k, Φ k → Ψ k) → inv Φ w → inv Ψ w.
Proof. intros H [? ? ?]. split; auto. Qed.

Lemma leads_ret {A} Φ Ψ Θ (a : A) (Q : A → Prop) :
  (∀ k, Φ k → Ψ k) → Q a → leads Φ Ψ Θ (mret a) Q.
Proof. intros HΦ HQ. apply hoare_ret. intros w Hw. split; [by eapply inv_weaken|done]. Qed.

Lemma leads_fail {A} Φ Ψ Θ e (Q : A → Prop) : (∀ k, Φ k → Θ k) → leads Φ Ψ Θ (fail e) Q.
Proof. intros HΦ. apply hoare_fail. intros w. by apply inv_weaken. Qed.

(** A step that leads to [Φ'], in front of the rest. *)
Lemma leads_seq {A B} Φ Φ' Ψ Θ (m : M A) (f : A → M B) (P : A → Prop) (Q : B → Prop) :
  leads Φ Φ' Θ m P → (∀ a, P a → leads Φ' Ψ Θ (f a) Q) → leads Φ Ψ Θ (m ≫= f) Q.
Proof.
  intros Hm Hf. eapply hoare_bind; [exact Hm|done|]. intros a w [Hw Ha]. by apply Hf.
Qed.

Lemma leads_weaken {A} Φ Ψ Θ Φ' Ψ' Θ' (m : M A) (P Q : A → Prop) :
  leads Φ' Ψ' Θ' m P → (∀ k, Φ k → Φ' k) → (∀ k, Ψ' k → Ψ k) → (∀ k, Θ' k → Θ k) →
  (∀ a, P a → Q a) → leads Φ Ψ Θ m Q.
Proof.
  intros Hm HΦ HΨ HΘ HQ. eapply hoare_conseq; [exact Hm|intros w; by apply inv_weaken| |].
  - intros a w [Hw Ha]. split; [by eapply inv_weaken|auto].
  - intros w. by apply inv_weaken.
Qed.

(** A step that keeps [Φ], in front of the rest. *)
Lemma leads_bind {A B} Φ Ψ Θ (m : M A) (f : A → M B) (P : A → Prop) (Q : B → Prop) :
  keeps Φ m P → (∀ k, Φ k → Θ k) → (∀ a, P a → leads Φ Ψ Θ (f a) Q) → leads Φ Ψ Θ (m ≫= f) Q.
Proof. intros Hm HΦ Hf. eapply (leads_seq Φ Φ); [eapply leads_weaken; [exact Hm|done..]|exact Hf]. Qed.

(** A last step that keeps [Φ]. *)
Lemma leads_last {A} Φ Ψ Θ (m : M A) (Q : A → Prop) :
  keeps Φ m Q → (∀ k, Φ k → Ψ k) → (∀ k, Φ k → Θ k) → leads Φ Ψ Θ m Q.
Proof. intros Hm HΨ HΘ. by eapply (leads_weaken _ _ _ Φ Φ Φ); [exact Hm|..]. Qed.

(** What the KubeCluster has, as a parameter. *)
Lemma leads_ex {A X} (Φ : X → KubeCluster → Prop) Φ' Ψ Θ (m : M A) Q :
  (∀ k, Φ' k → ∃ x, Φ x k) → (∀ x k, Φ' k → Φ x k → leads (Φ x) Ψ Θ m Q) → leads Φ' Ψ Θ m Q.
Proof.
  intros Hx Hm w [Hs He Hk]. destruct (Hx _ Hk) as [x Hxk].
  apply (Hm x (w_kc w)); [done..|]. by split.
Qed.

Lemma keeps_try {A} Φ (m : M A) (Q : A → Prop) :
  keeps Φ m Q → keeps Φ (try m) (λ r, match r with inr a => Q a | inl _ => True end).
Proof.
  intros Hm. eapply hoare_conseq; [apply hoare_try, Hm|done| |done].
  intros [e|a] w Hw; [done|exact Hw].
Qed.

Lemma leads_when Φ Ψ Θ b m :
  (∀ k, Φ k → Ψ k) → (b = true → leads Φ Ψ Θ m (λ _, True)) → leads Φ Ψ Θ (when b m) (λ _, True).
Proof. intros HΦ Hm. destruct b; [by apply Hm|by apply leads_ret]. Qed.

Lemma leads_get_kc {B} Φ Ψ Θ (f : KubeCluster → M B) Q :
  (∀ k, Φ k → leads Φ Ψ Θ (f k) Q) → leads Φ Ψ Θ (get_kc ≫= f) Q.
Proof. intros Hf w Hw. exact (Hf (w_kc w) (inv_kc _ _ Hw) w Hw). Qed.

(** A result that is known of every run that ends well. *)
Lemma keeps_run {A} Φ (m : M A) (Q : A → Prop) :
  safe Φ m → (∀ w w' a, m w = (w', Ok a) → Q a) → keeps Φ m Q.
Proof.
  intros Hm HQ w Hw. specialize (Hm w Hw). specialize (HQ w).
  destruct (m w) as [w1 [a|e|]]; [|done..]. split; [apply Hm|by eapply HQ].
Qed.

(** A pure call, of which one knows that it does not panic. *)
Lemma leads_lift {A B} Φ Ψ Θ (r : res A) (f : A → M B) Q :
  (∀ k, Φ k → Θ k) → r ≠ Panic → (∀ a, r = Ok a → leads Φ Ψ Θ (f a) Q) →
  leads Φ Ψ Θ (lift r ≫= f) Q.
Proof.
  intros HΦ Hr Hf w Hw. unfold mbind, M_bind, lift.
  destruct r; [by apply Hf|by eapply inv_weaken|done].
Qed.

Lemma leads_deref {A B} Φ Ψ Θ (p : option A) a (f : A → M B) Q :
  p = Some a → leads Φ Ψ Θ (f a) Q → leads Φ Ψ Θ (lift (deref p) ≫= f) Q.
Proof. intros -> Hf w Hw. exact (Hf w Hw). Qed.

Lemma keeps_lift {A} Φ (r : res A) : r ≠ Panic → keeps Φ (lift r) (λ a, r = Ok a).
Proof. intros Hr w Hw. unfold lift. by destruct r. Qed.

Lemma leads_set_kc Φ Ψ Θ k : Ψ k → leads Φ Ψ Θ (set_kc k) (λ _, True).
Proof. intros Hk w [Hs He _]. by repeat split. Qed.

Lemma leads_modify_status Φ Ψ Θ f :
  (∀ k, Φ k → Ψ (KubeCluster_set_Status (f (kc_Status k)) k)) →
  leads Φ Ψ Θ (modify_status f) (λ _, True).
Proof. intros Hf w [Hs He Hk]. split; [|done]. split; [done..|]. by apply Hf. Qed.

(** *** Requests *)

Lemma keeps_api {A} Φ (q : ApiReq A) (Q : A → Prop) :
  safe_call group (Call q) →
  (∀ s s' a, sv_ok s → serve q s = (s', inr a) → Q a) →
  keeps Φ (api q) Q.
Proof.
  intros Hq HQ w [Hs He Hk]. pose proof (sv_serve _ _ q (w_srv w) Hs Hq) as Hs'.
  pose proof (HQ (w_srv w)) as HQ'. unfold api.
  destruct (serve q (w_srv w)) as [s [e|a]]; simpl in *; [by split|].
  split; [by split|by eapply HQ'].
Qed.

(** *** Calls on the expectations *)

Lemma exp_ok_exec (s : string) (o : exp_op) (w : World) :
  exp_ok w → op_in_range o →
  ∃ r, exp_exec o (default NewControllerExpectations (w_exp w !! s)) = Ok r ∧
    exp_ok (w_set_exp (<[s := r]> (w_exp w)) w).
Proof using KL SL.
  clear SV RTL. intros Hw Ho. destruct (Hw s) as (ops & Hops & Hrun).
  destruct (exp_run_refines ops NewControllerExpectations ∅ Hops represents_new) as (r1 & Hr1 & Hrep).
  rewrite Hrun in Hr1. injection Hr1 as <-.
  destruct (exp_exec_refines o _ _ Ho Hrep) as (r & Hr & _).
  exists r. split; [done|]. intros t. simpl. destruct (decide (s = t)) as [<-|Hne].
  - exists (ops ++ [o])%list. rewrite lookup_insert_eq. split.
    + apply Forall_app. by split; [|constructor].
    + simpl. by apply exp_run_snoc with (1 := Hrun).
  - rewrite lookup_insert_ne by done. apply Hw.
Qed.

Lemma safe_expectations Φ s o : op_in_range o → safe Φ (expectations s (exp_exec o)).
Proof using KL SL.
  intros Ho w [Hs He Hk]. unfold expectations.
  destruct (exp_ok_exec s o w He Ho) as (r & -> & He'). split; [by split|done].
Qed.

(** *** Steps that change nothing the invariant is about *)

Lemma safe_same {A} Φ (m : M A) :
  (∀ w, ∃ a, (m w).2 = Ok a ∧ w_srv (m w).1 = w_srv w ∧ w_exp (m w).1 = w_exp w ∧
     w_kc (m w).1 = w_kc w) → safe Φ m.
Proof.
  intros Hm w [Hs He Hk]. destruct (Hm w) as (a & Hr & Hsrv & Hexp & Hkc).
  destruct (m w) as [w1 r]. simpl in *. subst r. split; [|done]. split; [by rewrite Hsrv| |by rewrite Hkc].
  unfold exp_ok. by rewrite Hexp.
Qed.

Lemma safe_record_event Φ t r m : safe Φ (record_event t r m).
Proof. apply safe_same. intros w. by eexists. Qed.
Lemma safe_record_events Φ es : safe Φ (record_events es).
Proof. apply safe_same. intros w. by eexists. Qed.
Lemma safe_inc Φ c : safe Φ (inc c).
Proof. apply safe_same. intros w. by eexists. Qed.
Lemma safe_now Φ : safe Φ now.
Proof. apply safe_same. intros w. by eexists. Qed.

(** The entries a loop visits are those of the map. *)
Lemma leads_range_of {A B} Φ Ψ Θ (m : gmap string A) (f : list (string * A) → M B) Q :
  (∀ es, es ≡ₚ map_to_list m → leads Φ Ψ Θ (f es) Q) → leads Φ Ψ Θ (range_of m ≫= f) Q.
Proof using RTL.
  clear SL KL. intros Hf w [Hs He Hk]. apply Hf; [apply range_perm|by split].
Qed.

Lemma safe_sr_SetExpectations Φ s key a d :
  in_int64 a → in_int64 d → safe Φ (sr_SetExpectations s key a d).
Proof using KL SL.
  intros Ha Hd. eapply leads_bind; [apply safe_now|done|intros t _].
  by apply (safe_expectations Φ _ (OpSet t key a d)).
Qed.
Lemma safe_sr_RaiseExpectations Φ s key a d :
  in_int64 a → in_int64 d → safe Φ (sr_RaiseExpectations s key a d).
Proof using KL SL. intros Ha Hd. by apply (safe_expectations Φ _ (OpRaise key a d)). Qed.
Lemma safe_sr_CreationObserved Φ s key : safe Φ (sr_CreationObserved s key).
Proof using KL SL. by apply (safe_expectations Φ _ (OpCreationObserved key)). Qed.
Lemma safe_sr_DeletionObserved Φ s key : safe Φ (sr_DeletionObserved s key).
Proof using KL SL. by apply (safe_expectations Φ _ (OpDeletionObserved key)). Qed.

Lemma safe_KeyFunc Φ : safe Φ KeyFunc.
Proof.
  unfold KeyFunc. apply leads_get_kc. intros k _.
  destruct (MetaNamespaceKeyFunc _); [by apply leads_ret|by apply leads_fail].
Qed.

(** *** Loops *)

Lemma safe_for_each {A} Φ (xs : list A) (f : A → M unit) :
  (∀ x, x ∈ xs → safe Φ (f x)) → safe Φ (for_each xs f).
Proof.
  induction xs as [|x xs IH]; intros Hf; simpl; [by apply leads_ret|].
  eapply leads_bind; [apply Hf; left|done|]. intros _ _. apply IH. intros. apply Hf. by right.
Qed.

(** A loop that establishes something of each element. *)
Lemma leads_for_each {A} (Φ : list A → KubeCluster → Prop) Θ (xs : list A) (f : A → M unit) ys :
  (∀ ys x, x ∈ xs → leads (Φ ys) (Φ (ys ++ [x])%list) Θ (f x) (λ _, True)) →
  leads (Φ ys) (Φ (ys ++ xs)%list) Θ (for_each xs f) (λ _, True).
Proof.
  revert ys. induction xs as [|x xs IH]; intros ys Hf; simpl.
  { rewrite app_nil_r. by apply leads_ret. }
  eapply leads_seq; [apply Hf; left|]. intros _ _.
  rewrite (cons_middle x ys xs), app_assoc. apply IH. intros. apply Hf. by right.
Qed.
End leads.

Notation keeps Φ m Q := (leads Φ Φ Φ m Q).
Notation safe Φ m := (leads Φ Φ Φ m (λ _, True)).

(** ** Automation *)

Create HintDb safe discriminated.
#[export] Hint Resolve safe_record_event safe_record_events safe_inc safe_now keeps_try
  safe_KeyFunc safe_sr_CreationObserved safe_sr_DeletionObserved : safe.
#[export] Hint Extern 1 (leads _ _ _ (sr_SetExpectations _ _ _ _) _) =>
  apply safe_sr_SetExpectations; done : safe.
#[export] Hint Extern 1 (leads _ _ _ (sr_RaiseExpectations _ _ _ _) _) =>
  apply safe_sr_RaiseExpectations; done : safe.

(** One step of a function: [leads_step] leaves the pure calls and the writes of the
    KubeCluster to the proof. *)
Ltac leads_step :=
  lazymatch goal with
  | |- leads _ _ _ (get_kc ≫= _) _ => apply leads_get_kc; intros ? ?
  | |- leads _ _ _ (range_of _ ≫= _) _ => apply leads_range_of; intros ? ?
  | |- leads _ _ _ (lift (deref (Some _)) ≫= _) _ => eapply leads_deref; [reflexivity|]
  | |- leads _ _ _ (lift _ ≫= _) _ => fail
  | |- leads _ _ _ (_ ≫= _) _ =>
      eapply leads_bind; [solve [eauto with safe nocore]|done|intros ? ?]
  | |- leads _ _ _ (mret _) _ => apply leads_ret; [done|try done]
  | |- leads _ _ _ (fail _) _ => apply leads_fail; done
  | |- leads _ _ _ (when _ _) (λ _, True) => apply leads_when; [done|intros ?]
  | |- leads ?Φ ?Φ ?Φ (for_each _ _) (λ _, True) => apply safe_for_each; intros ? ?
  | |- leads _ _ _ (match ?x with _ => _ end) _ => destruct x eqn:?
  | |- leads _ _ _ (if ?b then _ else _) _ => destruct b eqn:?
  | |- leads _ _ _ _ _ => first
      [ solve [eauto with safe nocore]
      | eapply leads_last; [solve [eauto with safe nocore]|done..] ]
  end.
Ltac leads_auto := repeat leads_step.

(** A first part that is not a single call: nothing is known of its result. *)
Ltac leads_part := eapply (leads_bind _ _ _ _ _ (λ _, True)); [|done|intros ? _].
