(* ===== verification/Safety.v ===== *)
(** * No function of the controller panics

    The functions of the generic controller, in the triples of Triples.v. What they
    need of the KubeCluster is [ready]: a clean-up policy and the numbers of replicas are
    set, every template has a container, and the schema's own needs are met; while
    replicas are worked off also [running]: the spec does not change, and the types
    that have been worked off have an entry in the status. [ControllerSafe],
    [SchemaSafe] and [PodGroupSafe] are what the parts of the controller have to
    promise. *)

From S2P Require Import Prelude K8s Api Defaults Names Status Expectations Core Quota World Control.
From S2P Require Import Schema Controller Reconciler PodPlan Events Lifecycle Triples.

(** ** What is known of the KubeCluster *)

Section ready.
Context {K : K8s}.
Implicit Types (needs : gmap string (option ReplicaSpec) → Prop).

Definition replica_ready (o : option ReplicaSpec) : Prop :=
  ∃ spec n, o = Some spec ∧ r_Replicas spec = Some n ∧ n ≤ 2147483647 ∧
    ps_Containers (pt_Spec (r_Template spec)) ≠ [].

Record ready needs (t : ClusterType) (sp : ClusterSpec) : Prop := {
  rd_type : sp_ClusterType sp = t;
  rd_policy : is_Some (rp_CleanKubeNodePolicy (sp_RunPolicy sp));
  rd_replicas : map_Forall (λ _ o, replica_ready o) (sp_ClusterReplicaSpec sp);
  rd_needs : needs (sp_ClusterReplicaSpec sp)
}.

Definition is_ready needs (t : ClusterType) (k : KubeCluster) : Prop := ready needs t (kc_Spec k).

(** The replica types [done] have an entry in the status. *)
Definition running (sp : ClusterSpec) (done : list ReplicaType) (k : KubeCluster) : Prop :=
  kc_Spec k = sp ∧ ∀ rt, rt ∈ done → is_Some (st_ReplicaStatuses (kc_Status k) !! rt).

(** A change of the status that drops no entry. *)
Lemma running_status sp ts k st :
  running sp ts k →
  (∀ rt, is_Some (st_ReplicaStatuses (kc_Status k) !! rt) → is_Some (st_ReplicaStatuses st !! rt)) →
  running sp ts (KubeCluster_set_Status st k).
Proof. intros [Hs Hd] H. split; [done|]. intros rt Hrt. by apply H, Hd. Qed.

Lemma ready_status needs t k st : is_ready needs t k → is_ready needs t (KubeCluster_set_Status st k).
Proof. done. Qed.

Lemma ready_entry needs t sp es rt o :
  ready needs t sp → es ≡ₚ map_to_list (sp_ClusterReplicaSpec sp) → (rt, o) ∈ es →
  replica_ready o ∧ sp_ClusterReplicaSpec sp !! rt = Some o.
Proof.
  intros Hr Hp Hin. rewrite Hp in Hin. apply elem_of_map_to_list in Hin.
  split; [by apply (rd_replicas _ _ _ Hr rt)|done].
Qed.
End ready.

(** ** The parts of the controller *)

Section parts.
Context {K : K8s} {ES : ExpStore} {AS : ApiServer} {RT : GoRuntime}.
Context {admissible : KubeCluster → Prop} {group : PodGroup → Prop}
  {SV : SafeServer admissible group}.

(** A schema: what it asks of a valid KubeCluster, and what it needs of a ready one. *)
Class SchemaSafe (admits : KubeCluster → Prop)
    (needs : gmap string (option ReplicaSpec) → Prop) (s : ClusterSchemaReconciler) : Prop := {
  sf_validate k :
    admits k → map_Forall (λ _ o, is_Some o) (sp_ClusterReplicaSpec (kc_Spec k)) →
    sr_ValidateV1KubeCluster s k ≠ Panic;
  sf_needs k : sr_ValidateV1KubeCluster s k = Ok tt → needs (sp_ClusterReplicaSpec (kc_Spec k));
  sf_needs_dom m m' : dom m = dom m' → needs m → needs m';
  sf_Default t : safe (is_ready needs t) (sr_Default s);
  sf_ReconcileConfigMap t cm : safe (is_ready needs t) (sr_ReconcileConfigMap s cm);
  sf_SetClusterSpec t sp ts k tmpl rt i cm :
    ready needs t sp → kc_Spec k = sp → is_Some (sp_ClusterReplicaSpec sp !! rt) →
    safe (running sp ts) (sr_SetClusterSpec s k tmpl rt i cm);
  sf_UpdateClusterStatus sp ts rt spec :
    rt ∈ ts → safe (running sp ts) (sr_UpdateClusterStatus s rt spec)
}.

Class PodGroupSafe (pg : PodGroupControlInterface) : Prop := {
  gf_Get Φ ns n : keeps Φ (GetPodGroup pg ns n) group;
  gf_Delete Φ ns n : safe Φ (DeletePodGroup pg ns n);
  gf_Update Φ g : group g → safe Φ (UpdatePodGroup pg g);
  gf_Create Φ g : group g → safe Φ (CreatePodGroup pg g);
  gf_Delay o : (∀ g, o = Some g → group g) → DelayPodCreationDueToPodGroup pg o ≠ Panic
}.

(** The index label of something that is to be created. *)
Definition indexed_meta (m : ObjectMeta) : Prop :=
  ∃ i, om_Labels m !! ReplicaIndexLabel = Some (Itoa i) ∧ 0 ≤ i < 9223372036854775807.

Class ControllerSafe (admits : ClusterType → KubeCluster → Prop)
    (needs : ClusterType → gmap string (option ReplicaSpec) → Prop) (cc : ClusterController) :
    Prop := {
  cf_CreatePods Φ ns t ref :
    indexed_meta (pt_Meta t) → safe Φ (CreatePodsWithControllerRef (cc_PodControl cc) ns t ref);
  cf_DeletePod Φ ns n : safe Φ (DeletePod (cc_PodControl cc) ns n);
  cf_CreateServices Φ ns v ref :
    indexed_meta (svc_Meta v) →
    safe Φ (CreateServicesWithControllerRef (cc_ServiceControl cc) ns v ref);
  cf_DeleteService Φ ns n : safe Φ (DeleteService (cc_ServiceControl cc) ns n);
  cf_CreateConfigMap Φ ns c ref :
    safe Φ (CreateConfigMapWithControllerRef (cc_ConfigMapControl cc) ns c ref);
  cf_DeleteConfigMap Φ ns n : safe Φ (DeleteConfigMap (cc_ConfigMapControl cc) ns n);
  cf_podgroup : EnableGangScheduling cc = true →
    ∃ pg, cc_PodGroupControl cc = Some pg ∧ PodGroupSafe pg;
  cf_fill a b c d e g g' :
    EnableGangScheduling cc = true → pgSpecFill cc a b c d e g = Ok g' → group g';
  cf_schema t s : GetSchemaReconciler cc t = Some s → SchemaSafe (admits t) (needs t) s;
  cf_GetPods Φ : keeps Φ (ci_GetPodsForCluster (cc_Controller cc)) (λ l, ∀ p, p ∈ l → index_ok p);
  cf_GetServices Φ :
    keeps Φ (ci_GetServicesForCluster (cc_Controller cc)) (λ l, ∀ v, v ∈ l → index_ok v);
  cf_GetConfigMap Φ : safe Φ (ci_GetConfigMapForCluster (cc_Controller cc));
  cf_GetCluster Φ ns n : safe Φ (ci_GetClusterFromInformerCache (cc_Controller cc) ns n);
  cf_DeleteCluster Φ : safe Φ (ci_DeleteCluster (cc_Controller cc));
  cf_UpdateStatus Φ :
    leads Φ anything anything (ci_UpdateClusterStatusInApiServer (cc_Controller cc)) (λ _, True);
  cf_UpdateClusterStatus t s sp ts :
    GetSchemaReconciler cc t = Some s → sp_ClusterType sp = t →
    (∀ rt, is_Some (sp_ClusterReplicaSpec sp !! rt) → rt ∈ ts) →
    safe (running sp ts)
      (ci_UpdateClusterStatus (cc_Controller cc) (cc_SchemaReconcilerManager cc));
  cf_UpdateConfigMap t c :
    safe (is_ready (needs t) t) (ci_UpdateConfigMapInApiServer (cc_Controller cc) c);
  cf_AddAfter Φ key d : safe Φ (wq_AddAfter (cc_WorkQueue cc) key d)
}.
End parts.

#[export] Hint Resolve cf_DeletePod cf_DeleteService cf_CreateConfigMap cf_DeleteConfigMap
  cf_GetPods cf_GetServices cf_GetConfigMap cf_GetCluster cf_DeleteCluster cf_UpdateConfigMap
  cf_AddAfter gf_Get gf_Delete gf_Update gf_Create sf_Default sf_ReconcileConfigMap
  sf_UpdateClusterStatus : safe.
#[export] Hint Extern 1 (ControllerSafe _ _ _) => eassumption : safe.
#[export] Hint Extern 1 (SchemaSafe _ _ _) => eassumption : safe.
#[export] Hint Extern 1 (PodGroupSafe _) => eassumption : safe.

(** ** The generic controller *)

Section controller.
Context {K : K8s} {KL : K8sLaws K} {ES : ExpStore} {SL : ExpStoreLaws ES} {AS : ApiServer}
  {RT : GoRuntime} {RTL : GoRuntimeLaws RT}.
Context {admissible : KubeCluster → Prop} {group : PodGroup → Prop}
  {SV : SafeServer admissible group}.
Context {admits : ClusterType → KubeCluster → Prop}
  {needs : ClusterType → gmap string (option ReplicaSpec) → Prop}.
Context (cc : ClusterController) {CS : ControllerSpec cc} {CF : ControllerSafe admits needs cc}.
Context (t : ClusterType) (s : ClusterSchemaReconciler) (Hs : GetSchemaReconciler cc t = Some s).

Notation ready_t := (is_ready (needs t) t).

Lemma the_schema : SchemaSafe (admits t) (needs t) s.
Proof using CF Hs. by apply cf_schema. Qed.

Lemma schema_of_run {B} Φ Ψ Θ t' (f : ClusterSchemaReconciler → M B) Q :
  t' = t → leads Φ Ψ Θ (f s) Q → leads Φ Ψ Θ (schema_of cc t' ≫= f) Q.
Proof using Hs. intros -> Hf. by eapply leads_deref. Qed.

Lemma isCustomSchedulerSet_no_panic (m : gmap string (option ReplicaSpec)) es name :
  map_Forall (λ _ o, replica_ready o) m → es ≡ₚ map_to_list m →
  isCustomSchedulerSet es name ≠ Panic.
Proof using Type.
  intros Hm Hp. assert (∀ e, e ∈ es → replica_ready e.2) as Hes.
  { intros [rt o] He. rewrite Hp in He. apply elem_of_map_to_list in He. by apply (Hm rt). }
  clear Hp. induction es as [|[rt o] es IH]; simpl; [done|].
  destruct (Hes (rt, o)) as (spec & n & Ho & _); [left|]. simpl in Ho. subst o. simpl.
  case_match; [done|]. apply IH. intros. apply Hes. by right.
Qed.

(** *** Pods *)

Lemma safe_CreateNewPod sp ts rt i spec role configMap :
  ready (needs t) t sp → is_Some (sp_ClusterReplicaSpec sp !! rt) → 0 ≤ i < 9223372036854775807 →
  safe (running sp ts)
    (CreateNewPod cc rt i spec role (sp_ClusterReplicaSpec sp) configMap).
Proof using KL SL RTL CS CF Hs.
  intros Hr Hrt Hi. pose proof the_schema as SF.
  unfold CreateNewPod. apply leads_get_kc. intros k [Hk _].
  leads_step. apply schema_of_run; [rewrite Hk; apply Hr|].
  assert (SchemaSpec s) as SS by by apply (cs_schema t).
  eapply (leads_bind _ _ _ _ _ (λ t', indexed_meta (pt_Meta t'))); [|done|].
  { apply keeps_run; [by eapply sf_SetClusterSpec|]. intros w w' t' Ht.
    rewrite (ss_SetClusterSpec_meta _ _ _ _ _ _ _ _ Ht).
    exists i. split; [apply named_template_of|done]. }
  intros t1 Ht1. leads_part; [leads_auto|].
  eapply (leads_bind _ _ _ _ _ (λ t', indexed_meta (pt_Meta t'))); [|done|].
  { assert (indexed_meta (pt_Meta (SetRestartPolicy t1 spec))) as Ht2
      by by rewrite SetRestartPolicy_meta.
    destruct (EnableGangScheduling cc) eqn:Hg; [|by apply leads_ret].
    destruct (cf_podgroup Hg) as (pg & Hpg & HG). pose proof (cs_podgroup pg Hpg). rewrite Hpg. leads_step. leads_step.
    apply leads_lift; [done|eapply isCustomSchedulerSet_no_panic; [apply Hr|done]|]. intros custom _.
    leads_part; [leads_auto|]. apply leads_ret; [done|].
    destruct Ht2 as (j & Hj & ?). exists j. split; [|done].
    rewrite pgs_decorate_label; [done|done]. }
  intros t2 Ht2. leads_step.
  eapply leads_bind; [apply keeps_try, cf_CreatePods, Ht2|done|]. intros r _. leads_auto.
Qed.

Lemma UpdateClusterConditions_replicas now now' st ty cs r m :
  st_ReplicaStatuses (UpdateClusterConditions now now' st ty cs r m) = st_ReplicaStatuses st.
Proof using Type.
  destruct (UpdateClusterConditions_cases now now' st ty cs r m)
    as [[_ ->]|[(_ & -> & _)|(_ & _ & ltt & _ & ->)]]; done.
Qed.

(** Conditions are not what [running] and [ready] speak of. *)
Lemma safe_update_condition_running sp ts ty cs r m : safe (running sp ts) (update_condition ty cs r m).
Proof using Type.
  clear. unfold update_condition. leads_step. leads_step. apply leads_modify_status.
  intros k Hk. apply running_status; [done|]. by rewrite UpdateClusterConditions_replicas.
Qed.
Lemma safe_update_condition_ready nd ty' ty cs r m :
  safe (is_ready nd ty') (update_condition ty cs r m).
Proof using Type. clear. unfold update_condition. leads_step. leads_step. by apply leads_modify_status. Qed.

Lemma UpdateClusterReplicaStatuses_safe st rt p :
  is_Some (st_ReplicaStatuses st !! rt) →
  UpdateClusterReplicaStatuses st rt p ≠ Panic ∧
  ∀ st' rt', UpdateClusterReplicaStatuses st rt p = Ok st' →
    is_Some (st_ReplicaStatuses st !! rt') → is_Some (st_ReplicaStatuses st' !! rt').
Proof using Type.
  intros [rs Hrs].
  assert (∀ f, bump f rt st ≠ Panic ∧ ∀ st' rt', bump f rt st = Ok st' →
    is_Some (st_ReplicaStatuses st !! rt') → is_Some (st_ReplicaStatuses st' !! rt')) as Hb.
  { intros f. unfold bump. rewrite Hrs. simpl. split; [done|]. intros st' rt' [= <-] Hrt'. simpl.
    destruct (decide (rt = rt')) as [->|]; [by rewrite lookup_insert_eq|by rewrite lookup_insert_ne]. }
  unfold UpdateClusterReplicaStatuses.
  repeat case_match; try apply Hb; (split; [done|by intros ?? [= <-]]).
Qed.

Lemma safe_reconcile_one_pod sp ts rt spec n key i p :
  rt ∈ ts → safe (running sp ts) (reconcile_one_pod cc (Some s) rt spec n key i p).
Proof using KL SL RTL CF.
  intros Hrt. unfold reconcile_one_pod.
  leads_part; [leads_auto|]. leads_part; [leads_auto|].
  leads_part.
  { pose proof safe_update_condition_running. unfold RestartedClustersCounterInc, inc_labels.
    leads_auto. }
  apply leads_get_kc. intros k Hk.
  destruct (UpdateClusterReplicaStatuses_safe (kc_Status k) rt p) as [Hnp Hkeep]; [by apply Hk|].
  apply leads_lift; [done..|]. intros st Hst. apply leads_modify_status. intros k' Hk'.
  split; [apply Hk'|]. intros rt' Hrt'. simpl. eapply Hkeep; [exact Hst|by apply Hk].
Qed.

(** *** The replicas *)

Lemma slices_bound {A} `{HasMeta A} (xs : list A) n :
  (∀ x, x ∈ xs → index_ok x) → n ≤ 2147483647 →
  ∃ ss, GetSlices xs n = Ok ss ∧
    ∀ e, e ∈ indexed ss → 0 ≤ Z.of_nat e.1 < 9223372036854775807.
Proof using Type.
  intros Hok Hn. destruct (GetSlices_spec xs n Hok) as (ss & Hss & Hlen & _).
  exists ss. split; [done|]. intros [i l] (j & Hj)%list_elem_of_lookup.
  apply list_lookup_imap_Some in Hj as (l' & Hl & [= -> ->]). apply lookup_lt_Some in Hl.
  pose proof (max_index_top xs Hok). simpl. lia.
Qed.

Lemma index_ok_filter {A} `{HasMeta A} (xs : list A) rt :
  (∀ x, x ∈ xs → index_ok x) → ∀ x, x ∈ FilterForReplicaType xs rt → index_ok x.
Proof using Type. intros Hok x [_ Hx]%list_elem_of_filter. by apply Hok. Qed.

Lemma leads_ReconcilePods sp ts rt o pods configMap :
  ready (needs t) t sp → sp_ClusterReplicaSpec sp !! rt = Some o → replica_ready o →
  (∀ p, p ∈ pods → index_ok p) →
  leads (running sp ts) (running sp (ts ++ [rt])%list) anything
    (ReconcilePods cc rt o pods configMap) (λ _, True).
Proof using KL SL RTL CS CF Hs.
  intros Hr Hrt (spec & n & -> & Hn & Hle & _) Hpods. unfold ReconcilePods.
  leads_step. apply leads_lift; [done..|]. intros xs [= <-]. leads_step. rewrite Hn. leads_step.
  eapply leads_seq.
  { apply leads_modify_status with (Ψ := running sp (ts ++ [rt])%list). intros k [Hk Hd].
    split; [done|]. intros rt' Hrt'. simpl. destruct (decide (rt = rt')) as [->|Hne];
      [by rewrite lookup_insert_eq|rewrite lookup_insert_ne by done].
    apply elem_of_app in Hrt' as [?| ->%list_elem_of_singleton]; [by apply Hd|done]. }
  intros _ _. apply leads_get_kc. intros k [Hk _]. rewrite Hk, (rd_type _ _ _ Hr), Hs.
  destruct (slices_bound (FilterForReplicaType pods (GenReplicaTypeLabel rt)) n)
    as (ss & Hss & Hb); [by apply index_ok_filter|done|].
  unfold GetPodSlices. rewrite Hss. apply leads_lift; [done..|]. intros ? [= <-].
  eapply leads_last; [|done|done]. apply safe_for_each. intros e He. unfold reconcile_pod_slice.
  destruct e.2 as [|p [|p' ps]]; [|apply safe_reconcile_one_pod; set_solver|by apply leads_ret].
  apply leads_get_kc. intros k' [Hk' _]. rewrite Hk'. leads_step.
  apply safe_CreateNewPod; [done|by eexists|by apply Hb].
Qed.

Lemma safe_CreateNewService sp ts rt spec i name :
  0 ≤ i < 9223372036854775807 →
  safe (running sp ts) (CreateNewService cc rt spec (Itoa i) name s).
Proof using KL SL RTL CF.
  intros Hi. unfold CreateNewService. apply leads_get_kc. intros k Hk. leads_step.
  apply leads_lift; [done|unfold GetPortsFromCluster; by repeat case_match|]. intros ports _.
  leads_step. leads_step.
  eapply leads_bind; [apply keeps_try, cf_CreateServices|done|].
  { exists i. split; [|done]. simpl. unfold service_labels, SetReplicaIndexStr, SetClusterType.
    by vm_compute. }
  intros r _. leads_auto.
Qed.

Lemma safe_ReconcileServices sp ts rt o services :
  ready (needs t) t sp → replica_ready o → (∀ v, v ∈ services → index_ok v) →
  safe (running sp ts) (ReconcileServices cc rt o services).
Proof using KL SL RTL CS CF Hs.
  intros Hr (spec & n & -> & Hn & Hle & _) Hsv. unfold ReconcileServices.
  leads_step. rewrite Hn. leads_step. apply leads_lift; [done..|]. intros xs [= <-].
  apply leads_get_kc. intros k [Hk _]. rewrite Hk, (rd_type _ _ _ Hr), Hs.
  rewrite cs_slices. destruct (slices_bound (FilterForReplicaType services (GenReplicaTypeLabel rt)) n)
    as (ss & Hss & Hb); [by apply index_ok_filter|done|].
  unfold GetServiceSlices. rewrite Hss. apply leads_lift; [done..|]. intros ? [= <-].
  apply safe_for_each. intros e He. unfold reconcile_service_slice.
  destruct e.2 as [|v [|v' vs]]; [|leads_auto|by apply leads_ret].
  leads_step. apply safe_CreateNewService. by apply Hb.
Qed.

(** The loop over the replica types leaves an entry for each. *)
Lemma leads_reconcile_replicas sp pods services configMap :
  ready (needs t) t sp → (∀ p, p ∈ pods → index_ok p) → (∀ v, v ∈ services → index_ok v) →
  leads (running sp []) (λ k, ∃ ts, running sp ts k ∧
    ∀ rt, is_Some (sp_ClusterReplicaSpec sp !! rt) → rt ∈ ts) anything
    (reconcile_replicas cc pods services configMap) (λ _, True).
Proof using KL SL RTL CS CF Hs.
  intros Hr Hp Hv. unfold reconcile_replicas. apply leads_get_kc. intros k [Hk _]. rewrite Hk.
  apply leads_range_of. intros es Hes.
  eapply leads_weaken; [apply (leads_for_each (λ es, running sp es.*1) anything es _ [])|done| |done|done].
  - intros ys [rt o] Hin. destruct (ready_entry _ _ _ _ _ _ Hr Hes Hin) as [Ho Hrt].
    rewrite fmap_app. eapply leads_seq; [by apply leads_ReconcilePods|]. intros _ _.
    eapply leads_last; [by apply safe_ReconcileServices|done|done].
  - intros k' Hk'. exists es.*1. split; [exact Hk'|]. intros rt [o Ho].
    apply list_elem_of_fmap. exists (rt, o). split; [done|]. rewrite Hes. by apply elem_of_map_to_list.
Qed.

(** *** The config map *)

Lemma safe_ReconcileConfigMap : safe ready_t (Controller.ReconcileConfigMap cc).
Proof using KL SL CF Hs.
  pose proof the_schema. unfold Controller.ReconcileConfigMap. leads_step.
  apply leads_get_kc. intros k Hk. rewrite (rd_type _ _ _ Hk), Hs.
  leads_part.
  { destruct a as [c|]; [by apply leads_ret|]. unfold CreateNewConfigMap. leads_auto. }
  leads_step. leads_step. leads_auto.
Qed.

(** *** Gang scheduling *)

Lemma pgSpecFill_no_panic a b c d e g : pgSpecFill cc a b c d e g ≠ Panic.
Proof using Type. unfold pgSpecFill. repeat case_match; done. Qed.

Lemma CalcPGMinResources_no_panic n (m : gmap string (option ReplicaSpec)) f :
  map_Forall (λ _ o, replica_ready o) m → CalcPGMinResources n m f ≠ Panic.
Proof using RTL.
  clear CS CF Hs. intros Hm. unfold CalcPGMinResources.
  assert (replicasPriority m f ≠ Panic) as Hnp.
  { apply result_foldl_no_panic. intros acc [rt o] Hin. apply elem_of_range in Hin.
    destruct (Hm rt o Hin) as (spec & k & -> & _). done. }
  by destruct (replicasPriority m f).
Qed.

Lemma keeps_SyncPodGroup Φ f :
  EnableGangScheduling cc = true → (∀ g, f g ≠ Panic) → (∀ g g', f g = Ok g' → group g') →
  keeps Φ (SyncPodGroup cc f) (λ r, ∀ g, r.1 = Some g → group g).
Proof using CF.
  clear Hs s CS SL KL. intros Hg Hnp Hf. destruct (cf_podgroup Hg) as (pg & Hpg & HG). unfold SyncPodGroup.
  leads_step. rewrite Hpg. leads_step. leads_step. destruct a as [e|g].
  - leads_step; [by leads_step|].
    eapply leads_bind; [apply keeps_try, keeps_lift, Hnp|done|].
    intros [e'|g'] Hg'; [by leads_step|].
    eapply leads_bind; [apply keeps_try, gf_Create; eauto|done|]. intros [e'|[]] _; [by leads_step|].
    leads_step. leads_step. destruct a0 as [e'|g'']; [by leads_step|].
    apply leads_ret; [done|]. by intros ? [= <-].
  - eapply leads_bind; [apply keeps_try, keeps_lift, Hnp|done|].
    intros [e'|g'] Hg'; [by leads_step|].
    eapply leads_bind; [apply keeps_try, gf_Update; eauto|done|]. intros r _.
    apply leads_ret; [done|]. intros ? [= <-]. eauto.
Qed.

Lemma safe_sync_gang rp n :
  EnableGangScheduling cc = true → safe ready_t (sync_gang cc rp n).
Proof using RTL CF.
  clear Hs s CS SL KL. intros Hg. destruct (cf_podgroup Hg) as (pg & Hpg & HG). unfold sync_gang.
  apply leads_get_kc. intros k Hk. leads_part.
  { destruct (rp_SchedulingPolicy rp ≫= sp_MinResources); [by apply leads_ret|].
    eapply leads_weaken; [apply keeps_lift|done..]. apply CalcPGMinResources_no_panic, Hk. }
  eapply leads_bind; [apply keeps_SyncPodGroup|done|]; [done| |by intros ? ? ?%cf_fill|].
  { intros g. apply pgSpecFill_no_panic. }
  intros r Hr. rewrite Hpg. leads_step. apply leads_lift; [done|by apply gf_Delay|].
  intros d _. by apply leads_ret.
Qed.

Lemma safe_terminate_pod_group Φ :
  EnableGangScheduling cc = true → safe Φ (terminate_pod_group cc).
Proof using CF.
  clear Hs s CS SL KL RTL. intros Hg. destruct (cf_podgroup Hg) as (pg & Hpg & HG).
  assert (safe Φ (cc_DeletePodGroup cc)).
  { unfold cc_DeletePodGroup. leads_step. rewrite Hpg. leads_step. leads_step.
    destruct a as [e|g]; leads_auto. }
  unfold terminate_pod_group. leads_auto.
Qed.

(** *** Winding down *)

Lemma clean_policy_no_panic rp st p :
  is_Some (rp_CleanKubeNodePolicy rp) → clean_policy_is rp st p ≠ Panic.
Proof using Type. intros [c Hc]. unfold clean_policy_is. rewrite Hc. by destruct (IsFinished st). Qed.

Lemma safe_DeletePodAndServices Φ rp st pods :
  is_Some (rp_CleanKubeNodePolicy rp) → safe Φ (DeletePodAndServices cc rp st pods).
Proof using CF.
  clear Hs s CS SL KL RTL. intros Hrp. unfold DeletePodAndServices.
  case_decide; [by apply leads_ret|].
  apply leads_lift; [done|by apply clean_policy_no_panic|]. intros b _.
  destruct b; [by apply leads_ret|]. apply safe_for_each. intros p _. unfold delete_pod_and_service.
  apply leads_lift; [done|by apply clean_policy_no_panic|]. intros b _. leads_auto.
Qed.

Lemma safe_CleanupCluster Φ rp st : safe Φ (CleanupCluster cc rp st).
Proof using CF. clear Hs s CS SL KL RTL. unfold CleanupCluster. leads_auto. Qed.

Lemma safe_CleanUpResources Φ rp st pods :
  is_Some (rp_CleanKubeNodePolicy rp) → safe Φ (CleanUpResources cc rp st pods).
Proof using CF.
  intros Hrp. pose proof (safe_CleanupCluster Φ rp st).
  pose proof (safe_DeletePodAndServices Φ rp st pods Hrp). pose proof (safe_terminate_pod_group Φ).
  unfold CleanUpResources. leads_step. leads_step. leads_step. leads_part; [by leads_auto|]. leads_auto.
Qed.

Lemma leads_reconcile_suspended rp st pods :
  is_Some (rp_CleanKubeNodePolicy rp) →
  leads ready_t anything anything (reconcile_suspended cc rp st pods) (λ _, True).
Proof using CF.
  intros Hrp. pose proof (safe_CleanUpResources ready_t rp). unfold reconcile_suspended.
  pose proof (safe_update_condition_ready (needs t) t). pose proof (cf_UpdateStatus ready_t).
  leads_step. leads_step. leads_part; [by apply leads_modify_status|].
  leads_step. leads_part; [leads_auto|]. leads_step. leads_part; [leads_auto|]. leads_auto.
Qed.

Lemma leads_reconcile_exceeded rp msg pods :
  is_Some (rp_CleanKubeNodePolicy rp) →
  leads ready_t anything anything (reconcile_exceeded cc rp msg pods) (λ _, True).
Proof using CF.
  intros Hrp. pose proof (safe_CleanupCluster ready_t rp). pose proof (cf_UpdateStatus ready_t).
  pose proof (safe_DeletePodAndServices ready_t rp). pose proof (safe_terminate_pod_group ready_t).
  pose proof (safe_update_condition_ready (needs t) t).
  unfold reconcile_exceeded. leads_step. leads_step. leads_step. leads_part; [by leads_auto|]. leads_auto.
Qed.

(** *** The whole reconciliation *)

Lemma safe_exceeded_limit rp key pods n : safe ready_t (exceeded_limit cc rp key pods n).
Proof using RTL.
  clear CF CS Hs s SL KL. unfold exceeded_limit. apply leads_get_kc. intros k Hk. leads_step.
  leads_part.
  { destruct (rp_BackoffLimit rp) eqn:Hb; [|by apply leads_ret]. leads_step.
    apply leads_lift; [done| |intros; by apply leads_ret].
    unfold PastBackoffLimit. rewrite Hb.
    match goal with |- result_bind ?r _ ≠ _ => assert (r ≠ Panic) as Hnp end.
    { apply result_foldl_no_panic. intros acc [rt o] Hin.
      destruct (ready_entry _ _ _ _ _ _ Hk H0 Hin) as [(spec & m & -> & _) _]. simpl. by case_match. }
    match goal with |- result_bind ?r _ ≠ _ => destruct r; simpl; [by case_decide|done..] end. }
  destruct a; [by apply leads_ret|]. leads_part; [leads_auto|]. leads_auto.
Qed.

Lemma leads_reconcile_general st pods services :
  (∀ p, p ∈ pods → index_ok p) → (∀ v, v ∈ services → index_ok v) →
  leads ready_t anything anything (reconcile_general cc s st pods services) (λ _, True).
Proof using KL SL RTL CS CF Hs.
  intros Hp Hv. pose proof safe_ReconcileConfigMap as Hcm. unfold reconcile_general.
  leads_step.
  apply (leads_ex (λ sp, running sp [])); [intros k _; exists (kc_Spec k); by split; [|set_solver]|].
  intros sp k Hr [Hk _]. unfold is_ready in Hr. rewrite Hk in Hr. clear k Hk.
  eapply leads_seq; [by apply leads_reconcile_replicas|]. intros _ _.
  apply (leads_ex (λ ts k, running sp ts k ∧ ∀ rt, is_Some (sp_ClusterReplicaSpec sp !! rt) → rt ∈ ts));
    [done|].
  intros ts k _ [_ Hall]. apply (leads_weaken _ _ _ (running sp ts) anything anything _ (λ _, True) (λ _, True));
    [|by intros ? [? _]|done|done|done].
  eapply (leads_bind _ _ _ _ _ (λ _, True));
    [eapply cf_UpdateClusterStatus; [done|apply Hr|done]|done|intros _ _].
  leads_step. simpl. apply cf_UpdateStatus.
Qed.

Lemma leads_reconcile_active rp key st pods services :
  is_Some (rp_CleanKubeNodePolicy rp) →
  (∀ p, p ∈ pods → index_ok p) → (∀ v, v ∈ services → index_ok v) →
  leads ready_t anything anything (reconcile_active cc s rp key st pods services) (λ _, True).
Proof using KL SL RTL CS CF Hs.
  intros Hrp Hp Hv. unfold reconcile_active. leads_part.
  { unfold reconcile_resumed. pose proof (safe_update_condition_ready (needs t) t).
    leads_step. leads_step. leads_step. leads_step. leads_part; [by apply leads_modify_status|].
    leads_step. }
  leads_step. apply leads_get_kc. intros k Hk. apply leads_range_of. intros es Hes.
  apply leads_lift; [done| |intros total _].
  { unfold GetTotalReplicas. apply result_foldl_no_panic. intros acc [rt o] Hin.
    destruct (ready_entry _ _ _ _ _ _ Hk Hes Hin) as [(spec & m & -> & Hm & _) _]. simpl. by rewrite Hm. }
  eapply (leads_bind _ _ _ _ _ (λ _, True)); [apply safe_exceeded_limit|done|intros [msg|] _].
  { by apply leads_reconcile_exceeded. }
  eapply (leads_bind _ _ _ _ _ (λ _, True));
    [destruct (EnableGangScheduling cc) eqn:Hg; [by apply safe_sync_gang|by apply leads_ret]|done|].
  intros [] _; [by apply leads_reconcile_general|].
  leads_step. leads_part; [by apply leads_modify_status|]. apply cf_UpdateStatus.
Qed.

(** The errors of [ResetExpectations] are never there to be formatted. *)
Lemma safe_ResetExpectations Φ key replicas : safe Φ (ResetExpectations key replicas s).
Proof using KL SL RTL.
  clear CF CS Hs. unfold ResetExpectations. leads_step. generalize (None : option error), (es.*1).
  assert (∀ k w, inv Φ w → ∃ w', sr_SetExpectations s k 0 0 w = (w', Ok tt) ∧ inv Φ w') as Hok.
  { intros k w [H1 H2 H3]. unfold sr_SetExpectations. erewrite bind_run by done.
    unfold expectations.
    destruct (exp_ok_exec (sr_Name s) (OpSet (clock (w_tick w)) k 0 0) (w_next_tick w) H2)
      as (r & Hr & He); [done|]. injection Hr as <-. eexists. split; [done|by split]. }
  intros errs rts. revert errs. induction rts as [|rt rts IH]; intros errs; [by apply leads_ret|].
  simpl. eapply (leads_bind _ _ _ _ _ (λ _, True)); [|done|intros errs' _; apply IH].
  intros w Hw. unfold reset_type, try.
  destruct (Hok (GenExpectationPodsKey key rt) w Hw) as (w1 & H1 & Hw1).
  destruct (Hok (GenExpectationServicesKey key rt) w1 Hw1) as (w2 & H2 & Hw2).
  unfold mbind, M_bind. by rewrite H1, H2.
Qed.

Lemma leads_ReconcileKubeCluster :
  leads ready_t anything anything (ReconcileKubeCluster cc s) (λ _, True).
Proof using KL SL RTL CS CF Hs.
  unfold ReconcileKubeCluster. apply leads_get_kc. intros k Hk.
  assert (is_Some (rp_CleanKubeNodePolicy (sp_RunPolicy (kc_Spec k)))) as Hrp by apply Hk.
  leads_step. eapply (leads_bind _ _ _ _ _ (λ _, True)); [apply safe_ResetExpectations|done|intros _ _].
  eapply leads_bind; [apply cf_GetPods|done|intros pods Hp].
  eapply leads_bind; [apply cf_GetServices|done|intros services Hv].
  apply leads_get_kc. intros k' _. destruct (IsFinished (kc_Status k')).
  { eapply leads_last; [by apply safe_CleanUpResources|done|done]. }
  destruct (IsClusterSuspended (Some (sp_RunPolicy (kc_Spec k)))).
  - by apply leads_reconcile_suspended.
  - by apply leads_reconcile_active.
Qed.
End controller.

(** ** A request, and the events *)

Section reconcile.
Context {K : K8s} {KL : K8sLaws K} {ES : ExpStore} {SL : ExpStoreLaws ES} {AS : ApiServer}
  {RT : GoRuntime} {RTL : GoRuntimeLaws RT}.
Context {admits : ClusterType → KubeCluster → Prop}
  {needs : ClusterType → gmap string (option ReplicaSpec) → Prop} {group : PodGroup → Prop}.
Context (cc : ClusterController).

(** The KubeClusters the users may store: the type has a schema, which can check the
    cluster, and the numbers of replicas fit in the int32 they are declared with. *)
Record acceptable (k : KubeCluster) : Prop := {
  ac_schema : is_Some (GetSchemaReconciler cc (sp_ClusterType (kc_Spec k)));
  ac_admits : admits (sp_ClusterType (kc_Spec k)) k;
  ac_int32 rt spec n : sp_ClusterReplicaSpec (kc_Spec k) !! rt = Some (Some spec) →
    r_Replicas spec = Some n → n ≤ 2147483647
}.

Context {SV : SafeServer acceptable group} {CS : ControllerSpec cc} {CF : ControllerSafe admits needs cc}.

(** What validation has let through is ready once it is defaulted. *)
Lemma validated_ready es k s :
  es ≡ₚ map_to_list (sp_ClusterReplicaSpec (kc_Spec k)) →
  ValidateV1alphaCluster es k = Ok tt → sr_ValidateV1KubeCluster s k = Ok tt →
  GetSchemaReconciler cc (sp_ClusterType (kc_Spec k)) = Some s → acceptable k →
  is_ready (needs (sp_ClusterType (kc_Spec k))) (sp_ClusterType (kc_Spec k))
    (SetDefaults_KubeCluster k).
Proof using CF.
  intros Hes Hv Hsv Hs Hk. pose proof (cf_schema _ _ Hs) as SF.
  apply (validation_iff es k Hes) in Hv as (_ & _ & _ & Hall).
  destruct (SetDefaults_defaulted k) as (_ & Hc & _). split; [done|exact Hc| |].
  - intros rt o Ho. unfold SetDefaults_KubeCluster in Ho. simpl in Ho. rewrite lookup_fmap in Ho.
    destruct (sp_ClusterReplicaSpec (kc_Spec k) !! rt) as [o'|] eqn:E; [|done]. injection Ho as <-.
    destruct (Hall rt o' E) as (_ & spec & -> & _ & c & Hin & _). simpl.
    assert (ps_Containers (pt_Spec (r_Template spec)) ≠ []) as Hne
      by (intros Hn; rewrite Hn in Hin; by apply elem_of_nil in Hin).
    destruct (r_Replicas spec) as [n|] eqn:En.
    + exists spec, n. split_and!; [done..| |done]. by eapply ac_int32.
    + eexists _, 1. split_and!; [done..|lia|done].
  - eapply sf_needs_dom; [|by apply (sf_needs k)]. simpl. by rewrite dom_fmap_L.
Qed.

Lemma safe_failed_validation Φ p e : safe Φ (failed_validation p e).
Proof using Type. clear. unfold failed_validation. leads_auto. Qed.

Lemma exp_ok_reached w : exp_ok w → exp_reached w.
Proof using Type. clear. intros H s. destruct (H s) as (ops & _ & Hops). by exists ops. Qed.

Lemma safe_needReconcile Φ s : safe Φ (needReconcile s).
Proof using KL SL.
  clear CF CS. intros w Hw. pose proof (exp_ok_reached w (inv_exp _ _ Hw)) as He.
  rewrite (needReconcile_run s w He). split; [|done]. by destruct Hw.
Qed.

(** The KubeCluster as it was read goes through the gates. *)
Lemma leads_reconcile_found Φ k :
  acceptable k → leads Φ anything anything (reconcile_found cc k) (λ _, True).
Proof using KL SL RTL CS CF.
  intros Hk. unfold reconcile_found.
  eapply leads_seq; [apply leads_set_kc with (Ψ := λ k', k' = k); done|intros _ _].
  apply leads_range_of. intros es Hes.
  destruct (validation_iff es k Hes) as [Hnp Hv].
  eapply leads_bind; [apply keeps_try, keeps_lift, Hnp|done|].
  intros [e|[]] Hok; [eapply leads_last; [apply safe_failed_validation|done|done]|].
  pose proof (proj1 Hv Hok) as (_ & _ & _ & Hall).
  destruct (ac_schema _ Hk) as [s Hs]. eapply leads_deref; [exact Hs|].
  pose proof (cf_schema _ _ Hs) as SF.
  eapply leads_bind; [apply keeps_try, keeps_lift, (sf_validate k)|done|].
  { apply Hk. }
  { intros rt o Ho. destruct (Hall rt o Ho) as (_ & spec & -> & _). by eexists. }
  intros [e|[]] Hsok; [eapply leads_last; [apply safe_failed_validation|done|done]|].
  eapply (leads_bind _ _ _ _ _ (λ _, True)); [apply safe_needReconcile|done|intros need _].
  destruct (_ || _); [by apply leads_ret|].
  pose proof (validated_ready es k s Hes Hok Hsok Hs Hk) as Hready.
  eapply leads_seq; [apply leads_set_kc; exact Hready|intros _ _].
  eapply (leads_bind _ _ _ _ _ (λ _, True)); [apply sf_Default|done|intros _ _].
  by apply (leads_ReconcileKubeCluster (admits := admits) (needs := needs)).
Qed.

Lemma leads_Reconcile ns name : leads anything anything anything (Reconcile cc ns name) (λ _, True).
Proof using KL SL RTL CS CF.
  unfold Reconcile.
  eapply leads_bind; [apply keeps_try, (keeps_api _ (GetKubeCluster ns name) acceptable)|done|].
  { done. }
  { intros s s' k. apply sv_cluster. }
  intros [e|k] Hk; [|by apply leads_reconcile_found].
  destruct (IsNotFound e); [by apply leads_ret|by apply leads_fail].
Qed.

(** *** Events *)

Lemma safe_resolveControllerRef Φ ns ref : safe Φ (resolveControllerRef cc ns ref).
Proof using CF. clear CS SL KL RTL. unfold resolveControllerRef. leads_auto. Qed.

Lemma safe_owner_updated Φ o o' : safe Φ (owner_updated cc o o').
Proof using CF.
  clear CS SL KL RTL. pose proof (safe_resolveControllerRef Φ). unfold owner_updated.
  leads_part; [leads_auto|]. leads_auto.
Qed.

Lemma safe_onOwnerCreateFunc Φ k : safe Φ (onOwnerCreateFunc k).
Proof using Type.
  clear. unfold onOwnerCreateFunc, metrics_CreatedclustersCounterInc, inc_labels. leads_auto.
Qed.

Lemma safe_on_create Φ wt o : safe Φ (on_create cc wt o).
Proof using KL SL.
  clear CS CF RTL. pose proof (safe_onOwnerCreateFunc Φ).
  destruct wt; simpl; unfold OnDependentCreateFunc, onDependentCreateFunc, OnDependentCreateFuncGeneric; leads_auto.
Qed.
Lemma safe_on_delete Φ wt o : safe Φ (on_delete cc wt o).
Proof using KL SL.
  clear CS CF RTL. destruct wt; simpl; unfold OnDependentDeleteFunc, onDependentDeleteFunc,
    OnDependentDeleteFuncGeneric; leads_auto.
Qed.
Lemma safe_on_update Φ wt o o' : safe Φ (on_update cc wt o o').
Proof using CF.
  clear CS SL KL RTL. pose proof (safe_owner_updated Φ).
  destruct wt; simpl; unfold OnDependentUpdateFunc, OnDependentUpdateFuncGeneric; leads_auto.
Qed.
End reconcile.
