(* ===== verification/SafetySchemas.v ===== *)
(** * The schemas do not panic

    The slurm and the PBS Pro schema keep the promise [SchemaSafe] of Safety.v. What
    they rely on is stated here too: that a printed quantity can be parsed
    ([QuantityFormatLaws]), and that the template of the init containers gives at least
    one container. *)

From S2P Require Import Prelude K8s Api Defaults Names Status Expectations Core Quota World Control.
From S2P Require Import Schema Controller Reconciler PodPlan Triples Safety.
From S2P Require Import SchemaLib Slurm SlurmSpec Pbspro PbsproSpec.

(** ** What the schemas rely on *)

Class QuantityFormatLaws {K : K8s} (QF : QuantityFormat) : Prop := {
  q_Parse_String q : is_Some (q_ParseQuantity (q_String q));
  q_Parse_default : is_Some (q_ParseQuantity "32Gi")
}.

(** Six bits that stand for a letter. *)
Definition letter_at (cache : Z) (j : nat) : Prop :=
  Z.land (Z.shiftr cache (6 * Z.of_nat j)) letterIdMask < 52.

Section random.
Context {K : K8s} {ES : ExpStore} {AS : ApiServer} {RT : GoRuntime} {GR : GoRand}.

Lemma letter_some idx : 0 ≤ idx < 52 → is_Some (String.get (Z.to_nat idx) letters).
Proof.
  intros Hi. assert (Z.to_nat idx < 52)%nat as Hn by lia. revert Hn. generalize (Z.to_nat idx).
  intros n Hn. do 52 (destruct n as [|n]; [by eexists|]). lia.
Qed.

Lemma mask_nonneg c : 0 ≤ Z.land c letterIdMask.
Proof. apply Z.land_nonneg. by right. Qed.

Lemma letter_shift c j : letter_at c (S j) → letter_at (Z.shiftr c letterIdBits) j.
Proof.
  unfold letter_at, letterIdBits. rewrite Z.shiftr_shiftr by lia.
  by replace (6 + 6 * Z.of_nat j) with (6 * Z.of_nat (S j)) by lia.
Qed.

(** One letter, once the rest of the string is known to be found in [F] rounds. *)
Section one_letter.
Context (i : Z) (F : nat) (Hi : 0 ≤ i).
Context (rest : ∀ b cache (r fuel : nat) w, (r ≤ 10)%nat → (F ≤ fuel)%nat →
  (RandStr_loop fuel b (i - 1) cache (Z.of_nat r) w).2 ≠ Err EUnfinished).

(** One round with letters left in the number. *)
Lemma letter_round b cache (r fuel : nat) w :
  (F ≤ fuel)%nat → (r < 10)%nat →
  (∀ w, Z.land cache letterIdMask < 52 ∨
     (RandStr_loop fuel b i (Z.shiftr cache letterIdBits) (Z.of_nat r) w).2 ≠ Err EUnfinished) →
  (RandStr_loop (S fuel) b i cache (Z.of_nat (S r)) w).2 ≠ Err EUnfinished.
Proof.
  intros Hf Hr Hw. cbn [RandStr_loop]. rewrite decide_False by lia.
  rewrite (decide_False (P := Z.of_nat (S r) = 0)) by lia.
  rewrite (bind_run (mret _) _ w w _ eq_refl). cbv iota zeta beta.
  replace (Z.of_nat (S r) - 1) with (Z.of_nat r) by lia.
  destruct (String.get _ letters) as [l|] eqn:Hl; [apply rest; lia|].
  destruct (Hw w) as [Hlt|H]; [|exact H].
  destruct (letter_some (Z.land cache letterIdMask)) as [l Hl'];
    [split; [apply mask_nonneg|done]|]. congruence.
Qed.

Lemma known_letter j : ∀ b cache (r fuel : nat) w,
  letter_at cache j → (j < r ≤ 10)%nat → (F + S j ≤ fuel)%nat →
  (RandStr_loop fuel b i cache (Z.of_nat r) w).2 ≠ Err EUnfinished.
Proof.
  induction j as [|j IH]; intros b cache r fuel w Hj Hr Hf;
    (destruct r as [|r]; [lia|]; destruct fuel as [|fuel]; [lia|]; apply letter_round; [lia..|]).
  - intros w'. left. unfold letter_at in Hj. by rewrite Z.shiftr_0_r in Hj.
  - intros w'. right. apply IH; [by apply letter_shift|lia..].
Qed.

Lemma next_letter (Hsrc : ∀ k, ∃ j, (j < 10)%nat ∧ letter_at (src_Int63 k) j) r :
  ∀ b cache (fuel : nat) w, (r ≤ 10)%nat → (F + r + 10 ≤ fuel)%nat →
  (RandStr_loop fuel b i cache (Z.of_nat r) w).2 ≠ Err EUnfinished.
Proof.
  induction r as [|r IH]; intros b cache fuel w Hr Hf; (destruct fuel as [|fuel]; [lia|]).
  - destruct (Hsrc (w_tick w)) as (j & Hj & Hl).
    pose proof (known_letter j b (src_Int63 (w_tick w)) 10 (S fuel) (w_next_tick w) Hl) as H.
    change (Z.of_nat 10) with letterIdMax in H. simpl in *. rewrite decide_False in * by lia.
    apply H; lia.
  - apply letter_round; [lia..|]. intros w'. right. apply IH; lia.
Qed.
End one_letter.

Lemma RandStr_loop_ends (Hsrc : ∀ k, ∃ j, (j < 10)%nat ∧ letter_at (src_Int63 k) j) n :
  ∀ i b cache (r fuel : nat) w, i < Z.of_nat n → (r ≤ 10)%nat → (20 * n ≤ fuel)%nat →
  (RandStr_loop fuel b i cache (Z.of_nat r) w).2 ≠ Err EUnfinished.
Proof.
  induction n as [|n IH]; intros i b cache r fuel w Hi Hr Hf.
  { assert (i < 0) as Hneg by lia. destruct fuel; simpl; by rewrite decide_True. }
  destruct (decide (i < 0)) as [Hneg|Hpos]; [destruct fuel; simpl; by rewrite decide_True|].
  apply (next_letter i (20 * n)); [lia| |done|done|lia].
  intros b' cache' r' fuel' w' Hr' Hf'. apply IH; [lia|done|done].
Qed.

(** The munge key is found when every number of the source has a letter among the ten
    it holds. *)
Lemma RandStr_ends (Hsrc : ∀ k, ∃ j, (j < 10)%nat ∧ letter_at (src_Int63 k) j) fuel w :
  20 * mungeKeylenInInt ≤ Z.of_nat fuel → (RandStr fuel mungeKeylenInInt w).2 ≠ Err EUnfinished.
Proof.
  intros Hf. unfold RandStr, mbind, M_bind. simpl. change letterIdMax with (Z.of_nat 10).
  unfold mungeKeylenInInt in *. apply (RandStr_loop_ends Hsrc (Z.to_nat 1024)); lia.
Qed.

(** Whether they end or not, the loops do not panic. *)
Lemma RandStr_no_panic fuel n w : (RandStr fuel n w).2 ≠ Panic.
Proof.
  unfold RandStr, mbind, M_bind. simpl. generalize "", (n - 1), (src_Int63 (w_tick w)), letterIdMax, (w_next_tick w).
  induction fuel as [|fuel IH]; intros b i cache r w'; simpl; [by case_decide|].
  case_decide; [done|]. case_decide; unfold mbind, M_bind; simpl; case_match; apply IH.
Qed.

Lemma random_port_no_panic fuel w : (genSlurmRandomPort fuel w).2 ≠ Panic.
Proof.
  unfold genSlurmRandomPort, mbind, M_bind. simpl. fold (draw (w_tick w)).
  generalize (draw (w_tick w)), (w_next_tick w).
  induction fuel as [|fuel IH]; intros p w'; simpl; [done|].
  unfold mbind, M_bind. simpl. case_decide; [done|apply IH].
Qed.
End random.

(** ** Templates and their ports *)

Section templates.
Context {K : K8s} {KL : K8sLaws K} {ES : ExpStore} {SL : ExpStoreLaws ES} {AS : ApiServer}
  {RT : GoRuntime} {RTL : GoRuntimeLaws RT}.
Context {admissible : KubeCluster → Prop} {group : PodGroup → Prop}
  {SV : SafeServer admissible group}.

Lemma default_index_lt s d :
  ps_Containers s ≠ [] → (GetDefaultContainerIndex s d < length (ps_Containers s))%nat.
Proof.
  intros Hne. unfold GetDefaultContainerIndex. destruct (list_find _ _) as [[i c]|] eqn:E.
  - apply list_find_Some in E as (Hi & _). by eapply lookup_lt_Some.
  - destruct (ps_Containers s); [done|simpl; lia].
Qed.

Lemma ensure_port_total s i name p :
  (i < length (ps_Containers s))%nat →
  ∃ s', ensure_port s i name p = Ok s' ∧ length (ps_Containers s') = length (ps_Containers s).
Proof.
  intros Hi. apply lookup_lt_is_Some in Hi as [c Hc].
  unfold ensure_port, HasDefaultPort, SetDefaultPort. rewrite Hc. simpl.
  destruct (existsb _ _); eexists; (split; [done|]); simpl; by rewrite ?length_insert.
Qed.

(** A pass over the templates that succeeds on every template with a container, and
    leaves one. *)
Definition keeps_containers (f : PodSpec → res PodSpec) : Prop :=
  ∀ p, ps_Containers p ≠ [] → ∃ p', f p = Ok p' ∧ ps_Containers p' ≠ [].

Lemma length_not_nil {A} (l l' : list A) : length l' = length l → l ≠ [] → l' ≠ [].
Proof. destruct l, l'; simpl; congruence. Qed.

Lemma set_slurm_ports_total p q :
  keeps_containers (λ s, setSlurmDefaultPorts s Slurm.GetDefaultContainerName p q).
Proof.
  intros s Hs. unfold setSlurmDefaultPorts.
  set (i := GetDefaultContainerIndex s Slurm.GetDefaultContainerName).
  assert (i < length (ps_Containers s))%nat as Hi by by apply default_index_lt.
  destruct (ensure_port_total s i SlurmctlPortName (int32 p) Hi) as (s1 & -> & H1). simpl.
  destruct (ensure_port_total s1 i SlurmdPortName (int32 q)) as (s2 & -> & H2); [by rewrite H1|].
  exists s2. split; [done|]. eapply length_not_nil; [|exact Hs]. congruence.
Qed.

Lemma set_pbs_ports_total : keeps_containers set_ports.
Proof.
  intros s Hs. unfold set_ports. set (i := GetDefaultContainerIndex s Pbspro.GetDefaultContainerName).
  assert (i < length (ps_Containers s))%nat as Hi by by apply default_index_lt.
  destruct (ensure_port_total s i "serve-port" 15001 Hi) as (s1 & -> & H1). simpl.
  destruct (ensure_port_total s1 i "comm-port" 17001) as (s2 & -> & H2); [by rewrite H1|]. simpl.
  destruct (ensure_port_total s2 i "sched-port" 15004) as (s3 & -> & H3); [by rewrite H2, H1|].
  exists s3. split; [done|]. eapply length_not_nil; [|exact Hs]. congruence.
Qed.

Context (needs : gmap string (option ReplicaSpec) → Prop)
  (needs_dom : ∀ m m', dom m = dom m' → needs m → needs m').

Lemma safe_map_templates f t k0 es :
  keeps_containers f → is_ready needs t k0 →
  es ≡ₚ map_to_list (sp_ClusterReplicaSpec (kc_Spec k0)) →
  safe (λ k, is_ready needs t k ∧
          dom (sp_ClusterReplicaSpec (kc_Spec k)) = dom (sp_ClusterReplicaSpec (kc_Spec k0)))
    (map_templates f es).
Proof.
  intros Hf Hk0 Hes. apply safe_for_each. intros [rt o] Hin.
  destruct (ready_entry _ _ _ _ _ _ Hk0 Hes Hin) as [(spec & n & -> & Hn & Hle & Hc) Hrt].
  eapply leads_deref; [done|]. destruct (Hf _ Hc) as (p & Hp & Hpc).
  apply leads_lift; [done|by rewrite Hp|]. intros p' Hp'. rewrite Hp in Hp'. injection Hp' as <-.
  apply leads_get_kc. intros k [Hk Hdom]. apply leads_set_kc.
  assert (dom (sp_ClusterReplicaSpec (kc_Spec (put_template rt spec p k))) =
          dom (sp_ClusterReplicaSpec (kc_Spec k))) as Hd.
  { simpl. rewrite dom_insert_L.
    assert (rt ∈ dom (sp_ClusterReplicaSpec (kc_Spec k))); [|set_solver].
    rewrite Hdom. by apply elem_of_dom_2 in Hrt. }
  split; [|by etransitivity]. destruct Hk as [Ht Hpol Hall Hneeds]. split; [done|done| |].
  - intros rt' o' Ho'. simpl in Ho'. apply lookup_insert_Some in Ho' as [[<- <-]|[_ Ho']];
      [|by apply (Hall rt')]. eexists _, n. by split_and!.
  - by eapply needs_dom.
Qed.

(** The loop over the templates of the KubeCluster as it is. *)
Lemma safe_templates f t :
  keeps_containers f →
  safe (is_ready needs t) (kcluster ← get_kc;
    entries ← range_of (sp_ClusterReplicaSpec (kc_Spec kcluster)); map_templates f entries).
Proof.
  intros Hf w Hw. pose proof (inv_kc _ _ Hw) as Hk0. set (k0 := w_kc w) in *.
  pose proof (safe_map_templates f t k0 (range (w_tick w) (sp_ClusterReplicaSpec (kc_Spec k0))) Hf Hk0
    (range_perm _ _) (w_next_tick w)) as Hm.
  assert (inv (λ k, is_ready needs t k ∧ dom (sp_ClusterReplicaSpec (kc_Spec k)) =
    dom (sp_ClusterReplicaSpec (kc_Spec k0))) (w_next_tick w)) as Hw1 by (destruct Hw; by split).
  specialize (Hm Hw1). change (match map_templates f (range (w_tick w) (sp_ClusterReplicaSpec (kc_Spec k0)))
    (w_next_tick w) with (w', Ok a) => inv (is_ready needs t) w' ∧ True
    | (w', Err _) => inv (is_ready needs t) w' | (_, Panic) => False end).
  destruct (map_templates _ _ _) as [w' [[]|e|]]; [|by eapply inv_weaken; [|exact Hm]; intros ? []|done].
  split; [|done]. eapply inv_weaken; [|apply Hm]. by intros ? [].
Qed.

(** Renaming a type keeps a ready KubeCluster ready, if it keeps its needs. *)
Lemma ready_rename t k typ :
  is_ready needs t k → (∀ keys, needs (SetTypeNameToCamelCase keys (sp_ClusterReplicaSpec (kc_Spec k)) typ)) →
  ∀ es, es ≡ₚ map_to_list (sp_ClusterReplicaSpec (kc_Spec k)) →
  is_ready needs t (KubeCluster_set_Spec (ClusterSpec_set_ReplicaSpec
    (SetTypeNameToCamelCase es.*1 (sp_ClusterReplicaSpec (kc_Spec k)) typ) (kc_Spec k)) k).
Proof.
  intros [Ht Hp Hall _] Hn es Hes. split; [done|done| |apply Hn]. simpl.
  destruct (existsb (needs_rename typ) es.*1) eqn:E.
  - apply existsb_exists in E as (v & Hv%list_elem_of_In & Hr).
    destruct (SetTypeNameToCamelCase_some es.*1 (sp_ClusterReplicaSpec (kc_Spec k)) typ) as (u & Hu & _ & ->);
      [by exists v|].
    apply list_elem_of_fmap in Hu as ([u' o] & -> & Hu). rewrite Hes in Hu.
    apply elem_of_map_to_list in Hu. simpl. rewrite Hu. simpl.
    intros rt o' [[_ <-]|[_ Ho]]%lookup_insert_Some; [by apply (Hall u')|].
    apply lookup_delete_Some in Ho as [_ Ho]. by apply (Hall rt).
  - rewrite SetTypeNameToCamelCase_none; [done|]. intros u Hu. apply not_true_iff_false.
    intros H. apply not_true_iff_false in E. apply E. apply existsb_exists.
    exists u. by rewrite <- list_elem_of_In.
Qed.
End templates.

(** ** The status *)

Section status.
Context {K : K8s} {KL : K8sLaws K} {ES : ExpStore} {SL : ExpStoreLaws ES} {AS : ApiServer}
  {RT : GoRuntime} {RTL : GoRuntimeLaws RT}.
Context {admissible : KubeCluster → Prop} {group : PodGroup → Prop}
  {SV : SafeServer admissible group}.
Context (sp : ClusterSpec) (ts : list ReplicaType).

Lemma safe_mark_running : safe (running sp ts) mark_running.
Proof. pose proof (safe_update_condition_running sp ts). unfold mark_running. leads_auto. Qed.

Lemma safe_mark_restarting c : safe (running sp ts) (mark_restarting c).
Proof.
  pose proof (safe_update_condition_running sp ts).
  unfold mark_restarting, RestartedClustersCounterInc, inc_labels. leads_auto.
Qed.

Lemma safe_mark_failed msg : safe (running sp ts) (mark_failed msg).
Proof.
  pose proof (safe_update_condition_running sp ts). unfold mark_failed. leads_step. leads_step.
  leads_part.
  { unfold set_completion. leads_step. destruct (st_CompletionTime _); [by leads_step|].
    leads_step. apply leads_modify_status. intros k' [? ?]. by split. }
  unfold FailedClustersCounterInc, inc_labels. leads_auto.
Qed.
End status.

#[export] Hint Resolve safe_mark_running safe_mark_restarting safe_mark_failed : safe.

(** ** The slurm schema *)

Section slurm.
Context {K : K8s} {KL : K8sLaws K} {QF : QuantityFormat} {QFL : QuantityFormatLaws QF}
  {ES : ExpStore} {SL : ExpStoreLaws ES} {AS : ApiServer} {RT : GoRuntime} {RTL : GoRuntimeLaws RT}
  {GR : GoRand}.
Context {admissible : KubeCluster → Prop} {group : PodGroup → Prop}
  {SV : SafeServer admissible group}.
Context (valid : gmap string string → bool) (init_containers : string → res (list Container))
  (fuel : nat).

(** Slurm needs its controller. *)
Definition slurm_needs (m : gmap string (option ReplicaSpec)) : Prop :=
  is_Some (m !! SchemaReplicaTypeController).

Lemma needs_rename_kept typ keys (m : gmap string (option ReplicaSpec)) :
  is_Some (m !! typ) → is_Some (SetTypeNameToCamelCase keys m typ !! typ).
Proof using Type.
  intros Hm. induction keys as [|u keys IH]; simpl; [done|].
  case_match; [|done]. destruct (m !! u); by rewrite lookup_insert_eq.
Qed.

Lemma keyed_dom k0 (m m' : gmap string (option ReplicaSpec)) :
  dom m = dom m' → is_Some (m !! k0) → is_Some (m' !! k0).
Proof using Type. rewrite <- !elem_of_dom. by intros ->. Qed.

Notation ready_t := (is_ready slurm_needs).

(** Steps that read the clock, and do not panic. *)
Lemma safe_ticks {A} Φ (m : M A) :
  stable ticks_rel m → (∀ w, (m w).2 ≠ Panic) → safe Φ m.
Proof using Type.
  intros Ht Hp w Hw. specialize (Ht w). specialize (Hp w).
  destruct (m w) as [w' r]. simpl in *. destruct (ticks_same _ _ Ht) as (Hs & _ & _ & _ & He & Hk).
  assert (inv Φ w') as Hw' by (destruct Hw as [H1 H2 H3]; split; [by rewrite Hs|unfold exp_ok; by rewrite He|by rewrite Hk]).
  by destruct r.
Qed.

Lemma safe_foldM {S A} Φ (f : S → A → M S) s0 xs :
  (∀ s0 x, x ∈ xs → safe Φ (f s0 x)) → safe Φ (foldM f s0 xs).
Proof using Type.
  revert s0. induction xs as [|x xs IH]; intros s0 Hf; simpl; [by apply leads_ret|].
  eapply leads_bind; [apply Hf; left|done|]. intros s1 _. apply IH. intros. apply Hf. by right.
Qed.

Lemma scan_ports_no_panic ls p q : scan_ports ls p q ≠ Panic.
Proof using Type.
  assert (∀ l, parse_port l ≠ Panic) as Hp by (intros l; unfold parse_port; by destruct (Atoi l)).
  revert p q. induction ls as [|l ls IH]; intros p q; simpl; [done|].
  case_match; [apply IH|].
  pose proof (Hp (TrimSpace (TrimPrefix l SlurmctldPrefix))).
  pose proof (Hp (TrimSpace (TrimPrefix l SlurmdPrefix))).
  destruct (HasPrefix l SlurmctldPrefix), (parse_port (TrimSpace (TrimPrefix l SlurmctldPrefix))),
    (parse_port (TrimSpace (TrimPrefix l SlurmdPrefix))); simpl; try done; by case_decide.
Qed.

Lemma safe_setSlurmPorts t p q : safe (ready_t t) (setSlurmPorts p q).
Proof using RTL KL SL.
  apply safe_templates; [|apply set_slurm_ports_total].
  intros m m'. apply keyed_dom.
Qed.

Lemma safe_getSlurmPortsFromSpec t d : safe (ready_t t) (getSlurmPortsFromSpec d).
Proof using RTL.
  clear QFL. unfold getSlurmPortsFromSpec. apply leads_get_kc. intros k Hk.
  apply leads_range_of. intros es Hes.
  eapply leads_weaken; [apply keeps_lift|done..].
  assert (∀ e, e ∈ es → replica_ready e.2) as Hall.
  { intros [rt o] Hin. by eapply ready_entry. }
  clear Hes. induction es as [|[rt o] es IH]; simpl; [done|].
  destruct (Hall (rt, o)) as (spec & n & Ho & _ & _ & Hc); [left|]. simpl in Ho. subst o. simpl.
  unfold getSlurmDefaultPort.
  destruct (lookup_lt_is_Some_2 _ _ (default_index_lt (pt_Spec (r_Template spec)) d Hc)) as [c ->]. simpl.
  destruct (find_ports _ _ _). case_decide; [done|]. apply IH. intros. apply Hall. by right.
Qed.

Lemma safe_getGpuQuantity Φ l : safe Φ (getGpuQuantity l).
Proof using RTL. clear QFL. unfold getGpuQuantity. leads_auto. Qed.

Lemma safe_getResourceRequest Φ l : safe Φ (getResourceRequest l).
Proof using RTL QFL.
  pose proof (safe_getGpuQuantity Φ). unfold getResourceRequest.
  destruct l as [l|]; [|by apply leads_fail].
  apply leads_lift; [done| |intros m _; leads_auto].
  destruct (q_Parse_String (rl_Memory l)) as [q1 H1]. destruct q_Parse_default as [q2 H2].
  case_decide; unfold MustParse; by rewrite ?H1, ?H2.
Qed.

Lemma safe_createSlurmConf t p q : safe (ready_t t) (createSlurmConf p q).
Proof using RTL QFL.
  unfold createSlurmConf, createSlurmConfNodes. apply leads_get_kc. intros k Hk.
  leads_part; [|by apply leads_ret]. apply leads_range_of. intros es Hes.
  leads_part; [|by apply leads_ret]. apply safe_foldM. intros conf [rt o] Hin.
  destruct (ready_entry _ _ _ _ _ _ Hk Hes Hin) as [(spec & n & -> & Hn & _ & _) _].
  case_decide; [by apply leads_ret|]. leads_part; [|by apply leads_ret].
  unfold createSlurmConfNodesByReplica. eapply leads_deref; [done|]. rewrite Hn.
  eapply (leads_bind _ _ _ _ _ (λ _, True)); [apply safe_getResourceRequest|done|].
  intros [[cpus mem] gpus] _. by apply leads_ret.
Qed.

Lemma safe_genSlurmRandomPort Φ : safe Φ (genSlurmRandomPort fuel).
Proof using Type.
  apply safe_ticks; [|apply random_port_no_panic]. clear. unfold genSlurmRandomPort, GenRandomInt31n.
  apply (stable_bind ticks_rel); [ticks_auto|intros p]. generalize fuel. clear fuel.
  intros n. induction n as [|n IH]; simpl; [apply (stable_fail ticks_rel)|].
  unfold GenRandomInt31n. ticks_auto; apply IH.
Qed.

Lemma safe_genSlurmConf t : safe (ready_t t) (genSlurmConf fuel).
Proof using RTL KL SL QFL.
  unfold genSlurmConf.
  eapply leads_bind; [apply keeps_try, safe_getSlurmPortsFromSpec|done|intros r _].
  leads_part.
  { pose proof (safe_genSlurmRandomPort (ready_t t)). destruct r as [e|ports]; leads_auto. }
  destruct a as [p q].
  eapply (leads_bind _ _ _ _ _ (λ _, True)); [apply safe_setSlurmPorts|done|intros _ _].
  eapply leads_bind; [apply keeps_try, safe_createSlurmConf|done|intros r' _]. leads_auto.
Qed.

Lemma safe_getHostNetWorkNodeList t : safe (ready_t t) getHostNetWorkNodeList.
Proof using RTL.
  clear QFL. unfold getHostNetWorkNodeList. apply leads_get_kc. intros k Hk.
  apply leads_range_of. intros es Hes. eapply leads_weaken; [apply keeps_lift|done..].
  apply result_foldl_no_panic. intros acc [rt o] Hin.
  destruct (ready_entry _ _ _ _ _ _ Hk Hes Hin) as [(spec & n & -> & Hn & _ & _) _].
  unfold host_names. simpl. rewrite Hn. by destruct (ps_HostNetwork _).
Qed.

Lemma safe_fill_configmap t cm : safe (ready_t t) (fill_configmap fuel cm).
Proof using RTL KL SL QFL.
  unfold fill_configmap. leads_part.
  { pose proof (safe_genSlurmConf t). leads_auto. }
  eapply (leads_bind _ _ _ _ _ (λ _, True)); [apply safe_getHostNetWorkNodeList|done|intros hosts _].
  assert (safe (ready_t t) (genMungeKey fuel)).
  { apply safe_ticks; [apply ticks_RandStr|apply RandStr_no_panic]. }
  leads_auto.
Qed.

Lemma safe_slurm_ReconcileConfigMap t cm : safe (ready_t t) (Slurm.ReconcileConfigMap fuel cm).
Proof using RTL KL SL QFL.
  unfold Slurm.ReconcileConfigMap. leads_part.
  { destruct (cm_Data cm !! slurmConfKey); [|by apply leads_ret].
    apply leads_lift; [done|apply scan_ports_no_panic|intros p _; apply safe_setSlurmPorts]. }
  destruct (_ && _); [by apply leads_ret|apply safe_fill_configmap].
Qed.

Context (init_ok : ∀ a, init_containers a ≠ Panic ∧ init_containers a ≠ Ok []).

Lemma slurm_init_no_panic k tmpl rt : Slurm.setInitContainer init_containers k tmpl rt ≠ Panic.
Proof using init_ok.
  unfold Slurm.setInitContainer. destruct (init_ok (GenGeneralName (om_Name (kc_Meta k))
    SchemaReplicaTypeController (Itoa 0))) as [H1 H2].
  destruct (init_containers _) as [[|c cs]|e|]; simpl; done.
Qed.

Lemma getTotalReplicas_no_panic sp t es :
  ready slurm_needs t sp → es ≡ₚ map_to_list (sp_ClusterReplicaSpec sp) → getTotalReplicas es ≠ Panic.
Proof using Type.
  intros Hr Hes. apply result_foldl_no_panic. intros acc [rt o] Hin.
  destruct (ready_entry _ _ _ _ _ _ Hr Hes Hin) as [(spec & n & -> & Hn & _) _]. simpl. by rewrite Hn.
Qed.

Lemma safe_slurm_SetClusterSpec t sp ts k tmpl rt i cm :
  ready slurm_needs t sp → kc_Spec k = sp → is_Some (sp_ClusterReplicaSpec sp !! rt) →
  safe (running sp ts) (Slurm.SetClusterSpec init_containers k tmpl rt i cm).
Proof using RTL init_ok.
  clear QFL. intros Hr Hk [o Hrt]. unfold Slurm.SetClusterSpec.
  apply leads_lift; [done|apply scan_ports_no_panic|intros [p q] _].
  leads_part.
  { unfold Slurm.setPodEnv. rewrite Hk. apply leads_range_of. intros es Hes.
    apply leads_lift; [done|by eapply getTotalReplicas_no_panic|intros total _].
    destruct (rd_needs _ _ _ Hr) as [oc Hoc].
    destruct (rd_replicas _ _ _ Hr _ _ Hoc) as (cspec & cn & -> & Hcn & _).
    destruct (rd_replicas _ _ _ Hr _ _ Hrt) as (spec & n & -> & _).
    eapply leads_deref; [by rewrite Hoc|]. eapply leads_deref; [exact Hcn|].
    eapply leads_deref; [by rewrite Hrt|].
    leads_part; [|by apply leads_ret]. apply safe_foldM. intros acc c _.
    pose proof (safe_getGpuQuantity (running sp ts)). leads_auto. }
  apply leads_lift; [done|apply slurm_init_no_panic|intros tmpl' _]. by apply leads_ret.
Qed.

Lemma safe_slurm_UpdateClusterStatus sp ts rt spec :
  rt ∈ ts → safe (running sp ts) (Slurm.UpdateClusterStatus rt spec).
Proof using Type.
  intros Hrt. unfold Slurm.UpdateClusterStatus. apply leads_get_kc. intros k [_ Hk].
  destruct (Hk rt Hrt) as [rs Hrs]. rewrite Hrs. leads_step. leads_part; [leads_auto|]. leads_auto.
Qed.

(** Every KubeCluster can be checked for slurm. *)
Lemma slurm_safe :
  SchemaSafe (λ _, True) slurm_needs (NewSlurmClusterReconciler valid init_containers fuel).
Proof using RTL KL SL QFL init_ok.
  split; simpl.
  - intros k _ _. unfold Slurm.ValidateV1KubeCluster. by case_match.
  - intros k. unfold Slurm.ValidateV1KubeCluster. case_match eqn:E; [|done]. intros _.
    apply existsb_exists in E as ([rt o] & Hin%list_elem_of_In & Hrt%bool_decide_eq_true).
    simpl in Hrt. subst rt. apply elem_of_range in Hin. by eexists.
  - intros m m'. apply keyed_dom.
  - intros t. unfold Slurm.Default. apply leads_get_kc. intros k Hk. apply leads_range_of.
    intros es Hes. apply leads_set_kc. apply ready_rename; [done| |done].
    intros keys. apply needs_rename_kept, Hk.
  - intros t cm. apply safe_slurm_ReconcileConfigMap.
  - intros t sp ts k tmpl rt i cm. apply safe_slurm_SetClusterSpec.
  - intros sp ts rt spec. apply safe_slurm_UpdateClusterStatus.
Qed.
End slurm.

(** ** The PBS Pro schema *)

Section pbspro.
Context {K : K8s} {KL : K8sLaws K} {ES : ExpStore} {SL : ExpStoreLaws ES} {AS : ApiServer}
  {RT : GoRuntime} {RTL : GoRuntimeLaws RT}.
Context {admissible : KubeCluster → Prop} {group : PodGroup → Prop}
  {SV : SafeServer admissible group}.
Context (init_containers : string → res (list Container))
  (init_ok : ∀ a, init_containers a ≠ Panic ∧ init_containers a ≠ Ok []).

(** The number of servers is read before it is defaulted. *)
Definition pbs_admits (k : KubeCluster) : Prop :=
  ∀ spec, sp_ClusterReplicaSpec (kc_Spec k) !! SchemaReplicaTypeServer = Some (Some spec) →
    is_Some (r_Replicas spec).

Notation ready_t := (is_ready (λ _, True)).

Lemma pbs_validate_no_panic k :
  pbs_admits k → map_Forall (λ _ o, is_Some o) (sp_ClusterReplicaSpec (kc_Spec k)) →
  Pbspro.ValidateV1KubeCluster k ≠ Panic.
Proof using RTL.
  intros Hk Hall. unfold Pbspro.ValidateV1KubeCluster.
  assert (∀ e, e ∈ range 0 (sp_ClusterReplicaSpec (kc_Spec k)) →
    sp_ClusterReplicaSpec (kc_Spec k) !! e.1 = Some e.2) as He.
  { intros [rt o] Hin. by apply elem_of_range in Hin. }
  induction (range 0 _) as [|[rt o] es IH]; simpl; [done|].
  case_decide as Hrt; [apply IH; intros; apply He; by right|].
  assert (rt = SchemaReplicaTypeServer) as -> by (destruct (decide (rt = SchemaReplicaTypeServer)); congruence).
  pose proof (He (SchemaReplicaTypeServer, o) ltac:(left)) as Ho. simpl in Ho.
  destruct (Hall _ _ Ho) as [spec ->]. destruct (Hk spec Ho) as [n Hn]. simpl. rewrite Hn. simpl. by case_decide.
Qed.

Lemma safe_pbs_ReconcileConfigMap t cm : safe (ready_t t) (Pbspro.ReconcileConfigMap cm).
Proof using RTL.
  unfold Pbspro.ReconcileConfigMap. case_match; [by apply leads_ret|].
  apply leads_get_kc. intros k Hk. leads_part; [|by apply leads_ret].
  destruct (_ !! ServerEntrypoint); [by apply leads_ret|]. leads_part; [|by apply leads_ret].
  unfold genPBSServerEntrypoint. apply leads_range_of. intros es Hes.
  apply leads_lift; [done| |intros names _; by apply leads_ret].
  apply result_foldl_no_panic. intros acc [rt o] Hin.
  destruct (ready_entry _ _ _ _ _ _ Hk Hes Hin) as [(spec & n & -> & Hn & _) _].
  unfold node_names. simpl. by rewrite Hn.
Qed.

Lemma safe_pbs_SetClusterSpec Φ k tmpl rt i cm :
  safe Φ (Pbspro.SetClusterSpec init_containers k tmpl rt i cm).
Proof using init_ok.
  unfold Pbspro.SetClusterSpec. apply leads_lift; [done| |intros tmpl' _; by apply leads_ret].
  unfold Pbspro.setInitContainer. destruct (init_ok (server_name k)) as [H1 H2].
  destruct (init_containers _) as [[|c cs]|e|]; simpl; done.
Qed.

Lemma safe_pbs_UpdateClusterStatus sp ts rt spec :
  rt ∈ ts → safe (running sp ts) (Pbspro.UpdateClusterStatus rt spec).
Proof using Type.
  intros Hrt. unfold Pbspro.UpdateClusterStatus. apply leads_get_kc. intros k [_ Hk].
  destruct (Hk rt Hrt) as [rs Hrs]. rewrite Hrs. leads_step. leads_part; [leads_auto|]. leads_auto.
Qed.

Lemma safe_pbs_Default t : safe (ready_t t) Pbspro.Default.
Proof using RTL KL SL.
  unfold Pbspro.Default. apply leads_get_kc. intros k Hk. apply leads_range_of. intros es Hes.
  set (k1 := KubeCluster_set_Spec _ k).
  assert (ready_t t k1) as Hk1 by by apply (ready_rename (λ _, True)).
  eapply leads_seq; [apply (leads_set_kc _ (λ k', ready_t t k' ∧
    dom (sp_ClusterReplicaSpec (kc_Spec k')) = dom (sp_ClusterReplicaSpec (kc_Spec k1)))); done|].
  intros _ _. apply leads_range_of. intros es' Hes'.
  eapply leads_weaken; [apply (safe_map_templates (λ _, True)); [done| |exact Hk1|exact Hes']|done| |
    by intros ? []|done].
  - apply set_pbs_ports_total.
  - by intros ? [].
Qed.

Lemma pbs_safe : SchemaSafe pbs_admits (λ _, True) (NewpbsproClusterReconciler init_containers).
Proof using RTL KL SL init_ok.
  split; simpl; try done.
  - intros k. apply pbs_validate_no_panic.
  - intros t. apply safe_pbs_Default.
  - intros t cm. apply safe_pbs_ReconcileConfigMap.
  - intros. apply safe_pbs_SetClusterSpec.
  - intros sp ts rt spec. apply safe_pbs_UpdateClusterStatus.
Qed.
End pbspro.
