(* ===== verification/InitContainers.v ===== *)
(** * The init container of the pods

    initContainer.go and config.go of both schemas, which differ in their constants:
    the template of the deployment, or the default one, is filled in by html/template
    and decoded from YAML. Of html/template the default templates use literal text
    and fields only; what it makes of any other template, and what YAML decodes to,
    are parameters. *)

From S2P Require Import Prelude K8s Api Defaults Names Expectations Core World Control.
From S2P Require Import Schema Controller Reconciler ServicePlan SchemaLib Slurm Pbspro.

(** ** html/template *)

(** The struct the template is executed on. *)
Record init_params := { ip_MasterAddr : string; ip_InitContainerImage : string; ip_MaxTries : Z }.

Inductive field := FMasterAddr | FInitContainerImage | FMaxTries.
Inductive piece := Literal (s : string) | Field (f : field).

Definition field_source (f : field) : string :=
  match f with
  | FMasterAddr => "{{.MasterAddr}}"
  | FInitContainerImage => "{{.InitContainerImage}}"
  | FMaxTries => "{{.MaxTries}}"
  end.
Definition field_value (p : init_params) (f : field) : string :=
  match f with
  | FMasterAddr => ip_MasterAddr p
  | FInitContainerImage => ip_InitContainerImage p
  | FMaxTries => Itoa (ip_MaxTries p)
  end.

(** A value in the text of a page. *)
Definition html_char (c : ascii) : string :=
  if decide (c = "034"%char) then "&#34;" else if decide (c = "'"%char) then "&#39;"
  else if decide (c = "&"%char) then "&amp;" else if decide (c = "+"%char) then "&#43;"
  else if decide (c = "<"%char) then "&lt;" else if decide (c = ">"%char) then "&gt;"
  else if decide (c = "000"%char) then String "239" (String "191" (String "189" ""))
  else String c "".
Fixpoint html_escape (s : string) : string :=
  match s with EmptyString => "" | String c s => html_char c +:+ html_escape s end.

Definition source (ps : list piece) : string :=
  foldr (λ q s, match q with Literal l => l | Field f => field_source f end +:+ s) "" ps.
Definition filled_in (p : init_params) (ps : list piece) : string :=
  foldr (λ q s, match q with Literal l => l | Field f => html_escape (field_value p f) end +:+ s) "" ps.

(** Text that starts neither an action nor a tag. *)
Definition literal_ok (q : piece) : Prop :=
  match q with Literal s => has_char "{" s = false ∧ has_char "<" s = false | Field _ => True end.

Class Templates `{K8s} := {
  (** [Parse] and [Execute], into a buffer *)
  tpl_Execute : string → init_params → error + string;
  yaml_Unmarshal : string → error + list Container
}.

Class TemplatesLaws `{K8s} (T : Templates) : Prop := {
  tpl_simple ps p : Forall literal_ok ps → tpl_Execute (source ps) p = inr (filled_in p ps)
}.

(** What a call returns. *)
Definition returned `{K8s} {A} (r : error + A) : res A :=
  match r with inl e => Err e | inr a => Ok a end.

(** ** initContainer.go *)

Record init_config := { cf_TemplateFile : string; cf_Image : string; cf_MaxTries : Z }.
Record initContainerGenerator := { ig_template : string; ig_image : string; ig_maxTries : Z }.

Section generator.
Context {K : K8s} {T : Templates}.
Context (initContainerTemplate : string) (ReadFile : string → option string) (config : init_config).

Definition getInitContainerTemplateOrDefault (file : string) : string :=
  match ReadFile file with Some b => b | None => initContainerTemplate end.

(** [once] is what an earlier call has left. *)
Definition getInitContainerGenerator (once : option initContainerGenerator) : initContainerGenerator :=
  match once with
  | Some icGenerator => icGenerator
  | None => {| ig_template := getInitContainerTemplateOrDefault (cf_TemplateFile config);
               ig_image := cf_Image config; ig_maxTries := cf_MaxTries config |}
  end.

Definition GetInitContainer (i : initContainerGenerator) (masterAddr : string) : res (list Container) :=
  let! buf := returned (tpl_Execute (ig_template i)
    {| ip_MasterAddr := masterAddr; ip_InitContainerImage := ig_image i; ip_MaxTries := ig_maxTries i |}) in
  let! result := returned (yaml_Unmarshal buf) in
  Ok (if decide (1 < length result)%nat then take 1 result else result).

(** What [setInitContainer] has for an address. *)
Definition initContainers (once : option initContainerGenerator) (masterAddr : string) :
    res (list Container) :=
  GetInitContainer (getInitContainerGenerator once) masterAddr.
End generator.

(** The template in use gives at least one container. *)
Definition gives_containers `{K8s} {T : Templates} (i : initContainerGenerator) : Prop :=
  ∀ masterAddr, GetInitContainer i masterAddr ≠ Ok [].

Lemma GetInitContainer_ok `{K8s} {T : Templates} i masterAddr :
  gives_containers i → GetInitContainer i masterAddr ≠ Panic ∧ GetInitContainer i masterAddr ≠ Ok [].
Proof.
  intros Hi. split; [|apply Hi]. unfold GetInitContainer.
  destruct (tpl_Execute _ _) as [e|buf]; [done|]. cbn [returned result_bind].
  by destruct (yaml_Unmarshal buf).
Qed.

(** The default template with the name of its container. *)
Definition default_pieces (name : string) : list piece :=
  [Literal (nl +:+ "- name: " +:+ name +:+ nl +:+ "  image: "); Field FInitContainerImage;
   Literal (nl +:+ "  imagePullPolicy: IfNotPresent" +:+ nl +:+ "  resources:" +:+ nl
     +:+ "    limits:" +:+ nl +:+ "      cpu: 100m" +:+ nl +:+ "      memory: 20Mi" +:+ nl
     +:+ "    requests:" +:+ nl +:+ "      cpu: 50m" +:+ nl +:+ "      memory: 10Mi" +:+ nl
     +:+ "  command: ['sh', '-c', 'err=1;for i in $(seq "); Field FMaxTries;
   Literal "); do if nslookup "; Field FMasterAddr;
   Literal "; then err=0 && break; fi;echo waiting for master; sleep 2; done; exit $err']"].

Module SlurmInit.
Definition InitContainerImageDefault : string :=
  "registry.cn-shanghai.aliyuncs.com/eflops-bcp/slurm-minimal:v1".
Definition InitContainerTemplateFileDefault : string := "/etc/config/initContainer.yaml".
Definition InitContainerMaxTriesDefault : Z := 100.
Definition config : init_config := {| cf_TemplateFile := InitContainerTemplateFileDefault;
  cf_Image := InitContainerImageDefault; cf_MaxTries := InitContainerMaxTriesDefault |}.
Definition initContainerTemplate : string := source (default_pieces "init-slurm").
End SlurmInit.

Module PbsproInit.
Definition InitContainerImageDefault : string :=
  "registry.cn-shanghai.aliyuncs.com/eflops-bcp/pbs-minimal:v1".
Definition InitContainerTemplateFileDefault : string := "/etc/config/initContainer.yaml".
Definition InitContainerMaxTriesDefault : Z := 100.
Definition config : init_config := {| cf_TemplateFile := InitContainerTemplateFileDefault;
  cf_Image := InitContainerImageDefault; cf_MaxTries := InitContainerMaxTriesDefault |}.
Definition initContainerTemplate : string := source (default_pieces "init-pbspro").
End PbsproInit.

(** ** Lemmas *)

(** A byte that stands for itself in a page. *)
Definition html_plain (s : string) : Prop := ∀ c, has_char c s = true → html_char c = String c "".

Lemma html_plain_app s t : html_plain s → html_plain t → html_plain (s +:+ t).
Proof. intros Hs Ht c. rewrite has_char_app. intros [?|?]%orb_true_iff; auto. Qed.

Lemma has_char_map f s c : has_char c (string_map f s) = true → ∃ d, has_char d s = true ∧ f d = c.
Proof.
  induction s as [|d s IH]; simpl; [done|].
  intros [->%bool_decide_eq_true|(e & He & <-)%IH]%orb_true_iff.
  - exists d. by rewrite bool_decide_true.
  - exists e. by rewrite He, orb_true_r.
Qed.

Lemma html_escape_plain s : html_plain s → html_escape s = s.
Proof.
  induction s as [|c s IH]; simpl; [done|]. intros Hs.
  rewrite (Hs c), IH; [done| |by simpl; rewrite bool_decide_true].
  intros d Hd. apply Hs. simpl. by rewrite Hd, orb_true_r.
Qed.

Lemma html_plain_Itoa z : html_plain (Itoa z).
Proof.
  intros c Hc. apply Itoa_chars in Hc as [[d Hd] | ->]; [|done]. unfold html_char.
  repeat (case_decide; [by subst|]). done.
Qed.

(** The name of a replica of a cluster. *)
Lemma html_plain_GenGeneralName name rt i :
  html_plain name → html_plain (ToLower rt) → html_plain (GenGeneralName name rt (Itoa i)).
Proof.
  intros Hn Hrt c (d & Hd & <-)%has_char_map. case_decide as Hs; [done|]. revert d Hd Hs.
  assert (html_plain (name +:+ "-" +:+ ToLower rt +:+ "-" +:+ Itoa i)) as Hp; [|intros d Hd _; by apply Hp].
  repeat apply html_plain_app; try done; try apply html_plain_Itoa;
    intros c; simpl; rewrite orb_false_r; by intros ->%bool_decide_eq_true.
Qed.

(** A literal that stands for itself. *)
Fixpoint all_plain (s : string) : bool :=
  match s with
  | EmptyString => true
  | String c s => bool_decide (html_char c = String c "") && all_plain s
  end.
Lemma html_plain_forall s : all_plain s = true → html_plain s.
Proof.
  induction s as [|d s IH]; simpl; [done|]. intros [Hd%bool_decide_eq_true Hs%IH]%andb_true_iff c.
  simpl. intros [->%bool_decide_eq_true|?]%orb_true_iff; [done|by apply Hs].
Qed.
Ltac by_plain := apply html_plain_forall; reflexivity.

(** ** Properties *)

(** The text that YAML decodes when the default template is used: an init container
    that waits until [addr] is a name of the network. *)
Definition waiting_text (name image : string) (tries : Z) (addr : string) : string :=
  nl +:+ "- name: " +:+ name +:+ nl +:+ "  image: " +:+ image
  +:+ nl +:+ "  imagePullPolicy: IfNotPresent" +:+ nl +:+ "  resources:" +:+ nl
  +:+ "    limits:" +:+ nl +:+ "      cpu: 100m" +:+ nl +:+ "      memory: 20Mi" +:+ nl
  +:+ "    requests:" +:+ nl +:+ "      cpu: 50m" +:+ nl +:+ "      memory: 10Mi" +:+ nl
  +:+ "  command: ['sh', '-c', 'err=1;for i in $(seq " +:+ Itoa tries +:+ "); do if nslookup " +:+ addr
  +:+ "; then err=0 && break; fi;echo waiting for master; sleep 2; done; exit $err']".

Section waiting.
Context {K : K8s} {ES : ExpStore} {AS : ApiServer} {RT : GoRuntime} {T : Templates} {TL : TemplatesLaws T}.

Lemma default_text name config ReadFile addr :
  has_char "{" name = false → has_char "<" name = false →
  html_plain (cf_Image config) → html_plain addr → ReadFile (cf_TemplateFile config) = None →
  initContainers (source (default_pieces name)) ReadFile config None addr =
  let! cs := returned (yaml_Unmarshal (waiting_text name (cf_Image config) (cf_MaxTries config) addr)) in Ok (take 1 cs).
Proof.
  intros Hn1 Hn2 Himg Haddr Hfile. unfold initContainers, getInitContainerGenerator,
    getInitContainerTemplateOrDefault, GetInitContainer. rewrite Hfile. cbn [ig_template ig_image ig_maxTries].
  rewrite tpl_simple.
  - cbn [returned result_bind]. unfold filled_in, default_pieces.
    cbn [foldr field_value ip_MasterAddr ip_InitContainerImage ip_MaxTries].
    rewrite !html_escape_plain by (done || apply html_plain_Itoa).
    assert (∀ s : string, s +:+ "" = s) as Hnil by apply string_app_nil_r.
    unfold waiting_text. rewrite Hnil, !string_app_assoc.
    destruct (yaml_Unmarshal _) as [e|cs]; [done|]. cbn [returned result_bind]. f_equal.
    case_decide; [done|]. destruct cs as [|c [|d cs]]; [done..|simpl in *; lia].
  - unfold default_pieces. repeat constructor; simpl; rewrite ?has_char_app, ?Hn1, ?Hn2; by_vm.
Qed.

(** C25 (pods wait for the service of the controller). Without a template file, the init
    container of every pod of a slurm cluster is the one that YAML gives for a text
    which waits for exactly the name of the service of the controller's first replica,
    and in a PBS Pro cluster of the server's: html/template escapes nothing. When YAML
    gives no container at all, the first one is looked at all the same, and setting the
    pod up panics. *)
Theorem init_container_waits (ReadFile : string → option string) (config : init_config) (kc : KubeCluster)
    (cc : ClusterController) (ports : gmap string Z) (s : Service) (t : PodTemplateSpec) (rtype : ReplicaType) :
  html_plain (om_Name (kc_Meta kc)) → html_plain (cf_Image config) →
  ReadFile (cf_TemplateFile config) = None →
  let decoded name :=
    returned (yaml_Unmarshal (waiting_text name (cf_Image config) (cf_MaxTries config) (om_Name (svc_Meta s)))) in
  (service_of cc kc SchemaReplicaTypeController (Itoa 0) ports s →
   Slurm.setInitContainer (initContainers SlurmInit.initContainerTemplate ReadFile config None) kc t rtype =
     Slurm.setInitContainer (λ _, decoded "init-slurm") kc t rtype ∧
   (decoded "init-slurm" = Ok [] →
    Slurm.setInitContainer (initContainers SlurmInit.initContainerTemplate ReadFile config None) kc t rtype = Panic)) ∧
  (service_of cc kc SchemaReplicaTypeServer (Itoa 0) ports s →
   Pbspro.setInitContainer (initContainers PbsproInit.initContainerTemplate ReadFile config None) kc t rtype =
     Pbspro.setInitContainer (λ _, decoded "init-pbspro") kc t rtype ∧
   (decoded "init-pbspro" = Ok [] →
    Pbspro.setInitContainer (initContainers PbsproInit.initContainerTemplate ReadFile config None) kc t rtype = Panic)).
Proof.
  intros Hn Himg Hfile decoded. split; intros Hs; pose proof (so_name _ _ _ _ _ _ Hs) as Hname;
    unfold Slurm.setInitContainer, Pbspro.setInitContainer, server_name, SlurmInit.initContainerTemplate,
      PbsproInit.initContainerTemplate, decoded.
  - rewrite default_text, Hname by (done || (apply html_plain_GenGeneralName; [done|by_plain])).
    split.
    + destruct (yaml_Unmarshal _) as [e|cs]; [done|]. cbn [returned result_bind]. by rewrite take_take.
    + by intros ->.
  - rewrite default_text, Hname by (done || (apply html_plain_GenGeneralName; [done|by_plain])).
    split.
    + destruct (yaml_Unmarshal _) as [e|cs]; [done|]. cbn [returned result_bind]. by rewrite take_take.
    + by intros ->.
Qed.
End waiting.

(** *** A template engine *)
Module SampleTemplates.
Import Sample MemServer SampleController.

(** The text byte by byte; [skip] bytes belong to a field that has been filled in. *)
Fixpoint render (p : init_params) (skip : nat) (s : string) : string :=
  match s with
  | EmptyString => ""
  | String c r =>
      match skip with
      | S skip => render p skip r
      | O =>
          if String.prefix "{{.MasterAddr}}" s then html_escape (ip_MasterAddr p) +:+ render p 14 r
          else if String.prefix "{{.InitContainerImage}}" s then
            html_escape (ip_InitContainerImage p) +:+ render p 22 r
          else if String.prefix "{{.MaxTries}}" s then html_escape (Itoa (ip_MaxTries p)) +:+ render p 12 r
          else String c (render p 0 r)
      end
  end.

Lemma prefix_cons_ne c d p s : c ≠ d → String.prefix (String c p) (String d s) = false.
Proof. intros Hne. simpl. by destruct (ascii_dec c d). Qed.

Lemma render_literal p s rest : has_char "{" s = false → render p 0 (s +:+ rest) = s +:+ render p 0 rest.
Proof.
  induction s as [|c s IH]; [done|]. cbn [has_char]. intros [Hc%bool_decide_eq_false Hs]%orb_false_iff.
  cbn [String.append render]. rewrite !prefix_cons_ne by done. by rewrite IH.
Qed.

Lemma render_field p f r : render p 0 (field_source f +:+ r) = html_escape (field_value p f) +:+ render p 0 r.
Proof.
  pose proof (prefix_app (field_source f) r) as Hp. destruct f; simpl field_source in *;
    cbn [String.append render]; cbn [String.append] in Hp; by rewrite Hp.
Qed.

(** One container that runs the text. *)
#[export] Instance engine : Templates := {
  tpl_Execute s p := inr (render p 0 s);
  yaml_Unmarshal s := inr [Container_set_Command [s] container]
}.
#[export] Instance engine_laws : TemplatesLaws engine.
Proof.
  split. intros ps p Hps. simpl. f_equal. induction Hps as [|q ps Hq _ IH]; [done|].
  unfold source, filled_in in *. cbn [foldr]. rewrite <-IH. destruct q as [s|f].
  - destruct Hq. by apply render_literal.
  - apply render_field.
Qed.

Definition controller_service : Service := {|
  svc_Meta := om_set_OwnerReferences [GenOwnerReference controller meta]
    (om_set_Labels (service_labels cluster "Controller" "0") (om_set_Name "c1-controller-0" ObjectMeta_zero));
  svc_ClusterIP := "None"; svc_Selector := service_labels cluster "Controller" "0"; svc_Ports := [] |}.

Lemma init_container_waits_witness :
  Slurm.setInitContainer (initContainers SlurmInit.initContainerTemplate (λ _, None) SlurmInit.config None)
    cluster template "Worker" =
  Slurm.setInitContainer (λ _, returned (yaml_Unmarshal (waiting_text "init-slurm" SlurmInit.InitContainerImageDefault 100
    "c1-controller-0"))) cluster template "Worker".
Proof.
  destruct (init_container_waits (TL := engine_laws) (λ _, None) SlurmInit.config cluster controller ∅
    controller_service template "Worker") as [Hs _].
  - by_plain.
  - by_plain.
  - reflexivity.
  - destruct Hs as [Heq _]; [by split|exact Heq].
Defined.
End SampleTemplates.
