(* ===== verification/SafetyMain.v ===== *)
(** * The operator never panics

    The parts of the controller that main sets up keep the promises of Safety.v: the
    controls that talk to the API server, the reconciler, and the two schemas. The
    theorem is about the system of StatusInv.v: in every state that reconciliations,
    events, requests of other clients and restarts lead to, no reconciliation panics. *)

From S2P Require Import Prelude K8s Api Defaults Names Status Expectations Core Quota World Control.
From S2P Require Import Schema Controller Reconciler PodPlan Events Lifecycle Triples Safety.
From S2P Require Import SchemaLib Slurm SlurmSpec Pbspro PbsproSpec SafetySchemas Main StatusInv InitContainers.

(** ** The controls and the reconciler *)

Section controls.
Context {K : K8s} {KL : K8sLaws K} {ES : ExpStore} {SL : ExpStoreLaws ES} {AS : ApiServer}
  {RT : GoRuntime} {RTL : GoRuntimeLaws RT}.
Context {admissible : KubeCluster → Prop} {group : PodGroup → Prop}
  {SV : SafeServer admissible group}.

(** A request that says nothing of labels or pod groups, of whose answer nothing is
    needed. *)
Lemma safe_api {A} Φ (q : ApiReq A) : safe_call group (Call q) → safe Φ (api q).
Proof. intros Hq. by apply keeps_api. Qed.

Lemma ValidateControllerRef_no_panic ref : ValidateControllerRef ref ≠ Panic.
Proof. unfold ValidateControllerRef. repeat case_match; done. Qed.

Lemma indexed_meta_ok {A} `{HasMeta A} (x : A) : indexed_meta (meta_of x) → index_ok x.
Proof.
  intros (i & Hi & Hr) j. unfold label_index, ReplicaIndex. rewrite Hi, Atoi_Itoa by (unfold in_int64; lia).
  by intros [= <-].
Qed.
End controls.

#[export] Hint Extern 1 (leads _ _ _ (api _) _) => apply safe_api; exact I : safe.
#[export] Hint Extern 1 (leads _ _ _ (api (GetPodGroupReq _ _)) _) =>
  apply keeps_api; [exact I|intros ? ? ?; apply sv_podgroup] : safe.

Section reconciler.
Context {K : K8s} {KL : K8sLaws K} {ES : ExpStore} {SL : ExpStoreLaws ES} {AS : ApiServer}
  {RT : GoRuntime} {RTL : GoRuntimeLaws RT}.
Context {admissible : KubeCluster → Prop} {group : PodGroup → Prop}
  {SV : SafeServer admissible group}.
Context {admits : ClusterType → KubeCluster → Prop}
  {needs : ClusterType → gmap string (option ReplicaSpec) → Prop}.

Lemma safe_CreatePods Φ ns t ref :
  indexed_meta (pt_Meta t) → safe Φ (RealPodControl_CreatePodsWithControllerRef ns t ref).
Proof.
  intros Ht. unfold RealPodControl_CreatePodsWithControllerRef.
  apply leads_lift; [done|apply ValidateControllerRef_no_panic|intros _ _].
  unfold createPods. rewrite (decide_True (P := "" = "")) by done.
  case_decide; [by apply leads_fail|].
  eapply leads_bind; [apply keeps_try, safe_api|done|intros r _; leads_auto].
  apply indexed_meta_ok. destruct Ht as (i & Hi & Hr). exists i. split; [|done].
  simpl. by rewrite getPodsLabelSet_eq.
Qed.

Lemma safe_CreateServices Φ ns v ref :
  indexed_meta (svc_Meta v) → safe Φ (RealServiceControl_CreateServicesWithControllerRef ns v ref).
Proof.
  intros Hv. unfold RealServiceControl_CreateServicesWithControllerRef.
  apply leads_lift; [done|apply ValidateControllerRef_no_panic|intros _ _].
  unfold createServices. case_decide; [by apply leads_fail|].
  eapply leads_bind; [apply keeps_try, safe_api|done|intros r _; leads_auto].
  by apply indexed_meta_ok.
Qed.

Lemma safe_CreateConfigMap Φ ns c ref :
  safe Φ (RealConfigMapControl_CreateConfigMapWithControllerRef ns c ref).
Proof.
  unfold RealConfigMapControl_CreateConfigMapWithControllerRef.
  apply leads_lift; [done|apply ValidateControllerRef_no_panic|intros _ _].
  unfold createConfigMap. leads_auto.
Qed.

Lemma safe_UpdateConfigMapInApiServer nd t c :
  safe (is_ready nd t) (UpdateConfigMapInApiServer RealConfigMapControl c).
Proof.
  unfold UpdateConfigMapInApiServer. leads_part.
  { unfold clear_kc. apply leads_get_kc. intros k Hk. by apply leads_set_kc. }
  simpl. leads_auto.
Qed.

Lemma leads_UpdateClusterStatusInApiServer Φ :
  leads Φ anything anything UpdateClusterStatusInApiServer (λ _, True).
Proof.
  unfold UpdateClusterStatusInApiServer, clear_kc. eapply leads_seq.
  { apply leads_get_kc. intros k _. by apply leads_set_kc with (Ψ := anything). }
  intros _ _. leads_step. leads_step. by apply leads_set_kc.
Qed.

Lemma safe_UpdateClusterStatus schemas t s sp ts :
  schemas !! t = Some s → SchemaSafe (admits t) (needs t) s → sp_ClusterType sp = t →
  (∀ rt, is_Some (sp_ClusterReplicaSpec sp !! rt) → rt ∈ ts) →
  safe (running sp ts) (Reconciler.UpdateClusterStatus FakeWorkQueue schemas).
Proof.
  intros Hs SF Ht Hall. unfold Reconciler.UpdateClusterStatus.
  apply leads_get_kc. intros k [Hk _]. leads_step. leads_part.
  { destruct (st_StartTime _); [by leads_step|]. leads_step.
    leads_part; [apply leads_modify_status; intros k' [? Hd]; by split|].
    simpl. leads_auto. }
  rewrite Hk, Ht. apply leads_range_of. intros es Hes. apply safe_for_each. intros [rt o] Hin.
  eapply leads_deref; [exact Hs|]. apply (sf_UpdateClusterStatus (SchemaSafe := SF)). apply Hall.
  simpl. rewrite Hes in Hin. apply elem_of_map_to_list in Hin. by eexists.
Qed.
End reconciler.

(** ** Gang scheduling *)

(** The pod groups of the scheduler that is configured. *)
Definition pod_group_of `{K : K8s} (gang : string) (g : PodGroup) : Prop :=
  match g with
  | VolcanoPodGroup _ _ _ => gang = GangSchedulerVolcano
  | SchedulerPluginsPodGroup _ _ => gang ≠ GangSchedulerVolcano
  end.

Section gang.
Context {K : K8s} {KL : K8sLaws K} {ES : ExpStore} {SL : ExpStoreLaws ES} {AS : ApiServer}
  {RT : GoRuntime} {RTL : GoRuntimeLaws RT}.
Context {admissible : KubeCluster → Prop} (gang : string)
  {SV : SafeServer admissible (pod_group_of gang)}.

Lemma volcano_safe : gang = GangSchedulerVolcano → PodGroupSafe VolcanoControl.
Proof using Type.
  intros Hg. split; simpl.
  - intros Φ ns n. leads_auto.
  - intros Φ ns n. leads_auto.
  - intros Φ [m sp ph|m sp] Hgr; simpl in *; [|congruence].
    eapply leads_bind; [apply keeps_try, safe_api; exact Hg|done|intros r _; leads_auto].
  - intros Φ [m sp ph|m sp] Hgr; simpl in *; [|congruence].
    eapply leads_bind; [apply keeps_try, safe_api; exact Hg|done|intros r _; leads_auto].
  - intros [[m sp ph|m sp]|] Ho; simpl; [done| |done]. by specialize (Ho _ eq_refl).
Qed.

Lemma scheduler_plugins_safe name :
  gang ≠ GangSchedulerVolcano → PodGroupSafe (SchedulerPluginsControl name).
Proof using Type.
  intros Hg. split; simpl.
  - intros Φ ns n. leads_auto.
  - intros Φ ns n. leads_auto.
  - intros Φ [m sp ph|m sp] Hgr; simpl in *; [congruence|].
    eapply leads_bind; [apply keeps_try, safe_api; exact Hg|done|intros r _; leads_auto].
  - intros Φ [m sp ph|m sp] Hgr; simpl in *; [congruence|].
    eapply leads_bind; [apply keeps_try, safe_api; exact Hg|done|intros r _; leads_auto].
  - done.
Qed.
End gang.

(** ** The controller of main *)

(** What the schema of a type asks of a valid KubeCluster, and needs of a ready one. *)
Definition admits_of `{K : K8s} (t : ClusterType) : KubeCluster → Prop :=
  if decide (t = Pbspro.ClusterSchemaKind) then pbs_admits else λ _, True.
Definition needs_of `{K : K8s} (t : ClusterType) : gmap string (option ReplicaSpec) → Prop :=
  if decide (t = Slurm.ClusterSchemaKind) then slurm_needs else λ _, True.

Section main.
Context {K : K8s} {KL : K8sLaws K} {QF : QuantityFormat} {QFL : QuantityFormatLaws QF}
  {ES : ExpStore} {SL : ExpStoreLaws ES} {AS : ApiServer} {RT : GoRuntime} {RTL : GoRuntimeLaws RT}
  {GR : GoRand}.
Context (valid : gmap string string → bool) (lister : string → option Z)
  (slurm_init pbs_init : string → res (list Container)) (fuel : nat).
Context (slurm_ok : ∀ a, slurm_init a ≠ Panic ∧ slurm_init a ≠ Ok [])
  (pbs_ok : ∀ a, pbs_init a ≠ Panic ∧ pbs_init a ≠ Ok []).

(** The scheduler in use, for the value of the flag. *)
Definition gang_of (gangSchedulerName : string) : string :=
  if EqualFold gangSchedulerName GangSchedulerVolcano then GangSchedulerVolcano
  else gangSchedulerName.

Context {admissible : KubeCluster → Prop} (name : string)
  {SV : SafeServer admissible (pod_group_of (gang_of name))}.

Lemma supported_safe t s :
  SupportedClusterSchemaReconciler valid slurm_init pbs_init fuel !! t = Some s →
  SchemaSafe (admits_of t) (needs_of t) s.
Proof using KL QFL SL RTL slurm_ok pbs_ok.
  unfold SupportedClusterSchemaReconciler, admits_of, needs_of.
  intros [[<- <-]|[_ [<- <-]%lookup_singleton_Some]]%lookup_insert_Some.
  - rewrite decide_False, decide_True by done. by apply slurm_safe.
  - rewrite decide_True, decide_False by done. by apply pbs_safe.
Qed.

Lemma gang_parts :
  let cc := NewReconciler valid lister (gang_setup_of name) in
  cc = cc_set_Gang (cc_GangScheduling cc) (cc_PodGroupControl cc) (NewReconciler valid lister id) ∧
  (EnableGangScheduling cc = true →
     cc_GangScheduling cc = gang_of name ∧
     ∃ pg, cc_PodGroupControl cc = Some pg ∧ PodGroupSafe pg).
Proof using SV.
  clear QFL slurm_ok pbs_ok. intros cc. unfold cc, gang_setup_of, gang_of in *.
  destruct (EqualFold name GangSchedulerVolcano) eqn:E; [|case_decide as Hn]; (split; [done|]).
  - intros _. split; [done|]. eexists. split; [done|]. by apply volcano_safe with (gang := GangSchedulerVolcano) (SV := SV).
  - intros _. split; [done|]. eexists. split; [done|].
    apply scheduler_plugins_safe with (gang := name) (SV := SV). intros ->. by vm_compute in E.
  - done.
Qed.

Lemma NewReconciler_safe schemas :
  (∀ t s, schemas !! t = Some s → SchemaSafe (admits_of t) (needs_of t) s) →
  ControllerSafe admits_of needs_of
    (cc_set_Schemas schemas (NewReconciler valid lister (gang_setup_of name))).
Proof using KL SL RTL SV.
  clear QFL slurm_ok pbs_ok. intros Hs. destruct gang_parts as [Hcc Hgang]. rewrite Hcc.
  set (base := NewReconciler valid lister (gang_setup_of name)) in *.
  split; simpl.
  - intros. by apply safe_CreatePods.
  - intros. unfold RealPodControl_DeletePod. leads_auto.
  - intros. by apply safe_CreateServices.
  - intros. unfold RealServiceControl_DeleteService. leads_auto.
  - intros. apply safe_CreateConfigMap.
  - intros. unfold RealConfigMapControl_DeleteConfigMap. leads_auto.
  - apply Hgang.
  - intros a b c d e g g' Hen. destruct (Hgang Hen) as [Hg _]. rewrite Hg.
    unfold pgSpecFill. simpl.
    case_decide; destruct g; by intros [= <-].
  - exact Hs.
  - intros Φ. unfold GetPodsForCluster. leads_step. case_match; [by apply leads_fail|].
    eapply leads_bind; [apply keeps_api with (Q := λ l, ∀ p, p ∈ l → index_ok p); [exact I|]|done|].
    { intros s1 s2 l. apply sv_pods. }
    intros l Hl. apply leads_ret; [done|]. intros p [_ Hp]%list_elem_of_filter. by apply Hl.
  - intros Φ. unfold GetServicesForCluster. leads_step. case_match; [by apply leads_fail|].
    eapply leads_bind; [apply keeps_api with (Q := λ l, ∀ p, p ∈ l → index_ok p); [exact I|]|done|].
    { intros s1 s2 l. apply sv_services. }
    intros l Hl. by apply leads_ret.
  - intros Φ. unfold GetConfigMapForCluster. leads_auto.
  - intros Φ ns n. unfold GetClusterFromInformerCache. leads_auto.
  - intros Φ. unfold DeleteCluster, metrics_DeletedclustersCounterInc, inc_labels. leads_auto.
  - intros Φ. apply leads_UpdateClusterStatusInApiServer.
  - intros t s sp ts Ht.
    apply (safe_UpdateClusterStatus (admits := admits_of) (needs := needs_of) _ t s); [done|by apply Hs].
  - intros t c. apply safe_UpdateConfigMapInApiServer.
  - intros. by apply leads_ret.
Qed.
End main.

(** ** The system *)

Section system.
Context {K : K8s} {KL : K8sLaws K} {QF : QuantityFormat} {QFL : QuantityFormatLaws QF}
  {ES : ExpStore} {SL : ExpStoreLaws ES} {AS : ApiServer} {RT : GoRuntime} {RTL : GoRuntimeLaws RT}
  {GR : GoRand}.

(** A state the operator can be in: the labels, pod groups and KubeClusters of the
    server are in order, and the expectations are those that calls led to. *)
Definition sys_ok {admissible group} {SV : SafeServer admissible group} (w : World) : Prop :=
  sv_ok (w_srv w) ∧ exp_ok w.

Section steps.
Context {group : PodGroup → Prop} {admits : ClusterType → KubeCluster → Prop}
  {needs : ClusterType → gmap string (option ReplicaSpec) → Prop} (cc : ClusterController).
Context {SV : SafeServer (acceptable (admits := admits) cc) group} {CS : ControllerSpec cc}
  {CF : ControllerSafe admits needs cc}.

Lemma sys_ok_inv w : sys_ok w ↔ inv anything w.
Proof using Type. split; [by intros [? ?]|by intros [? ? _]]. Qed.

Lemma leads_sys_ok {A} (m : M A) :
  leads anything anything anything m (λ _, True) → ∀ w, sys_ok w → sys_ok (m w).1 ∧ (m w).2 ≠ Panic.
Proof using Type.
  intros Hm w Hw%sys_ok_inv. specialize (Hm w Hw). rewrite sys_ok_inv.
  destruct (m w) as [w' [a|e|]]; [by destruct Hm|done|done].
Qed.

Lemma leads_no_panic {A} (m : M A) w :
  leads anything anything anything m (λ _, True) → sys_ok w → (m w).2 ≠ Panic.
Proof using Type. intros Hm Hw. by apply leads_sys_ok. Qed.

Lemma step_sys_ok w w' : sys_step (safe_call group) cc w w' → sys_ok w → sys_ok w'.
Proof using KL SL RTL CS CF.
  intros Hstep Hw. destruct Hstep as [ns name w|wt o w|wt o o' w|wt o w|k w|A q w Hq|w].
  - apply leads_sys_ok; [apply (leads_Reconcile (needs := needs) cc)|done].
  - apply leads_sys_ok; [apply safe_on_create|done].
  - apply leads_sys_ok; [by eapply safe_on_update|done].
  - apply leads_sys_ok; [apply safe_on_delete|done].
  - apply leads_sys_ok; [apply safe_onOwnerCreateFunc|done].
  - destruct Hw as [Hs He]. split; [by apply sv_serve|exact He].
  - destruct Hw as [Hs He]. split; [done|]. intros s. exists []. simpl. by rewrite lookup_empty.
Qed.

Lemma steps_sys_ok w w' : rtc (sys_step (safe_call group) cc) w w' → sys_ok w → sys_ok w'.
Proof using KL SL RTL CS CF.
  induction 1 as [w|w w1 w2 Hstep _ IH]; [done|]. intros Hw. by eapply IH, step_sys_ok.
Qed.
End steps.

Lemma exp_ok_empty w : w_exp w = ∅ → exp_ok w.
Proof using Type. intros Hw s. exists []. by rewrite Hw, lookup_empty. Qed.


Lemma setup_safe valid lister slurm_init pbs_init fuel kinds es gang cc
    {SV : SafeServer (acceptable (admits := admits_of) cc) (pod_group_of (gang_of gang))} :
  (∀ a, slurm_init a ≠ Panic ∧ slurm_init a ≠ Ok []) →
  (∀ a, pbs_init a ≠ Panic ∧ pbs_init a ≠ Ok []) →
  setupController valid lister slurm_init pbs_init fuel kinds es gang = Ok cc →
  ControllerSpec cc ∧ ControllerSafe admits_of needs_of cc.
Proof.
  intros Hslurm Hpbs Hcc.
  destruct (setup_shape valid lister slurm_init pbs_init fuel kinds es gang cc Hcc) as (m & Heq & Hm).
  split; rewrite Heq in *.
  - apply NewReconciler_spec; [apply gang_setup_of_ok|].
    intros t s Hs. by eapply supported_spec, Hm.
  - apply NewReconciler_safe. intros t s Hs. by eapply supported_safe, Hm.
Qed.

End system.

(** ** A server in memory that keeps its promises *)

Module SampleSafety.
Import Sample MemServer SampleSlurm.

(** The seconds of the clock, and a source of zeros. *)
#[export] Instance rand : GoRand := {|
  rand_Intn seed n := (seed / 1000000000) mod n; src_Int63 _ := 0 |}.

Definition fuel : nat := 5000.

#[export] Instance quantity_laws : QuantityFormatLaws (K := K8s_example) quantity_format.
Proof.
  split; [|by eexists]. intros q. unfold q_ParseQuantity, q_String. simpl.
  case_decide; [by eexists|]. exists q. apply parse_signed_Itoa.
Qed.

Section server.
Context (group : PodGroup → Prop) (cc : ClusterController).

Notation acceptable_cc := (acceptable (admits := admits_of) cc).

Record mem_safe (s : state) : Prop := {
  ms_pods : map_Forall (λ _ p, index_ok p) (m_pods s);
  ms_services : map_Forall (λ _ v, index_ok v) (m_services s);
  ms_clusters : map_Forall (λ _ k, acceptable_cc k) (m_clusters s);
  ms_podgroups : map_Forall (λ _ g, group g) (m_podgroups s)
}.

Lemma select_from {A} `{HasMeta A} ns sel (m : gmap string A) (P : A → Prop) x :
  map_Forall (λ _ a, P a) m → x ∈ select ns sel m → P x.
Proof.
  intros Hm [_ Hx]%list_elem_of_filter. apply list_elem_of_fmap in Hx as ([k a] & -> & Hx).
  apply elem_of_map_to_list in Hx. by eapply Hm.
Qed.

Lemma acceptable_status k st : acceptable_cc k → acceptable_cc (KubeCluster_set_Status st k).
Proof.
  intros [H1 H2 H3]. split; [done| |done]. revert H2. unfold admits_of. simpl. by case_decide.
Qed.

Lemma mem_safe_serve {A} (q : ApiReq A) s :
  mem_safe s → safe_call group (Call q) → mem_safe (serve_mem q s).1.
Proof.
  intros [Hp Hv Hk Hg] Hq.
  destruct q; simpl in *; unfold create, update, remove; repeat case_match; try (split; done);
    split; simpl; try done; try (by apply map_Forall_delete); try (apply map_Forall_insert_2; [|done]); try done.
  apply acceptable_status. by eapply Hk.
Qed.

Program Definition mem_server : SafeServer acceptable_cc group := {|
  sv_ok := mem_safe; sv_serve A q s := mem_safe_serve q s |}.
Next Obligation.
  intros ns n s s' k Hs [= _ Hk]. unfold get in Hk. case_match eqn:E; [|done].
  injection Hk as <-. exact (ms_clusters _ Hs _ _ E).
Qed.
Next Obligation. intros ns sel s s' l Hs [= _ <-] p. apply select_from, Hs. Qed.
Next Obligation. intros ns sel s s' l Hs [= _ <-] p. apply select_from, Hs. Qed.
Next Obligation.
  intros ns n s s' g Hs [= _ Hg]. unfold get in Hg. case_match eqn:E; [|done].
  injection Hg as <-. exact (ms_podgroups _ Hs _ _ E).
Qed.

Lemma sample_mem_safe :
  is_Some (GetSchemaReconciler cc "slurm") → mem_safe (w_srv (world ∅)).
Proof.
  intros Hs. split; simpl; [apply map_Forall_empty..| |apply map_Forall_empty].
  apply map_Forall_singleton. split; [done|done|].
  unfold cluster. simpl. intros rt spec n [[_ [= <-]]|[_ [_ [= <-]]%lookup_singleton_Some]]%lookup_insert_Some;
    [done|]. intros [= <-]. lia.
Qed.
End server.
End SampleSafety.

Section safety_witnesses.
Import Sample MemServer SampleSlurm SampleSafety SampleTemplates.
#[local] Existing Instance gmap_ExpStore_laws.

Definition generator : initContainerGenerator :=
  getInitContainerGenerator SlurmInit.initContainerTemplate (λ _, None) SlurmInit.config None.

Lemma generator_gives : gives_containers generator.
Proof. done. Qed.

Definition safe_setup : res ClusterController :=
  setupController (λ _, true) (λ _, None) (GetInitContainer generator) (GetInitContainer generator) fuel
    ["slurm"; "pbspro"] [] "".

Lemma safe_setup_slurm cc : safe_setup = Ok cc → is_Some (GetSchemaReconciler cc "slurm").
Proof. intros [= <-]. by eexists. Qed.

End safety_witnesses.
