(* ===== verification/SlurmNodes.v ===== *)
(** * The nodes of slurm.conf are the pods of the cluster

    slurm.conf names a machine for the controller and a line for each node that
    computes; the generic controller names pods and services by index. This file
    reads the names back from the generated text, the way slurm reads it (a line per
    node, words separated by blanks), and shows that the two agree. *)

From S2P Require Import Prelude K8s Api Defaults Names Status Expectations Core Quota World Control.
From S2P Require Import Schema Controller Reconciler PodPlan SchemaLib Slurm SlurmSpec.

(** ** Reading slurm.conf *)

Definition blank : ascii := " "%char.

Definition first_word (s : string) : string := hd "" (Split blank s).

(** [key=value ...] at the start of a line *)
Definition line_value (key line : string) : option string :=
  if HasPrefix line key then Some (first_word (TrimPrefix line key)) else None.

Definition NodeNamePrefix : string := "NodeName=".
Definition NodeAddrPrefix : string := "NodeAddr=".

(** The name and the address of the node of a line. *)
Definition line_node (line : string) : option (string * string) :=
  match Split blank line with
  | name :: addr :: _ =>
      if HasPrefix name NodeNamePrefix && HasPrefix addr NodeAddrPrefix
      then Some (TrimPrefix name NodeNamePrefix, TrimPrefix addr NodeAddrPrefix)
      else None
  | _ => None
  end.

Definition conf_nodes (conf : string) : list (string * string) :=
  omap line_node (Split newline conf).

Definition conf_control (conf : string) : option string :=
  head (omap (line_value "ControlMachine=") (Split newline conf)).

(** ** Words *)

(** Neither a byte that the template reads, nor one that ends a word or a line. *)
Definition word (s : string) : Prop := plain s ∧ has_char blank s = false.

Lemma word_app s t : word s → word t → word (s +:+ t).
Proof.
  intros [Hs Hs'] [Ht Ht']. split; [by apply plain_app|]. by rewrite has_char_app, Hs', Ht'.
Qed.

Lemma word_Itoa z : word (Itoa z).
Proof. split; [apply plain_Itoa|by apply Itoa_no_other]. Qed.

Lemma word_map f s :
  (∀ c d, c ∈ [dollar; newline; blank] → f d = c → d = c) → word s → word (string_map f s).
Proof.
  intros Hf [[H1 H2] H3]. split; [split|]; (apply has_char_string_map; [|done]); intros d;
    apply Hf; set_solver.
Qed.

Lemma word_ToLower s : word s → word (ToLower s).
Proof.
  apply word_map. intros c d Hc. apply lower_char_other.
  rewrite !elem_of_cons in Hc. by destruct Hc as [->|[->|[->|?%elem_of_nil]]].
Qed.

Lemma word_GenGeneralName name rt i : word name → word rt → word (GenGeneralName name rt (Itoa i)).
Proof.
  intros Hn Hrt. apply word_map.
  - intros c d Hc. case_decide; [|done]. intros <-. rewrite !elem_of_cons, elem_of_nil in Hc. by destruct Hc as [?|[?|[?|[]]]].
  - repeat apply word_app; try done; [by apply word_ToLower|apply word_Itoa].
Qed.

Lemma first_word_blank s t : has_char blank s = false → first_word (s +:+ String blank t) = s.
Proof. intros Hs. unfold first_word. by rewrite Split_app, Split_line. Qed.

(** ** Blocks of lines *)

(** A text of whole lines, and the nodes of these lines. *)
Definition block (s : string) (nodes : list (string * string)) : Prop :=
  ∀ rest, conf_nodes (s +:+ rest) = (nodes ++ conf_nodes rest)%list.

Lemma conf_nodes_lines a b : conf_nodes (a +:+ String newline b) = (conf_nodes a ++ conf_nodes b)%list.
Proof. unfold conf_nodes. by rewrite Split_app, omap_app. Qed.

Lemma block_empty : block "" [].
Proof. done. Qed.

Lemma block_app s t ls lt : block s ls → block t lt → block (s +:+ t) (ls ++ lt)%list.
Proof. intros Hs Ht rest. by rewrite string_app_assoc, Hs, Ht, app_assoc. Qed.

Lemma block_end s nodes : block s nodes → conf_nodes s = nodes.
Proof. intros H. pose proof (H "") as Hs. by rewrite string_app_nil_r, app_nil_r in Hs. Qed.

Lemma block_foldl {A} (f : A → string) (nodes : A → list (string * string)) (xs : list A) s l :
  (∀ x, x ∈ xs → block (f x) (nodes x)) → block s l →
  block (foldl (λ s x, s +:+ f x) s xs) (l ++ (xs ≫= nodes))%list.
Proof.
  revert s l. induction xs as [|x xs IH]; intros s l Hf Hs; simpl; [by rewrite app_nil_r|].
  rewrite app_assoc. apply IH; [intros; apply Hf; by right|]. apply block_app; [done|]. apply Hf. left.
Qed.

Lemma line_node_words g tail :
  has_char blank g = false →
  line_node (("NodeName=" +:+ g) +:+ String blank (("NodeAddr=" +:+ g) +:+ String blank tail)) = Some (g, g).
Proof.
  intros Hb. unfold line_node.
  rewrite !Split_app, !(Split_line _ (_ +:+ g)) by (rewrite has_char_app, Hb; done).
  cbn [app]. unfold NodeNamePrefix, NodeAddrPrefix, HasPrefix.
  rewrite !prefix_app. cbn [andb]. by rewrite !TrimPrefix_app.
Qed.

Lemma node_line_block g cpus mem gpus : word g → block (node_line g cpus mem gpus) [(g, g)].
Proof.
  intros [[_ Hg] Hb] rest. unfold node_line.
  set (tail := "CPUs=" +:+ Itoa cpus +:+ " " +:+ "RealMemory=" +:+ Itoa mem +:+ " "
    +:+ "Gres=gpu:" +:+ Itoa gpus +:+ " " +:+ "State=UNKNOWN ").
  assert (has_char newline tail = false) as Ht.
  { unfold tail. rewrite !has_char_app. by rewrite !(Itoa_no_other newline) by done. }
  transitivity (conf_nodes ((("NodeName=" +:+ g) +:+ String blank (("NodeAddr=" +:+ g) +:+
    String blank tail)) +:+ String newline rest)).
  { f_equal. unfold tail. repeat (rewrite string_app_assoc; cbn [String.append]); done. }
  clearbody tail. rewrite conf_nodes_lines. f_equal. unfold conf_nodes. rewrite Split_line.
  - cbn [omap list_omap]. by rewrite line_node_words.
  - rewrite !has_char_app. simpl. rewrite !has_char_app. simpl. by rewrite Hg, Ht.
Qed.

(** A line that does not start like the line of a node. *)
Lemma line_node_other c s : c ≠ "N"%char → line_node (String c s) = None.
Proof.
  intros Hc. unfold line_node. cbn [Split]. case_decide.
  - by destruct (Split blank s).
  - pose proof (Split_nonempty blank s). destruct (Split blank s) as [|l [|a ls]]; [done..|].
    unfold HasPrefix, NodeNamePrefix. cbn [String.prefix].
    by destruct (ascii_dec "N" c) as [<-|].
Qed.

Lemma conf_nodes_other c s :
  c ≠ "N"%char → has_char newline (String c s) = false → conf_nodes (String c s) = [].
Proof.
  intros Hc Hs. unfold conf_nodes. rewrite Split_line by done. cbn [omap list_omap].
  by rewrite line_node_other.
Qed.

Lemma block_lines s : conf_nodes s = [] → block (s +:+ nl) [].
Proof.
  intros Hs rest. rewrite string_app_assoc. change (nl +:+ rest) with (String newline rest).
  by rewrite conf_nodes_lines, Hs.
Qed.

(** ** The template *)

Section template.
Context {K : K8s}.

Lemma fill_template_nodes name p q : plain name → conf_nodes (fill_template name p q) = [].
Proof.
  intros Hn. rewrite fill_template_eq by done.
  set (c := GenGeneralName name SchemaReplicaTypeController (Itoa 0)).
  assert (has_char newline c = false) as Hc by (by apply plain_GenGeneralName).
  destruct Hn as [_ Hn]. destruct (plain_Itoa p) as [_ Hp], (plain_Itoa q) as [_ Hq].
  rewrite <- (string_app_nil_r after_slurmd), lines_text, string_app_nil_r, !conf_nodes_lines.
  assert (conf_nodes conf_head = []) as -> by by_vm.
  assert (conf_nodes conf_middle = []) as -> by by_vm.
  assert (conf_nodes conf_tail = []) as -> by by_vm.
  assert (∀ k s, String.get 0 k ≠ Some "N"%char → k ≠ "" → has_char newline k = false →
    has_char newline s = false → conf_nodes (k +:+ s +:+ " ") = []) as Hline.
  { intros [|d k] s Hd ? Hk Hs; [done|]. apply (conf_nodes_other d (k +:+ s +:+ " ")).
    - intros ->. by apply Hd.
    - change (has_char newline (String d k +:+ s +:+ " ") = false). by rewrite !has_char_app, Hk, Hs. }
  by rewrite !Hline.
Qed.

(** The machine of the controller is the one the template names. *)
Lemma fill_template_control name p q rest :
  word name → conf_control (fill_template name p q +:+ rest) =
    Some (GenGeneralName name SchemaReplicaTypeController (Itoa 0)).
Proof.
  intros Hn. pose proof Hn as [Hplain _]. rewrite fill_template_eq by done.
  assert (word (GenGeneralName name SchemaReplicaTypeController (Itoa 0))) as [[_ Hc] Hb]
    by (by apply word_GenGeneralName).
  set (c := GenGeneralName name SchemaReplicaTypeController (Itoa 0)) in *. clearbody c.
  rewrite !string_app_assoc, lines_text. unfold conf_control.
  rewrite !Split_app, !omap_app, (Split_line newline ("ClusterName=" +:+ name +:+ " ")),
    (Split_line newline ("ControlMachine=" +:+ c +:+ " ")).
  - assert (omap (line_value "ControlMachine=") (Split newline conf_head) = []) as -> by by_vm.
    assert (line_value "ControlMachine=" ("ClusterName=" +:+ name +:+ " ") = None) as Hl by done.
    cbn [omap list_omap app]. rewrite Hl. unfold line_value, HasPrefix. rewrite prefix_app, TrimPrefix_app.
    cbn [head app].
    by rewrite first_word_blank.
  - rewrite !has_char_app, Hc. done.
  - destruct Hplain as [_ Hplain]. rewrite !has_char_app, Hplain. done.
Qed.
End template.

(** ** The nodes of a cluster *)

Section nodes.
Context {K : K8s} {QF : QuantityFormat} {ES : ExpStore} {AS : ApiServer} {RT : GoRuntime}
  {RTL : GoRuntimeLaws RT} {GR : GoRand}.

(** The names of the replicas of a type that computes. *)
Definition type_nodes (name : string) (entry : string * option ReplicaSpec) : list string :=
  if decide (entry.1 = SchemaReplicaTypeController) then []
  else match entry.2 with
       | Some spec =>
           match r_Replicas spec with
           | Some n => (λ i, GenGeneralName name entry.1 (Itoa i)) <$> upto n
           | None => []
           end
       | None => []
       end.

Definition compute_nodes (name : string) (m : gmap string (option ReplicaSpec)) : list string :=
  map_to_list m ≫= type_nodes name.

(** A node's address is its name. *)
Definition twin (s : string) : string * string := (s, s).

Lemma replica_nodes name rt o w w' s :
  word name → word rt → rt ≠ SchemaReplicaTypeController →
  createSlurmConfNodesByReplica name rt o w = (w', Ok s) → block s (twin <$> type_nodes name (rt, o)).
Proof.
  intros Hn Hrt Hne H. apply bind_Ok in H as (spec & w1 & Ho & H).
  destruct o as [spec'|]; [|done]. injection Ho as <- ->.
  unfold type_nodes. cbn [fst snd]. rewrite decide_False by done.
  destruct (r_Replicas spec) as [n|]; [|injection H as _ <-; apply block_empty].
  apply bind_Ok in H as ([[cpus mem] gpus] & w2 & _ & H). injection H as _ <-.
  assert (∀ xs : list Z, twin <$> ((λ i, GenGeneralName name rt (Itoa i)) <$> xs) =
    ([] ++ (xs ≫= λ i, [twin (GenGeneralName name rt (Itoa i))]))%list) as ->.
  { induction xs as [|i xs IH]; [done|]. cbn. f_equal. exact IH. }
  apply (block_foldl (λ i, node_line (GenGeneralName name rt (Itoa i)) cpus mem gpus)); [|apply block_empty].
  intros i _. by apply node_line_block, word_GenGeneralName.
Qed.

Lemma createSlurmConfNodes_nodes k w w' s :
  word (om_Name (kc_Meta k)) → (∀ rt, is_Some (sp_ClusterReplicaSpec (kc_Spec k) !! rt) → word rt) →
  createSlurmConfNodes k w = (w', Ok s) →
  ∃ nodes, block s (twin <$> nodes) ∧
    nodes ≡ₚ compute_nodes (om_Name (kc_Meta k)) (sp_ClusterReplicaSpec (kc_Spec k)).
Proof.
  intros Hn Hw H. set (name := om_Name (kc_Meta k)) in *.
  apply bind_Ok in H as (entries & w1 & He & H). injection He as _ <-.
  apply bind_Ok in H as (conf & w2 & Hfold & H). injection H as _ <-.
  set (m := sp_ClusterReplicaSpec (kc_Spec k)) in *.
  exists (range (w_tick w) m ≫= type_nodes name). split.
  2: { unfold compute_nodes. by rewrite range_perm. }
  assert (∀ e, e ∈ range (w_tick w) m → word e.1) as Hes.
  { intros [rt o] Hi. apply Hw. exists o. by apply elem_of_range in Hi. }
  set (head := section_header "#                    NODES                     #").
  change (block ((head +:+ nl) +:+ conf) (twin <$> (range (w_tick w) m ≫= type_nodes name))).
  apply (block_app _ _ []); [apply block_lines; by_vm|].
  clearbody m. revert Hfold Hes. generalize (range (w_tick w) m). clear head. intros entries.
  assert (∀ s l w1, block s (twin <$> l) →
    foldM (λ nodeConf entry, if decide (entry.1 = SchemaReplicaTypeController) then mret nodeConf
      else replicaConf ← createSlurmConfNodesByReplica name entry.1 entry.2;
           mret (nodeConf +:+ replicaConf)) s entries w1 = (w2, Ok conf) →
    (∀ e, e ∈ entries → word e.1) → block conf (twin <$> (l ++ (entries ≫= type_nodes name))%list)) as Hgo.
  { induction entries as [|[rt o] entries IH]; intros s l w0 Hs Hf Hes.
    - injection Hf as _ <-. by rewrite app_nil_r.
    - apply bind_Ok in Hf as (s1 & w3 & H1 & Hf). cbn [mbind list_bind]. rewrite app_assoc.
      eapply IH; [|exact Hf|by intros; apply Hes; right]. cbn [fst] in H1. case_decide as Hrt.
      + injection H1 as _ <-. unfold type_nodes at 1. rewrite decide_True by done. by rewrite app_nil_r.
      + apply bind_Ok in H1 as (r & w4 & Hr & H1). injection H1 as _ <-. rewrite fmap_app.
        apply block_app; [done|]. eapply replica_nodes; [done| |done|exact Hr]. apply (Hes (rt, o)). left. }
  intros Hf Hes. eapply (Hgo "" []); [apply block_empty|exact Hf|exact Hes].
Qed.

Lemma elem_of_compute_nodes name m s :
  s ∈ compute_nodes name m ↔ ∃ rt spec n i, m !! rt = Some (Some spec) ∧
    rt ≠ SchemaReplicaTypeController ∧ r_Replicas spec = Some n ∧ 0 ≤ i < n ∧
    s = GenGeneralName name rt (Itoa i).
Proof.
  unfold compute_nodes. rewrite list_elem_of_bind. split.
  - intros ([rt o] & Hs & Hm%elem_of_map_to_list). unfold type_nodes in Hs. cbn [fst snd] in Hs.
    case_decide; [by apply elem_of_nil in Hs|].
    destruct o as [spec|]; [|by apply elem_of_nil in Hs].
    destruct (r_Replicas spec) as [n|] eqn:Hn; [|by apply elem_of_nil in Hs].
    apply list_elem_of_fmap in Hs as (i & -> & Hi%elem_of_upto). by exists rt, spec, n, i.
  - intros (rt & spec & n & i & Hm & Hrt & Hn & Hi & ->). exists (rt, Some spec).
    split; [|by apply elem_of_map_to_list]. unfold type_nodes. cbn [fst snd].
    rewrite decide_False, Hn by done. apply list_elem_of_fmap. exists i. by rewrite elem_of_upto.
Qed.

(** Replica types that differ in more than case, and hold no slash. *)
Definition types_distinct (m : gmap string (option ReplicaSpec)) : Prop :=
  (∀ rt, is_Some (m !! rt) → has_char slash rt = false) ∧
  ∀ rt rt', is_Some (m !! rt) → is_Some (m !! rt') → ToLower rt = ToLower rt' → rt = rt'.

Lemma NoDup_compute_nodes name m : types_distinct m → NoDup (compute_nodes name m).
Proof.
  intros [Hslash Hcase].
  assert (∀ l, NoDup l.*1 → (∀ e, e ∈ l → is_Some (m !! e.1)) → NoDup (l ≫= type_nodes name)) as Hgo.
  2: { apply Hgo; [apply NoDup_fst_map_to_list|]. intros [rt o] Hi%elem_of_map_to_list. by exists o. }
  assert (∀ e s, s ∈ type_nodes name e → ∃ i, 0 ≤ i ∧ s = GenGeneralName name e.1 (Itoa i)) as Hin.
  { intros [rt [spec|]] s; unfold type_nodes; case_decide; cbn [snd]; try by intros ?%elem_of_nil.
    destruct (r_Replicas spec); [|by intros ?%elem_of_nil].
    intros (i & -> & Hi%elem_of_upto)%list_elem_of_fmap. exists i. split; [lia|done]. }
  induction l as [|e l IH]; cbn [mbind list_bind]; [constructor|].
  rewrite fmap_cons. intros [Hne Hl]%NoDup_cons Hm.
  assert (has_char slash e.1 = false) as Hse by (apply Hslash, Hm; left).
  apply NoDup_app. split_and!; [| |by apply IH; [|intros; apply Hm; right]].
  - unfold type_nodes. case_decide; [constructor|]. destruct e.2 as [spec|]; [|constructor].
    destruct (r_Replicas spec) as [n|]; [|constructor]. apply NoDup_fmap_2_strong.
    + intros i j Hi%elem_of_upto Hj%elem_of_upto Heq.
      apply GenGeneralName_inj in Heq as [_ ?]; (done || lia).
    + unfold upto. apply (NoDup_fmap_2 _), NoDup_seq.
  - intros s (i & Hi & ->)%Hin Hs. apply list_elem_of_bind in Hs as (e' & (j & Hj & Heq)%Hin & He').
    assert (is_Some (m !! e'.1)) as He2 by (apply Hm; by right).
    apply GenGeneralName_inj in Heq as [Hcc _]; [|auto..].
    apply Hcase in Hcc; [|apply Hm; left|done]. apply Hne. rewrite Hcc. by apply list_elem_of_fmap_2.
Qed.

(** ** The generated text *)

Lemma ticks_genSlurmRandomPort fuel : stable ticks_rel (genSlurmRandomPort fuel).
Proof.
  unfold genSlurmRandomPort, GenRandomInt31n. ticks_auto. generalize a. clear a.
  induction fuel as [|fuel IH]; intros p; simpl; unfold GenRandomInt31n; ticks_auto.
  apply (stable_fail ticks_rel).
Qed.

Lemma ticks_kc w w' : ticks_rel w w' → w_kc w' = w_kc w.
Proof. by intros (_ & _ & _ & _ & _ & Hk)%ticks_same. Qed.

(** Generating slurm.conf ends with writing it, for the cluster as the ports have
    left it. *)
Lemma genSlurmConf_run fuel w w' conf :
  genSlurmConf fuel w = (w', Ok conf) →
  ∃ p q w1, kc_Meta (w_kc w1) = kc_Meta (w_kc w) ∧ createSlurmConf p q w1 = (w', Ok conf) ∧
    ∀ rt, is_Some (specs w1 !! rt) → is_Some (specs w !! rt).
Proof.
  intros (r & w1 & Htry & H)%bind_Ok.
  assert (w_kc w1 = w_kc w) as Hk1.
  { revert Htry. unfold try, getSlurmPortsFromSpec, mbind, M_bind, get_kc, range_of, lift.
    destruct (first_ports _ _); [..|done]; by intros [= <- _]. }
  apply bind_Ok in H as ([p q] & w2 & Hpq & H).
  assert (w_kc w2 = w_kc w1) as Hk2.
  { destruct r as [e|ports]; [|by injection Hpq as <- _].
    apply bind_Ok in Hpq as ([p1 q1] & w3 & Hg & Hpq). apply bind_Ok in Hpq as (? & w4 & Hev & Hpq).
    injection Hpq as <- _. injection Hev as <- _. cbn.
    by eapply ticks_ok, ticks_kc in Hg; [|apply ticks_genSlurmRandomPort]. }
  apply bind_Ok in H as ([] & w3 & Hset & H).
  apply (map_templates_range _ w2) in Hset as [(_ & Hm & _) Hspecs].
  apply bind_Ok in H as (c & w4 & Hc & H). exists p, q, w3.
  split; [by rewrite Hm, Hk2, Hk1|]. split.
  - revert Hc H. unfold try. destruct (createSlurmConf p q w3) as [w5 [s|e|]]; [| |done];
      intros Hc; injection Hc as <- <-; [|done]. intros H. by injection H as <- <-.
  - intros rt [o Ho]. apply Hspecs in Ho as (s & ps & Hs & _). exists (Some s).
    unfold specs in *. by rewrite <-Hk1, <-Hk2.
Qed.

Lemma createSlurmConf_nodes p q w w' conf :
  word (om_Name (kc_Meta (w_kc w))) → (∀ rt, is_Some (specs w !! rt) → word rt) →
  createSlurmConf p q w = (w', Ok conf) →
  w_kc w' = w_kc w ∧
  conf_nodes conf ≡ₚ twin <$> compute_nodes (om_Name (kc_Meta (w_kc w))) (specs w) ∧
  conf_control conf = Some (GenGeneralName (om_Name (kc_Meta (w_kc w))) SchemaReplicaTypeController (Itoa 0)).
Proof.
  intros Hn Hw (k & w1 & Hk & H)%bind_Ok. injection Hk as <- <-.
  apply bind_Ok in H as (text & w2 & Htext & H).
  set (name := om_Name (kc_Meta (w_kc w))) in *.
  assert (w' = w2 ∧ conf = fill_template name p q +:+ String newline (text +:+
    String newline (createSlurmConfPartitions +:+ nl))) as [-> ->] by (by injection H as <- <-).
  clear H. split; [by eapply ticks_ok, ticks_kc in Htext; [|apply ticks_createSlurmConfNodes]|].
  apply createSlurmConfNodes_nodes in Htext as (nodes & Hblock & Hperm); [|done..].
  split; [|by apply fill_template_control].
  rewrite conf_nodes_lines, fill_template_nodes by apply Hn. cbn [app].
  rewrite Hblock. fold name in Hperm. unfold specs. rewrite <-Hperm.
  assert (conf_nodes (String newline (createSlurmConfPartitions +:+ nl)) = []) as -> by by_vm.
  by rewrite app_nil_r.
Qed.

(** What filling a config map without a slurm.conf puts there. *)
Lemma filled_conf_nodes fuel cm w w' cm' :
  word (om_Name (kc_Meta (w_kc w))) → (∀ rt, is_Some (specs w !! rt) → word rt) →
  cm_Data cm !! slurmConfKey = None → ReconcileConfigMap fuel cm w = (w', Ok cm') →
  let name := om_Name (kc_Meta (w_kc w')) in
  ∃ conf, cm_Data cm' !! slurmConfKey = Some conf ∧
    conf_nodes conf ≡ₚ twin <$> compute_nodes name (specs w') ∧
    conf_control conf = Some (GenGeneralName name SchemaReplicaTypeController (Itoa 0)).
Proof.
  intros Hn Hw Hnone H. unfold ReconcileConfigMap in H. rewrite Hnone in H.
  apply bind_Ok in H as ([] & w0 & H0 & H). injection H0 as <-. simpl in H.
  apply fill_configmap_data in H as (w1 & w2 & cm3 & names & H3 & Hnames & Ht & _ & Hdata).
  rewrite !cm_fill_lookup, Hnone in H3. simpl in H3. destruct H3 as (conf & Hgen & ->).
  apply genSlurmConf_run in Hgen as (p & q & w3 & Hm & Hconf & Hspecs).
  apply createSlurmConf_nodes in Hconf as (Hkc & Hnodes & Hcontrol);
    [|by rewrite Hm|by intros; apply Hw, Hspecs].
  assert (w_kc w' = w_kc w3) as Hkc'.
  { apply ticks_kc in Ht. apply getHostNetWorkNodeList_ok in Hnames as [Hk _]. apply ticks_kc in Hk. congruence. }
  exists conf. unfold specs in *. rewrite Hkc'. split; [|done].
  rewrite Hdata. case_decide; simpl; by rewrite ?lookup_insert_ne, lookup_insert_eq by done.
Qed.

(** ** Properties *)

(** C20 (slurm.conf lists the pods). The slurm.conf that a reconciliation generates, read
    back line by line, has exactly one node for each replica of each type but the
    controller, with the pod's name as name and address; its control machine is the
    pod of the controller's first replica. No node is listed twice when the replica
    types differ in more than case. The text is the one that slurm reads: a line per
    node, words separated by blanks. *)
Theorem slurm_conf_lists_pods (fuel : nat) (cm cm' : ConfigMap) (w w' : World) :
  word (om_Name (kc_Meta (w_kc w))) → (∀ rt, is_Some (specs w !! rt) → word rt) →
  cm_Data cm !! slurmConfKey = None → ReconcileConfigMap fuel cm w = (w', Ok cm') →
  ∃ conf, cm_Data cm' !! slurmConfKey = Some conf ∧
    (∀ cc rt i p spec n, pod_of cc (w_kc w') rt i p → specs w' !! rt = Some (Some spec) →
       rt ≠ SchemaReplicaTypeController → r_Replicas spec = Some n → 0 ≤ i < n →
       (om_Name (pod_Meta p), om_Name (pod_Meta p)) ∈ conf_nodes conf) ∧
    (∀ node, node ∈ conf_nodes conf → ∃ rt spec n i, specs w' !! rt = Some (Some spec) ∧
       rt ≠ SchemaReplicaTypeController ∧ r_Replicas spec = Some n ∧ 0 ≤ i < n ∧
       ∀ cc p, pod_of cc (w_kc w') rt i p → node = (om_Name (pod_Meta p), om_Name (pod_Meta p))) ∧
    (∀ cc p, pod_of cc (w_kc w') SchemaReplicaTypeController 0 p →
       conf_control conf = Some (om_Name (pod_Meta p))) ∧
    (types_distinct (specs w') → NoDup (conf_nodes conf).*1).
Proof.
  intros Hn Hw Hnone H.
  destruct (filled_conf_nodes _ _ _ _ _ Hn Hw Hnone H) as (conf & Hconf & Hnodes & Hcontrol).
  exists conf. split; [done|]. split_and!.
  - intros cc rt i p spec n Hp Hm Hrt Hr Hi. rewrite Hnodes, (po_name _ _ _ _ _ Hp).
    apply (list_elem_of_fmap_2 twin), elem_of_compute_nodes. by exists rt, spec, n, i.
  - intros node. rewrite Hnodes, list_elem_of_fmap.
    intros (s & -> & (rt & spec & n & i & Hm & Hrt & Hr & Hi & ->)%elem_of_compute_nodes).
    exists rt, spec, n, i. split_and!; try (done || lia). intros cc p Hp. by rewrite (po_name _ _ _ _ _ Hp).
  - intros cc p Hp. by rewrite (po_name _ _ _ _ _ Hp).
  - intros Hd%(NoDup_compute_nodes (om_Name (kc_Meta (w_kc w')))). rewrite Hnodes, <-list_fmap_compose.
    by rewrite (list_fmap_ext _ id), list_fmap_id by done.
Qed.
End nodes.

Section slurm_nodes_witness.
Import Sample MemServer SampleController SampleRand SampleSlurm.

Lemma slurm_conf_lists_pods_witness :
  ∃ w' cm conf, slurm_run = (w', Ok cm) ∧ cm_Data cm !! slurmConfKey = Some conf ∧
    (∀ cc p, pod_of cc (w_kc w') SchemaReplicaTypeController 0 p →
       conf_control conf = Some (om_Name (pod_Meta p))).
Proof.
  destruct slurm_run_ok as (w' & cm & Hrun).
  destruct (slurm_conf_lists_pods (RTL := runtime_laws) 5000 configmap cm (world ∅) w')
    as (conf & Hconf & _ & _ & Hc & _).
  - by repeat split.
  - intros rt [o Hl].
    change (specs (world ∅)) with (<["Controller" := Some (replica None RestartPolicyNever)]>
      ({[ "Worker" := Some (replica (Some 2) RestartPolicyOnFailure) ]} : gmap string _)) in Hl.
    apply lookup_insert_Some in Hl as [[<- _]|[_ [<- _]%lookup_singleton_Some]]; by repeat split.
  - reflexivity.
  - exact Hrun.
  - exists w', cm, conf. exact (conj Hrun (conj Hconf Hc)).
Defined.

(** The text of the sample cluster, read back. *)
Lemma sample_conf_nodes :
  match slurm_run.2 with Ok cm => conf_nodes <$> cm_Data cm !! slurmConfKey | _ => None end =
  Some [("c1-worker-0", "c1-worker-0"); ("c1-worker-1", "c1-worker-1")].
Proof. by_vm. Qed.
End slurm_nodes_witness.
