(* ===== verification/Gate.v ===== *)
(** * The gate in front of a reconciliation

    [Reconcile] asks the expectations of the schema whether it has to wait for the
    events of what it created. Whatever happens to the operator, its stores of
    expectations are those that calls of the interface lead to; and in such a store
    nothing is ever satisfied, so that the answer is always to go on. *)

From S2P Require Import Prelude K8s Api Names Status Expectations Core World Control Schema.
From S2P Require Import Controller Reconciler PodPlan Events Lifecycle.
From S2P Require Import SchemaLib Slurm SlurmSpec SlurmNodes Pbspro PbsproSpec Main StatusInv.

(** ** Steps that reach only such stores *)

Section rules.
Context {K : K8s} {ES : ExpStore} {AS : ApiServer} {RT : GoRuntime}.

Definition gate_rel (w w' : World) : Prop := exp_reached w → exp_reached w'.

#[export] Instance gate_rel_preorder : PreOrder gate_rel.
Proof. split; [by intros w Hw|]. intros w1 w2 w3 H12 H23 Hw. by apply H23, H12. Qed.

Lemma gate_same {A} (m : M A) : (∀ w, w_exp (m w).1 = w_exp w) → stable gate_rel m.
Proof. intros Hm w Hw s. rewrite Hm. apply Hw. Qed.

Lemma gate_api {A} (q : ApiReq A) : stable gate_rel (api q).
Proof. apply gate_same. intros w. unfold api. by destruct (serve q (w_srv w)) as [s [e|a]]. Qed.
Lemma gate_record_event t r m : stable gate_rel (record_event t r m).
Proof. by apply gate_same. Qed.
Lemma gate_record_events es : stable gate_rel (record_events es).
Proof. by apply gate_same. Qed.
Lemma gate_inc c : stable gate_rel (inc c).
Proof. by apply gate_same. Qed.
Lemma gate_inc_labels c ls : stable gate_rel (inc_labels c ls).
Proof. by apply gate_same. Qed.
Lemma gate_now : stable gate_rel now.
Proof. by apply gate_same. Qed.
Lemma gate_range_of {A} (m : gmap string A) : stable gate_rel (range_of m).
Proof. by apply gate_same. Qed.
Lemma gate_set_kc k : stable gate_rel (set_kc k).
Proof. by apply gate_same. Qed.
Lemma gate_modify_status f : stable gate_rel (modify_status f).
Proof. by apply gate_same. Qed.
Lemma gate_ticks {A} (m : M A) : stable ticks_rel m → stable gate_rel m.
Proof. intros Hm. apply gate_same. intros w. by destruct (ticks_same _ _ (Hm w)) as (_ & _ & _ & _ & He & _). Qed.

(** A call that fails leaves the store, and one that succeeds is one more call. *)
Lemma gate_expectations s o : stable gate_rel (expectations s (exp_exec o)).
Proof.
  intros w Hw. unfold expectations. destruct (exp_exec o _) as [r|e|] eqn:Ho; [|done..].
  intros t. simpl. destruct (decide (s = t)) as [<-|Hne].
  - destruct (Hw s) as [ops Hops]. exists (ops ++ [o])%list. rewrite lookup_insert_eq.
    by apply exp_run_snoc with (1 := Hops).
  - rewrite lookup_insert_ne by done. apply Hw.
Qed.

Lemma gate_SetExpectations s k a d : stable gate_rel (sr_SetExpectations s k a d).
Proof. apply (stable_bind gate_rel); [apply gate_now|intros t]. exact (gate_expectations _ (OpSet t k a d)). Qed.
Lemma gate_RaiseExpectations s k a d : stable gate_rel (sr_RaiseExpectations s k a d).
Proof. exact (gate_expectations _ (OpRaise k a d)). Qed.
Lemma gate_CreationObserved s k : stable gate_rel (sr_CreationObserved s k).
Proof. exact (gate_expectations _ (OpCreationObserved k)). Qed.
Lemma gate_DeletionObserved s k : stable gate_rel (sr_DeletionObserved s k).
Proof. exact (gate_expectations _ (OpDeletionObserved k)). Qed.

Lemma gate_schema_satisfied s k rts : stable gate_rel (schema_satisfied s k rts).
Proof. by apply gate_same. Qed.
End rules.

Create HintDb gate discriminated.
#[export] Hint Resolve gate_api gate_record_event gate_record_events gate_inc gate_inc_labels gate_now
  gate_range_of gate_set_kc gate_modify_status gate_SetExpectations gate_RaiseExpectations
  gate_CreationObserved gate_DeletionObserved gate_schema_satisfied : gate.

Ltac gate_auto := repeat (first [solve [auto with gate nocore] | stable_step]).

(** ** The parts of the controller *)

Section parts.
Context {K : K8s} {ES : ExpStore} {AS : ApiServer} {RT : GoRuntime}.

Class SchemaGate (s : ClusterSchemaReconciler) : Prop := {
  sg_ReconcileConfigMap cm : stable gate_rel (sr_ReconcileConfigMap s cm);
  sg_UpdateConfigMap cm : stable gate_rel (sr_UpdateConfigMap s cm);
  sg_Default : stable gate_rel (sr_Default s);
  sg_SetClusterSpec kc t rt i cm : stable gate_rel (sr_SetClusterSpec s kc t rt i cm);
  sg_UpdateClusterStatus rt spec : stable gate_rel (sr_UpdateClusterStatus s rt spec)
}.

Class PodGroupGate (pg : PodGroupControlInterface) : Prop := {
  pg_Get ns name : stable gate_rel (GetPodGroup pg ns name);
  pg_Delete ns name : stable gate_rel (DeletePodGroup pg ns name);
  pg_Update g : stable gate_rel (UpdatePodGroup pg g);
  pg_Create g : stable gate_rel (CreatePodGroup pg g)
}.

(** Everything the controller calls through an interface. *)
Class ControllerGate (cc : ClusterController) : Prop := {
  cg_CreatePods ns t ref : stable gate_rel (CreatePodsWithControllerRef (cc_PodControl cc) ns t ref);
  cg_DeletePod ns name : stable gate_rel (DeletePod (cc_PodControl cc) ns name);
  cg_CreateServices ns s ref : stable gate_rel (CreateServicesWithControllerRef (cc_ServiceControl cc) ns s ref);
  cg_DeleteService ns name : stable gate_rel (DeleteService (cc_ServiceControl cc) ns name);
  cg_CreateConfigMap ns c ref :
    stable gate_rel (CreateConfigMapWithControllerRef (cc_ConfigMapControl cc) ns c ref);
  cg_DeleteConfigMap ns name : stable gate_rel (DeleteConfigMap (cc_ConfigMapControl cc) ns name);
  cg_podgroup pg : cc_PodGroupControl cc = Some pg → PodGroupGate pg;
  cg_schema t s : cc_SchemaReconcilerManager cc !! t = Some s → SchemaGate s;
  cg_GetCluster ns name : stable gate_rel (ci_GetClusterFromInformerCache (cc_Controller cc) ns name);
  cg_GetPods : stable gate_rel (ci_GetPodsForCluster (cc_Controller cc));
  cg_GetConfigMap : stable gate_rel (ci_GetConfigMapForCluster (cc_Controller cc));
  cg_GetServices : stable gate_rel (ci_GetServicesForCluster (cc_Controller cc));
  cg_DeleteCluster : stable gate_rel (ci_DeleteCluster (cc_Controller cc));
  cg_UpdateStatus : stable gate_rel (ci_UpdateClusterStatusInApiServer (cc_Controller cc));
  cg_UpdateClusterStatus :
    stable gate_rel (ci_UpdateClusterStatus (cc_Controller cc) (cc_SchemaReconcilerManager cc));
  cg_UpdateConfigMap c : stable gate_rel (ci_UpdateConfigMapInApiServer (cc_Controller cc) c);
  cg_AddAfter key d : stable gate_rel (wq_AddAfter (cc_WorkQueue cc) key d)
}.

Lemma gate_update_condition t s r m : stable gate_rel (update_condition t s r m).
Proof. unfold update_condition. gate_auto. Qed.
Lemma gate_KeyFunc : stable gate_rel KeyFunc.
Proof. unfold KeyFunc. gate_auto. Qed.
Lemma gate_clear_kc : stable gate_rel clear_kc.
Proof. unfold clear_kc. gate_auto. Qed.
Lemma gate_Deleted ns t : stable gate_rel (metrics_DeletedclustersCounterInc ns t).
Proof. by apply gate_same. Qed.
Lemma gate_Restarted ns t : stable gate_rel (RestartedClustersCounterInc ns t).
Proof. by apply gate_same. Qed.
Lemma gate_Failed ns t : stable gate_rel (FailedClustersCounterInc ns t).
Proof. by apply gate_same. Qed.
Lemma gate_Created ns t : stable gate_rel (metrics_CreatedclustersCounterInc ns t).
Proof. by apply gate_same. Qed.

#[export] Instance VolcanoControl_gate : PodGroupGate VolcanoControl.
Proof.
  split; intros; simpl; unfold Volcano_UpdatePodGroup, Volcano_CreatePodGroup; gate_auto.
Qed.
#[export] Instance SchedulerPluginsControl_gate name : PodGroupGate (SchedulerPluginsControl name).
Proof.
  split; intros; simpl; unfold SchedulerPlugins_UpdatePodGroup, SchedulerPlugins_CreatePodGroup; gate_auto.
Qed.
End parts.

#[export] Hint Resolve gate_update_condition gate_KeyFunc gate_clear_kc gate_Deleted gate_Restarted gate_Failed
  gate_Created sg_ReconcileConfigMap sg_UpdateConfigMap sg_Default sg_SetClusterSpec sg_UpdateClusterStatus
  pg_Get pg_Delete pg_Update pg_Create cg_CreatePods cg_DeletePod cg_CreateServices cg_DeleteService
  cg_CreateConfigMap cg_DeleteConfigMap cg_GetCluster cg_GetPods cg_GetConfigMap cg_GetServices
  cg_DeleteCluster cg_UpdateStatus cg_UpdateClusterStatus cg_UpdateConfigMap cg_AddAfter : gate.
#[export] Hint Extern 1 (ControllerGate _) => eassumption : gate.
#[export] Hint Extern 1 (SchemaGate _) => eassumption : gate.
#[export] Hint Extern 1 (PodGroupGate _) => eassumption : gate.

(** *** The reconciler and the schemas *)

Section reconciler.
Context {K : K8s} {QF : QuantityFormat} {ES : ExpStore} {AS : ApiServer} {RT : GoRuntime}
  {RTL : GoRuntimeLaws RT} {GR : GoRand}.

(** The controller of [NewReconciler], whatever scheduler it is set up for. *)
Lemma NewReconciler_gate valid lister setup schemas :
  gang_setup setup → (∀ t s, schemas !! t = Some s → SchemaGate s) →
  ControllerGate (cc_set_Schemas schemas (NewReconciler valid lister setup)).
Proof using Type.
  clear RTL QF GR. intros Hg Hs.
  assert (cc_set_Schemas schemas (NewReconciler valid lister setup) =
    cc_set_Gang (cc_GangScheduling (NewReconciler valid lister setup))
      (cc_PodGroupControl (NewReconciler valid lister setup))
      (cc_set_Schemas schemas (NewReconciler valid lister id))) as ->
    by (by destruct Hg as [->|[->|[name ->]]]).
  split; simpl; intros.
  - unfold RealPodControl_CreatePodsWithControllerRef, createPods. gate_auto.
  - unfold RealPodControl_DeletePod. gate_auto.
  - unfold RealServiceControl_CreateServicesWithControllerRef, createServices. gate_auto.
  - unfold RealServiceControl_DeleteService. gate_auto.
  - unfold RealConfigMapControl_CreateConfigMapWithControllerRef, createConfigMap. gate_auto.
  - unfold RealConfigMapControl_DeleteConfigMap. gate_auto.
  - destruct Hg as [->|[->|[name ->]]]; simplify_eq/=; apply _.
  - by eapply Hs.
  - apply gate_api.
  - unfold GetPodsForCluster. gate_auto.
  - unfold GetConfigMapForCluster. gate_auto.
  - unfold GetServicesForCluster. gate_auto.
  - unfold DeleteCluster. gate_auto.
  - unfold UpdateClusterStatusInApiServer. gate_auto.
  - unfold Reconciler.UpdateClusterStatus. simpl.
    repeat first [apply (stable_deref gate_rel); intros s ?%Hs | solve [gate_auto] | stable_step].
  - unfold UpdateConfigMapInApiServer. simpl. gate_auto.
  - apply (stable_ret gate_rel).
Qed.

Lemma gate_map_templates f entries : stable gate_rel (map_templates f entries).
Proof using Type. clear. unfold map_templates. gate_auto. Qed.

#[local] Hint Resolve gate_map_templates : gate.

Lemma gate_set_completion : stable gate_rel set_completion.
Proof using Type. clear. unfold set_completion. gate_auto. Qed.
Lemma gate_mark_running : stable gate_rel mark_running.
Proof using Type. clear. unfold mark_running. gate_auto. Qed.
Lemma gate_mark_restarting c : stable gate_rel (mark_restarting c).
Proof using Type. clear. unfold mark_restarting. gate_auto. Qed.
Lemma gate_mark_failed msg : stable gate_rel (mark_failed msg).
Proof using Type. pose proof gate_set_completion. clear RTL GR QF. unfold mark_failed. gate_auto. Qed.

#[local] Hint Resolve gate_mark_running gate_mark_restarting gate_mark_failed : gate.

Lemma gate_host_loop valid k entries acc : stable gate_rel (host_loop valid k entries acc).
Proof using Type.
  clear. revert acc. induction entries as [|[rt spec] entries IH]; intros acc; simpl; gate_auto.
Qed.

#[export] Instance slurm_gate valid ic fuel : SchemaGate (NewSlurmClusterReconciler valid ic fuel).
Proof.
  split; simpl; intros.
  - unfold Slurm.ReconcileConfigMap, fill_configmap, genSlurmConf, setSlurmPorts, createSlurmConf,
      getSlurmPortsFromSpec, getHostNetWorkNodeList, genMungeKey.
    repeat first [apply gate_ticks; first [apply ticks_genSlurmRandomPort|apply ticks_RandStr
      |apply ticks_createSlurmConfNodes] | solve [gate_auto] | stable_step].
  - pose proof gate_host_loop. unfold Slurm.UpdateConfigMap. gate_auto.
  - unfold Slurm.Default. gate_auto.
  - apply gate_ticks, (ss_SetClusterSpec_frame (SchemaSpec := slurm_schema_spec valid ic fuel)).
  - unfold Slurm.UpdateClusterStatus. gate_auto.
Qed.

#[export] Instance pbs_gate ic : SchemaGate (NewpbsproClusterReconciler ic).
Proof.
  split; simpl; intros.
  - unfold Pbspro.ReconcileConfigMap, genPBSServerEntrypoint. gate_auto.
  - apply (stable_ret gate_rel).
  - unfold Pbspro.Default. gate_auto.
  - apply gate_ticks, (ss_SetClusterSpec_frame (SchemaSpec := pbs_schema_spec ic)).
  - unfold Pbspro.UpdateClusterStatus. gate_auto.
Qed.

Lemma setup_gate valid lister slurm_init pbs_init fuel kinds es gang cc :
  setupController valid lister slurm_init pbs_init fuel kinds es gang = Ok cc → ControllerGate cc.
Proof.
  intros H. destruct (setup_shape valid lister slurm_init pbs_init fuel kinds es gang cc H) as (m & -> & Hm).
  apply NewReconciler_gate; [apply gang_setup_of_ok|]. intros t s Hs%Hm.
  unfold SupportedClusterSchemaReconciler in Hs.
  apply lookup_insert_Some in Hs as [[_ <-]|[_ [_ <-]%lookup_singleton_Some]]; apply _.
Qed.
End reconciler.

(** ** The generic controller *)

Section controller.
Context {K : K8s} {ES : ExpStore} {AS : ApiServer} {RT : GoRuntime}.
Context (cc : ClusterController) {CG : ControllerGate cc}.

Lemma gate_schema t s : GetSchemaReconciler cc t = Some s → SchemaGate s.
Proof. apply cg_schema. Qed.

(** What is behind a pointer keeps its promise. *)
Ltac gate_step :=
  first [ solve [auto with gate nocore]
        | match goal with
          | |- stable _ (schema_of cc ?t ≫= _) => apply (stable_deref gate_rel)
          | |- stable _ (lift (deref _) ≫= _) => apply (stable_deref gate_rel)
          end; intros ? ?; try match goal with
            | H : GetSchemaReconciler cc _ = Some _ |- _ => apply gate_schema in H
            | H : cc_PodGroupControl cc = Some _ |- _ => apply cg_podgroup in H
            end
        | stable_step ].
Ltac cc_gate := repeat gate_step.

Lemma gate_ReconcilePods rt spec pods cm : stable gate_rel (ReconcilePods cc rt spec pods cm).
Proof. unfold ReconcilePods, reconcile_pod_slice, reconcile_one_pod, CreateNewPod. cc_gate. Qed.

Lemma gate_ReconcileServices rt spec services : stable gate_rel (ReconcileServices cc rt spec services).
Proof. unfold ReconcileServices, reconcile_service_slice, CreateNewService. cc_gate. Qed.

Lemma gate_ReconcileConfigMap : stable gate_rel (Controller.ReconcileConfigMap cc).
Proof. unfold Controller.ReconcileConfigMap, CreateNewConfigMap. cc_gate. Qed.

Lemma gate_terminate_pod_group : stable gate_rel (terminate_pod_group cc).
Proof. unfold terminate_pod_group, cc_DeletePodGroup. cc_gate. Qed.

Lemma gate_DeletePodAndServices rp st pods : stable gate_rel (DeletePodAndServices cc rp st pods).
Proof. unfold DeletePodAndServices, delete_pod_and_service. cc_gate. Qed.

Lemma gate_CleanupCluster rp st : stable gate_rel (CleanupCluster cc rp st).
Proof. unfold CleanupCluster. cc_gate. Qed.

Lemma gate_CleanUpResources rp st pods : stable gate_rel (CleanUpResources cc rp st pods).
Proof.
  pose proof gate_DeletePodAndServices. pose proof gate_CleanupCluster. pose proof gate_terminate_pod_group.
  unfold CleanUpResources. cc_gate.
Qed.

Lemma gate_ResetExpectations key replicas s : stable gate_rel (ResetExpectations key replicas s).
Proof.
  unfold ResetExpectations. cc_gate. generalize (None : option error), (a.*1). intros errs rts.
  revert errs. induction rts as [|rt rts IH]; intros errs; simpl; unfold reset_type; cc_gate; apply IH.
Qed.

Lemma gate_reconcile_suspended rp st pods : stable gate_rel (reconcile_suspended cc rp st pods).
Proof. pose proof gate_CleanUpResources. unfold reconcile_suspended. cc_gate. Qed.

Lemma gate_reconcile_exceeded rp msg pods : stable gate_rel (reconcile_exceeded cc rp msg pods).
Proof.
  pose proof gate_DeletePodAndServices. pose proof gate_CleanupCluster. pose proof gate_terminate_pod_group.
  unfold reconcile_exceeded. cc_gate.
Qed.

Lemma gate_sync_gang rp n : stable gate_rel (sync_gang cc rp n).
Proof. unfold sync_gang, SyncPodGroup. cc_gate. Qed.

Lemma gate_reconcile_general s st pods services :
  SchemaGate s → stable gate_rel (reconcile_general cc s st pods services).
Proof.
  intros Hs. pose proof gate_ReconcileConfigMap. pose proof gate_ReconcilePods. pose proof gate_ReconcileServices.
  unfold reconcile_general, reconcile_replicas. cc_gate.
Qed.

Lemma gate_ReconcileKubeCluster s : SchemaGate s → stable gate_rel (ReconcileKubeCluster cc s).
Proof.
  intros Hs. pose proof gate_ResetExpectations. pose proof gate_CleanUpResources.
  pose proof gate_reconcile_suspended. pose proof gate_reconcile_exceeded. pose proof gate_sync_gang.
  pose proof gate_reconcile_general.
  unfold ReconcileKubeCluster, reconcile_active, reconcile_resumed, exceeded_limit. cc_gate.
Qed.

Lemma gate_Reconcile ns name : stable gate_rel (Reconcile cc ns name).
Proof.
  pose proof gate_ReconcileKubeCluster. unfold Reconcile, reconcile_found, needReconcile, failed_validation. cc_gate.
Qed.

Lemma gate_events :
  (∀ wt o, stable gate_rel (on_create cc wt o)) ∧ (∀ wt o, stable gate_rel (on_delete cc wt o)) ∧
  (∀ wt o o', stable gate_rel (on_update cc wt o o')) ∧ (∀ k, stable gate_rel (onOwnerCreateFunc k)).
Proof.
  split_and!.
  - intros [] o; simpl; unfold OnDependentCreateFunc, onDependentCreateFunc, OnDependentCreateFuncGeneric,
      onOwnerCreateFunc; cc_gate.
  - intros [] o; simpl; unfold OnDependentDeleteFunc, onDependentDeleteFunc, OnDependentDeleteFuncGeneric; cc_gate.
  - intros [] o o'; simpl; unfold OnDependentUpdateFunc, OnDependentUpdateFuncGeneric, owner_updated,
      resolveControllerRef; cc_gate.
  - intros k. unfold onOwnerCreateFunc. cc_gate.
Qed.

(** Whatever happens, and whatever other clients ask of the server. *)
Lemma gate_step_reached allowed w w' : sys_step allowed cc w w' → gate_rel w w'.
Proof.
  destruct gate_events as (Hc & Hd & Hu & Ho).
  intros [ns name w1|wt o w1|wt o o' w1|wt o w1|k w1|A q w1 _|w1].
  - apply gate_Reconcile.
  - apply Hc.
  - apply Hu.
  - apply Hd.
  - apply Ho.
  - by intros Hw.
  - intros _ s. exists []. simpl. by rewrite lookup_empty.
Qed.
End controller.

(** ** The gate *)

Section always_open.
Context {K : K8s} {KL : K8sLaws K} {QF : QuantityFormat} {ES : ExpStore} {SL : ExpStoreLaws ES}
  {AS : ApiServer} {RT : GoRuntime} {RTL : GoRuntimeLaws RT} {GR : GoRand}.

(** C16 (the gate of the expectations is always open). Set the controller up as main
    does, with any schemas, scheduler and init containers, and start it with empty
    stores of expectations. Whatever the API server answers, and in whatever way
    reconciliations, events, restarts and any requests of other clients follow one
    another: in every state this leads to, [needReconcile] answers yes for every
    schema and changes nothing but the order of the next range. The expectations never
    hold a reconciliation back, because nothing ever marks them satisfied in advance. *)
Theorem gate_always_open (valid : gmap string string → bool) (lister : string → option Z)
    (slurm_init pbs_init : string → res (list Container)) (fuel : nat)
    (kinds es : list string) (gangSchedulerName : string) (cc : ClusterController)
    (w w' : World) (s : ClusterSchemaReconciler) :
  setupController valid lister slurm_init pbs_init fuel kinds es gangSchedulerName = Ok cc →
  w_exp w = ∅ → rtc (sys_step (λ _, True) cc) w w' →
  needReconcile s w' = (w_next_tick w', Ok true).
Proof.
  intros Hcc%setup_gate Hw Hsteps. apply needReconcile_run.
  assert (exp_reached w) as Hr by (intros t; exists []; by rewrite Hw, lookup_empty).
  clear Hw. revert Hr. induction Hsteps as [|w0 w1 w2 Hstep _ IH]; [done|]. intros Hr.
  by apply IH, (gate_step_reached cc _ _ _ Hstep).
Qed.
End always_open.

Section gate_witnesses.
Import Sample MemServer SampleSlurm.
#[local] Existing Instance gmap_ExpStore_laws.

(** A source of zeros. *)
#[local] Instance zeros : GoRand := {| rand_Intn seed n := 0; src_Int63 _ := 0 |}.

Definition gate_setup : res ClusterController :=
  setupController (λ _, true) (λ _, None) (λ _, Ok [container]) (λ _, Ok [container]) 100
    ["slurm"; "pbspro"] [] "".

(** After a reconciliation that requests pods, and the event of one of them. *)
Lemma gate_always_open_witness :
  ∃ cc, gate_setup = Ok cc ∧ ∀ s p,
    let w1 := (Reconcile cc "default" "c1" (world ∅)).1 in
    let w2 := (on_create cc (WatchDependents "Pod") (WPod p) w1).1 in
    needReconcile s w2 = (w_next_tick w2, Ok true).
Proof.
  assert (is_Ok gate_setup = true) as Hok by by_vm.
  destruct gate_setup as [cc|e|] eqn:E; [|discriminate Hok|discriminate Hok].
  exists cc. split; [reflexivity|]. intros s p w1 w2.
  apply (gate_always_open (KL := K8s_example_laws) (λ _, true) (λ _, None)
    (λ _, Ok [container]) (λ _, Ok [container]) 100 ["slurm"; "pbspro"] [] "" cc (world ∅) _ s E eq_refl).
  eapply rtc_l; [apply sys_reconcile|]. apply rtc_once, sys_created.
Defined.
End gate_witnesses.
