(* ===== verification/DeepCopy.v ===== *)
(** * Deep copies in a shared memory

    apis/kubecluster.org/v1alpha1/zz_generated.deepcopy.go. The rest of the library
    takes a KubeCluster for a value, and a deep copy for the identity. Here it is what
    it is in Go: structs with pointers, maps and slices in a memory that everything
    shares, so that what a copy shares with its original shows. *)

From S2P Require Import Prelude K8s Api.

(** ** Memory *)

Definition loc : Type := positive.
(** A pointer, a map or a slice; [None] is nil. *)
Abbreviation ptr := (option loc) (only parsing).

(** The structs as they lie in memory. What a struct of a library reaches ([ObjectMeta],
    [PodSpec], [ListMeta]) is one cell, and the struct is its address; [TypeMeta] holds
    two strings and is left out, as in Api.v. *)
Record GoSchedulingPolicy := {
  gs_MinAvailable : ptr;
  gs_Queue : string;
  gs_MinResources : ptr;
  gs_PriorityClass : string;
  gs_ScheduleTimeoutSeconds : ptr
}.

Record GoRunPolicy := {
  gr_CleanKubeNodePolicy : ptr;
  gr_TTLSecondsAfterFinished : ptr;
  gr_ActiveDeadlineSeconds : ptr;
  gr_BackoffLimit : ptr;
  gr_SchedulingPolicy : ptr;
  gr_Suspend : ptr
}.

(** [KubeNode], and [ReplicaTemplate], which has the same structure. *)
Record GoKubeNode := { gn_ObjectMeta : loc; gn_Spec : loc }.

Record GoReplicaSpec := {
  gp_Replicas : ptr;
  gp_Template : GoKubeNode;
  gp_RestartPolicy : RestartPolicy
}.

Record GoClusterSpec := {
  gc_ClusterType : ClusterType;
  gc_ClusterReplicaSpec : ptr;
  gc_MainContainer : string;
  gc_RunPolicy : GoRunPolicy
}.

Record GoClusterStatus := {
  gu_Conditions : ptr;
  gu_ReplicaStatuses : ptr;
  gu_StartTime : ptr;
  gu_LastReconcileTime : ptr;
  gu_CompletionTime : ptr
}.

Record GoKubeCluster := {
  gk_ObjectMeta : loc;
  gk_Spec : GoClusterSpec;
  gk_Status : GoClusterStatus
}.

Record GoKubeClusterList := { gl_ListMeta : loc; gl_Items : ptr }.

(** What an address leads to. *)
Inductive cell `{K8s} (ListMeta : Type) :=
| CBool (b : bool)
| CInt (z : Z)
| CPolicy (p : CleanKubeNodePolicy)
| CTime (t : Time)
| CObjectMeta (m : ObjectMeta)
| CPodSpec (s : PodSpec)
| CListMeta (m : ListMeta)
| CQuantities (m : ResourceList)
| CMapOf (m : ptr)
| CSchedulingPolicy (s : GoSchedulingPolicy)
| CRunPolicy (s : GoRunPolicy)
| CKubeNode (s : GoKubeNode)
| CReplicaSpec (s : GoReplicaSpec)
| CReplicaStatus (s : ReplicaStatus)
| CPointers (m : gmap string ptr)
| CClusterCondition (c : ClusterCondition)
| CConditions (l : list ClusterCondition)
| CClusterSpec (s : GoClusterSpec)
| CClusterStatus (s : GoClusterStatus)
| CKubeCluster (s : GoKubeCluster)
| CItems (l : list GoKubeCluster)
| CKubeClusterList (s : GoKubeClusterList).
Arguments CBool {_ _}. Arguments CInt {_ _}. Arguments CPolicy {_ _}. Arguments CTime {_ _}.
Arguments CObjectMeta {_ _}. Arguments CPodSpec {_ _}. Arguments CListMeta {_ _}.
Arguments CQuantities {_ _}. Arguments CMapOf {_ _}. Arguments CSchedulingPolicy {_ _}.
Arguments CRunPolicy {_ _}. Arguments CKubeNode {_ _}. Arguments CReplicaSpec {_ _}.
Arguments CReplicaStatus {_ _}. Arguments CPointers {_ _}. Arguments CClusterCondition {_ _}.
Arguments CConditions {_ _}. Arguments CClusterSpec {_ _}. Arguments CClusterStatus {_ _}.
Arguments CKubeCluster {_ _}. Arguments CItems {_ _}. Arguments CKubeClusterList {_ _}.

Section memory.
Context {K : K8s} {ListMeta : Type} {GR : GoRange}.
Abbreviation cell := (cell ListMeta).
Abbreviation heap := (gmap loc cell).

(** The memory, and the number of loops over maps so far. *)
Record Mem := { m_cells : heap; m_loops : nat }.

(** A step; [None] is a panic. *)
Definition Run (A : Type) : Type := Mem → Mem * option A.
#[global] Instance Run_ret : MRet Run := λ A a st, (st, Some a).
#[global] Instance Run_bind : MBind Run := λ A B f m st,
  match m st with (st', Some a) => f a st' | (st', None) => (st', None) end.

Definition load (l : loc) : Run cell := λ st, (st, m_cells st !! l).
Definition store (l : loc) (c : cell) : Run unit := λ st,
  ({| m_cells := <[l := c]> (m_cells st); m_loops := m_loops st |}, Some tt).
(** [new], [make] *)
Definition alloc (c : cell) : Run loc := λ st,
  let l := fresh (dom (m_cells st)) in
  ({| m_cells := <[l := c]> (m_cells st); m_loops := m_loops st |}, Some l).
Definition range_over {A} (m : gmap string A) : Run (list (string * A)) := λ st,
  ({| m_cells := m_cells st; m_loops := S (m_loops st) |}, Some (range (m_loops st) m)).
Definition expect {A} (o : option A) : Run A := λ st, (st, o).

Fixpoint each {A} (xs : list A) (f : A → Run unit) : Run unit :=
  match xs with [] => mret tt | x :: xs => _ ← f x; each xs f end.
Fixpoint map_each {A B} (f : A → Run B) (xs : list A) : Run (list B) :=
  match xs with [] => mret [] | x :: xs => y ← f x; ys ← map_each f xs; mret (y :: ys) end.
End memory.
Arguments Mem {_} _. Arguments Run {_} _ _.

(** The deep copies of the libraries, [DeepCopyInto] of the structs and [DeepCopy] of a
    time: what the address leads to is copied to a new one. *)
Class LibraryCopy `{K8s} (ListMeta : Type) := lib_DeepCopy : loc → Run ListMeta loc.
Class LibraryCopyLaws `{K8s} {ListMeta : Type} (L : LibraryCopy ListMeta) : Prop := {
  lib_copy l st c : m_cells st !! l = Some c →
    ∃ l', m_cells st !! l' = None ∧
      lib_DeepCopy l st = ({| m_cells := <[l' := c]> (m_cells st); m_loops := m_loops st |}, Some l')
}.

(** ** zz_generated.deepcopy.go

    [DeepCopyInto] reads the struct [inp] and gives the struct it leaves in [*out]:
    [*out = *in] is where it starts, and every field it sets after that is written
    out. *)
Section deepcopy.
Context {K : K8s} {ListMeta : Type} {GR : GoRange} {LC : LibraryCopy ListMeta}.
Abbreviation Run := (Run ListMeta).

(** [if in.F != nil { *out = new(T); **out = **in }] *)
Definition copy_flat (p : ptr) : Run ptr :=
  match p with
  | None => mret None
  | Some l => c ← load l; l' ← alloc c; mret (Some l')
  end.

(** The same, with a copy of what the pointer leads to. *)
Definition copy_ptr (copy : loc → Run loc) (p : ptr) : Run ptr :=
  match p with None => mret None | Some l => l' ← copy l; mret (Some l') end.

(** [*out = new(T); ( *in).DeepCopyInto( *out)] for the struct that a cell holds. *)
Definition copy_struct {G} (get : cell ListMeta → option G) (put : G → cell ListMeta)
    (DeepCopyInto : G → Run G) (l : loc) : Run loc :=
  c ← load l; inp ← expect (get c); out ← DeepCopyInto inp; alloc (put out).

(** [DeepCopy] of each type *)
Definition DeepCopy {G} (get : cell ListMeta → option G) (put : G → cell ListMeta)
    (DeepCopyInto : G → Run G) (p : ptr) : Run ptr :=
  copy_ptr (copy_struct get put DeepCopyInto) p.

(** The loop over a map of pointers. *)
Definition copy_pointers (copy : loc → Run loc) (l : loc) : Run loc :=
  c ← load l;
  m ← expect (match c with CPointers m => Some m | _ => None end);
  out ← alloc (CPointers ∅);
  entries ← range_over m;
  _ ← each entries (λ entry,
    outVal ← copy_ptr copy entry.2;
    c ← load out;
    m ← expect (match c with CPointers m => Some m | _ => None end);
    store out (CPointers (<[entry.1 := outVal]> m)));
  mret out.

Definition ClusterCondition_DeepCopyInto (inp : ClusterCondition) : Run ClusterCondition := mret inp.

Definition ReplicaStatus_DeepCopyInto (inp : ReplicaStatus) : Run ReplicaStatus := mret inp.

(** [new(map[...]...)], and the map it leads to, entry by entry. *)
Definition copy_resource_map (l : loc) : Run loc :=
  c ← load l;
  inner ← expect (match c with CMapOf m => Some m | _ => None end);
  inner' ← copy_ptr (λ l,
    c ← load l;
    m ← expect (match c with CQuantities m => Some m | _ => None end);
    out ← alloc (CQuantities ∅);
    entries ← range_over m;
    _ ← each entries (λ entry,
      c ← load out;
      m ← expect (match c with CQuantities m => Some m | _ => None end);
      store out (CQuantities (<[entry.1 := entry.2]> m)));
    mret out) inner;
  alloc (CMapOf inner').

Definition SchedulingPolicy_DeepCopyInto (inp : GoSchedulingPolicy) : Run GoSchedulingPolicy :=
  minAvailable ← copy_flat (gs_MinAvailable inp);
  minResources ← copy_ptr copy_resource_map (gs_MinResources inp);
  timeout ← copy_flat (gs_ScheduleTimeoutSeconds inp);
  mret {| gs_MinAvailable := minAvailable; gs_Queue := gs_Queue inp; gs_MinResources := minResources;
          gs_PriorityClass := gs_PriorityClass inp; gs_ScheduleTimeoutSeconds := timeout |}.

Definition as_SchedulingPolicy (c : cell ListMeta) : option GoSchedulingPolicy :=
  match c with CSchedulingPolicy s => Some s | _ => None end.

(** [TTLSecondsAfterFinished] is not among the fields that are set. *)
Definition RunPolicy_DeepCopyInto (inp : GoRunPolicy) : Run GoRunPolicy :=
  clean ← copy_flat (gr_CleanKubeNodePolicy inp);
  deadline ← copy_flat (gr_ActiveDeadlineSeconds inp);
  backoff ← copy_flat (gr_BackoffLimit inp);
  scheduling ← copy_ptr (copy_struct as_SchedulingPolicy CSchedulingPolicy SchedulingPolicy_DeepCopyInto)
    (gr_SchedulingPolicy inp);
  suspend ← copy_flat (gr_Suspend inp);
  mret {| gr_CleanKubeNodePolicy := clean;
          gr_TTLSecondsAfterFinished := gr_TTLSecondsAfterFinished inp;
          gr_ActiveDeadlineSeconds := deadline; gr_BackoffLimit := backoff;
          gr_SchedulingPolicy := scheduling; gr_Suspend := suspend |}.

Definition KubeNode_DeepCopyInto (inp : GoKubeNode) : Run GoKubeNode :=
  meta ← lib_DeepCopy (gn_ObjectMeta inp);
  spec ← lib_DeepCopy (gn_Spec inp);
  mret {| gn_ObjectMeta := meta; gn_Spec := spec |}.

Definition ReplicaTemplate_DeepCopyInto (inp : GoKubeNode) : Run GoKubeNode :=
  meta ← lib_DeepCopy (gn_ObjectMeta inp);
  spec ← lib_DeepCopy (gn_Spec inp);
  mret {| gn_ObjectMeta := meta; gn_Spec := spec |}.

Definition ReplicaSpec_DeepCopyInto (inp : GoReplicaSpec) : Run GoReplicaSpec :=
  replicas ← copy_flat (gp_Replicas inp);
  template ← ReplicaTemplate_DeepCopyInto (gp_Template inp);
  mret {| gp_Replicas := replicas; gp_Template := template; gp_RestartPolicy := gp_RestartPolicy inp |}.

Definition as_ReplicaSpec (c : cell ListMeta) : option GoReplicaSpec :=
  match c with CReplicaSpec s => Some s | _ => None end.

Definition ClusterSpec_DeepCopyInto (inp : GoClusterSpec) : Run GoClusterSpec :=
  replicas ← copy_ptr (copy_pointers (copy_struct as_ReplicaSpec CReplicaSpec ReplicaSpec_DeepCopyInto))
    (gc_ClusterReplicaSpec inp);
  runPolicy ← RunPolicy_DeepCopyInto (gc_RunPolicy inp);
  mret {| gc_ClusterType := gc_ClusterType inp; gc_ClusterReplicaSpec := replicas;
          gc_MainContainer := gc_MainContainer inp; gc_RunPolicy := runPolicy |}.

Definition copy_conditions (l : loc) : Run loc :=
  c ← load l;
  conditions ← expect (match c with CConditions cs => Some cs | _ => None end);
  out ← map_each ClusterCondition_DeepCopyInto conditions;
  alloc (CConditions out).

Definition ClusterStatus_DeepCopyInto (inp : GoClusterStatus) : Run GoClusterStatus :=
  conditions ← copy_ptr copy_conditions (gu_Conditions inp);
  statuses ← copy_ptr (copy_pointers (λ l, c ← load l; alloc c)) (gu_ReplicaStatuses inp);
  start ← copy_ptr lib_DeepCopy (gu_StartTime inp);
  last ← copy_ptr lib_DeepCopy (gu_LastReconcileTime inp);
  completion ← copy_ptr lib_DeepCopy (gu_CompletionTime inp);
  mret {| gu_Conditions := conditions; gu_ReplicaStatuses := statuses; gu_StartTime := start;
          gu_LastReconcileTime := last; gu_CompletionTime := completion |}.

Definition KubeCluster_DeepCopyInto (inp : GoKubeCluster) : Run GoKubeCluster :=
  meta ← lib_DeepCopy (gk_ObjectMeta inp);
  spec ← ClusterSpec_DeepCopyInto (gk_Spec inp);
  status ← ClusterStatus_DeepCopyInto (gk_Status inp);
  mret {| gk_ObjectMeta := meta; gk_Spec := spec; gk_Status := status |}.

Definition copy_items (l : loc) : Run loc :=
  c ← load l;
  items ← expect (match c with CItems ks => Some ks | _ => None end);
  out ← map_each KubeCluster_DeepCopyInto items;
  alloc (CItems out).

Definition KubeClusterList_DeepCopyInto (inp : GoKubeClusterList) : Run GoKubeClusterList :=
  meta ← lib_DeepCopy (gl_ListMeta inp);
  items ← copy_ptr copy_items (gl_Items inp);
  mret {| gl_ListMeta := meta; gl_Items := items |}.

Definition ClusterCondition_DeepCopy : ptr → Run ptr :=
  DeepCopy (λ c, match c with CClusterCondition s => Some s | _ => None end) CClusterCondition
    ClusterCondition_DeepCopyInto.
Definition ClusterSpec_DeepCopy : ptr → Run ptr :=
  DeepCopy (λ c, match c with CClusterSpec s => Some s | _ => None end) CClusterSpec
    ClusterSpec_DeepCopyInto.
Definition ClusterStatus_DeepCopy : ptr → Run ptr :=
  DeepCopy (λ c, match c with CClusterStatus s => Some s | _ => None end) CClusterStatus
    ClusterStatus_DeepCopyInto.
Definition KubeCluster_DeepCopy : ptr → Run ptr :=
  DeepCopy (λ c, match c with CKubeCluster s => Some s | _ => None end) CKubeCluster
    KubeCluster_DeepCopyInto.
Definition KubeClusterList_DeepCopy : ptr → Run ptr :=
  DeepCopy (λ c, match c with CKubeClusterList s => Some s | _ => None end) CKubeClusterList
    KubeClusterList_DeepCopyInto.
Definition KubeNode_DeepCopy : ptr → Run ptr :=
  DeepCopy (λ c, match c with CKubeNode s => Some s | _ => None end) CKubeNode KubeNode_DeepCopyInto.
Definition ReplicaTemplate_DeepCopy : ptr → Run ptr :=
  DeepCopy (λ c, match c with CKubeNode s => Some s | _ => None end) CKubeNode
    ReplicaTemplate_DeepCopyInto.
Definition ReplicaSpec_DeepCopy : ptr → Run ptr :=
  DeepCopy as_ReplicaSpec CReplicaSpec ReplicaSpec_DeepCopyInto.
Definition ReplicaStatus_DeepCopy : ptr → Run ptr :=
  DeepCopy (λ c, match c with CReplicaStatus s => Some s | _ => None end) CReplicaStatus
    ReplicaStatus_DeepCopyInto.
Definition RunPolicy_DeepCopy : ptr → Run ptr :=
  DeepCopy (λ c, match c with CRunPolicy s => Some s | _ => None end) CRunPolicy RunPolicy_DeepCopyInto.
Definition SchedulingPolicy_DeepCopy : ptr → Run ptr :=
  DeepCopy as_SchedulingPolicy CSchedulingPolicy SchedulingPolicy_DeepCopyInto.
(** An interface that holds nil is not nil: hence the case distinction of the source. *)
Definition KubeCluster_DeepCopyObject : ptr → Run ptr := KubeCluster_DeepCopy.
Definition KubeClusterList_DeepCopyObject : ptr → Run ptr := KubeClusterList_DeepCopy.
End deepcopy.

(** ** What the memory holds

    [holds h g v]: from the struct [g], the memory [h] reads as the value [v]. *)
Section holds.
Context {K : K8s} {ListMeta : Type}.
Abbreviation heap := (gmap loc (cell ListMeta)).

Definition at_ptr {V} (P : loc → V → Prop) (p : ptr) (o : option V) : Prop :=
  match p, o with None, None => True | Some l, Some v => P l v | _, _ => False end.

Definition at_cell {V} (mk : V → cell ListMeta) (h : heap) (l : loc) (v : V) : Prop := h !! l = Some (mk v).

Definition at_struct {G V} (mk : G → cell ListMeta) (P : heap → G → V → Prop) (h : heap) (l : loc) (v : V) :
    Prop :=
  ∃ g, h !! l = Some (mk g) ∧ P h g v.

(** A map of pointers, entry by entry. *)
Definition at_entries {V} (P : loc → V → Prop) (m : gmap string ptr) (vm : gmap string (option V)) : Prop :=
  ∀ k, match m !! k, vm !! k with
       | None, None => True | Some p, Some o => at_ptr P p o | _, _ => False
       end.

Definition at_map {V} (P : heap → loc → V → Prop) (h : heap) (l : loc) (vm : gmap string (option V)) : Prop :=
  ∃ m, h !! l = Some (CPointers m) ∧ at_entries (P h) m vm.

(** A map, a slice: nil reads as empty. *)
Definition or_empty {V} (e : V) (P : loc → V → Prop) (p : ptr) (v : V) : Prop :=
  match p with None => v = e | Some l => P l v end.

(** A pointer to a map. *)
Definition at_resources : heap → loc → ResourceList → Prop :=
  at_struct CMapOf (λ h, or_empty ∅ (at_cell CQuantities h)).

Definition holds_SchedulingPolicy (h : heap) (g : GoSchedulingPolicy) (v : SchedulingPolicy) : Prop :=
  at_ptr (at_cell CInt h) (gs_MinAvailable g) (sp_MinAvailable v) ∧
  gs_Queue g = sp_Queue v ∧
  at_ptr (at_resources h) (gs_MinResources g) (sp_MinResources v) ∧
  gs_PriorityClass g = sp_PriorityClass v ∧
  at_ptr (at_cell CInt h) (gs_ScheduleTimeoutSeconds g) (sp_ScheduleTimeoutSeconds v).

Definition holds_RunPolicy (h : heap) (g : GoRunPolicy) (v : RunPolicy) : Prop :=
  at_ptr (at_cell CPolicy h) (gr_CleanKubeNodePolicy g) (rp_CleanKubeNodePolicy v) ∧
  at_ptr (at_cell CInt h) (gr_TTLSecondsAfterFinished g) (rp_TTLSecondsAfterFinished v) ∧
  at_ptr (at_cell CInt h) (gr_ActiveDeadlineSeconds g) (rp_ActiveDeadlineSeconds v) ∧
  at_ptr (at_cell CInt h) (gr_BackoffLimit g) (rp_BackoffLimit v) ∧
  at_ptr (at_struct CSchedulingPolicy holds_SchedulingPolicy h) (gr_SchedulingPolicy g)
    (rp_SchedulingPolicy v) ∧
  at_ptr (at_cell CBool h) (gr_Suspend g) (rp_Suspend v).

Definition holds_KubeNode (h : heap) (g : GoKubeNode) (v : PodTemplateSpec) : Prop :=
  at_cell CObjectMeta h (gn_ObjectMeta g) (pt_Meta v) ∧ at_cell CPodSpec h (gn_Spec g) (pt_Spec v).

Definition holds_ReplicaSpec (h : heap) (g : GoReplicaSpec) (v : ReplicaSpec) : Prop :=
  at_ptr (at_cell CInt h) (gp_Replicas g) (r_Replicas v) ∧
  holds_KubeNode h (gp_Template g) (r_Template v) ∧ gp_RestartPolicy g = r_RestartPolicy v.

Definition holds_ClusterSpec (h : heap) (g : GoClusterSpec) (v : ClusterSpec) : Prop :=
  gc_ClusterType g = sp_ClusterType v ∧
  or_empty ∅ (at_map (at_struct CReplicaSpec holds_ReplicaSpec) h) (gc_ClusterReplicaSpec g)
    (sp_ClusterReplicaSpec v) ∧
  gc_MainContainer g = sp_MainContainer v ∧ holds_RunPolicy h (gc_RunPolicy g) (sp_RunPolicy v).

Definition holds_ClusterStatus (h : heap) (g : GoClusterStatus) (v : ClusterStatus) : Prop :=
  or_empty [] (at_cell CConditions h) (gu_Conditions g) (st_Conditions v) ∧
  or_empty ∅ (at_map (at_cell CReplicaStatus) h) (gu_ReplicaStatuses g) (Some <$> st_ReplicaStatuses v) ∧
  at_ptr (at_cell CTime h) (gu_StartTime g) (st_StartTime v) ∧
  at_ptr (at_cell CTime h) (gu_LastReconcileTime g) (st_LastReconcileTime v) ∧
  at_ptr (at_cell CTime h) (gu_CompletionTime g) (st_CompletionTime v).

Definition holds_KubeCluster (h : heap) (g : GoKubeCluster) (v : KubeCluster) : Prop :=
  at_cell CObjectMeta h (gk_ObjectMeta g) (kc_Meta v) ∧
  holds_ClusterSpec h (gk_Spec g) (kc_Spec v) ∧ holds_ClusterStatus h (gk_Status g) (kc_Status v).

Definition at_items : heap → loc → list KubeCluster → Prop :=
  at_struct CItems (λ h, Forall2 (holds_KubeCluster h)).

Definition holds_KubeClusterList (h : heap) (g : GoKubeClusterList) (v : ListMeta * list KubeCluster) : Prop :=
  at_cell CListMeta h (gl_ListMeta g) v.1 ∧ or_empty [] (at_items h) (gl_Items g) v.2.

(** *** More memory changes nothing *)

Class Grows {G V} (P : heap → G → V → Prop) : Prop := grows h h' g v : h ⊆ h' → P h g v → P h' g v.

#[global] Instance grows_cell {V} (mk : V → cell ListMeta) : Grows (at_cell mk).
Proof. intros h h' l v Hh Hl. by eapply lookup_weaken. Qed.

#[global] Instance grows_struct {G V} mk (P : heap → G → V → Prop) : Grows P → Grows (at_struct mk P).
Proof. intros HP h h' l v Hh (g & Hl & Hg). exists g. split; [by eapply lookup_weaken|by eapply HP]. Qed.

Lemma at_ptr_mono {V} (P Q : loc → V → Prop) p o : (∀ l v, P l v → Q l v) → at_ptr P p o → at_ptr Q p o.
Proof. intros HPQ. destruct p, o; simpl; auto. Qed.

Lemma or_empty_mono {V} (e : V) (P Q : loc → V → Prop) p v :
  (∀ l, P l v → Q l v) → or_empty e P p v → or_empty e Q p v.
Proof. intros HPQ. destruct p; simpl; auto. Qed.

Lemma at_entries_mono {V} (P Q : loc → V → Prop) m vm :
  (∀ l v, P l v → Q l v) → at_entries P m vm → at_entries Q m vm.
Proof.
  intros HPQ Hm k. specialize (Hm k). destruct (m !! k), (vm !! k); try done. by eapply at_ptr_mono.
Qed.

#[global] Instance grows_map {V} (P : heap → loc → V → Prop) : Grows P → Grows (at_map P).
Proof.
  intros HP h h' l v Hh (m & Hl & Hm). exists m. split; [by eapply lookup_weaken|].
  eapply at_entries_mono; [|done]. intros. by eapply HP.
Qed.

Lemma grows_ptr {V} (P : heap → loc → V → Prop) `{!Grows P} h h' p o :
  h ⊆ h' → at_ptr (P h) p o → at_ptr (P h') p o.
Proof. intros Hh. apply at_ptr_mono. intros. by eapply grows. Qed.
Lemma grows_or_empty {V} e (P : heap → loc → V → Prop) `{!Grows P} h h' p v :
  h ⊆ h' → or_empty e (P h) p v → or_empty e (P h') p v.
Proof. intros Hh. apply or_empty_mono. intros. by eapply grows. Qed.

#[global] Instance grows_at_ptr {V} (P : heap → loc → V → Prop) : Grows P → Grows (λ h, at_ptr (P h)).
Proof. intros HP h h' p o. apply grows_ptr. exact HP. Qed.
#[global] Instance grows_at_or_empty {V} e (P : heap → loc → V → Prop) :
  Grows P → Grows (λ h, or_empty e (P h)).
Proof. intros HP h h' p v. apply grows_or_empty. exact HP. Qed.

#[global] Instance grows_resources : Grows at_resources.
Proof. apply _. Qed.
#[global] Instance grows_SchedulingPolicy : Grows holds_SchedulingPolicy.
Proof. intros h h' g v Hh (?&?&?&?&?). split_and!; try done; by eapply grows_ptr; [apply _|..]. Qed.
#[global] Instance grows_RunPolicy : Grows holds_RunPolicy.
Proof. intros h h' g v Hh (?&?&?&?&?&?). split_and!; by eapply grows_ptr; [apply _|..]. Qed.
#[global] Instance grows_KubeNode : Grows holds_KubeNode.
Proof. intros h h' g v Hh (?&?). split; by eapply grows_cell. Qed.
#[global] Instance grows_ReplicaSpec : Grows holds_ReplicaSpec.
Proof.
  intros h h' g v Hh (?&?&?). split_and!; [by eapply grows_ptr; [apply _|..]|by eapply grows|done].
Qed.
#[global] Instance grows_ClusterSpec : Grows holds_ClusterSpec.
Proof.
  intros h h' g v Hh (?&?&?&?). split_and!; [done|by eapply grows_or_empty; [apply _|..]|done|].
  by eapply grows.
Qed.
#[global] Instance grows_ClusterStatus : Grows holds_ClusterStatus.
Proof.
  intros h h' g v Hh (?&?&?&?&?). split_and!;
    first [by eapply grows_or_empty; [apply _|..]|by eapply grows_ptr; [apply _|..]].
Qed.
#[global] Instance grows_KubeCluster : Grows holds_KubeCluster.
Proof. intros h h' g v Hh (?&?&?). split_and!; [by eapply grows_cell|by eapply grows..]. Qed.
#[global] Instance grows_all {G V} (P : heap → G → V → Prop) : Grows P → Grows (λ h, Forall2 (P h)).
Proof. intros HP h h' gs vs Hh Hgs. eapply Forall2_impl; [exact Hgs|]. intros. by eapply HP. Qed.
#[global] Instance grows_items : Grows at_items.
Proof. apply _. Qed.
End holds.

(** ** What a copy allocates *)
Section makes.
Context {K : K8s} {ListMeta : Type} {GR : GoRange} {GRL : GoRangeLaws GR} {LC : LibraryCopy ListMeta}
  {LCL : LibraryCopyLaws LC}.
Abbreviation heap := (gmap loc (cell ListMeta)).
Abbreviation Run := (Run ListMeta).
Abbreviation Mem := (Mem ListMeta).

(** The step ends well, leaves the memory as it is but for the new cells, and these
    satisfy [Q]. *)
Definition makes {A} (m : Run A) (st : Mem) (Q : heap → A → Prop) : Prop :=
  ∃ new st' a, m st = (st', Some a) ∧ m_cells st' = m_cells st ∪ new ∧ m_cells st ##ₘ new ∧ Q new a.

Lemma makes_ret {A} (a : A) st (Q : heap → A → Prop) : Q ∅ a → makes (mret a) st Q.
Proof.
  intros HQ. exists ∅, st, a. split_and!; [done|by rewrite map_union_empty|apply map_disjoint_empty_r|done].
Qed.

Lemma mem_bind {A B} (m : Run A) (f : A → Run B) st st' a : m st = (st', Some a) → (m ≫= f) st = f a st'.
Proof. intros Hm. unfold mbind, Run_bind. by rewrite Hm. Qed.

Lemma run_Some {A B} (m : Run A) (f : A → Run B) st st' b :
  (m ≫= f) st = (st', Some b) → ∃ a st1, m st = (st1, Some a) ∧ f a st1 = (st', Some b).
Proof. unfold mbind, Run_bind. destruct (m st) as [st1 [a|]]; [|done]. by exists a, st1. Qed.

Lemma makes_bind {A B} (m : Run A) (f : A → Run B) st Q Q' :
  makes m st Q →
  (∀ new st' a, m_cells st ⊆ m_cells st' → Q new a →
     makes (f a) st' (λ new2 b, new ##ₘ new2 → Q' (new ∪ new2) b)) →
  makes (m ≫= f) st Q'.
Proof.
  intros (new & st1 & a & Hm & Hc & Hd & HQ) Hf.
  destruct (Hf new st1 a) as (new2 & st2 & b & Hf2 & Hc2 & Hd2 & HQ2); [|done|].
  { rewrite Hc. apply map_union_subseteq_l. }
  rewrite Hc in Hc2, Hd2. apply map_disjoint_union_l in Hd2 as [Hd2 Hd3].
  exists (new ∪ new2), st2, b. split_and!.
  - unfold mbind, Run_bind. by rewrite Hm.
  - by rewrite Hc2, assoc by apply _.
  - by apply map_disjoint_union_r.
  - by apply HQ2.
Qed.

Lemma makes_weaken {A} (m : Run A) st (Q Q' : heap → A → Prop) :
  makes m st Q → (∀ new a, m_cells st ##ₘ new → Q new a → Q' new a) → makes m st Q'.
Proof. intros (new & st1 & a & ? & ? & ? & HQ) HQ'. exists new, st1, a. split_and!; auto. Qed.

Lemma makes_load {B} l c (f : cell ListMeta → Run B) st Q :
  m_cells st !! l = Some c → makes (f c) st Q → makes (load l ≫= f) st Q.
Proof. intros Hl (new & st1 & b & Hf & ?). exists new, st1, b. split; [|done]. unfold mbind, Run_bind, load. by rewrite Hl. Qed.

Lemma makes_expect {A B} (a : A) (f : A → Run B) st Q :
  makes (f a) st Q → makes (expect (Some a) ≫= f) st Q.
Proof. intros (new & st1 & b & Hf & ?). by exists new, st1, b. Qed.

Lemma makes_alloc c st (Q : heap → loc → Prop) : (∀ l, Q {[l := c]} l) → makes (alloc c) st Q.
Proof.
  intros HQ. set (l := fresh (dom (m_cells st))).
  assert (m_cells st !! l = None) as Hl by (apply not_elem_of_dom, is_fresh).
  eexists {[l := c]}, _, l. split_and!; [done| | |done].
  - simpl. fold l. by rewrite insert_union_singleton_r.
  - by apply map_disjoint_singleton_r.
Qed.

(** The part of the memory that a copy may share. *)
Definition shared (S : gset loc) (h : heap) : heap := filter (λ kc, kc.1 ∈ S) h.

Lemma shared_none h : shared ∅ h = ∅.
Proof. apply map_empty_filter. intros i x _. set_solver. Qed.

(** Copying [g] makes a copy that needs no more than the new cells and, of the old
    ones, those in [S]. *)
Definition copies {G V} (S : gset loc) (P : heap → G → V → Prop) (into : G → Run G) (g : G) : Prop :=
  ∀ h st v, h ⊆ m_cells st → P h g v → makes (into g) st (λ new g', P (shared S h ∪ new) g' v).

Lemma shared_disjoint S h st new : h ⊆ m_cells st → m_cells st ##ₘ new → shared S h ##ₘ new.
Proof.
  intros Hh Hd. eapply map_disjoint_weaken_l; [exact Hd|]. etransitivity; [apply map_filter_subseteq|done].
Qed.

(** New cells suffice. *)
Lemma makes_new {A G V} (S : gset loc) (P : heap → G → V → Prop) `{!Grows P} (m : Run A) (f : A → G) h st v :
  h ⊆ m_cells st → makes m st (λ new a, P new (f a) v) → makes m st (λ new a, P (shared S h ∪ new) (f a) v).
Proof.
  intros Hh Hm. eapply makes_weaken; [exact Hm|]. intros new a Hd. apply grows.
  apply map_union_subseteq_r. by eapply shared_disjoint.
Qed.

Lemma copies_flat S {V} (mk : V → cell ListMeta) p :
  copies S (λ h, at_ptr (at_cell mk h)) copy_flat p.
Proof.
  intros h st v Hh Hp. destruct p as [l|], v as [v|]; try done; [|by apply makes_ret].
  apply (makes_new S (λ h, at_ptr (at_cell mk h)) _ id); [done|].
  eapply makes_load; [by eapply lookup_weaken|].
  eapply makes_bind; [apply (makes_alloc _ _ (λ new l, new !! l = Some (mk v))); intros; apply lookup_singleton_eq|].
  intros new st' a _ Ha. apply makes_ret. intros _. simpl. rewrite map_union_empty. exact Ha.
Qed.

Lemma copies_ptr S {V} (P : heap → loc → V → Prop) copy p :
  (∀ l, p = Some l → copies S P copy l) → copies S (λ h, at_ptr (P h)) (copy_ptr copy) p.
Proof.
  intros Hc h st v Hh Hp. destruct p as [l|], v as [v|]; try done; [|by apply makes_ret].
  eapply makes_bind; [by eapply Hc|]. intros new st' l' _ Hl. apply makes_ret. intros _.
  by rewrite map_union_empty.
Qed.

Lemma copies_or_empty S {V} e (P : heap → loc → V → Prop) copy p :
  (∀ l, p = Some l → copies S P copy l) → copies S (λ h, or_empty e (P h)) (copy_ptr copy) p.
Proof.
  intros Hc h st v Hh Hp. destruct p as [l|]; [|by apply makes_ret].
  eapply makes_bind; [by eapply Hc|]. intros new st' l' _ Hl. apply makes_ret. intros _.
  by rewrite map_union_empty.
Qed.

(** A cell whose contents are copied. *)
Lemma makes_copy_cell S {V} (mk : V → cell ListMeta) h st (v : V) :
  h ⊆ m_cells st → makes (alloc (mk v)) st (λ new l', at_cell mk (shared S h ∪ new) l' v).
Proof.
  intros Hh. apply (makes_new S (at_cell mk) _ id); [done|].
  apply makes_alloc. intros l. apply lookup_singleton_eq.
Qed.

Lemma copies_cell S {V} (mk : V → cell ListMeta) l : copies S (at_cell mk) (λ l, c ← load l; alloc c) l.
Proof. intros h st v Hh Hl. eapply makes_load; [by eapply lookup_weaken|]. by apply makes_copy_cell. Qed.

Lemma copies_lib S {V} (mk : V → cell ListMeta) l : copies S (at_cell mk) lib_DeepCopy l.
Proof.
  intros h st v Hh Hl. apply (makes_new S (at_cell mk) _ id); [done|].
  destruct (lib_copy l st (mk v)) as (l' & Hl' & Heq); [by eapply lookup_weaken|].
  eexists {[l' := mk v]}, _, l'. split_and!; [exact Heq| | |apply lookup_singleton_eq].
  - simpl. by rewrite insert_union_singleton_r.
  - by apply map_disjoint_singleton_r.
Qed.

(** Putting the struct that was made into a cell of its own. *)
Lemma makes_put S {G V} (put : G → cell ListMeta) (P : heap → G → V → Prop) `{!Grows P} (m : Run G) h st v :
  h ⊆ m_cells st → makes m st (λ new g, P (shared S h ∪ new) g v) →
  makes (g ← m; alloc (put g)) st (λ new l, at_struct put P (shared S h ∪ new) l v).
Proof.
  intros Hh Hm. eapply makes_weaken with (Q := λ new l, ∃ g new1,
    new1 ##ₘ {[l := put g]} ∧ new = new1 ∪ {[l := put g]} ∧ P (shared S h ∪ new1) g v).
  - eapply makes_bind; [exact Hm|]. intros new st' g _ Hg.
    apply makes_alloc. intros l Hd. by exists g, new.
  - intros new l Hd (g & new1 & Hd1 & -> & Hg). exists g.
    apply (shared_disjoint S h) in Hd; [|done]. split.
    + apply lookup_union_Some_r; [done|]. apply lookup_union_Some_r; [done|apply lookup_singleton_eq].
    + eapply grows; [|exact Hg]. apply map_union_mono_l, map_union_subseteq_l.
Qed.

Lemma copies_struct S {G V} get put (P : heap → G → V → Prop) `{!Grows P} into l :
  (∀ g, get (put g) = Some g) → (∀ g, copies S P into g) →
  copies S (at_struct put P) (copy_struct get put into) l.
Proof.
  intros Hget Hc h st v Hh (g & Hl & Hg). unfold copy_struct.
  eapply makes_load; [by eapply lookup_weaken|]. rewrite Hget. apply makes_expect.
  apply makes_put; [apply _|done|]. by eapply Hc.
Qed.

(** *** The loop over a map of pointers *)

Lemma at_entries_insert {V} (P : loc → V → Prop) m vm k p o :
  at_ptr P p o → at_entries P m vm → at_entries P (<[k := p]> m) (<[k := o]> vm).
Proof.
  intros Hp Hm k'. destruct (decide (k = k')) as [<-|Hne]; [by rewrite !lookup_insert_eq|].
  rewrite !lookup_insert_ne by done. apply Hm.
Qed.

(** While the loop runs, the new map lies outside of what its entries need. *)
Lemma copy_entries S {V} (P : heap → loc → V → Prop) `{!Grows P} copy h base out entries
    (vm : gmap string (option V)) st new done_ vdone :
  (∀ l, copies S P copy l) → h ⊆ base → base !! out = None →
  m_cells st = <[out := CPointers done_]> (base ∪ new) → new !! out = None → base ##ₘ new →
  at_entries (P (shared S h ∪ new)) done_ vdone →
  (∀ k p, (k, p) ∈ entries → ∃ o, vm !! k = Some o ∧ at_ptr (P h) p o) →
  ∃ new' st' done', each entries (λ entry,
      outVal ← copy_ptr copy entry.2;
      c ← load out;
      m ← expect (match c with CPointers m => Some m | _ => None end);
      store out (CPointers (<[entry.1 := outVal]> m))) st = (st', Some tt) ∧
    m_cells st' = <[out := CPointers done']> (base ∪ new') ∧ new' !! out = None ∧ base ##ₘ new' ∧
    at_entries (P (shared S h ∪ new')) done'
      (foldl (λ vd entry, <[entry.1 := default None (vm !! entry.1)]> vd) vdone entries).
Proof.
  intros Hc Hh Hout. revert st new done_ vdone.
  induction entries as [|[k p] entries IH]; intros st new done_ vdone Hst Hnew Hd Hm Hes.
  { exists new, st, done_. by split_and!. }
  destruct (Hes k p) as (o & Ho & Hp); [by left|].
  assert (h ⊆ m_cells st) as Hhst.
  { rewrite Hst. etransitivity; [exact Hh|]. etransitivity; [apply map_union_subseteq_l|].
    apply insert_subseteq. by rewrite lookup_union_None. }
  destruct (copies_ptr S P copy p (λ l _, Hc l) h st o Hhst Hp) as (new1 & st1 & p' & Hrun & Hc1 & Hd1 & Hp').
  rewrite Hst in Hc1, Hd1. apply map_disjoint_insert_l in Hd1 as [Hl1 Hd1].
  apply map_disjoint_union_l in Hd1 as [Hb1 Hn1].
  rewrite <-insert_union_l, <-(map_union_assoc base new new1) in Hc1.
  edestruct (IH {| m_cells := <[out := CPointers (<[k := p']> done_)]> (m_cells st1); m_loops := m_loops st1 |}
    (new ∪ new1) (<[k := p']> done_) (<[k := o]> vdone)) as (new' & st' & done' & Heach & Hrest).
  - simpl. by rewrite Hc1, insert_insert_eq.
  - by apply lookup_union_None.
  - by apply map_disjoint_union_r.
  - apply at_entries_insert.
    + eapply at_ptr_mono; [|exact Hp']. intros l v. apply grows, map_union_mono_l. by apply map_union_subseteq_r.
    + eapply at_entries_mono; [|exact Hm]. intros l v. apply grows, map_union_mono_l, map_union_subseteq_l.
  - intros k' p'' Hi. apply Hes. by right.
  - exists new', st', done'. cbn [foldl fst snd each]. rewrite Ho. split; [|done].
    erewrite mem_bind; [exact Heach|]. rewrite (mem_bind _ _ _ _ _ Hrun).
    rewrite (mem_bind _ _ st1 st1 (CPointers done_)); [done|]. unfold load. by rewrite Hc1, lookup_insert_eq.
Qed.

Lemma range_entries {V} n (P : loc → V → Prop) m (vm : gmap string (option V)) :
  at_entries P m vm →
  foldl (λ vd entry, <[entry.1 := default None (vm !! entry.1)]> vd) ∅ (range n m) = vm.
Proof.
  intros Hm. apply map_eq. intros k.
  rewrite (range_write n (λ k _, default None (vm !! k)) m ∅ k), lookup_empty. specialize (Hm k).
  by destruct (m !! k), (vm !! k).
Qed.

Lemma copies_pointers S {V} (P : heap → loc → V → Prop) `{!Grows P} copy l :
  (∀ l, copies S P copy l) → copies S (at_map P) (copy_pointers copy) l.
Proof.
  intros Hc h st vm Hh (m & Hl & Hm). unfold copy_pointers.
  eapply makes_load; [by eapply lookup_weaken|]. apply makes_expect.
  set (out := fresh (dom (m_cells st))).
  assert (m_cells st !! out = None) as Hout by (apply not_elem_of_dom, is_fresh).
  edestruct (copy_entries S P copy h (m_cells st) out (range (m_loops st) m) vm
    {| m_cells := <[out := CPointers ∅]> (m_cells st); m_loops := Datatypes.S (m_loops st) |} ∅ ∅ ∅)
    as (new & st' & done' & Hrun & Hst & Hnew & Hd & Hdone); try done.
  - simpl. by rewrite map_union_empty.
  - apply map_disjoint_empty_r.
  - intros k p Hi. apply elem_of_range in Hi. specialize (Hm k). rewrite Hi in Hm.
    destruct (vm !! k) as [o|]; [by exists o|done].
  - rewrite (range_entries _ (P h)) in Hdone by done.
    exists (<[out := CPointers done']> new), st', out. split_and!.
    + rewrite (mem_bind _ _ st _ out) by done. rewrite (mem_bind _ _ _ _ (range (m_loops st) m)) by done.
      by rewrite (mem_bind _ _ _ _ _ Hrun).
    + by rewrite Hst, insert_union_r.
    + by apply map_disjoint_insert_r.
    + exists done'. assert (shared S h !! out = None) as Hs.
      { eapply lookup_weaken_None; [exact Hout|]. etransitivity; [apply map_filter_subseteq|done]. }
      assert (new ⊆ <[out := CPointers done']> new) as Hsub by (by apply insert_subseteq).
      split; [rewrite lookup_union_r by done; apply lookup_insert_eq|].
      eapply at_entries_mono; [|exact Hdone]. intros l2 v. apply grows.
      by apply map_union_mono_l.
Qed.

(** *** The map of [MinResources] *)

Lemma copy_quantities out (entries : list (string * Quantity)) (st : Mem) (base : heap) :
  ∀ done_, m_cells st = <[out := CQuantities done_]> base →
  ∃ st', each entries (λ entry,
      c ← load out;
      m ← expect (match c with CQuantities m => Some m | _ => None end);
      store out (CQuantities (<[entry.1 := entry.2]> m))) st = (st', Some tt) ∧
    m_cells st' = <[out := CQuantities (foldl (λ r kv, <[kv.1 := kv.2]> r) done_ entries)]> base.
Proof.
  revert st. induction entries as [|[k q] entries IH]; intros st done_ Hst; [by exists st|].
  edestruct (IH {| m_cells := <[out := CQuantities (<[k := q]> done_)]> (m_cells st); m_loops := m_loops st |}
    (<[k := q]> done_)) as (st' & Heach & Hst'); [simpl; by rewrite Hst, insert_insert_eq|].
  exists st'. split; [|done]. cbn [each fst snd]. erewrite mem_bind; [exact Heach|].
  rewrite (mem_bind _ _ st st (CQuantities done_)); [done|]. unfold load. by rewrite Hst, lookup_insert_eq.
Qed.

Lemma copies_quantities S l :
  copies S (at_cell CQuantities) (λ l,
    c ← load l;
    m ← expect (match c with CQuantities m => Some m | _ => None end);
    out ← alloc (CQuantities ∅);
    entries ← range_over m;
    _ ← each entries (λ entry,
      c ← load out;
      m ← expect (match c with CQuantities m => Some m | _ => None end);
      store out (CQuantities (<[entry.1 := entry.2]> m)));
    mret out) l.
Proof.
  intros h st m Hh Hl. apply (makes_new S (at_cell CQuantities) _ id); [done|].
  eapply makes_load; [by eapply lookup_weaken|]. apply makes_expect.
  set (out := fresh (dom (m_cells st))).
  assert (m_cells st !! out = None) as Hout by (apply not_elem_of_dom, is_fresh).
  destruct (copy_quantities out (range (m_loops st) m)
    {| m_cells := <[out := CQuantities ∅]> (m_cells st); m_loops := Datatypes.S (m_loops st) |} (m_cells st) ∅)
    as (st' & Hrun & Hst); [done|].
  assert (foldl (λ r kv, <[kv.1 := kv.2]> r) ∅ (range (m_loops st) m) = m) as Hm.
  { apply map_eq. intros k. rewrite (range_write _ (λ _ q, q) m ∅ k), lookup_empty. by destruct (m !! k). }
  rewrite Hm in Hst. exists {[out := CQuantities m]}, st', out. split_and!.
  - rewrite (mem_bind _ _ st _ out) by done. rewrite (mem_bind _ _ _ _ (range (m_loops st) m)) by done.
    by rewrite (mem_bind _ _ _ _ _ Hrun).
  - by rewrite Hst, insert_union_singleton_r.
  - by apply map_disjoint_singleton_r.
  - apply lookup_singleton_eq.
Qed.

Lemma copies_resources S l : copies S at_resources copy_resource_map l.
Proof.
  intros h st v Hh (p & Hl & Hp). unfold copy_resource_map.
  eapply makes_load; [by eapply lookup_weaken|]. apply makes_expect.
  eapply (makes_put S CMapOf (λ h, or_empty ∅ (at_cell CQuantities h))); [exact Hh|].
  eapply (copies_or_empty S ∅ (at_cell CQuantities)); [|exact Hh|exact Hp].
  intros l' _. apply copies_quantities.
Qed.

Lemma copies_conditions S l : copies S (at_cell CConditions) copy_conditions l.
Proof.
  intros h st v Hh Hl. unfold copy_conditions.
  eapply makes_load; [by eapply lookup_weaken|]. apply makes_expect.
  assert (∀ st cs, map_each (ListMeta := ListMeta) ClusterCondition_DeepCopyInto cs st = (st, Some cs)) as Hcs.
  { intros st1 cs. revert st1. induction cs as [|c cs IH]; intros st1; [done|]. cbn [map_each].
    rewrite (mem_bind _ _ st1 st1 c) by done. by rewrite (mem_bind _ _ st1 st1 cs). }
  destruct (makes_copy_cell S CConditions h st v Hh) as (new & st' & a & Hrun & Hrest).
  exists new, st', a. split; [|exact Hrest]. by rewrite (mem_bind _ _ _ _ _ (Hcs st v)).
Qed.
End makes.

(** ** What the copies share *)

(** The new cells of one step are among those of the whole. *)
Ltac new_cells :=
  lazymatch goal with
  | |- ?a ⊆ ?a => reflexivity
  | |- ?a ⊆ ?a ∪ _ => apply map_union_subseteq_l
  | Hd : ?b ##ₘ ?c |- ?a ⊆ ?b ∪ ?c => etransitivity; [|apply map_union_subseteq_r; exact Hd]; new_cells
  end.

(** The memory before is part of the memory after. *)
Ltac old_cells :=
  match goal with
  | H : ?a ⊆ ?c |- ?a ⊆ ?c => exact H
  | H : ?b ⊆ ?c |- ?a ⊆ ?c => etransitivity; [|exact H]; old_cells
  end.

Create HintDb copies discriminated.

(** One step of a [DeepCopyInto]: its lemma, and what the field holds. *)
Tactic Notation "copy_field" uconstr(lem) :=
  eapply makes_bind;
    [eapply lem; [..|eassumption]; first [old_cells|by intros; auto with copies]
    |intros ? ? ? ? ?; cbv beta in *].
(** The struct at the end: every field holds what its step made. *)
Ltac copy_done :=
  apply makes_ret; intros; hnf; split_and!; simpl; try solve [auto 1 with nocore];
  match goal with
  | H : at_ptr (?P _) ?a ?v |- at_ptr (?P _) ?a ?v => eapply (grows_ptr P); [|exact H]
  | H : or_empty ?e (?P _) ?a ?v |- or_empty ?e (?P _) ?a ?v => eapply (grows_or_empty e P); [|exact H]
  | H : ?P _ ?a ?v |- ?P _ ?a ?v => eapply (grows (P := P)); [|exact H]
  end; apply map_union_mono_l; new_cells.

Section structs.
Context {K : K8s} {ListMeta : Type} {GR : GoRange} {GRL : GoRangeLaws GR} {LC : LibraryCopy ListMeta}
  {LCL : LibraryCopyLaws LC}.
Abbreviation heap := (gmap loc (cell ListMeta)).
Abbreviation copies := (copies (ListMeta := ListMeta)).

Hint Resolve copies_resources copies_conditions copies_cell copies_lib : copies.

Lemma copies_SchedulingPolicy S g : copies S holds_SchedulingPolicy SchedulingPolicy_DeepCopyInto g.
Proof.
  intros h st v Hh (H1 & H2 & H3 & H4 & H5). unfold SchedulingPolicy_DeepCopyInto.
  copy_field (copies_flat S CInt). copy_field (copies_ptr S at_resources).
  copy_field (copies_flat S CInt). copy_done.
Qed.
Hint Resolve copies_SchedulingPolicy : copies.

Lemma copies_scheduling S l :
  copies S (at_struct CSchedulingPolicy holds_SchedulingPolicy)
    (copy_struct as_SchedulingPolicy CSchedulingPolicy SchedulingPolicy_DeepCopyInto) l.
Proof. apply copies_struct; auto with copies. apply _. Qed.
Hint Resolve copies_scheduling : copies.

Lemma copies_KubeNode S g : copies S holds_KubeNode KubeNode_DeepCopyInto g.
Proof.
  intros h st v Hh (H1 & H2). unfold KubeNode_DeepCopyInto.
  copy_field (copies_lib S CObjectMeta). copy_field (copies_lib S CPodSpec). copy_done.
Qed.

Lemma copies_ReplicaSpec S g : copies S holds_ReplicaSpec ReplicaSpec_DeepCopyInto g.
Proof.
  intros h st v Hh (H1 & H2 & H3). unfold ReplicaSpec_DeepCopyInto.
  copy_field (copies_flat S CInt). copy_field (copies_KubeNode S). copy_done.
Qed.
Hint Resolve copies_ReplicaSpec : copies.

Lemma copies_replicas S l :
  copies S (at_map (at_struct CReplicaSpec holds_ReplicaSpec))
    (copy_pointers (copy_struct as_ReplicaSpec CReplicaSpec ReplicaSpec_DeepCopyInto)) l.
Proof. apply copies_pointers; [apply _|]. intros. apply copies_struct; auto with copies. apply _. Qed.

Lemma copies_statuses S l :
  copies S (at_map (at_cell CReplicaStatus)) (copy_pointers (λ l, c ← load l; alloc c)) l.
Proof. apply copies_pointers; [apply _|]. auto with copies. Qed.
Hint Resolve copies_replicas copies_statuses : copies.

Lemma copies_ClusterStatus S g : copies S holds_ClusterStatus ClusterStatus_DeepCopyInto g.
Proof.
  intros h st v Hh (H1 & H2 & H3 & H4 & H5). unfold ClusterStatus_DeepCopyInto.
  copy_field (copies_or_empty S [] (at_cell CConditions)).
  copy_field (copies_or_empty S ∅ (at_map (at_cell CReplicaStatus))).
  copy_field (copies_ptr S (at_cell CTime)). copy_field (copies_ptr S (at_cell CTime)).
  copy_field (copies_ptr S (at_cell CTime)). copy_done.
Qed.

(** The one pointer that is not copied. *)
Definition ttl_cells (g : GoRunPolicy) : gset loc :=
  match gr_TTLSecondsAfterFinished g with Some l => {[ l ]} | None => ∅ end.

Lemma shared_ttl (S : gset loc) (h new : heap) p (o : option Z) :
  (match p with Some l => {[ l ]} | None => ∅ end ⊆ S) →
  at_ptr (at_cell CInt h) p o → at_ptr (at_cell CInt (shared S h ∪ new)) p o.
Proof.
  intros HS. destruct p as [l|], o as [z|]; try done. intros Hl.
  apply lookup_union_Some_l, map_lookup_filter_Some. split; [exact Hl|]. simpl. set_solver.
Qed.

Lemma copies_RunPolicy S g : ttl_cells g ⊆ S → copies S holds_RunPolicy RunPolicy_DeepCopyInto g.
Proof.
  intros HS h st v Hh (H1 & H2 & H3 & H4 & H5 & H6). unfold RunPolicy_DeepCopyInto.
  copy_field (copies_flat S CPolicy). copy_field (copies_flat S CInt). copy_field (copies_flat S CInt).
  copy_field (copies_ptr S (at_struct CSchedulingPolicy holds_SchedulingPolicy)).
  copy_field (copies_flat S CBool).
  assert (∀ new, at_ptr (at_cell CInt (shared S h ∪ new)) (gr_TTLSecondsAfterFinished g)
    (rp_TTLSecondsAfterFinished v)) as Httl by (intros; by apply shared_ttl).
  copy_done.
Qed.
Hint Resolve copies_RunPolicy : copies.

Lemma copies_ClusterSpec S g :
  ttl_cells (gc_RunPolicy g) ⊆ S → copies S holds_ClusterSpec ClusterSpec_DeepCopyInto g.
Proof.
  intros HS h st v Hh (H1 & H2 & H3 & H4). unfold ClusterSpec_DeepCopyInto.
  copy_field (copies_or_empty S ∅ (at_map (at_struct CReplicaSpec holds_ReplicaSpec))).
  copy_field (copies_RunPolicy S). copy_done.
Qed.
Hint Resolve copies_ClusterSpec copies_ClusterStatus : copies.

Definition cluster_ttl (g : GoKubeCluster) : gset loc := ttl_cells (gc_RunPolicy (gk_Spec g)).

Lemma copies_KubeCluster S g : cluster_ttl g ⊆ S → copies S holds_KubeCluster KubeCluster_DeepCopyInto g.
Proof.
  intros HS h st v Hh (H1 & H2 & H3). unfold KubeCluster_DeepCopyInto.
  copy_field (copies_lib S CObjectMeta). copy_field (copies_ClusterSpec S).
  copy_field (copies_ClusterStatus S). copy_done.
Qed.

(** The pointer of the copy is that of the original. *)
Lemma KubeCluster_ttl_shared g st st' g' :
  KubeCluster_DeepCopyInto (LC := LC) g st = (st', Some g') →
  gr_TTLSecondsAfterFinished (gc_RunPolicy (gk_Spec g')) =
  gr_TTLSecondsAfterFinished (gc_RunPolicy (gk_Spec g)).
Proof.
  intros (meta & st1 & _ & H)%run_Some. apply run_Some in H as (spec & st2 & Hs & H).
  apply run_Some in H as (status & st3 & _ & H). injection H as _ <-. simpl.
  apply run_Some in Hs as (? & ? & _ & Hs). apply run_Some in Hs as (rp & ? & Hrp & Hs).
  injection Hs as _ <-. simpl. unfold RunPolicy_DeepCopyInto in Hrp.
  do 5 apply run_Some in Hrp as (? & ? & _ & Hrp). by injection Hrp as _ <-.
Qed.

Lemma makes_map_each S gs (ks : list KubeCluster) h st :
  h ⊆ m_cells st → (∀ g, g ∈ gs → cluster_ttl g ⊆ S) → Forall2 (holds_KubeCluster h) gs ks →
  makes (map_each KubeCluster_DeepCopyInto gs) st
    (λ new gs', Forall2 (holds_KubeCluster (shared S h ∪ new)) gs' ks).
Proof.
  intros Hh HS Hgs. revert st Hh. induction Hgs as [|g k gs ks Hg Hgs IH]; intros st Hh.
  { apply makes_ret. constructor. }
  cbn [map_each]. eapply makes_bind; [eapply (copies_KubeCluster S); [apply HS; left|exact Hh|exact Hg]|].
  intros new st1 g' Hst Hg'. eapply makes_bind; [apply IH; [intros; apply HS; by right|by etrans]|].
  intros new2 st2 gs' _ Hgs'. apply makes_ret. intros Hd1 Hd2. rewrite map_union_empty in *. constructor.
  - eapply grows; [|exact Hg']. apply map_union_mono_l, map_union_subseteq_l.
  - eapply Forall2_impl; [exact Hgs'|]. intros. eapply grows; [|done].
    by apply map_union_mono_l, map_union_subseteq_r.
Qed.

Definition items_ttl (gs : list GoKubeCluster) : gset loc := ⋃ (cluster_ttl <$> gs).

Lemma copies_items S h st l gs ks :
  h ⊆ m_cells st → h !! l = Some (CItems gs) → items_ttl gs ⊆ S → Forall2 (holds_KubeCluster h) gs ks →
  makes (copy_items l) st (λ new l', at_items (shared S h ∪ new) l' ks).
Proof.
  intros Hh Hl HS Hgs. unfold copy_items. eapply makes_load; [by eapply lookup_weaken|]. apply makes_expect.
  apply (makes_put S CItems (λ h, Forall2 (holds_KubeCluster h))); [done|].
  apply makes_map_each; [done| |done]. intros g Hg. etransitivity; [|exact HS].
  unfold items_ttl. intros t Ht. apply elem_of_union_list. exists (cluster_ttl g).
  split; [by apply list_elem_of_fmap_2|done].
Qed.

(** The same for a list of KubeClusters. *)
Lemma KubeClusterList_DeepCopyInto_ok st g gs v :
  gl_Items g = Some gs → holds_KubeClusterList (m_cells st) g v →
  ∃ items, m_cells st !! gs = Some (CItems items) ∧
    makes (KubeClusterList_DeepCopyInto g) st
      (λ new g', holds_KubeClusterList (shared (items_ttl items) (m_cells st) ∪ new) g' v).
Proof.
  intros Hgs [H1 H2]. rewrite Hgs in H2. destruct H2 as (items & Hl & Hks). exists items. split; [done|].
  set (S := items_ttl items). unfold KubeClusterList_DeepCopyInto.
  assert (m_cells st ⊆ m_cells st) as Hh by done.
  copy_field (copies_lib S CListMeta). rewrite Hgs.
  eapply (makes_bind _ _ _ (λ new p, or_empty [] (at_items (shared S (m_cells st) ∪ new)) p v.2)).
  - eapply makes_bind; [eapply (copies_items S); [|exact Hl|done|exact Hks]; old_cells|].
    intros new2 st2 l' _ Hl'. apply makes_ret. intros _. by rewrite map_union_empty.
  - intros ? ? ? ? ?. copy_done.
Qed.

(** ** Properties *)

(** C15 (a deep copy stands by itself, but for one number). Copying a KubeCluster in memory
    ends without a panic, changes no cell that was there, and gives the address of a
    struct that reads as the same KubeCluster. Whatever is written to the new cells,
    the original reads as before; whatever happens to the old cells, the copy does, as
    long as one of them keeps its value: the number of [TTLSecondsAfterFinished], whose
    pointer the copy shares with the original. *)
Theorem DeepCopy_isolated (st : Mem ListMeta) (l : loc) (g : GoKubeCluster) (k : KubeCluster) :
  m_cells st !! l = Some (CKubeCluster g) → holds_KubeCluster (m_cells st) g k →
  ∃ (new : gmap loc (cell ListMeta)) (st' : Mem ListMeta) (l' : loc) (g' : GoKubeCluster),
    KubeCluster_DeepCopy (LC := LC) (Some l) st = (st', Some (Some l')) ∧
    m_cells st' = m_cells st ∪ new ∧ m_cells st ##ₘ new ∧ new !! l' = Some (CKubeCluster g') ∧
    (∀ new2, m_cells st ##ₘ new2 → holds_KubeCluster (m_cells st ∪ new2) g k) ∧
    (∀ old2, old2 ##ₘ new →
       (∀ t, gr_TTLSecondsAfterFinished (gc_RunPolicy (gk_Spec g)) = Some t → old2 !! t = m_cells st !! t) →
       holds_KubeCluster (old2 ∪ new) g' k) ∧
    gr_TTLSecondsAfterFinished (gc_RunPolicy (gk_Spec g')) =
      gr_TTLSecondsAfterFinished (gc_RunPolicy (gk_Spec g)).
Proof.
  intros Hl Hg. set (S := cluster_ttl g).
  destruct (copies_KubeCluster S g (reflexivity S) (m_cells st) st k) as (new & st1 & g' & Hrun & Hst & Hd & Hg');
    [done..|].
  set (l' := fresh (dom (m_cells st1))).
  assert (m_cells st1 !! l' = None) as Hl' by (apply not_elem_of_dom, is_fresh).
  rewrite Hst in Hl'. apply lookup_union_None in Hl' as [Hl1 Hl2].
  exists (<[l' := CKubeCluster g']> new), {| m_cells := <[l' := CKubeCluster g']> (m_cells st1); m_loops := m_loops st1 |},
    l', g'. split_and!.
  - unfold KubeCluster_DeepCopy, DeepCopy, copy_ptr, copy_struct.
    erewrite mem_bind; [done|]. rewrite (mem_bind _ _ st st (CKubeCluster g)) by (unfold load; by rewrite Hl).
    rewrite (mem_bind _ _ st st g) by done. by rewrite (mem_bind _ _ _ _ _ Hrun).
  - simpl. by rewrite Hst, insert_union_r.
  - by apply map_disjoint_insert_r.
  - apply lookup_insert_eq.
  - intros new2 Hnew2. eapply grows; [apply map_union_subseteq_l|exact Hg].
  - intros old2 Hold Httl. apply map_disjoint_insert_r in Hold as [Hlo Hold].
    eapply grows; [|exact Hg']. apply map_union_least.
    + apply map_subseteq_spec. intros t c [Ht HtS]%map_lookup_filter_Some. simpl in HtS.
      apply lookup_union_Some_l. unfold S, cluster_ttl, ttl_cells in HtS.
      destruct (gr_TTLSecondsAfterFinished _) as [t'|]; [|set_solver].
      apply elem_of_singleton in HtS as ->. by rewrite Httl.
    + etransitivity; [by apply (insert_subseteq new l' (CKubeCluster g'))|].
      apply map_union_subseteq_r. by apply map_disjoint_insert_r.
  - by eapply KubeCluster_ttl_shared.
Qed.
End structs.

(** *** A concrete memory *)
Module SampleMemory.
Import Sample.

#[export] Instance sample_copy : LibraryCopy unit := λ l, c ← load l; alloc c.
#[export] Instance sample_copy_laws : LibraryCopyLaws sample_copy.
Proof.
  split. intros l st c Hl. exists (fresh (dom (m_cells st))).
  split; [apply not_elem_of_dom, is_fresh|]. unfold lib_DeepCopy, sample_copy.
  by rewrite (mem_bind _ _ st st c) by (unfold load; by rewrite Hl).
Qed.

(** A KubeCluster with a controller and a time to live. *)
Definition go_spec : GoReplicaSpec := {|
  gp_Replicas := None; gp_Template := {| gn_ObjectMeta := 5; gn_Spec := 6 |}%positive;
  gp_RestartPolicy := RestartPolicyNever |}.
Definition go_policy : GoRunPolicy := {|
  gr_CleanKubeNodePolicy := None; gr_TTLSecondsAfterFinished := Some 3%positive;
  gr_ActiveDeadlineSeconds := None; gr_BackoffLimit := None; gr_SchedulingPolicy := None;
  gr_Suspend := None |}.
Definition go_cluster : GoKubeCluster := {|
  gk_ObjectMeta := 1%positive;
  gk_Spec := {| gc_ClusterType := "slurm"; gc_ClusterReplicaSpec := Some 2%positive;
                gc_MainContainer := ""; gc_RunPolicy := go_policy |};
  gk_Status := {| gu_Conditions := None; gu_ReplicaStatuses := None; gu_StartTime := None;
                  gu_LastReconcileTime := None; gu_CompletionTime := None |} |}.

Definition memory : Mem unit := {|
  m_cells := list_to_map
    [(1, CObjectMeta meta); (2, CPointers {[ "Controller" := Some 4 ]}); (3, CInt 60);
     (4, CReplicaSpec go_spec); (5, CObjectMeta ObjectMeta_zero); (6, CPodSpec podSpec);
     (7, CKubeCluster go_cluster)]%positive;
  m_loops := 0 |}.

Definition cluster_with_ttl : KubeCluster := {|
  kc_Meta := meta;
  kc_Spec := {|
    sp_ClusterType := "slurm";
    sp_ClusterReplicaSpec := {[ "Controller" := Some (replica None RestartPolicyNever) ]};
    sp_MainContainer := "";
    sp_RunPolicy := {| rp_CleanKubeNodePolicy := None; rp_TTLSecondsAfterFinished := Some 60;
      rp_ActiveDeadlineSeconds := None; rp_BackoffLimit := None; rp_SchedulingPolicy := None;
      rp_Suspend := None |} |};
  kc_Status := status |}.

Lemma memory_holds : holds_KubeCluster (m_cells memory) go_cluster cluster_with_ttl.
Proof.
  split_and!; [done| |by split_and!]. split_and!; [done| |done|by split_and!].
  exists {[ "Controller" := Some 4%positive ]}. split; [done|]. intros k.
  destruct (decide ("Controller" = k)) as [<-|Hne].
  - cbn [sp_ClusterReplicaSpec kc_Spec cluster_with_ttl]. rewrite !lookup_singleton_eq. simpl.
    exists go_spec. split; [done|]. by split_and!.
  - cbn [sp_ClusterReplicaSpec kc_Spec cluster_with_ttl]. by rewrite !lookup_singleton_ne.
Qed.

(** The copy, and what it shows when the number of the original is changed. *)
Lemma DeepCopy_isolated_witness :
  ∃ new st' l' g',
    KubeCluster_DeepCopy (GR := key_range) (Some 7%positive) memory = (st', Some (Some l')) ∧
    m_cells st' = m_cells memory ∪ new ∧ new !! l' = Some (CKubeCluster g') ∧
    holds_KubeCluster (m_cells memory ∪ new) g' cluster_with_ttl ∧
    gr_TTLSecondsAfterFinished (gc_RunPolicy (gk_Spec g')) = Some 3%positive.
Proof.
  destruct (DeepCopy_isolated (GRL := key_range_laws) (LCL := sample_copy_laws) memory 7%positive go_cluster
    cluster_with_ttl) as (new & st' & l' & g' & Hrun & Hst & Hd & Hl & _ & Hc & Ht).
  - reflexivity.
  - exact memory_holds.
  - exists new, st', l', g'. split; [exact Hrun|]. split; [exact Hst|]. split; [exact Hl|].
    split; [apply Hc; [exact Hd|reflexivity]|exact Ht].
Defined.
End SampleMemory.
