(* ===== verification/Informers.v ===== *)
(** * The shared informer factory

    pkg/client/informers/externalversions: one informer per type of object, started at
    most once, each in a goroutine of its own, and a Shutdown that waits for them. The
    bodies that hold the factory's lock are one step each; a system is the factory, the
    goroutines it started, the channels that were closed and the calls of Shutdown
    that are waiting. *)

From S2P Require Import Prelude K8s Api.

Section informers.
Context {Client ListOptions : Type}.

(** ** internalinterfaces, kubecluster.org/v1alpha1 *)

(** [nil], or a function that changes the options. *)
Definition TweakListOptionsFunc : Type := option (ListOptions → ListOptions).

(** The call [client.KubeclusterV1alpha1().KubeClusters(namespace).List] or [Watch]. *)
Inductive informer_call :=
| CallList (client : Client) (namespace : string) (options : ListOptions)
| CallWatch (client : Client) (namespace : string) (options : ListOptions).

(** What [cache.NewSharedIndexInformer] is given. *)
Record SharedIndexInformer := {
  si_ListFunc : ListOptions → informer_call;
  si_WatchFunc : ListOptions → informer_call;
  si_objectType : string;
  si_resyncPeriod : Z;
  si_indexers : list string
}.

(** [cache.NamespaceIndex] *)
Definition NamespaceIndex : string := "namespace".
(** [reflect.TypeOf(&KubeCluster{})] *)
Definition KubeClusterGoType : string := "*v1alpha1.KubeCluster".

Definition tweaked (tweakListOptions : TweakListOptionsFunc) (options : ListOptions) : ListOptions :=
  match tweakListOptions with Some tweak => tweak options | None => options end.

Definition NewFilteredKubeClusterInformer (client : Client) (namespace : string) (resyncPeriod : Z)
    (indexers : list string) (tweakListOptions : TweakListOptionsFunc) : SharedIndexInformer := {|
  si_ListFunc := λ options, CallList client namespace (tweaked tweakListOptions options);
  si_WatchFunc := λ options, CallWatch client namespace (tweaked tweakListOptions options);
  si_objectType := KubeClusterGoType;
  si_resyncPeriod := resyncPeriod;
  si_indexers := indexers |}.

Definition NewKubeClusterInformer (client : Client) (namespace : string) (resyncPeriod : Z)
    (indexers : list string) : SharedIndexInformer :=
  NewFilteredKubeClusterInformer client namespace resyncPeriod indexers None.

Definition NewInformerFunc : Type := Client → Z → SharedIndexInformer.

(** ** factory.go *)

Record sharedInformerFactory := {
  f_client : Client;
  f_namespace : string;
  f_tweakListOptions : TweakListOptionsFunc;
  f_defaultResync : Z;
  f_customResync : gmap string Z;
  f_informers : gmap string SharedIndexInformer;
  f_startedInformers : gmap string bool;
  (** the counter of [wg] *)
  f_wg : Z;
  f_shuttingDown : bool
}.

Definition SharedInformerOption : Type := sharedInformerFactory → sharedInformerFactory.

Definition f_set_customResync (m : gmap string Z) (f : sharedInformerFactory) : sharedInformerFactory := {|
  f_client := f_client f; f_namespace := f_namespace f; f_tweakListOptions := f_tweakListOptions f;
  f_defaultResync := f_defaultResync f; f_customResync := m; f_informers := f_informers f;
  f_startedInformers := f_startedInformers f; f_wg := f_wg f; f_shuttingDown := f_shuttingDown f |}.
Definition f_set_informers (m : gmap string SharedIndexInformer) (f : sharedInformerFactory) :
    sharedInformerFactory := {|
  f_client := f_client f; f_namespace := f_namespace f; f_tweakListOptions := f_tweakListOptions f;
  f_defaultResync := f_defaultResync f; f_customResync := f_customResync f; f_informers := m;
  f_startedInformers := f_startedInformers f; f_wg := f_wg f; f_shuttingDown := f_shuttingDown f |}.
Definition f_set_started (m : gmap string bool) (wg : Z) (f : sharedInformerFactory) :
    sharedInformerFactory := {|
  f_client := f_client f; f_namespace := f_namespace f; f_tweakListOptions := f_tweakListOptions f;
  f_defaultResync := f_defaultResync f; f_customResync := f_customResync f; f_informers := f_informers f;
  f_startedInformers := m; f_wg := wg; f_shuttingDown := f_shuttingDown f |}.
Definition f_set_shuttingDown (b : bool) (f : sharedInformerFactory) : sharedInformerFactory := {|
  f_client := f_client f; f_namespace := f_namespace f; f_tweakListOptions := f_tweakListOptions f;
  f_defaultResync := f_defaultResync f; f_customResync := f_customResync f; f_informers := f_informers f;
  f_startedInformers := f_startedInformers f; f_wg := f_wg f; f_shuttingDown := b |}.

(** The objects of the configuration by their types, in the order of the visit. *)
Definition WithCustomResyncConfig (resyncConfig : list (string * Z)) : SharedInformerOption := λ f,
  foldl (λ f kv, f_set_customResync (<[kv.1 := kv.2]> (f_customResync f)) f) f resyncConfig.
Definition WithTweakListOptions (tweak : TweakListOptionsFunc) : SharedInformerOption := λ f, {|
  f_client := f_client f; f_namespace := f_namespace f; f_tweakListOptions := tweak;
  f_defaultResync := f_defaultResync f; f_customResync := f_customResync f; f_informers := f_informers f;
  f_startedInformers := f_startedInformers f; f_wg := f_wg f; f_shuttingDown := f_shuttingDown f |}.
Definition WithNamespace (namespace : string) : SharedInformerOption := λ f, {|
  f_client := f_client f; f_namespace := namespace; f_tweakListOptions := f_tweakListOptions f;
  f_defaultResync := f_defaultResync f; f_customResync := f_customResync f; f_informers := f_informers f;
  f_startedInformers := f_startedInformers f; f_wg := f_wg f; f_shuttingDown := f_shuttingDown f |}.

Definition NewSharedInformerFactoryWithOptions (client : Client) (defaultResync : Z)
    (options : list SharedInformerOption) : sharedInformerFactory :=
  foldl (λ factory opt, opt factory)
    {| f_client := client; f_namespace := ""; f_tweakListOptions := None;
       f_defaultResync := defaultResync; f_customResync := ∅; f_informers := ∅;
       f_startedInformers := ∅; f_wg := 0; f_shuttingDown := false |} options.
Definition NewSharedInformerFactory (client : Client) (defaultResync : Z) : sharedInformerFactory :=
  NewSharedInformerFactoryWithOptions client defaultResync [].
Definition NewFilteredSharedInformerFactory (client : Client) (defaultResync : Z) (namespace : string)
    (tweakListOptions : TweakListOptionsFunc) : sharedInformerFactory :=
  NewSharedInformerFactoryWithOptions client defaultResync
    [WithNamespace namespace; WithTweakListOptions tweakListOptions].

(** A goroutine that runs an informer until its channel is closed. *)
Definition channel : Type := nat.
Record goroutine := { g_type : string; g_informer : SharedIndexInformer; g_stopCh : channel }.

(** The factory and the goroutines that were started, in the order they were. *)
Definition start_one (stopCh : channel) (acc : sharedInformerFactory * list goroutine)
    (entry : string * SharedIndexInformer) : sharedInformerFactory * list goroutine :=
  let '(f, started) := acc in
  let '(informerType, informer) := entry in
  if default false (f_startedInformers f !! informerType) then (f, started)
  else (f_set_started (<[informerType := true]> (f_startedInformers f)) (f_wg f + 1) f,
        (started ++ [{| g_type := informerType; g_informer := informer; g_stopCh := stopCh |}])%list).

Definition Start (entries : list (string * SharedIndexInformer)) (stopCh : channel)
    (f : sharedInformerFactory) : sharedInformerFactory * list goroutine :=
  if f_shuttingDown f then (f, []) else foldl (start_one stopCh) (f, []) entries.

(** The part of Shutdown before it waits. *)
Definition Shutdown_mark (f : sharedInformerFactory) : sharedInformerFactory := f_set_shuttingDown true f.

(** The informers WaitForCacheSync waits for, and what it answers when [synced] is what
    [cache.WaitForCacheSync] says of each. *)
Definition started_informers (f : sharedInformerFactory) : gmap string SharedIndexInformer :=
  filter (λ kv, default false (f_startedInformers f !! kv.1) = true) (f_informers f).
Definition WaitForCacheSync (synced : SharedIndexInformer → bool) (f : sharedInformerFactory) :
    gmap string bool :=
  synced <$> started_informers f.

Definition InformerFor (informerType : string) (newFunc : NewInformerFunc) (f : sharedInformerFactory) :
    sharedInformerFactory * SharedIndexInformer :=
  match f_informers f !! informerType with
  | Some informer => (f, informer)
  | None =>
      let resyncPeriod := default (f_defaultResync f) (f_customResync f !! informerType) in
      let informer := newFunc (f_client f) resyncPeriod in
      (f_set_informers (<[informerType := informer]> (f_informers f)) f, informer)
  end.

(** [kubeClusterInformer], [group] and [version] hold the namespace and the tweak of the
    factory they were made by. *)
Record kubeClusterInformer := { ki_namespace : string; ki_tweakListOptions : TweakListOptionsFunc }.

Definition KubeClusters (f : sharedInformerFactory) : kubeClusterInformer :=
  {| ki_namespace := f_namespace f; ki_tweakListOptions := f_tweakListOptions f |}.

Definition defaultInformer (i : kubeClusterInformer) : NewInformerFunc := λ client resyncPeriod,
  NewFilteredKubeClusterInformer client (ki_namespace i) resyncPeriod [NamespaceIndex]
    (ki_tweakListOptions i).

Definition Informer (i : kubeClusterInformer) (f : sharedInformerFactory) :
    sharedInformerFactory * SharedIndexInformer :=
  InformerFor KubeClusterGoType (defaultInformer i) f.

(** generic.go; a resource is its group, version and name. *)
Definition ForResource (resource : string * string * string) (f : sharedInformerFactory) :
    sharedInformerFactory * option SharedIndexInformer :=
  if decide (resource = ("kubecluster.org", "v1alpha1", "kubeclusters")) then
    let '(f, informer) := Informer (KubeClusters f) f in (f, Some informer)
  else (f, None).

(** ** Goroutines and calls, step by step *)

Record system := {
  s_factory : sharedInformerFactory;
  s_running : list goroutine;
  s_closed : gset channel;
  (** calls of Shutdown: those that wait, and how many came back *)
  s_waiting : nat;
  s_returned : nat;
  (** the types of all goroutines that were ever started *)
  s_history : list string
}.

Context {GR : GoRange} {GRL : GoRangeLaws GR}.

Inductive step : system → system → Prop :=
| step_InformerFor informerType newFunc f gs c w r hist :
    step (Build_system f gs c w r hist)
      (Build_system (InformerFor informerType newFunc f).1 gs c w r hist)
| step_Start n stopCh f gs c w r hist f' started :
    Start (range n (f_informers f)) stopCh f = (f', started) →
    step (Build_system f gs c w r hist)
      (Build_system f' (gs ++ started)%list c w r (hist ++ (g_type <$> started))%list)
| step_close stopCh f gs c w r hist :
    step (Build_system f gs c w r hist) (Build_system f gs ({[ stopCh ]} ∪ c) w r hist)
| step_end f gs1 g gs2 c w r hist :
    g_stopCh g ∈ c →
    step (Build_system f (gs1 ++ g :: gs2)%list c w r hist)
      (Build_system (f_set_started (f_startedInformers f) (f_wg f - 1) f) (gs1 ++ gs2)%list c w r hist)
| step_Shutdown f gs c w r hist :
    step (Build_system f gs c w r hist) (Build_system (Shutdown_mark f) gs c (S w) r hist)
| step_return f gs c w r hist :
    f_wg f = 0 → step (Build_system f gs c (S w) r hist) (Build_system f gs c w (S r) hist).

(** The options of the package. *)
Inductive factory_option :=
| OptResync (resyncConfig : list (string * Z)) | OptTweak (tweak : TweakListOptionsFunc)
| OptNamespace (namespace : string).
Definition option_of (o : factory_option) : SharedInformerOption :=
  match o with
  | OptResync c => WithCustomResyncConfig c
  | OptTweak t => WithTweakListOptions t
  | OptNamespace ns => WithNamespace ns
  end.

Definition initial (client : Client) (defaultResync : Z) (options : list factory_option) : system :=
  {| s_factory := NewSharedInformerFactoryWithOptions client defaultResync (option_of <$> options);
     s_running := []; s_closed := ∅; s_waiting := 0; s_returned := 0; s_history := [] |}.

(** *** The invariant *)

Record ok (s : system) : Prop := {
  ok_wg : f_wg (s_factory s) = Z.of_nat (length (s_running s));
  ok_once : NoDup (s_history s);
  ok_history t : t ∈ s_history s ↔ f_startedInformers (s_factory s) !! t = Some true;
  ok_running g : g ∈ s_running s →
    g_type g ∈ s_history s ∧ f_informers (s_factory s) !! g_type g = Some (g_informer g);
  ok_distinct : NoDup (g_type <$> s_running s);
  ok_waiting : s_waiting s ≠ 0%nat → f_shuttingDown (s_factory s) = true;
  ok_returned : s_returned s ≠ 0%nat → f_shuttingDown (s_factory s) = true ∧ s_running s = []
}.

(** What starting leaves of a factory, and what it starts. *)
Lemma start_all stopCh entries f gs f' gs' :
  NoDup entries.*1 → foldl (start_one stopCh) (f, gs) entries = (f', gs') →
  ∃ new, gs' = (gs ++ new)%list ∧ f_wg f' = f_wg f + Z.of_nat (length new) ∧
    f_informers f' = f_informers f ∧ f_shuttingDown f' = f_shuttingDown f ∧ NoDup (g_type <$> new) ∧
    (∀ g, g ∈ new → f_startedInformers f !! g_type g ≠ Some true ∧ (g_type g, g_informer g) ∈ entries) ∧
    (∀ t, f_startedInformers f' !! t = Some true ↔ f_startedInformers f !! t = Some true ∨ t ∈ g_type <$> new) ∧
    (∀ t, t ∈ entries.*1 → f_startedInformers f' !! t = Some true).
Proof.
  revert f gs. induction entries as [|[t i] entries IH]; intros f gs.
  { intros _ [= <- <-]. exists []. rewrite app_nil_r. split_and!; try done; [simpl; lia|constructor|..];
      intros; try by apply elem_of_nil in H. set_solver. }
  rewrite fmap_cons. intros [Ht Hnd]%NoDup_cons. cbn [foldl start_one]. simpl in Ht.
  destruct (default false (f_startedInformers f !! t)) eqn:Hd.
  - assert (f_startedInformers f !! t = Some true) as Hst
      by (destruct (f_startedInformers f !! t) as [[]|]; done).
    intros (new & -> & Hwg & Hinf & Hsd & Hnew & Hin & Hstart & Hall)%IH; [|done]. exists new.
    split_and!; try done.
    + intros g Hg. destruct (Hin g Hg). split; [done|]. by right.
    + intros t' [->|?]%elem_of_cons; [apply Hstart; by left|auto].
  - assert (f_startedInformers f !! t ≠ Some true) as Hst by (intros Heq; by rewrite Heq in Hd).
    intros (new & -> & Hwg & Hinf & Hsd & Hnew & Hin & Hstart & Hall)%IH; [|done].
    set (g0 := {| g_type := t; g_informer := i; g_stopCh := stopCh |}). simpl in *.
    exists (g0 :: new). split_and!; try done.
    + by rewrite <-app_assoc.
    + rewrite Hwg. simpl. lia.
    + rewrite fmap_cons. constructor; [|done]. intros (g & Heq & Hg)%list_elem_of_fmap.
      destruct (Hin g Hg) as [Hne _]. simpl in Heq. rewrite <-Heq, lookup_insert_eq in Hne. done.
    + intros g [->|Hg]%elem_of_cons; [by split; [|left]|]. destruct (Hin g Hg) as [Hne Hi].
      split; [|by right]. destruct (decide (t = g_type g)) as [<-|Hne']; [done|].
      by rewrite lookup_insert_ne in Hne.
    + intros t'. rewrite Hstart, fmap_cons, elem_of_cons. simpl.
      destruct (decide (t = t')) as [<-|Hne]; [rewrite lookup_insert_eq; naive_solver|].
      rewrite lookup_insert_ne by done. naive_solver.
    + intros t' [->|?]%elem_of_cons; [apply Hstart; left; apply lookup_insert_eq|auto].
Qed.

Lemma start_ok n stopCh f f' started :
  Start (range n (f_informers f)) stopCh f = (f', started) →
  f_wg f' = f_wg f + Z.of_nat (length started) ∧ f_informers f' = f_informers f ∧
  f_shuttingDown f' = f_shuttingDown f ∧ NoDup (g_type <$> started) ∧
  (∀ g, g ∈ started → f_startedInformers f !! g_type g ≠ Some true ∧
     f_informers f !! g_type g = Some (g_informer g)) ∧
  (∀ t, f_startedInformers f' !! t = Some true ↔
     f_startedInformers f !! t = Some true ∨ t ∈ g_type <$> started) ∧
  (f_shuttingDown f = true → started = []) ∧
  (f_shuttingDown f = false → ∀ t, is_Some (f_informers f !! t) → f_startedInformers f' !! t = Some true).
Proof.
  unfold Start. destruct (f_shuttingDown f) eqn:Hsd.
  - intros [= <- <-]. split_and!; try done; [simpl; lia|constructor|..]; set_solver.
  - intros (new & -> & ? & ? & ? & ? & Hin & ? & Hall)%start_all; [|apply NoDup_range].
    split_and!; try done; [congruence|..].
    + intros g Hg. destruct (Hin g Hg) as [? Hi]. by apply elem_of_range in Hi.
    + intros _ t [i Hi]. apply Hall, list_elem_of_fmap. exists (t, i). by rewrite elem_of_range.
Qed.

Lemma InformerFor_keeps t newFunc f t' i :
  f_informers f !! t' = Some i → f_informers (InformerFor t newFunc f).1 !! t' = Some i.
Proof.
  intros Hi. unfold InformerFor. destruct (f_informers f !! t) as [j|] eqn:Hj; [done|]. simpl.
  by rewrite lookup_insert_ne by (intros <-; congruence).
Qed.

Lemma InformerFor_frame t newFunc f :
  f_wg (InformerFor t newFunc f).1 = f_wg f ∧
  f_startedInformers (InformerFor t newFunc f).1 = f_startedInformers f ∧
  f_shuttingDown (InformerFor t newFunc f).1 = f_shuttingDown f.
Proof. unfold InformerFor. by destruct (f_informers f !! t). Qed.

Lemma ok_step s s' : step s s' → ok s → ok s'.
Proof.
  intros Hstep [Hwg Honce Hhist Hrun Hdist Hwait Hret]. destruct Hstep; simpl in *.
  - destruct (InformerFor_frame informerType newFunc f) as (Hw & Hs & Hsd). split; simpl; rewrite ?Hw, ?Hs, ?Hsd; auto.
    intros g Hg. destruct (Hrun g Hg). split; [done|]. by apply InformerFor_keeps.
  - apply start_ok in H as (Hw & Hi & Hsd & Hnd & Hin & Hst & Hnone & _). split; simpl.
    + rewrite Hw, Hwg, length_app. lia.
    + apply NoDup_app. split_and!; [done| |done]. intros t Ht (g & -> & Hg)%list_elem_of_fmap.
      destruct (Hin g Hg). by apply Hhist in Ht.
    + intros t. by rewrite elem_of_app, Hhist, Hst.
    + intros g [Hg|Hg]%elem_of_app; rewrite elem_of_app, Hi.
      * destruct (Hrun g Hg). auto.
      * destruct (Hin g Hg). split; [right; by apply list_elem_of_fmap_2|done].
    + rewrite fmap_app. apply NoDup_app. split_and!; [done| |done].
      intros t (g & -> & Hg)%list_elem_of_fmap (g' & Heq & Hg')%list_elem_of_fmap.
      destruct (Hrun g Hg) as [Ht _]. apply Hhist in Ht. destruct (Hin g' Hg'). congruence.
    + rewrite Hsd. auto.
    + intros Hr. destruct (Hret Hr) as [Ht ->]. by rewrite Hsd, Hnone.
  - by split.
  - split; simpl; auto.
    + rewrite Hwg, !length_app. simpl. lia.
    + intros g' Hg'. apply Hrun. revert Hg'. rewrite !elem_of_app, elem_of_cons. tauto.
    + revert Hdist. rewrite !fmap_app, fmap_cons, !NoDup_app, NoDup_cons. set_solver.
    + intros Hr. destruct (Hret Hr) as [? Hnil]. by apply app_eq_nil in Hnil as [_ ?].
  - split; simpl; auto. intros Hr. by destruct (Hret Hr).
  - split; simpl; auto. intros _. split; [by apply Hwait|]. apply nil_length_inv. lia.
Qed.

Lemma initial_factory client defaultResync options :
  let f := NewSharedInformerFactoryWithOptions client defaultResync (option_of <$> options) in
  f_informers f = ∅ ∧ f_startedInformers f = ∅ ∧ f_wg f = 0 ∧ f_shuttingDown f = false.
Proof.
  cbv zeta. unfold NewSharedInformerFactoryWithOptions.
  set (f0 := Build_sharedInformerFactory _ _ _ _ _ _ _ _ _).
  assert (f_informers f0 = ∅ ∧ f_startedInformers f0 = ∅ ∧ f_wg f0 = 0 ∧ f_shuttingDown f0 = false)
    as Hf by done. revert Hf. generalize f0. clear f0.
  induction options as [|o options IH]; intros f Hf; [done|]. cbn [fmap list_fmap foldl]. apply IH.
  destruct o as [c|t|ns]; [|done..]. simpl. unfold WithCustomResyncConfig. revert f Hf.
  induction c as [|kv c IHc]; intros f Hf; [done|]. simpl. by apply IHc.
Qed.

Lemma ok_initial client defaultResync options : ok (initial client defaultResync options).
Proof.
  destruct (initial_factory client defaultResync options) as (H1 & H2 & H3 & H4).
  split; simpl; rewrite ?H1, ?H2, ?H3; try done; [constructor| | |constructor].
  - intros t. rewrite lookup_empty. split; [by intros ?%elem_of_nil|done].
  - by intros g ?%elem_of_nil.
Qed.

Lemma ok_reach client defaultResync options s : rtc step (initial client defaultResync options) s → ok s.
Proof.
  intros Hs. eapply (rtc_ind_r ok); [apply ok_initial| |exact Hs]. intros. by eapply ok_step.
Qed.

(** What stays as it is once a Shutdown has begun. *)
Lemma shut_step s s' : step s s' → f_shuttingDown (s_factory s) = true →
  f_shuttingDown (s_factory s') = true ∧ s_history s' = s_history s ∧
  (length (s_running s') ≤ length (s_running s))%nat.
Proof.
  intros Hstep Hsd. destruct Hstep; simpl in *; try done.
  - destruct (InformerFor_frame informerType newFunc f) as (_ & _ & ->). done.
  - apply start_ok in H as (_ & _ & -> & _ & _ & _ & Hnone & _). by rewrite Hnone, !app_nil_r.
  - rewrite !length_app. simpl. split_and!; [done|done|lia].
Qed.

Lemma informers_step s s' t i : step s s' →
  f_informers (s_factory s) !! t = Some i → f_informers (s_factory s') !! t = Some i.
Proof.
  intros Hstep Hi. destruct Hstep; simpl in *; try done; [by apply InformerFor_keeps|].
  by apply start_ok in H as (_ & -> & _).
Qed.

(** Goroutines whose channels are closed can all end. *)
Lemma all_end f gs c w r hist :
  (∀ g, g ∈ gs → g_stopCh g ∈ c) →
  rtc step (Build_system f gs c w r hist)
    (Build_system (f_set_started (f_startedInformers f) (f_wg f - Z.of_nat (length gs)) f) [] c w r hist).
Proof.
  revert f. induction gs as [|g gs IH]; intros f Hc.
  { simpl. rewrite Z.sub_0_r. by destruct f. }
  eapply rtc_l; [apply (step_end f [] g gs); apply Hc; left|].
  set (f1 := f_set_started (f_startedInformers f) (f_wg f - 1) f).
  assert (f_set_started (f_startedInformers f) (f_wg f - Z.of_nat (length (g :: gs))) f =
    f_set_started (f_startedInformers f1) (f_wg f1 - Z.of_nat (length gs)) f1) as ->.
  { unfold f1, f_set_started. simpl. f_equal. lia. }
  apply IH. intros. apply Hc. by right.
Qed.

Lemma all_return f gs c w r hist :
  f_wg f = 0 → rtc step (Build_system f gs c w r hist) (Build_system f gs c 0 (w + r) hist).
Proof.
  intros Hwg. revert r. induction w as [|w IH]; intros r; [done|].
  eapply rtc_l; [by apply step_return|]. replace (S w + r)%nat with (w + S r)%nat by lia. apply IH.
Qed.

(** ** Properties *)

(** C33 (an informer runs at most once). Whatever calls of Start, InformerFor and Shutdown
    and ends of goroutines follow one another, no type of object is ever given a second
    goroutine; every goroutine runs the informer that InformerFor hands out for its
    type, now and from then on; and the wait group counts the goroutines, so that it
    never falls below zero. A Start before any Shutdown leaves no informer it knows
    without its goroutine. *)
Theorem informers_run_once (client : Client) (defaultResync : Z) (options : list factory_option)
    (s s' : system) :
  rtc step (initial client defaultResync options) s → rtc step s s' →
  NoDup (s_history s) ∧ f_wg (s_factory s) = Z.of_nat (length (s_running s)) ∧
  (∀ g, g ∈ s_running s → ∀ newFunc,
     (InformerFor (g_type g) newFunc (s_factory s')).2 = g_informer g) ∧
  (∀ n stopCh f' started, f_shuttingDown (s_factory s) = false →
     Start (range n (f_informers (s_factory s))) stopCh (s_factory s) = (f', started) →
     ∀ t, is_Some (f_informers f' !! t) → t ∈ (s_history s ++ (g_type <$> started))%list).
Proof.
  intros Hreach Hs. pose proof (ok_reach _ _ _ _ Hreach) as [Hwg Honce Hhist Hrun _ _ _].
  split_and!; [done|done|..].
  - intros g Hg newFunc. destruct (Hrun g Hg) as [_ Hi].
    assert (f_informers (s_factory s') !! g_type g = Some (g_informer g)) as Hi'.
    { revert Hi. clear -Hs GRL. induction Hs; [done|]. intros Hi. by eapply IHHs, informers_step. }
    unfold InformerFor. by rewrite Hi'.
  - intros n stopCh f' started Hsd Hst t Ht.
    apply start_ok in Hst as (_ & Hi & _ & _ & _ & Hall & _ & Hdone). rewrite Hi in Ht.
    rewrite elem_of_app, Hhist, <-Hall. by apply Hdone.
Qed.

(** C34 (Shutdown waits for the goroutines). When a call of Shutdown has come back, no
    goroutine of the factory is running, and none is ever started again. Once a
    Shutdown has begun and the channels of the running goroutines are closed, all
    waiting calls can come back. *)
Theorem Shutdown_waits (client : Client) (defaultResync : Z) (options : list factory_option) (s : system) :
  rtc step (initial client defaultResync options) s →
  (∀ s', s_returned s ≠ 0%nat → rtc step s s' → s_running s' = [] ∧ s_history s' = s_history s) ∧
  ((∀ g, g ∈ s_running s → g_stopCh g ∈ s_closed s) →
   ∃ s', rtc step s s' ∧ s_waiting s' = 0%nat ∧ s_running s' = [] ∧
     s_returned s' = (s_waiting s + s_returned s)%nat).
Proof.
  intros Hreach. pose proof (ok_reach _ _ _ _ Hreach) as [Hwg _ _ _ _ _ Hret]. split.
  - intros s' Hr Hs. destruct (Hret Hr) as [Hsd Hrun].
    assert (∀ s1, rtc step s s1 → f_shuttingDown (s_factory s1) = true ∧ s_history s1 = s_history s ∧
      (length (s_running s1) ≤ length (s_running s))%nat) as Hgo.
    { apply rtc_ind_r; [done|]. intros s1 s2 _ Hstep (Hsd1 & Hh & Hl).
      destruct (shut_step _ _ Hstep Hsd1) as (? & ? & ?). split_and!; [done|congruence|lia]. }
    destruct (Hgo s' Hs) as (_ & Hh & Hl). split; [|done]. rewrite Hrun in Hl.
    apply nil_length_inv. simpl in Hl. lia.
  - intros Hc. destruct s as [f gs c w r hist]. simpl in *.
    eexists. split; [etransitivity; [by apply all_end|apply all_return; simpl; lia]|]. done.
Qed.
End informers.

(** *** A concrete factory *)
Module SampleFactory.
#[local] Existing Instance key_range.

(** The informer of KubeClusters is asked for and started, then the factory is shut
    down and the channel closed. *)
Definition fresh_factory : sharedInformerFactory (Client := unit) (ListOptions := unit) :=
  s_factory (initial tt 30 [OptNamespace "default"]).
Definition with_informer := (Informer (KubeClusters fresh_factory) fresh_factory).1.
Definition started := Start (range 0 (f_informers with_informer)) 1%nat with_informer.
Definition running : system := Build_system started.1 started.2 ∅ 0 0 (g_type <$> started.2).
Definition stopping : system :=
  Build_system (Shutdown_mark started.1) started.2 {[ 1%nat ]} 1 0 (g_type <$> started.2).

Lemma reach_running : rtc step (initial tt 30 [OptNamespace "default"]) running.
Proof.
  eapply rtc_l; [apply (step_InformerFor KubeClusterGoType (defaultInformer (KubeClusters fresh_factory)))|].
  eapply rtc_l; [apply (step_Start 0 1%nat with_informer); apply surjective_pairing|]. done.
Qed.

Lemma reach_stopping : rtc step (initial tt 30 [OptNamespace "default"]) stopping.
Proof.
  etransitivity; [apply reach_running|].
  eapply rtc_l; [apply step_Shutdown|]. eapply rtc_l; [apply (step_close 1%nat)|].
  unfold stopping. by rewrite (right_id_L ∅ (∪)).
Qed.

Lemma informers_run_once_witness :
  NoDup (s_history running) ∧ length (s_running running) = 1%nat ∧ f_wg (s_factory running) = 1.
Proof.
  destruct (informers_run_once (GRL := key_range_laws) tt 30 [OptNamespace "default"] running running)
    as (Hnd & Hwg & _).
  - exact reach_running.
  - apply rtc_refl.
  - assert (length (s_running running) = 1%nat) as Hl by reflexivity.
    split; [exact Hnd|]. split; [exact Hl|]. rewrite Hwg, Hl. reflexivity.
Defined.

Lemma Shutdown_waits_witness :
  ∃ s', rtc step stopping s' ∧ s_running s' = [] ∧ s_returned s' = 1%nat.
Proof.
  destruct (Shutdown_waits (GRL := key_range_laws) tt 30 [OptNamespace "default"] stopping) as [_ Hgo].
  - exact reach_stopping.
  - destruct Hgo as (s' & Hs & _ & Hrun & Hret).
    + intros g Hg. assert (s_running stopping = [{| g_type := KubeClusterGoType;
        g_informer := defaultInformer (KubeClusters fresh_factory) tt 30; g_stopCh := 1%nat |}]) as Heq
        by reflexivity.
      rewrite Heq in Hg. apply list_elem_of_singleton in Hg as ->. by apply elem_of_singleton.
    + exists s'. split; [exact Hs|]. split; [exact Hrun|exact Hret].
Defined.
End SampleFactory.
