(* ===== verification/Clients.v ===== *)
(** * Clients of the API server

    The generated client of pkg/client/clientset/versioned and its fake, the REST
    client of pkg/util/k8sutil, and where that finds its configuration. A call is the
    request it builds; what the REST client of client-go does with a request, and what
    the tracker of the fake does with an action, are parameters. *)

From S2P Require Import Prelude K8s Api.

(** ** Requests and actions *)

Inductive http_verb := GET | POST | PUT | DELETE | PATCH (patchType : string).

Section clients.
Context {K : K8s}.
(** The options of the calls, but for the two fields of a list that are read. *)
Context {GetOptions CreateOptions UpdateOptions DeleteOptions PatchOptions Selector : Type}.

Record ListOptions := { lo_Selector : option Selector; lo_TimeoutSeconds : option Z; lo_Watch : bool }.

Inductive params :=
| PGet (o : GetOptions) | PList (o : ListOptions) | PCreate (o : CreateOptions)
| PUpdate (o : UpdateOptions) | PPatch (o : PatchOptions).

Inductive body :=
| BObject (k : KubeCluster) | BDelete (o : DeleteOptions) | BData (data : string).

(** What the calls of [rest.Request] collect. *)
Record request := {
  rq_verb : http_verb;
  rq_namespace : string;
  rq_resource : string;
  rq_name : option string;
  rq_subresource : list string;
  rq_params : option params;
  rq_timeout : Z;
  rq_body : option body;
  rq_watch : bool
}.

(** What [Do] and [Watch] of client-go answer. *)
Class RestClient := {
  rest_object : request → res KubeCluster;
  rest_list : request → res (list KubeCluster);
  rest_error : request → res unit;
  Watcher : Type;
  rest_watch : request → res Watcher
}.

(** [time.Duration(seconds) * time.Second] *)
Definition timeout_of (o : ListOptions) : Z :=
  match lo_TimeoutSeconds o with Some s => int64 (s * 1000000000) | None => 0 end.

Definition watching (o : ListOptions) : ListOptions :=
  {| lo_Selector := lo_Selector o; lo_TimeoutSeconds := lo_TimeoutSeconds o; lo_Watch := true |}.

(** ** kubecluster.go *)

Definition resource_kubeclusters : string := "kubeclusters".

Definition get_request (ns name : string) (options : GetOptions) : request :=
  {| rq_verb := GET; rq_namespace := ns; rq_resource := resource_kubeclusters; rq_name := Some name;
     rq_subresource := []; rq_params := Some (PGet options); rq_timeout := 0; rq_body := None; rq_watch := false |}.
Definition list_request (ns : string) (opts : ListOptions) : request :=
  {| rq_verb := GET; rq_namespace := ns; rq_resource := resource_kubeclusters; rq_name := None;
     rq_subresource := []; rq_params := Some (PList opts); rq_timeout := timeout_of opts; rq_body := None;
     rq_watch := false |}.
Definition watch_request (ns : string) (opts : ListOptions) : request :=
  {| rq_verb := GET; rq_namespace := ns; rq_resource := resource_kubeclusters; rq_name := None;
     rq_subresource := []; rq_params := Some (PList (watching opts)); rq_timeout := timeout_of opts;
     rq_body := None; rq_watch := true |}.
Definition create_request (ns : string) (kubeCluster : KubeCluster) (opts : CreateOptions) : request :=
  {| rq_verb := POST; rq_namespace := ns; rq_resource := resource_kubeclusters; rq_name := None;
     rq_subresource := []; rq_params := Some (PCreate opts); rq_timeout := 0;
     rq_body := Some (BObject kubeCluster); rq_watch := false |}.
Definition update_request (ns : string) (kubeCluster : KubeCluster) (opts : UpdateOptions) : request :=
  {| rq_verb := PUT; rq_namespace := ns; rq_resource := resource_kubeclusters;
     rq_name := Some (om_Name (kc_Meta kubeCluster)); rq_subresource := [];
     rq_params := Some (PUpdate opts); rq_timeout := 0; rq_body := Some (BObject kubeCluster); rq_watch := false |}.
Definition update_status_request (ns : string) (kubeCluster : KubeCluster) (opts : UpdateOptions) : request :=
  {| rq_verb := PUT; rq_namespace := ns; rq_resource := resource_kubeclusters;
     rq_name := Some (om_Name (kc_Meta kubeCluster)); rq_subresource := ["status"];
     rq_params := Some (PUpdate opts); rq_timeout := 0; rq_body := Some (BObject kubeCluster); rq_watch := false |}.
Definition delete_request (ns name : string) (opts : DeleteOptions) : request :=
  {| rq_verb := DELETE; rq_namespace := ns; rq_resource := resource_kubeclusters; rq_name := Some name;
     rq_subresource := []; rq_params := None; rq_timeout := 0; rq_body := Some (BDelete opts); rq_watch := false |}.
Definition delete_collection_request (ns : string) (opts : DeleteOptions) (listOpts : ListOptions) : request :=
  {| rq_verb := DELETE; rq_namespace := ns; rq_resource := resource_kubeclusters; rq_name := None;
     rq_subresource := []; rq_params := Some (PList listOpts); rq_timeout := timeout_of listOpts;
     rq_body := Some (BDelete opts); rq_watch := false |}.
Definition patch_request (ns name pt data : string) (opts : PatchOptions) (subresources : list string) : request :=
  {| rq_verb := PATCH pt; rq_namespace := ns; rq_resource := resource_kubeclusters; rq_name := Some name;
     rq_subresource := subresources; rq_params := Some (PPatch opts); rq_timeout := 0;
     rq_body := Some (BData data); rq_watch := false |}.

Section typed.
Context {RC : RestClient} (ns : string).
Definition Get name options : res KubeCluster := rest_object (get_request ns name options).
Definition List_ opts : res (list KubeCluster) := rest_list (list_request ns opts).
Definition Watch opts : res Watcher := rest_watch (watch_request ns opts).
Definition Create kubeCluster opts : res KubeCluster := rest_object (create_request ns kubeCluster opts).
Definition Update kubeCluster opts : res KubeCluster := rest_object (update_request ns kubeCluster opts).
Definition UpdateStatus kubeCluster opts : res KubeCluster :=
  rest_object (update_status_request ns kubeCluster opts).
Definition Delete name opts : res unit := rest_error (delete_request ns name opts).
Definition DeleteCollection opts listOpts : res unit :=
  rest_error (delete_collection_request ns opts listOpts).
Definition Patch name pt data opts subresources : res KubeCluster :=
  rest_object (patch_request ns name pt data opts subresources).
End typed.

(** ** fake_kubecluster.go *)

(** What the constructors of client-go's testing package build. *)
Inductive action :=
| AGet (ns resource name : string)
| AList (ns resource kind : string) (opts : ListOptions)
| AWatch (ns resource : string) (opts : ListOptions)
| ACreate (ns resource : string) (k : KubeCluster)
| AUpdate (ns resource subresource : string) (k : KubeCluster)
| ADelete (ns resource name : string) (opts : DeleteOptions)
| ADeleteCollection (ns resource : string) (opts : ListOptions)
| APatch (ns resource name patchType data : string) (subresources : list string).

(** [Invokes] gives an object, which may be nil, and an error, which may be nil. *)
Class Tracker := {
  invoke_object : action → option KubeCluster * option error;
  invoke_list : action → option (list KubeCluster) * option error;
  FakeWatcher : Type;
  invoke_watch : action → res FakeWatcher;
  (** [labels.Selector.Matches] *)
  label_Matches : Selector → gmap string string → bool
}.

Section fake.
Context {T : Tracker} (ns : string).

Definition fake_Get (name : string) (options : GetOptions) : option KubeCluster * option error :=
  invoke_object (AGet ns resource_kubeclusters name).

(** Without a selector the list is not filtered. *)
Definition fake_List (opts : ListOptions) : option (list KubeCluster) * option error :=
  let '(obj, err) := invoke_list (AList ns resource_kubeclusters KubeClusterKind opts) in
  match obj with
  | None => (None, err)
  | Some items =>
      (Some (filter (λ item,
               match lo_Selector opts with
               | Some label => label_Matches label (om_Labels (kc_Meta item))
               | None => true
               end = true) items), err)
  end.

Definition fake_Watch (opts : ListOptions) : res FakeWatcher :=
  invoke_watch (AWatch ns resource_kubeclusters opts).
Definition fake_Create (k : KubeCluster) (opts : CreateOptions) : option KubeCluster * option error :=
  invoke_object (ACreate ns resource_kubeclusters k).
Definition fake_Update (k : KubeCluster) (opts : UpdateOptions) : option KubeCluster * option error :=
  invoke_object (AUpdate ns resource_kubeclusters "" k).
Definition fake_UpdateStatus (k : KubeCluster) (opts : UpdateOptions) : option KubeCluster * option error :=
  invoke_object (AUpdate ns resource_kubeclusters "status" k).
Definition fake_Delete (name : string) (opts : DeleteOptions) : option error :=
  (invoke_object (ADelete ns resource_kubeclusters name opts)).2.
Definition fake_DeleteCollection (opts : DeleteOptions) (listOpts : ListOptions) : option error :=
  (invoke_list (ADeleteCollection ns resource_kubeclusters listOpts)).2.
Definition fake_Patch (name pt data : string) (opts : PatchOptions) (subresources : list string) :
    option KubeCluster * option error :=
  invoke_object (APatch ns resource_kubeclusters name pt data subresources).
End fake.

(** ** The fake stands for the client

    What the API server calls an operation: its verb, and what it is about. *)
Record api_operation := {
  op_verb : string; op_namespace : string; op_resource : string; op_name : option string;
  op_subresource : list string; op_object : option KubeCluster
}.

Definition operation_of_request (r : request) : api_operation := {|
  op_verb :=
    match rq_verb r, rq_name r with
    | GET, Some _ => "get"
    | GET, None => if rq_watch r then "watch" else "list"
    | POST, _ => "create"
    | PUT, _ => "update"
    | PATCH _, _ => "patch"
    | DELETE, Some _ => "delete"
    | DELETE, None => "delete-collection"
    end;
  op_namespace := rq_namespace r; op_resource := rq_resource r; op_name := rq_name r;
  op_subresource := rq_subresource r;
  op_object := match rq_body r with Some (BObject k) => Some k | _ => None end |}.

Definition operation_of_action (a : action) : api_operation :=
  let mk v ns r n sub o := {| op_verb := v; op_namespace := ns; op_resource := r; op_name := n;
    op_subresource := sub; op_object := o |} in
  match a with
  | AGet ns r n => mk "get" ns r (Some n) [] None
  | AList ns r _ _ => mk "list" ns r None [] None
  | AWatch ns r _ => mk "watch" ns r None [] None
  | ACreate ns r k => mk "create" ns r None [] (Some k)
  | AUpdate ns r sub k =>
      mk "update" ns r (Some (om_Name (kc_Meta k))) (if decide (sub = "") then [] else [sub]) (Some k)
  | ADelete ns r n _ => mk "delete" ns r (Some n) [] None
  | ADeleteCollection ns r _ => mk "delete-collection" ns r None [] None
  | APatch ns r n _ _ subs => mk "patch" ns r (Some n) subs None
  end.

(** A call of the fake is recorded as the operation that the client asks for. *)
Lemma fake_operations (ns name pt data : string) (k : KubeCluster) (go : GetOptions) (lo : ListOptions)
    (co : CreateOptions) (uo : UpdateOptions) (dopts : DeleteOptions) (po : PatchOptions) (subs : list string) :
  operation_of_request (get_request ns name go) = operation_of_action (AGet ns resource_kubeclusters name) ∧
  operation_of_request (list_request ns lo) =
    operation_of_action (AList ns resource_kubeclusters KubeClusterKind lo) ∧
  operation_of_request (watch_request ns lo) = operation_of_action (AWatch ns resource_kubeclusters lo) ∧
  operation_of_request (create_request ns k co) = operation_of_action (ACreate ns resource_kubeclusters k) ∧
  operation_of_request (update_request ns k uo) = operation_of_action (AUpdate ns resource_kubeclusters "" k) ∧
  operation_of_request (update_status_request ns k uo) =
    operation_of_action (AUpdate ns resource_kubeclusters "status" k) ∧
  operation_of_request (delete_request ns name dopts) =
    operation_of_action (ADelete ns resource_kubeclusters name dopts) ∧
  operation_of_request (delete_collection_request ns dopts lo) =
    operation_of_action (ADeleteCollection ns resource_kubeclusters lo) ∧
  operation_of_request (patch_request ns name pt data po subs) =
    operation_of_action (APatch ns resource_kubeclusters name pt data subs).
Proof. by split_and!. Qed.

(** ** pkg/util/k8sutil/client.go *)

Section crd.
Context {RC : RestClient} (no_options : UpdateOptions).

(** An unstructured object by its kind, namespace and name, with the rest of it. *)
Definition crd_request (plural ns : string) (subresource : list string) (obj : KubeCluster) : request :=
  {| rq_verb := PUT; rq_namespace := ns; rq_resource := plural; rq_name := Some (om_Name (kc_Meta obj));
     rq_subresource := subresource; rq_params := None; rq_timeout := 0; rq_body := Some (BObject obj);
     rq_watch := false |}.

Definition crd_Update (obj : KubeCluster) (plural : string) : res unit :=
  if decide (plural = "") then Err (EText "plural must be set")
  else rest_error (crd_request plural (om_Namespace (kc_Meta obj)) [] obj).
Definition crd_UpdateStatus (obj : KubeCluster) (plural : string) : res unit :=
  if decide (plural = "") then Err (EText "plural must be set")
  else rest_error (crd_request plural (om_Namespace (kc_Meta obj)) ["status"] obj).

(** For KubeClusters it asks for what the generated client asks for. *)
Lemma crd_like_typed (obj : KubeCluster) :
  operation_of_request (crd_request resource_kubeclusters (om_Namespace (kc_Meta obj)) [] obj) =
    operation_of_request (update_request (om_Namespace (kc_Meta obj)) obj no_options) ∧
  operation_of_request (crd_request resource_kubeclusters (om_Namespace (kc_Meta obj)) ["status"] obj) =
    operation_of_request (update_status_request (om_Namespace (kc_Meta obj)) obj no_options).
Proof. done. Qed.
End crd.
End clients.

(** ** pkg/util/k8sutil/k8sutil.go *)

(** The environment of the process, and where a configuration may come from. *)
Section config.
Context {Config : Type} (LookupHost : string → result string (list string))
  (BuildConfigFromFlags : string → result string Config) (InClusterConfig : gmap string string → result string Config)
  (Setenv_ok : string → string → bool).

Definition Getenv (env : gmap string string) (name : string) : string := default "" (env !! name).

(** [os.Setenv] fails for some names and values. *)
Definition Setenv (env : gmap string string) (name value : string) : result string (gmap string string) :=
  if Setenv_ok name value then Ok (<[name := value]> env) else Err "invalid argument".

Definition RecommendedConfigPathEnvVar : string := "KUBECONFIG".
Definition HostVar : string := "KUBERNETES_SERVICE_HOST".
Definition PortVar : string := "KUBERNETES_SERVICE_PORT".

(** The two variables that the configuration in a cluster needs. *)
Definition service_host (env : gmap string string) : result string (gmap string string) :=
  if decide (Getenv env HostVar = "") then
    match LookupHost "kubernetes.default.svc" with
    | Ok addrs =>
        match addrs with
        | addr :: _ => Setenv env HostVar addr
        | [] => Panic
        end
    | _ => Panic
    end
  else Ok env.
Definition service_port (env : gmap string string) : result string (gmap string string) :=
  if decide (Getenv env PortVar = "") then
    match Setenv env PortVar "443" with Ok env => Ok env | _ => Panic end
  else Ok env.

Definition GetClusterConfig (env : gmap string string) : gmap string string * result string Config :=
  if decide (Getenv env RecommendedConfigPathEnvVar ≠ "") then
    (env, BuildConfigFromFlags (Getenv env RecommendedConfigPathEnvVar))
  else
    match service_host env with
    | Ok env1 =>
        match service_port env1 with
        | Ok env2 => (env2, InClusterConfig env2)
        | Err e => (env1, Err e)
        | Panic => (env1, Panic)
        end
    | Err e => (env, Err e)
    | Panic => (env, Panic)
    end.

(** In a cluster, the configuration is read with a host and a port, and what the
    environment had is kept. *)
Lemma GetClusterConfig_in_cluster env env' c :
  Getenv env RecommendedConfigPathEnvVar = "" → GetClusterConfig env = (env', Ok c) →
  (∀ addrs, LookupHost "kubernetes.default.svc" = Ok addrs → Forall (λ a, a ≠ "") addrs) →
  InClusterConfig env' = Ok c ∧ Getenv env' HostVar ≠ "" ∧ Getenv env' PortVar ≠ "" ∧
  (∀ name, Getenv env name ≠ "" → Getenv env' name = Getenv env name).
Proof.
  intros Hk H Hl. unfold GetClusterConfig in H. rewrite decide_False in H by tauto.
  assert (∀ env1, service_host env = Ok env1 → Getenv env1 HostVar ≠ "" ∧
    ∀ name, Getenv env name ≠ "" → Getenv env1 name = Getenv env name) as Hhost.
  { intros env1. unfold service_host. case_decide as Hh; [|by intros [= <-]].
    destruct (LookupHost _) as [[|addr addrs]| |]; [done| |done..].
    specialize (Hl _ eq_refl). apply Forall_cons in Hl as [Ha _].
    unfold Setenv. destruct (Setenv_ok _ _); [|done]. intros [= <-]. unfold Getenv in *. split.
    - by rewrite lookup_insert_eq.
    - intros name Hn. destruct (decide (HostVar = name)) as [<-|]; [by rewrite Hh in Hn|].
      by rewrite lookup_insert_ne. }
  assert (∀ env1 env2, service_port env1 = Ok env2 → Getenv env2 PortVar ≠ "" ∧
    ∀ name, Getenv env1 name ≠ "" → Getenv env2 name = Getenv env1 name) as Hport.
  { intros env1 env2. unfold service_port. case_decide as Hp; [|by intros [= <-]].
    unfold Setenv. destruct (Setenv_ok _ _); [|done]. intros [= <-]. unfold Getenv in *. split.
    - by rewrite lookup_insert_eq.
    - intros name Hn. destruct (decide (PortVar = name)) as [<-|]; [by rewrite Hp in Hn|].
      by rewrite lookup_insert_ne. }
  destruct (service_host env) as [env1| |]; [|done..]. destruct (Hhost env1 eq_refl) as [Hh Hkeep].
  destruct (service_port env1) as [env2| |] eqn:Hp; [|done..]. destruct (Hport _ _ Hp) as [Hp2 Hkeep2].
  injection H as <- Hc. split_and!; [done| |done|].
  - by rewrite Hkeep2.
  - intros name Hn. by rewrite Hkeep2; rewrite Hkeep.
Qed.
End config.

(** [metav1.DeleteOptions], the two fields that are set. *)
Record CascadeOptions := { co_GracePeriodSeconds : option Z; co_PropagationPolicy : option string }.
Definition CascadeDeleteOptions (gracePeriodSeconds : Z) : CascadeOptions :=
  {| co_GracePeriodSeconds := Some gracePeriodSeconds; co_PropagationPolicy := Some "Foreground" |}.
