(* ===== verification/Logging.v ===== *)
(** * The fields of log entries

    pkg/util/logger.go and [LoggerForGenericKind]: what the entries about an object
    carry. Each has a field [cluster], by which the entries of a cluster are found:
    the comments promise that it is the key of the work queue with a period. *)

From S2P Require Import Prelude K8s Api Names Expectations Core World Control Schema Controller.
From S2P Require Import Reconciler PodPlan.

Definition period : ascii := "."%char.

Section logging.
Context {K : K8s}.

(** [log.WithFields] *)
Abbreviation Fields := (gmap string string) (only parsing).

Definition dotted (m : ObjectMeta) : string := om_Namespace m +:+ "." +:+ om_Name m.

(** The cluster of an object, when its controller is of the kind. *)
Definition cluster_of (m : ObjectMeta) (kind : string) : string :=
  match GetControllerOf (om_OwnerReferences m) with
  | Some ref => if decide (or_Kind ref = kind) then om_Namespace m +:+ "." +:+ or_Name ref else ""
  | None => ""
  end.

Definition LoggerForReplica (cluster : ObjectMeta) (rtype : ReplicaType) : Fields :=
  {[ "cluster" := dotted cluster; "uid" := om_UID cluster; "replica-type" := rtype ]}.
Definition LoggerForCluster (cluster : ObjectMeta) : Fields :=
  {[ "cluster" := dotted cluster; "uid" := om_UID cluster ]}.
Definition LoggerForPod (pod : Pod) (kind : string) : Fields :=
  {[ "cluster" := cluster_of (pod_Meta pod) kind; "pod" := dotted (pod_Meta pod);
     "uid" := om_UID (pod_Meta pod) ]}.
Definition LoggerForService (svc : Service) (kind : string) : Fields :=
  {[ "cluster" := cluster_of (svc_Meta svc) kind; "service" := dotted (svc_Meta svc);
     "uid" := om_UID (svc_Meta svc) ]}.
Definition LoggerForConfigMap (cm : ConfigMap) (kind : string) : Fields :=
  {[ "kcluster" := cluster_of (cm_Meta cm) kind; "configMap" := dotted (cm_Meta cm);
     "uid" := om_UID (cm_Meta cm) ]}.
Definition LoggerForKey (key : string) : Fields := {[ "cluster" := ReplaceAllChar slash period key ]}.
(** An unstructured object by its kind and what all objects have. *)
Definition LoggerForUnstructured (objKind : string) (m : ObjectMeta) (kind : string) : Fields :=
  {[ "cluster" := if decide (objKind = kind) then dotted m else ""; "uid" := om_UID m ]}.
(** The field named by the kind comes after [cluster] and before [uid]. *)
Definition LoggerForGenericKind (m : ObjectMeta) (kind : string) : Fields :=
  <["uid" := om_UID m]> (<[kind := dotted m]> {[ "cluster" := cluster_of m kind ]}).

(** ** One cluster, one name *)

Lemma dotted_key m :
  has_char slash (om_Namespace m) = false → has_char slash (om_Name m) = false →
  ReplaceAllChar slash period (om_Namespace m +:+ "/" +:+ om_Name m) = dotted m.
Proof.
  intros Hns Hn. unfold dotted, ReplaceAllChar. rewrite !string_map_app.
  fold (ReplaceAllChar slash period (om_Namespace m)). fold (ReplaceAllChar slash period (om_Name m)).
  by rewrite !ReplaceAllChar_id.
Qed.

Context {KL : K8sLaws K} {ES : ExpStore} {AS : ApiServer} {RT : GoRuntime}.

(** The entries of a pod that the controller created, of the cluster and of its key in
    the work queue have the same [cluster]. *)
Lemma pod_logged_with_cluster (cc : ClusterController) (kc : KubeCluster) (rtype : ReplicaType) (index : Z)
    (p : Pod) :
  pod_of cc kc rtype index p → om_Namespace (pod_Meta p) = om_Namespace (kc_Meta kc) →
  has_char slash (om_Namespace (kc_Meta kc)) = false → has_char slash (om_Name (kc_Meta kc)) = false →
  LoggerForPod p (ci_Kind (cc_Controller cc)) !! "cluster" = LoggerForCluster (kc_Meta kc) !! "cluster" ∧
  LoggerForKey (om_Namespace (kc_Meta kc) +:+ "/" +:+ om_Name (kc_Meta kc)) !! "cluster" =
    LoggerForCluster (kc_Meta kc) !! "cluster".
Proof.
  intros Hp Hns H1 H2. unfold LoggerForPod, LoggerForCluster, LoggerForKey. rewrite dotted_key by done.
  rewrite lookup_insert_eq, lookup_singleton_eq, lookup_insert_eq. split; [|done]. f_equal.
  unfold cluster_of. rewrite (po_owner _ _ _ _ _ Hp), Hns.
  assert (GetControllerOf [GenOwnerReference cc (kc_Meta kc)] = Some (GenOwnerReference cc (kc_Meta kc)))
    as -> by (by rewrite GetControllerOf_spec).
  by rewrite decide_True.
Qed.
End logging.
