(* ===== verification/Entry.v ===== *)
(** * The whole of main

    cmd/main.go: the flags, then one set-up step after the other, each of which ends the
    process when it fails, and at last the manager, which runs until it is told to
    stop. The manager of controller-runtime is a parameter. *)

From S2P Require Import Prelude K8s Api Defaults Names Status Expectations Core World Control.
From S2P Require Import Schema Controller Reconciler PodPlan ServicePlan Events SchemaLib Slurm SlurmSpec.
From S2P Require Import Pbspro PbsproSpec Main.

(** The flags that main reads, with the values they have when they are not given. *)
Record main_flags := {
  mf_metricsAddr : string;
  mf_probeAddr : string;
  mf_enableLeaderElection : bool;
  mf_enabledSchemes : list string;
  mf_controllerThreads : Z;
  mf_gangSchedulerName : string
}.
Definition default_flags : main_flags := {|
  mf_metricsAddr := ":8080"; mf_probeAddr := ":8081"; mf_enableLeaderElection := false;
  mf_enabledSchemes := []; mf_controllerThreads := 1; mf_gangSchedulerName := "" |}.

(** How the process ends: by returning from main, with a code, or in a panic. *)
Inductive exit := Returned | Exited (code : Z) | Crashed.

Section main.
Context {K : K8s} {QF : QuantityFormat} {ES : ExpStore} {AS : ApiServer} {RT : GoRuntime}
  {RTL : GoRuntimeLaws RT} {GR : GoRand}.
Context (valid : gmap string string → bool) (lister : string → option Z)
  (slurm_init pbs_init : string → res (list Container)) (fuel : nat) (kinds : list string).

(** One step; its failure ends the process. *)
Definition or_exit {A} (code : Z) (r : res A) (k : A → exit) : exit :=
  match r with Ok a => k a | Err _ => Exited code | Panic => Crashed end.

(** What controller-runtime does. *)
Record Runtime := {
  rt_NewManager : main_flags → res Manager;
  rt_AddHealthzCheck : Manager → res unit;
  rt_AddReadyzCheck : Manager → res unit;
  rt_Start : Manager → ClusterController → Z → res unit
}.

(** [flag.Parse] ends the process with 2 when a flag is not accepted. *)
Definition main (rt : Runtime) (flags : main_flags) : exit :=
  or_exit 2 (parse_schemes kinds (mf_enabledSchemes flags)) (λ enabledSchemes,
  or_exit 1 (rt_NewManager rt flags) (λ mgr,
  or_exit 1 (setupController valid lister slurm_init pbs_init fuel kinds enabledSchemes
    (mf_gangSchedulerName flags)) (λ cc,
  or_exit 1 (SetupWithManager mgr) (λ _,
  or_exit 1 (rt_AddHealthzCheck rt mgr) (λ _,
  or_exit 1 (rt_AddReadyzCheck rt mgr) (λ _,
  or_exit 1 (rt_Start rt mgr cc (mf_controllerThreads flags)) (λ _, Returned))))))).

Lemma or_exit_Returned {A} code (r : res A) k : or_exit code r k = Returned ↔ ∃ a, r = Ok a ∧ k a = Returned.
Proof. destruct r; simpl; naive_solver. Qed.

(** The manager only ever runs a controller that keeps its contract and knows the
    schemas of the flags, with a watch on what it creates. *)
Lemma main_runs (rt : Runtime) (flags : main_flags) :
  kinds ≡ₚ SupportedClusterSchemas → main rt flags = Returned →
  ∃ es mgr cc, parse_schemes kinds (mf_enabledSchemes flags) = Ok es ∧ NoDup es ∧
    rt_NewManager rt flags = Ok mgr ∧ SetupWithManager mgr = Ok tt ∧
    rt_Start rt mgr cc (mf_controllerThreads flags) = Ok tt ∧ ControllerSpec cc ∧
    ∀ t, is_Some (GetSchemaReconciler cc t) ↔
         t ∈ (if decide (es = []) then SupportedClusterSchemas else es).
Proof.
  intros Hk (es & Hes & H)%or_exit_Returned. apply or_exit_Returned in H as (mgr & Hmgr & H).
  apply or_exit_Returned in H as (cc & Hcc & H). apply or_exit_Returned in H as ([] & Hsetup & H).
  apply or_exit_Returned in H as (_ & _ & H). apply or_exit_Returned in H as (_ & _ & H).
  apply or_exit_Returned in H as ([] & Hstart & _).
  destruct (setup_contract valid lister slurm_init pbs_init fuel kinds _ es (mf_gangSchedulerName flags) Hk Hes)
    as [Hnd Hspec].
  destruct (Hspec cc Hcc) as [Hcs Hreg]. exists es, mgr, cc. split_and!; try done.
  apply Hnd. by rewrite Hcc.
Qed.
End main.
