(* ===== verification/Settled.v ===== *)
(** * The replicas of a whole cluster, over two passes

    [reconcile_replicas] (the loop of ReconcileKubeCluster over the replica types, in
    pkg/controller/ctrlcommon/controller.go) visits the types in any order, and for each
    the pods and then the services. Each visit fills the gaps of its own type only, since
    the label of the type tells the objects of different types apart; so when one pass
    has succeeded and what it asked for exists, every type is settled and the next pass
    asks for nothing. *)

From S2P Require Import Prelude K8s Api Names Status Expectations Core World Control.
From S2P Require Import Schema Controller Reconciler PodPlan ServicePlan Converge.

(** ** Objects of one type among those of others *)

Section types.
Context {K : K8s} {KL : K8sLaws K} {A : Type} {HM : HasMeta A}.

Definition of_type (xs : list A) (rType : ReplicaType) : list A :=
  FilterForReplicaType xs (GenReplicaTypeLabel rType).

Lemma has_type_filter rType x :
  selector_Matches {[ ReplicaTypeLabel := GenReplicaTypeLabel rType ]} (om_Labels (meta_of x)) = true ↔
  has_type rType x.
Proof. rewrite selector_Matches_spec. apply map_singleton_subseteq_l. Qed.

Lemma of_type_all rType xs : (∀ x, x ∈ xs → has_type rType x) → of_type xs rType = xs.
Proof using KL.
  unfold of_type, FilterForReplicaType. induction xs as [|x xs IH]; intros Hxs; [done|].
  rewrite filter_cons_True by (apply has_type_filter, Hxs; left). f_equal.
  apply IH. intros y Hy. apply Hxs. by right.
Qed.

Lemma of_type_none rType rType' xs :
  ToLower rType ≠ ToLower rType' → (∀ x, x ∈ xs → has_type rType' x) → of_type xs rType = [].
Proof using KL.
  intros Hne. unfold of_type, FilterForReplicaType. induction xs as [|x xs IH]; intros Hxs; [done|].
  rewrite filter_cons_False.
  - apply IH. intros y Hy. apply Hxs. by right.
  - intros Hm%has_type_filter. specialize (Hxs x (list_elem_of_here _ _)). unfold has_type in *. congruence.
Qed.

Lemma of_type_app xs ys rType : of_type (xs ++ ys) rType = (of_type xs rType ++ of_type ys rType)%list.
Proof. apply filter_app. Qed.

Lemma of_type_perm xs ys rType : xs ≡ₚ ys → of_type xs rType ≡ₚ of_type ys rType.
Proof. intros H. unfold of_type, FilterForReplicaType. by rewrite H. Qed.

(** Objects made from others with their labels. *)
Lemma of_type_related (R : A → A → Prop) xs ys rType :
  (∀ x y, R x y → same_labels x y) → Forall2 R xs ys → Forall2 R (of_type xs rType) (of_type ys rType).
Proof.
  intros HR. induction 1 as [|x y xs ys Hxy _ IH]; [constructor|].
  unfold of_type, FilterForReplicaType in *. rewrite !filter_cons, (HR x y Hxy).
  case_decide; [by constructor|done].
Qed.

(** Of what a loop over types created, the objects of one type are those of its visit. *)
Lemma of_type_visit (pick : call → option A) {B} (entries : list (string * B)) ls t b :
  NoDup (ToLower <$> entries.*1) →
  Forall2 (λ e l, ∀ x, x ∈ omap pick l → has_type e.1 x) entries ls →
  (t, b) ∈ entries →
  ∃ i l, entries !! i = Some (t, b) ∧ ls !! i = Some l ∧
    of_type (omap pick (mjoin ls)) t = omap pick l.
Proof using KL.
  revert ls. induction entries as [|[t' b'] entries IH]; intros ls Hnd HF Hin.
  { by apply elem_of_nil in Hin. }
  rewrite !fmap_cons in Hnd. apply NoDup_cons in Hnd as [Hni Hnd].
  apply Forall2_cons_inv_l in HF as (l & ls' & Hl & HF & ->). simpl (mjoin _) in *. simpl in Hl.
  rewrite omap_app, of_type_app. apply elem_of_cons in Hin as [[= -> ->]|Hin].
  - exists 0%nat, l. split_and!; [done..|]. rewrite of_type_all by done.
    assert (of_type (omap pick (mjoin ls')) t' = []) as ->; [|apply app_nil_r].
    clear IH Hl. induction HF as [|[t b] l2 entries ls' Hx HF IH2]; [done|].
    simpl (mjoin _). rewrite omap_app, of_type_app. rewrite fmap_cons, fmap_cons in Hni, Hnd.
    apply not_elem_of_cons in Hni as [Hne Hni]. apply NoDup_cons in Hnd as [_ Hnd].
    rewrite (of_type_none _ t) by done. by apply IH2.
  - destruct (IH ls' Hnd HF Hin) as (i & l2 & Hi & Hl2 & Heq). exists (S i), l2.
    split_and!; [done..|]. rewrite Heq, (of_type_none _ t'); [done| |done].
    intros Hne. apply Hni. simpl. rewrite <-Hne. apply list_elem_of_fmap. exists t.
    split; [done|]. apply list_elem_of_fmap. by exists (t, b).
Qed.
End types.

(** ** One visit of a replica type *)

Section visit.
Context {K : K8s} {KL : K8sLaws K} {ES : ExpStore} {AS : ApiServer} {RT : GoRuntime}
  {RTL : GoRuntimeLaws RT}.
Implicit Types (cc : ClusterController) (kc : KubeCluster).

Lemma omap_none {A} (pick : call → option A) l : Forall (λ c, pick c = None) l → omap pick l = [].
Proof. induction 1 as [|c l Hc _ IH]; simpl; [done|]. by rewrite Hc. Qed.

Lemma omap_join_none {A B} (pick : call → option A) (T : B → list call → Prop) xs ls :
  Forall2 T xs ls → (∀ x l, T x l → Forall (λ c, pick c = None) l) → omap pick (mjoin ls) = [].
Proof.
  intros HF HT. induction HF as [|x l xs ls Hl _ IH]; simpl (mjoin _); [done|].
  rewrite omap_app, IH, app_nil_r. by eapply omap_none, HT.
Qed.

(** Pods are only created for pods, and services for services. *)
Lemma pod_trace_pods cc kc rType spec n slice l r :
  pod_trace cc kc rType spec n slice l r → Forall (λ c, service_created_by c = None) l.
Proof using Type. clear.
  unfold pod_trace, removal. destruct slice.2 as [|p [|? ?]]; [|destruct (leaves _ _ _ _)|by intros ->].
  - intros [[-> _]|(p & -> & _)]; [done|]. by repeat constructor.
  - intros (l' & -> & Hl'). constructor; [done|]. eapply Forall_impl; [exact Hl'|].
    by intros c [->| ->].
  - by intros ->.
Qed.

Lemma service_trace_services cc kc rType spec s n slice l r :
  service_trace cc kc rType spec s n slice l r → Forall (λ c, created_by c = None) l.
Proof using Type. clear.
  unfold service_trace. destruct slice.2 as [|v [|? ?]]; [destruct s|case_decide|by intros [-> _]].
  - intros [[-> _]|(v & ports & -> & _)]; [done|]. by repeat constructor.
  - by intros [-> _].
  - intros (l' & -> & Hl'). constructor; [done|]. eapply Forall_impl; [exact Hl'|].
    by intros c [->| ->].
  - by intros [-> _].
Qed.

(** The body of the loop over the replica types. *)
Definition visit cc (pods : list Pod) (services : list Service) (cm : ConfigMap)
    (entry : string * option ReplicaSpec) : M unit :=
  _ ← ReconcilePods cc entry.1 entry.2 pods cm;
  ReconcileServices cc entry.1 entry.2 services.

Lemma reconcile_replicas_visits cc pods services cm w :
  reconcile_replicas cc pods services cm w =
  for_each (range (w_tick w) (sp_ClusterReplicaSpec (kc_Spec (w_kc w)))) (visit cc pods services cm)
    (w_next_tick w).
Proof. done. Qed.

Definition type_fits (rType : ReplicaType) (spec : ReplicaSpec) (n : Z) (pods : list Pod)
    (services : list Service) : Prop :=
  pods_fit spec n (of_type pods rType) ∧ services_fit n (of_type services rType).
Definition type_settled (rType : ReplicaType) (spec : ReplicaSpec) (n : Z) (pods : list Pod)
    (services : list Service) : Prop :=
  pods_settled spec n (of_type pods rType) ∧ services_settled n (of_type services rType).

(** A visit that ends well has filled the gaps of its type. *)
Definition visit_trace (pods : list Pod) (services : list Service)
    (entry : string * option ReplicaSpec) (l : list call) (r : res unit) : Prop :=
  r = Ok tt → ∀ spec n, entry.2 = Some spec → r_Replicas spec = Some n →
    fills entry.1 n (of_type pods entry.1) (created l) ∧
    fills entry.1 n (of_type services entry.1) (services_created l).

Lemma visit_run cc `{!ControllerSpec cc} kc rType spec n pods services cm w log :
  r_Replicas spec = Some n → 1 ≤ n < 2 ^ 31 → type_fits rType spec n pods services →
  same_cluster kc w → w_log w = log →
  run_spec kc log (visit_trace pods services (rType, Some spec))
    (visit cc pods services cm (rType, Some spec) w).
Proof.
  intros Hn Hrange [Hpods Hservices] Hkc Hlog.
  destruct (ReconcilePods_run cc kc rType spec n pods cm w log) as (Hkc1 & l1 & Hl1 & ls1 & -> & Htr1);
    [done|apply (pods_stay_ok spec n); [lia|apply Hpods]|done..|].
  unfold visit, mbind, M_bind. simpl in *.
  destruct (ReconcilePods cc rType (Some spec) pods cm w) as [w1 [[]|e|]]; simpl in *;
    [|by split; [done|]; exists (mjoin ls1); split..].
  destruct (ReconcileServices_run cc kc rType spec n services w1 (w_log w1))
    as (Hkc2 & l2 & Hl2 & ls2 & -> & Htr2); [done|eapply services_fit_ok; [|exact Hservices]; lia|done..|].
  split; [done|]. exists (mjoin ls1 ++ mjoin ls2)%list. split; [by rewrite Hl2, Hl1, app_assoc|].
  intros Hr spec' n' [= <-] Hn'. simplify_eq. rewrite Hr in Htr2.
  apply loop_trace_Ok in Htr1, Htr2. unfold created, services_created. rewrite !omap_app.
  rewrite (omap_join_none service_created_by _ _ _ Htr1) by (intros ?? ?; by eapply pod_trace_pods).
  rewrite (omap_join_none created_by _ _ _ Htr2) by (intros ?? ?; by eapply service_trace_services).
  rewrite app_nil_r. split; [by eapply pods_fill|by eapply services_fill].
Qed.

(** A visit of a settled type only counts its pods. *)
Definition count_of (rType : ReplicaType) (n : Z) (pods : list Pod) : ReplicaStatus :=
  counted_status (mjoin (slices_of (of_type pods rType) n).*2).

Lemma visit_settled cc `{!ControllerSpec cc} rType spec n pods services cm w :
  r_Replicas spec = Some n → 1 ≤ n < 2 ^ 31 → type_settled rType spec n pods services →
  let o := visit cc pods services cm (rType, Some spec) w in
  o.2 = Ok tt ∧ w_log o.1 = w_log w ∧ w_srv o.1 = w_srv w ∧ w_exp o.1 = w_exp w ∧ same_cluster (w_kc w) o.1 ∧
  kc_Status (w_kc o.1) = Status_set_ReplicaStatuses
    (<[rType := count_of rType n pods]> (st_ReplicaStatuses (kc_Status (w_kc w)))) (kc_Status (w_kc w)).
Proof.
  intros Hn Hrange [Hpods Hservices].
  destruct (ReconcilePods_settled cc rType spec n pods cm w Hn Hrange Hpods) as (Hr & Hl & Hv & He & Hkc & Hst).
  unfold visit, mbind, M_bind. simpl.
  destruct (ReconcilePods cc rType (Some spec) pods cm w) as [w1 r]; simpl in *. subst r.
  by rewrite (ReconcileServices_settled cc rType spec n services w1).
Qed.
End visit.

(** ** All replica types *)

Section cluster.
Context {K : K8s} {KL : K8sLaws K} {ES : ExpStore} {AS : ApiServer} {RT : GoRuntime}
  {RTL : GoRuntimeLaws RT}.
Implicit Types (cc : ClusterController) (S : gmap string (option ReplicaSpec)).

(** Each type has a spec with at least one replica, and no two are the same in lower
    case. *)
Record replicas_ok S : Prop := {
  ro_spec t o : S !! t = Some o → ∃ spec n, o = Some spec ∧ r_Replicas spec = Some n ∧ 1 ≤ n < 2 ^ 31;
  ro_distinct t t' : is_Some (S !! t) → is_Some (S !! t') → ToLower t = ToLower t' → t = t'
}.

Definition each_type S (P : ReplicaType → ReplicaSpec → Z → Prop) : Prop :=
  ∀ t spec n, S !! t = Some (Some spec) → r_Replicas spec = Some n → P t spec n.

Definition cluster_fits S (pods : list Pod) (services : list Service) : Prop :=
  each_type S (λ t spec n, type_fits t spec n pods services).
Definition cluster_settled S (pods : list Pod) (services : list Service) : Prop :=
  each_type S (λ t spec n, type_settled t spec n pods services).

Lemma range_lower k S : replicas_ok S → NoDup (ToLower <$> (range k S).*1).
Proof.
  intros [_ Hd]. pose proof (NoDup_range k S) as Hnd.
  assert (∀ t, t ∈ (range k S).*1 → is_Some (S !! t)) as Hin.
  { intros t ([t' o] & -> & Ho)%list_elem_of_fmap. apply elem_of_range in Ho. by exists o. }
  revert Hnd Hin. generalize (range k S).*1. intros ts Hnd Hin.
  induction Hnd as [|t ts Hni Hnd IH]; [constructor|]. rewrite fmap_cons. constructor.
  - intros (t' & Heq & Ht')%list_elem_of_fmap. apply Hni.
    assert (t = t') as ->; [|done]. apply Hd; [apply Hin; left|apply Hin; by right|done].
  - apply IH. intros t' Ht'. apply Hin. by right.
Qed.

(** A pass that ends well has filled the gaps of every type. *)
Lemma replicas_fill cc `{!ControllerSpec cc} pods services cm w w1 :
  let S := sp_ClusterReplicaSpec (kc_Spec (w_kc w)) in
  replicas_ok S → cluster_fits S pods services →
  reconcile_replicas cc pods services cm w = (w1, Ok tt) →
  ∃ l, w_log w1 = (w_log w ++ l)%list ∧ each_type S (λ t spec n,
    fills t n (of_type pods t) (of_type (created l) t) ∧
    fills t n (of_type services t) (of_type (services_created l) t)).
Proof.
  intros S HS Hfit. rewrite reconcile_replicas_visits. intros Hrun.
  destruct (for_each_trace (same_cluster (w_kc w)) (visit_trace pods services)
    (range (w_tick w) S) (visit cc pods services cm) (w_next_tick w)) as (_ & ls & Hls & Htr); [|done|].
  { intros [t o] w2 Hin%elem_of_range Hkc. destruct (ro_spec S HS t o Hin) as (spec & n & -> & Hn & Hr).
    apply (visit_run cc (w_kc w) t spec n); [done..|by apply (Hfit t)|done|done]. }
  fold S in Hrun. rewrite Hrun in Hls, Htr. simpl in Hls, Htr.
  apply loop_trace_Ok in Htr. exists (mjoin ls). split; [exact Hls|].
  assert (∀ e l, e ∈ range (w_tick w) S → visit_trace pods services e l (Ok tt) → ∃ n,
    fills e.1 n (of_type pods e.1) (created l) ∧ fills e.1 n (of_type services e.1) (services_created l))
    as Hfills.
  { intros [t o] l2 Hin%elem_of_range Hv. destruct (ro_spec S HS t o Hin) as (spec & n & -> & Hn & _).
    exists n. by apply (Hv eq_refl spec n). }
  assert (Forall2 (λ e l, (∀ p, p ∈ created l → has_type e.1 p) ∧
                          ∀ s, s ∈ services_created l → has_type e.1 s) (range (w_tick w) S) ls) as Htypes.
  { apply Forall2_same_length_lookup_2; [eapply Forall2_length; exact Htr|]. intros i e l2 He Hl2.
    destruct (Hfills e l2 (list_elem_of_lookup_2 _ _ _ He) (Forall2_lookup_lr _ _ _ _ _ _ Htr He Hl2))
      as (n & Hp & Hv).
    split; [apply Hp|apply Hv]. }
  intros t spec n Ht Hn. assert ((t, Some spec) ∈ range (w_tick w) S) as Hin by by apply elem_of_range.
  destruct (of_type_visit created_by (range (w_tick w) S) ls t (Some spec)) as (i & l2 & Hi & Hl2 & Heq);
    [by apply range_lower|eapply Forall2_impl; [exact Htypes|by intros ?? []]|done|].
  destruct (of_type_visit service_created_by (range (w_tick w) S) ls t (Some spec))
    as (j & l3 & Hj & Hl3 & Heq');
    [by apply range_lower|eapply Forall2_impl; [exact Htypes|by intros ?? []]|done|].
  unfold created, services_created. rewrite Heq, Heq'.
  split.
  - exact (proj1 (Forall2_lookup_lr _ _ _ _ _ _ Htr Hi Hl2 eq_refl spec n eq_refl Hn)).
  - exact (proj2 (Forall2_lookup_lr _ _ _ _ _ _ Htr Hj Hl3 eq_refl spec n eq_refl Hn)).
Qed.

(** Once what was asked for exists, every type is settled. *)
Lemma replicas_settle S pods services l newp news pods' services' :
  cluster_fits S pods services →
  each_type S (λ t spec n,
    fills t n (of_type pods t) (of_type (created l) t) ∧
    fills t n (of_type services t) (of_type (services_created l) t)) →
  Forall2 stored (created l) newp → Forall2 same_labels (services_created l) news →
  pods' ≡ₚ (pods ++ newp)%list → services' ≡ₚ (services ++ news)%list →
  cluster_settled S pods' services'.
Proof.
  intros Hfit Hfill Hp Hs Hpods Hservices t spec n Ht Hn.
  destruct (Hfit t spec n Ht Hn) as [Hfp Hfs], (Hfill t spec n Ht Hn) as [Hflp Hfls]. split.
  - apply (pods_settle t spec n (of_type pods t) (of_type (created l) t) (of_type newp t)); [done|done| |].
    + apply of_type_related; [by intros p q [? _]|done].
    + rewrite <-of_type_app. by apply of_type_perm.
  - apply (services_settle t n (of_type services t) (of_type (services_created l) t) (of_type news t));
      [done|done| |].
    + by apply of_type_related.
    + rewrite <-of_type_app. by apply of_type_perm.
Qed.

(** The statuses after the types of [entries] have been counted. *)
Definition counts (pods : list Pod) (entries : list (string * option ReplicaSpec))
    (m : gmap string ReplicaStatus) : gmap string ReplicaStatus :=
  foldl (λ m e, match e.2 ≫= r_Replicas with
                | Some n => <[e.1 := count_of e.1 n pods]> m
                | None => m
                end) m entries.

Lemma counts_lookup pods S entries m t :
  (∀ t o, (t, o) ∈ entries → S !! t = Some o) →
  counts pods entries m !! t =
    if decide (t ∈ entries.*1) then
      match S !! t ≫= (λ o, o ≫= r_Replicas) with
      | Some n => Some (count_of t n pods)
      | None => m !! t
      end
    else m !! t.
Proof using Type. clear.
  unfold counts. revert m. induction entries as [|[t' o] entries IH]; intros m Hin; [done|].
  cbn [foldl]. rewrite IH by (intros t2 o2 H; apply Hin; by right). clear IH.
  assert (S !! t' = Some o) as Ho by (apply Hin; left). cbn [fmap list_fmap fst snd].
  destruct (decide (t = t')) as [->|Hne].
  - rewrite (decide_True (P := t' ∈ t' :: _)) by left. rewrite Ho. simpl.
    destruct (o ≫= r_Replicas); [rewrite lookup_insert_eq|]; by case_decide.
  - assert (match o ≫= r_Replicas with Some n => <[t' := count_of t' n pods]> m | None => m end !! t = m !! t)
      as -> by (destruct (o ≫= r_Replicas); [by rewrite lookup_insert_ne|done]).
    repeat case_decide; set_solver.
Qed.

Lemma visits_settled cc `{!ControllerSpec cc} S pods services cm entries w :
  replicas_ok S → cluster_settled S pods services →
  (∀ t o, (t, o) ∈ entries → S !! t = Some o) →
  let o := for_each entries (visit cc pods services cm) w in
  o.2 = Ok tt ∧ w_log o.1 = w_log w ∧ w_srv o.1 = w_srv w ∧ w_exp o.1 = w_exp w ∧ same_cluster (w_kc w) o.1 ∧
  kc_Status (w_kc o.1) =
    Status_set_ReplicaStatuses (counts pods entries (st_ReplicaStatuses (kc_Status (w_kc w))))
      (kc_Status (w_kc w)).
Proof.
  intros HS Hset. revert w. induction entries as [|[t o] entries IH]; intros w Hin; simpl.
  { split_and!; [done..|]. by destruct (kc_Status (w_kc w)). }
  destruct (ro_spec S HS t o (Hin t o (list_elem_of_here _ _))) as (spec & n & -> & Hn & Hrange).
  destruct (visit_settled cc t spec n pods services cm w Hn Hrange
    (Hset t spec n (Hin t _ (list_elem_of_here _ _)) Hn)) as (Hr & Hl & Hv & He & [Hm Hs] & Hst).
  unfold mbind, M_bind. destruct (visit cc pods services cm (t, Some spec) w) as [w1 r].
  simpl in *. subst r. destruct (IH w1) as (Hr2 & Hl2 & Hv2 & He2 & [Hm2 Hs2] & Hst2).
  { intros t2 o2 H. apply Hin. by right. }
  split_and!; [done|congruence..|split; congruence|].
  rewrite Hst2, Hst. unfold counts. simpl. by rewrite Hn.
Qed.

(** A pass over settled types counts their pods and does nothing else. *)
Definition counted_types S (pods : list Pod) (st st' : ClusterStatus) : Prop :=
  ∃ m, st' = Status_set_ReplicaStatuses m st ∧
    each_type S (λ t spec n, m !! t = Some (count_of t n pods)) ∧
    ∀ t, S !! t = None → m !! t = st_ReplicaStatuses st !! t.

Lemma replicas_settled cc `{!ControllerSpec cc} pods services cm w :
  let S := sp_ClusterReplicaSpec (kc_Spec (w_kc w)) in
  replicas_ok S → cluster_settled S pods services →
  let o := reconcile_replicas cc pods services cm w in
  o.2 = Ok tt ∧ w_log o.1 = w_log w ∧ w_srv o.1 = w_srv w ∧ w_exp o.1 = w_exp w ∧ same_cluster (w_kc w) o.1 ∧
  counted_types S pods (kc_Status (w_kc w)) (kc_Status (w_kc o.1)).
Proof.
  intros S HS Hset. rewrite reconcile_replicas_visits. fold S.
  assert (∀ t o, (t, o) ∈ range (w_tick w) S → S !! t = Some o) as Hin by (intros; by eapply elem_of_range).
  destruct (visits_settled cc S pods services cm (range (w_tick w) S) (w_next_tick w) HS Hset Hin)
    as (Hr & Hl & Hv & He & Hkc & Hst).
  split_and!; [done..|]. eexists. split; [exact Hst|]. split.
  - intros t spec n Ht Hn. rewrite (counts_lookup pods S) by done. rewrite Ht. simpl. rewrite Hn.
    rewrite decide_True; [done|]. apply list_elem_of_fmap. exists (t, Some spec). by rewrite elem_of_range.
  - intros t Ht. rewrite (counts_lookup pods S) by done. rewrite Ht. by case_decide.
Qed.

(** Two passes over the replica types settle a cluster: when the pods of a cluster are in range and not to
    be restarted, at most one for each index of each type, and its services in range,
    a pass over the replica types that ends well has asked for exactly what is
    missing. Once that exists, with the labels it was asked for and no pod of it failed,
    every index of every type has one pod and a service, and the next pass ends well,
    requests nothing, expects nothing new and counts the pods of every type into the
    status. *)
Theorem replicas_converge cc `{!ControllerSpec cc} (pods pods' newp : list Pod)
    (services services' news : list Service) (cm cm' : ConfigMap) (w w1 w' : World) (l : list call) :
  let S := sp_ClusterReplicaSpec (kc_Spec (w_kc w)) in
  replicas_ok S → cluster_fits S pods services →
  reconcile_replicas cc pods services cm w = (w1, Ok tt) → w_log w1 = (w_log w ++ l)%list →
  Forall2 stored (created l) newp → Forall2 same_labels (services_created l) news →
  pods' ≡ₚ (pods ++ newp)%list → services' ≡ₚ (services ++ news)%list →
  sp_ClusterReplicaSpec (kc_Spec (w_kc w')) = S →
  each_type S (λ t spec n, ∀ i, (i < Z.to_nat n)%nat →
    length (of_index i (of_type pods' t)) = 1%nat ∧ of_index i (of_type services' t) ≠ []) ∧
  let o := reconcile_replicas cc pods' services' cm' w' in
  o.2 = Ok tt ∧ w_log o.1 = w_log w' ∧ w_exp o.1 = w_exp w' ∧
  counted_types S pods' (kc_Status (w_kc w')) (kc_Status (w_kc o.1)).
Proof.
  intros S HS Hfit Hrun Hlog Hp Hs Hpods Hservices HS'.
  destruct (replicas_fill cc pods services cm w w1 HS Hfit Hrun) as (l' & Hl' & Hfill).
  rewrite Hlog in Hl'. apply app_inv_head in Hl' as <-.
  pose proof (replicas_settle S _ _ l _ _ _ _ Hfit Hfill Hp Hs Hpods Hservices) as Hset. split.
  - intros t spec n Ht Hn i Hi. destruct (Hset t spec n Ht Hn) as [[_ H1] [_ H2]]. auto.
  - destruct (replicas_settled cc pods' services' cm' w') as (? & ? & _ & ? & _ & Hc);
      [by rewrite HS'..|]. rewrite HS' in Hc. by split_and!.
Qed.
End cluster.

(** ** A witness: one controller and two workers *)

Module SampleReplicas.
Import Sample MemServer SampleController.

Definition replicas : gmap string (option ReplicaSpec) :=
  {[ "Controller" := Some (replica (Some 1) RestartPolicyNever);
     "Worker" := Some (replica (Some 2) RestartPolicyOnFailure) ]}.

Lemma replicas_cases t o :
  replicas !! t = Some o →
  t = "Controller" ∧ o = Some (replica (Some 1) RestartPolicyNever) ∨
  t = "Worker" ∧ o = Some (replica (Some 2) RestartPolicyOnFailure).
Proof.
  unfold replicas. intros [[<- <-]|[_ [<- <-]%lookup_singleton_Some]]%lookup_insert_Some; auto.
Qed.

Lemma sample_replicas_ok : replicas_ok replicas.
Proof.
  split.
  - intros t o [[_ ->]|[_ ->]]%replicas_cases; by eexists _, _.
  - intros t t' [o Ho] [o' Ho'] Heq.
    destruct (replicas_cases t o Ho) as [[-> _]|[-> _]], (replicas_cases t' o' Ho') as [[-> _]|[-> _]];
      first [reflexivity|discriminate Heq].
Qed.

Definition sample_world : World :=
  w_set_kc (KubeCluster_set_Spec (ClusterSpec_set_ReplicaSpec replicas (kc_Spec cluster)) cluster) (world ∅).
Definition first_pass : World * res unit := reconcile_replicas controller [] [] configmap sample_world.
Definition first_pods : list Pod := created (w_log first_pass.1).
Definition first_services : list Service := services_created (w_log first_pass.1).

Lemma whole_pass_ok : first_pass = (first_pass.1, Ok tt).
Proof.
  assert (is_Ok first_pass.2 = true) as H by by_vm.
  destruct first_pass as [w [[]|e|]]; [done|discriminate H|discriminate H].
Qed.

Lemma stored_refl ps :
  forallb (λ p, negb (bool_decide (pst_Phase (pod_Status p) = PodFailed))) ps = true → Forall2 stored ps ps.
Proof.
  induction ps as [|p ps IH]; intros H; [constructor|].
  simpl in H. apply andb_true_iff in H as [Hp H]. constructor; [|by apply IH].
  split; [done|]. by apply negb_true_iff, bool_decide_eq_false in Hp.
Qed.

Lemma first_pods_stored : Forall2 stored first_pods first_pods.
Proof. apply stored_refl. by_vm. Qed.

Lemma nothing_fits S : cluster_fits S [] [].
Proof.
  intros t spec n _ _. split; [split|].
  - intros p i Hp. by apply elem_of_nil in Hp.
  - intros i. apply Nat.le_0_l.
  - intros s i Hs. by apply elem_of_nil in Hs.
Qed.

Lemma replicas_converge_witness :
  length first_pods = 3%nat ∧ length first_services = 3%nat ∧
  let o := reconcile_replicas controller first_pods first_services configmap sample_world in
  o.2 = Ok tt ∧ w_log o.1 = [].
Proof.
  split; [by_vm|]. split; [by_vm|].
  destruct (replicas_converge (KL := K8s_example_laws) (RTL := runtime_laws) controller
    (ControllerSpec0 := controller_spec) [] first_pods first_pods [] first_services first_services
    configmap configmap sample_world first_pass.1 sample_world (w_log first_pass.1)) as (_ & Hr & Hl & _).
  - exact sample_replicas_ok.
  - apply nothing_fits.
  - exact whole_pass_ok.
  - reflexivity.
  - exact first_pods_stored.
  - apply same_labels_refl.
  - reflexivity.
  - reflexivity.
  - reflexivity.
  - exact (conj Hr Hl).
Defined.
End SampleReplicas.
