(* ===== verification/Steady.v ===== *)
(** * A pass over a settled cluster

    When every replica type has its pods and services (Settled.v), the config map is
    filled and no limit is set, a whole reconciliation, from ReconcileKubeCluster down
    to the schemas, comes to four requests: it lists the pods and the services, reads
    the config map, and writes the status. Every step before the last one ends well:
    [runs] follows a function that cannot fail through what it calls. *)

From S2P Require Import Prelude K8s Api Names Status Expectations Core World Control.
From S2P Require Import Schema Controller Reconciler PodPlan ServicePlan Converge Settled.

(** ** Runs that end well *)

Section runs.
Context {K : K8s} {ES : ExpStore} {AS : ApiServer} {RT : GoRuntime}.

Definition runs {A} (m : M A) (w : World) (Q : A → World → Prop) : Prop :=
  ∃ w' a, m w = (w', Ok a) ∧ Q a w'.

Lemma runs_ret {A} (a : A) w (Q : A → World → Prop) : Q a w → runs (mret a) w Q.
Proof. intros H. by exists w, a. Qed.

Lemma runs_bind {A B} (m : M A) (f : A → M B) w R Q :
  runs m w R → (∀ a w1, R a w1 → runs (f a) w1 Q) → runs (m ≫= f) w Q.
Proof.
  intros (w1 & a & Hm & HR) Hf. destruct (Hf a w1 HR) as (w2 & b & Hb & HQ).
  exists w2, b. split; [|done]. by rewrite (bind_run _ _ _ _ _ Hm).
Qed.

(** The rest of a function that may fail later. *)
Lemma runs_then {A B} (m : M A) (f : A → M B) w R (P : World * res B → Prop) :
  runs m w R → (∀ a w1, R a w1 → P (f a w1)) → P ((m ≫= f) w).
Proof. intros (w1 & a & Hm & HR) Hf. rewrite (bind_run _ _ _ _ _ Hm). by apply Hf. Qed.

Lemma runs_conseq {A} (m : M A) w (R Q : A → World → Prop) :
  runs m w R → (∀ a w1, R a w1 → Q a w1) → runs m w Q.
Proof. intros (w1 & a & Hm & HR) HQ. exists w1, a. auto. Qed.

Lemma runs_get_kc {A} (f : KubeCluster → M A) w Q : runs (f (w_kc w)) w Q → runs (get_kc ≫= f) w Q.
Proof. done. Qed.
Lemma runs_now {A} (f : Time → M A) w Q : runs (f (clock (w_tick w))) (w_next_tick w) Q → runs (now ≫= f) w Q.
Proof. done. Qed.
Lemma runs_range {V A} (m : gmap string V) (f : list (string * V) → M A) w Q :
  runs (f (range (w_tick w) m)) (w_next_tick w) Q → runs (range_of m ≫= f) w Q.
Proof. done. Qed.

Lemma runs_try {A} (m : M A) w R : runs m w R → runs (try m) w (λ r w1, ∃ a, r = inr a ∧ R a w1).
Proof. intros (w1 & a & Hm & HR). exists w1, (inr a). unfold try. rewrite Hm. eauto. Qed.

Lemma runs_when b m w (Q : unit → World → Prop) :
  (b = true → runs m w Q) → (b = false → Q tt w) → runs (when b m) w Q.
Proof. destruct b; intros H1 H2; [by apply H1|by apply runs_ret, H2]. Qed.

(** Nothing was requested, and the KubeCluster is the same but for its status. *)
Definition still (w w' : World) : Prop :=
  w_log w' = w_log w ∧ w_srv w' = w_srv w ∧ same_cluster (w_kc w) w'.
(** The status is the same too. *)
Definition idle (w w' : World) : Prop :=
  w_log w' = w_log w ∧ w_srv w' = w_srv w ∧ w_kc w' = w_kc w.

#[export] Instance still_preorder : PreOrder still.
Proof.
  split; [intros w; by unfold still, same_cluster|]. intros w1 w2 w3 (? & ? & ? & ?) (? & ? & ? & ?).
  unfold still, same_cluster. split_and!; congruence.
Qed.
#[export] Instance idle_preorder : PreOrder idle.
Proof.
  split; [by intros w|]. intros w1 w2 w3 (? & ? & ?) (? & ? & ?). unfold idle. split_and!; congruence.
Qed.

Lemma idle_still w w' : idle w w' → still w w'.
Proof. intros (? & ? & Hk). unfold still, same_cluster. by rewrite Hk. Qed.

(** A sequence of such steps, of which only the relation matters. *)
Lemma runs_rel (R : World → World → Prop) `{!PreOrder R} {A B} (m : M A) (f : A → M B) w :
  runs m w (λ _, R w) → (∀ a w1, R w w1 → runs (f a) w1 (λ _, R w1)) → runs (m ≫= f) w (λ _, R w).
Proof.
  intros Hm Hf. eapply runs_bind; [exact Hm|]. intros a w1 H1.
  eapply runs_conseq; [by apply Hf|]. intros b w2 H2. simpl. by transitivity w1.
Qed.

Lemma runs_for_each (R : World → World → Prop) `{!PreOrder R} (I : World → Prop) {A} (xs : list A)
    (f : A → M unit) w :
  I w → (∀ x w1, x ∈ xs → I w1 → runs (f x) w1 (λ _ w2, R w1 w2 ∧ I w2)) →
  runs (for_each xs f) w (λ _ w1, R w w1 ∧ I w1).
Proof.
  revert w. induction xs as [|x xs IH]; intros w Hw Hf; simpl; [by apply runs_ret|].
  eapply runs_bind; [by apply Hf; [left|]|]. intros _ w1 [HR HI].
  eapply runs_conseq; [apply IH; [done|]|].
  - intros y w2 Hy. apply Hf. by right.
  - intros _ w2 [HR2 HI2]. simpl. split; [by transitivity w1|done].
Qed.

Lemma runs_update_condition t s r m w :
  runs (update_condition t s r m) w (λ _ w1, still w w1 ∧
    st_ReplicaStatuses (kc_Status (w_kc w1)) = st_ReplicaStatuses (kc_Status (w_kc w))).
Proof.
  eexists _, tt. split; [done|]. simpl. split; [by split_and!|].
  by destruct (UpdateClusterConditions_cases (clock (w_tick w)) (clock (S (w_tick w))) (kc_Status (w_kc w))
    t s r m) as [[_ ->]|[(_ & -> & _)|(_ & _ & ltt & _ & ->)]].
Qed.
End runs.

(** ** What stays the same *)

Section shape.
Context {K : K8s}.

(** Replica specs that differ in their templates only. *)
Definition same_shape (S S' : gmap string (option ReplicaSpec)) : Prop :=
  ∀ t, match S !! t, S' !! t with
       | Some (Some a), Some (Some b) => r_Replicas b = r_Replicas a ∧ r_RestartPolicy b = r_RestartPolicy a
       | o, o' => o' = o
       end.

Lemma same_shape_refl S : same_shape S S.
Proof. intros t. by destruct (S !! t) as [[a|]|]. Qed.

Lemma same_shape_sym S S' : same_shape S S' → same_shape S' S.
Proof.
  intros Hsh t. specialize (Hsh t).
  destruct (S !! t) as [[a|]|], (S' !! t) as [[b|]|]; try done. by destruct Hsh as [-> ->].
Qed.

Lemma same_shape_spec S S' t b :
  same_shape S S' → S' !! t = Some (Some b) →
  ∃ a, S !! t = Some (Some a) ∧ r_Replicas b = r_Replicas a ∧ r_RestartPolicy b = r_RestartPolicy a.
Proof.
  intros Hsh Hb. specialize (Hsh t). rewrite Hb in Hsh.
  destruct (S !! t) as [[a|]|]; [by exists a|congruence..].
Qed.

Lemma same_shape_dom S S' t : same_shape S S' → is_Some (S' !! t) ↔ is_Some (S !! t).
Proof.
  intros Hsh. specialize (Hsh t). destruct (S !! t) as [[a|]|], (S' !! t) as [[b|]|]; try done;
    by split; intros [? ?].
Qed.

Lemma replicas_ok_shape S S' : same_shape S S' → replicas_ok S → replicas_ok S'.
Proof.
  intros Hsh [Hspec Hd]. split.
  - intros t o Ho. destruct (same_shape_dom S S' t Hsh) as [[o0 Ho0] _]; [by rewrite Ho|].
    destruct (Hspec t o0 Ho0) as (a & n & -> & Hn & Hr). pose proof (Hsh t) as Ht. rewrite Ho0, Ho in Ht.
    destruct o as [b|]; [|congruence]. destruct Ht as [Ht _]. exists b, n. by rewrite Ht.
  - intros t t' H H'. apply (same_shape_dom S S' t Hsh) in H. apply (same_shape_dom S S' t' Hsh) in H'. by apply Hd.
Qed.

Lemma leaves_shape a b n i p : r_RestartPolicy b = r_RestartPolicy a → leaves b n i p = leaves a n i p.
Proof. intros Hr. unfold leaves, restart_needed. by rewrite Hr. Qed.

Lemma each_type_shape S S' (P : ReplicaType → Z → Prop) :
  same_shape S S' → each_type S (λ t _ n, P t n) → each_type S' (λ t _ n, P t n).
Proof.
  intros Hsh HP t b n Hb Hn. destruct (same_shape_spec S S' t b Hsh Hb) as (a & Ha & Hra & _).
  apply (HP t a); [done|congruence].
Qed.

Lemma cluster_settled_shape S S' pods services :
  same_shape S S' → cluster_settled S pods services → cluster_settled S' pods services.
Proof.
  intros Hsh Hset t b n Hb Hn. destruct (same_shape_spec S S' t b Hsh Hb) as (a & Ha & Hra & Hrp).
  destruct (Hset t a n Ha) as [[Hstay Hone] Hservices]; [congruence|]. split; [|done].
  split; [|done]. intros p i Hp Hi. rewrite (leaves_shape a b) by done. by apply Hstay.
Qed.
End shape.

(** ** The steps of a pass *)

Section steps.
Context {K : K8s} {KL : K8sLaws K} {ES : ExpStore} {AS : ApiServer} {RT : GoRuntime}
  {RTL : GoRuntimeLaws RT}.
Implicit Types (cc : ClusterController).

Lemma KeyFunc_run w : KeyFunc w = (w, Ok (cluster_key (kc_Meta (w_kc w)))).
Proof. unfold KeyFunc, mbind, M_bind, get_kc. by rewrite MetaNamespaceKeyFunc_spec. Qed.

Lemma runs_SetExpectations s key a d w : runs (sr_SetExpectations s key a d) w (λ _, idle w).
Proof using Type. clear. by eexists _, tt. Qed.

Lemma runs_ResetExpectations key S s w : runs (ResetExpectations key S s) w (λ _, idle w).
Proof using Type.
  clear RTL KL. unfold ResetExpectations. apply (runs_rel idle); [by eexists _, _|]. intros entries w1 _.
  generalize (None : option error). revert w1. induction entries.*1 as [|t ts IH]; intros w1 errs; simpl.
  { by apply runs_ret. }
  apply (runs_rel idle); [|intros errs' w2 _; apply IH]. unfold reset_type.
  eapply runs_bind; [apply runs_try, runs_SetExpectations|]. intros r1 w2 (u & -> & H1).
  eapply runs_bind; [apply runs_try, runs_SetExpectations|]. intros r2 w3 (u' & -> & H2).
  apply runs_ret. by transitivity w2.
Qed.

Lemma runs_resumed cc w : runs (reconcile_resumed cc) w (λ _, still w).
Proof using Type.
  clear RTL KL. unfold reconcile_resumed. apply runs_get_kc, runs_when; intros _; [|reflexivity].
  apply (runs_rel still).
  { eapply runs_conseq; [apply runs_update_condition|]. by intros ? ? []. }
  intros _ w1 _. apply runs_now. by eexists _, tt.
Qed.

Lemma GetTotalReplicas_ok (entries : list (string * option ReplicaSpec)) :
  (∀ t o, (t, o) ∈ entries → is_Some o) → ∃ n, GetTotalReplicas entries = Ok n.
Proof using Type.
  clear. unfold GetTotalReplicas. generalize 0. induction entries as [|[t o] entries IH]; intros z Hin; simpl.
  { by exists z. }
  destruct (Hin t o (list_elem_of_here _ _)) as [spec ->]. simpl.
  assert (∀ t o, (t, o) ∈ entries → is_Some o) as Hin' by (intros t2 o2 H; apply (Hin t2); by right).
  destruct (r_Replicas spec); simpl; by apply IH.
Qed.

(** Without a backoff limit and a deadline no limit is exceeded. *)
Lemma runs_exceeded_limit cc runPolicy key pods n w :
  rp_BackoffLimit runPolicy = None → rp_ActiveDeadlineSeconds runPolicy = None →
  runs (exceeded_limit cc runPolicy key pods n) w (λ r w1, r = None ∧ idle w w1).
Proof using Type.
  clear RTL KL. intros Hb Hd. unfold exceeded_limit. apply runs_get_kc, runs_range. rewrite Hb, Hd.
  unfold PastActiveDeadline. rewrite Hd. by eexists _, None.
Qed.

(** The four requests of a pass. *)
Lemma api_run {A} (q : ApiReq A) w s a :
  serve q (w_srv w) = (s, inr a) → api q w = (w_set_srv s (Call q) w, Ok a).
Proof using Type. clear. intros H. unfold api. by rewrite H. Qed.
End steps.

(** ** What a schema has to do on a settled cluster *)

Section schemas.
Context {K : K8s} {ES : ExpStore} {AS : ApiServer} {RT : GoRuntime}.

(** Only the status changes, and not the counts in it. *)
Definition marks (w w' : World) : Prop :=
  still w w' ∧ st_ReplicaStatuses (kc_Status (w_kc w')) = st_ReplicaStatuses (kc_Status (w_kc w)).

#[export] Instance marks_preorder : PreOrder marks.
Proof.
  split; [intros w; split; [reflexivity|done]|]. intros w1 w2 w3 [H1 E1] [H2 E2].
  split; [by transitivity w2|congruence].
Qed.

(** The status of a counted type can always be updated. *)
Class MarksStatus (s : ClusterSchemaReconciler) : Prop :=
  marks_status rt o w :
    is_Some (st_ReplicaStatuses (kc_Status (w_kc w)) !! rt) →
    runs (sr_UpdateClusterStatus s rt o) w (λ _, marks w).

(** The config map has what it needs; the templates may get their ports. *)
Definition config_settled (s : ClusterSchemaReconciler) (kc : KubeCluster) (cm : ConfigMap) : Prop :=
  ∀ w, kc_Meta (w_kc w) = kc_Meta kc → kc_Spec (w_kc w) = kc_Spec kc →
    runs (sr_ReconcileConfigMap s cm) w (λ cm' w1,
      cm_Data cm' = cm_Data cm ∧ w_log w1 = w_log w ∧ w_srv w1 = w_srv w ∧
      kc_Meta (w_kc w1) = kc_Meta kc ∧ sp_ClusterType (kc_Spec (w_kc w1)) = sp_ClusterType (kc_Spec kc) ∧
      same_shape (sp_ClusterReplicaSpec (kc_Spec kc)) (sp_ClusterReplicaSpec (kc_Spec (w_kc w1)))).

Lemma runs_UpdateClusterStatus {KL : K8sLaws K} {RTL : GoRuntimeLaws RT}
    (schemas : gmap string ClusterSchemaReconciler) s `{!MarksStatus s} w :
  schemas !! sp_ClusterType (kc_Spec (w_kc w)) = Some s →
  (∀ t, is_Some (sp_ClusterReplicaSpec (kc_Spec (w_kc w)) !! t) →
    is_Some (st_ReplicaStatuses (kc_Status (w_kc w)) !! t)) →
  runs (UpdateClusterStatus FakeWorkQueue schemas) w (λ _, marks w).
Proof.
  intros Hs Hall. unfold UpdateClusterStatus. apply runs_get_kc.
  apply (runs_rel marks); [eexists _, _; split; [apply KeyFunc_run|reflexivity]|]. intros key w0 H0.
  apply (runs_rel marks).
  { destruct (st_StartTime _); [by apply runs_ret|]. apply runs_now.
    destruct (rp_ActiveDeadlineSeconds _); by eexists _, tt. }
  intros _ w1 H1. apply runs_range.
  set (entries := range _ _). set (rs := st_ReplicaStatuses (kc_Status (w_kc w))).
  assert (marks w w1) as Hw1 by (by transitivity w0).
  assert (marks w1 (w_next_tick w1)) as Htick by done.
  eapply runs_conseq.
  - apply (runs_for_each marks (λ w2, st_ReplicaStatuses (kc_Status (w_kc w2)) = rs) entries _ (w_next_tick w1)).
    + apply Hw1.
    + intros [t o] w2 Hin Hw2. rewrite Hs. apply elem_of_range in Hin.
      eapply runs_conseq; [apply (marks_status t o w2)|].
      * rewrite Hw2. apply Hall. by eexists.
      * intros ? w3 H3. simpl. split; [exact H3|]. by rewrite (proj2 H3).
  - intros ? w2 [H2 _]. simpl. by transitivity (w_next_tick w1).
Qed.
End schemas.

(** ** The pass *)

Section pass.
Context {K : K8s} {KL : K8sLaws K} {ES : ExpStore} {AS : ApiServer} {RT : GoRuntime}
  {RTL : GoRuntimeLaws RT}.
Context (valid : gmap string string → bool) (lister : string → option Z)
  (schemas : gmap string ClusterSchemaReconciler) (s : ClusterSchemaReconciler).
Context `{!MarksStatus s} (schemas_spec : ∀ t s, schemas !! t = Some s → SchemaSpec s).

(** The controller of main without gang scheduling. *)
Let cc : ClusterController := cc_set_Schemas schemas (NewReconciler valid lister GenNonGangSchedulerSetupFunc).

#[local] Instance cc_spec : ControllerSpec cc.
Proof using schemas_spec RTL.
  apply NewReconciler_spec; [|done]. right. by left.
Qed.

(** The answers of the server to the reads of a pass. *)
Record reads (kc : KubeCluster) (s0 s3 : srv) (pods : list Pod) (services : list Service)
    (cm : ConfigMap) (calls : list call) : Prop := {
  rd_valid : valid (cluster_selector kc) = true;
  rd_answers : ∃ s1 s2 items svcs,
    let ns := om_Namespace (kc_Meta kc) in
    serve (ListPods ns (cluster_selector kc)) s0 = (s1, inr items) ∧
    serve (ListServices ns (cluster_selector kc)) s1 = (s2, inr svcs) ∧
    serve (GetConfigMap ns (om_Name (kc_Meta kc))) s2 = (s3, inr cm) ∧
    pods = KubeClusterControlledPodList items (kc_Meta kc) ∧ services = ConvertServiceList svcs;
  rd_owned : IsControlledBy (om_OwnerReferences (cm_Meta cm)) (om_UID (kc_Meta kc)) = true;
  rd_calls : calls =
    [Call (ListPods (om_Namespace (kc_Meta kc)) (cluster_selector kc));
     Call (ListServices (om_Namespace (kc_Meta kc)) (cluster_selector kc));
     Call (GetConfigMap (om_Namespace (kc_Meta kc)) (om_Name (kc_Meta kc)))]
}.

(** The end of a pass: the status is sent, with the pods of every type counted. *)
Definition writes_status (kc : KubeCluster) (pods : list Pod) (log : list call) (srv0 : srv)
    (o : World * res unit) : Prop :=
  ∃ k, w_log o.1 = (log ++ [Call (UpdateKubeClusterStatus k)])%list ∧
    om_Name (kc_Meta k) = om_Name (kc_Meta kc) ∧ om_Namespace (kc_Meta k) = om_Namespace (kc_Meta kc) ∧
    each_type (sp_ClusterReplicaSpec (kc_Spec kc)) (λ t _ n,
      st_ReplicaStatuses (kc_Status k) !! t = Some (count_of t n pods)) ∧
    o.2 = match (serve (UpdateKubeClusterStatus k) srv0).2 with inr _ => Ok tt | inl e => Err (EApi e) end.

(** The config map is read, and left. *)
Lemma runs_config kc cm w s3 :
  let q := GetConfigMap (om_Namespace (kc_Meta kc)) (om_Name (kc_Meta kc)) in
  schemas !! sp_ClusterType (kc_Spec kc) = Some s → same_cluster kc w →
  serve q (w_srv w) = (s3, inr cm) →
  IsControlledBy (om_OwnerReferences (cm_Meta cm)) (om_UID (kc_Meta kc)) = true →
  config_settled s kc cm →
  runs (ReconcileConfigMap cc) w (λ _ w1,
    w_log w1 = (w_log w ++ [Call q])%list ∧ w_srv w1 = s3 ∧ kc_Meta (w_kc w1) = kc_Meta kc ∧
    sp_ClusterType (kc_Spec (w_kc w1)) = sp_ClusterType (kc_Spec kc) ∧
    same_shape (sp_ClusterReplicaSpec (kc_Spec kc)) (sp_ClusterReplicaSpec (kc_Spec (w_kc w1)))).
Proof using Type.
  clear. intros q Hs [Hm Hsp] Hserve Howned Hconf. unfold ReconcileConfigMap. simpl.
  unfold GetConfigMapForCluster.
  destruct (Hconf (w_set_srv s3 (Call q) w) Hm Hsp) as (w1 & cm' & Hrun & Hdata & Hl & Hsrv & Hmeta & Hty & Hsh).
  eapply runs_bind with (R := λ found w2, found = Some cm ∧ w2 = w_set_srv s3 (Call q) w).
  { apply runs_get_kc. rewrite Hm. unfold runs, mbind, M_bind, try. fold q.
    rewrite (api_run q w s3 cm Hserve). rewrite Howned. by eexists _, _. }
  intros found w2 [-> ->]. apply runs_get_kc.
  change (w_kc (w_set_srv s3 (Call q) w)) with (w_kc w). rewrite Hsp. unfold GetSchemaReconciler. simpl.
  rewrite Hs. exists w1, cm'. split; [|by split_and!].
  erewrite (bind_run (mret cm)) by done. erewrite (bind_run (lift (deref (Some s)))) by done.
  rewrite (bind_run _ _ _ _ _ Hrun). by rewrite decide_True.
Qed.

(** From the config map on. *)
Lemma general_settled kc pods services cm oldStatus w s3 :
  let S := sp_ClusterReplicaSpec (kc_Spec kc) in
  let q := GetConfigMap (om_Namespace (kc_Meta kc)) (om_Name (kc_Meta kc)) in
  schemas !! sp_ClusterType (kc_Spec kc) = Some s → same_cluster kc w →
  serve q (w_srv w) = (s3, inr cm) →
  IsControlledBy (om_OwnerReferences (cm_Meta cm)) (om_UID (kc_Meta kc)) = true →
  config_settled s kc cm → replicas_ok S → cluster_settled S pods services →
  writes_status kc pods (w_log w ++ [Call q])%list s3 (reconcile_general cc s oldStatus pods services w).
Proof using MarksStatus0 schemas_spec KL RTL.
  intros S q Hs Hkc Hserve Howned Hconf HS Hset. unfold reconcile_general.
  apply (runs_then _ _ _ _ _ (runs_config kc cm w s3 Hs Hkc Hserve Howned Hconf)).
  intros cm' w1 (Hl1 & Hs1 & Hm1 & Ht1 & Hsh).
  destruct (replicas_settled cc pods services cm' w1) as (Hr2 & Hl2 & Hv2 & _ & [Hm2 Hsp2] & Hc2);
    [by eapply replicas_ok_shape|by eapply cluster_settled_shape|].
  unfold mbind at 1, M_bind at 1.
  destruct (reconcile_replicas cc pods services cm' w1) as [w2 r2]. simpl in Hr2, Hl2, Hv2, Hm2, Hsp2, Hc2.
  subst r2. set (S1 := sp_ClusterReplicaSpec (kc_Spec (w_kc w1))) in *.
  pose proof (replicas_ok_shape S S1 Hsh HS) as HS1. destruct Hc2 as (m & Hm & Hcount & _).
  change (ci_UpdateClusterStatus (cc_Controller cc) (cc_SchemaReconcilerManager cc))
    with (UpdateClusterStatus FakeWorkQueue schemas).
  eapply runs_then; [apply (runs_UpdateClusterStatus schemas s w2)|].
  { rewrite Hsp2, Ht1. exact Hs. }
  { intros t [o Ho]. rewrite Hsp2 in Ho. destruct (ro_spec S1 HS1 t o Ho) as (b & n & -> & Hn & _).
    rewrite Hm. simpl. rewrite (Hcount t b n Ho Hn). by eexists. }
  intros u w3 [(Hl3 & Hv3 & Hm3 & Hsp3) Hrs3]. clear u.
  exists (KubeCluster_set_Meta (ClearGeneratedFields (kc_Meta (w_kc w3))) (w_kc w3)).
  unfold mbind, M_bind, get_kc. simpl.
  unfold UpdateClusterStatusInApiServer, clear_kc, api, mbind, M_bind, get_kc, set_kc. simpl.
  rewrite Hv3, Hv2, Hs1. destruct (serve _ s3) as [s4 [e|k']]; simpl.
  all: rewrite Hl3, Hl2, Hl1, Hm3, Hm2, Hm1; split_and!; try done.
  all: intros t a n Ha Hn; rewrite Hrs3, Hm; simpl.
  all: destruct (same_shape_spec S1 S t a (same_shape_sym _ _ Hsh) Ha) as (b & Hb & Hrb & _).
  all: apply (Hcount t b); [done|congruence].
Qed.

(** A cluster that is to be reconciled, without limits. *)
Record unlimited (kc : KubeCluster) : Prop := {
  ul_open : IsFinished (kc_Status kc) = false;
  ul_going : IsClusterSuspended (Some (sp_RunPolicy (kc_Spec kc))) = false;
  ul_backoff : rp_BackoffLimit (sp_RunPolicy (kc_Spec kc)) = None;
  ul_deadline : rp_ActiveDeadlineSeconds (sp_RunPolicy (kc_Spec kc)) = None
}.

(** The answers to the two lists. *)
Definition lists (kc : KubeCluster) (s0 s2 : srv) (pods : list Pod) (services : list Service) : Prop :=
  valid (cluster_selector kc) = true ∧ ∃ s1 items svcs,
    serve (ListPods (om_Namespace (kc_Meta kc)) (cluster_selector kc)) s0 = (s1, inr items) ∧
    serve (ListServices (om_Namespace (kc_Meta kc)) (cluster_selector kc)) s1 = (s2, inr svcs) ∧
    pods = KubeClusterControlledPodList items (kc_Meta kc) ∧ services = ConvertServiceList svcs.
Definition list_calls (kc : KubeCluster) : list call :=
  [Call (ListPods (om_Namespace (kc_Meta kc)) (cluster_selector kc));
   Call (ListServices (om_Namespace (kc_Meta kc)) (cluster_selector kc))].

(** From the checks of the limits on, the pass comes to its general case. *)
Lemma active_reaches (P : World * res unit → Prop) kc pods services key oldStatus w :
  unlimited kc → replicas_ok (sp_ClusterReplicaSpec (kc_Spec kc)) → same_cluster kc w →
  (∀ w1, w_log w1 = w_log w → w_srv w1 = w_srv w → same_cluster kc w1 →
    P (reconcile_general cc s oldStatus pods services w1)) →
  P (reconcile_active cc s (sp_RunPolicy (kc_Spec kc)) key oldStatus pods services w).
Proof using RTL.
  clear KL MarksStatus0 schemas_spec.
  intros [_ _ Hback Hdead] HS [Hm Hsp] HP. unfold reconcile_active.
  eapply runs_then; [apply runs_resumed|]. intros ? w1 (Hl1 & Hv1 & Hm1 & Hsp1).
  erewrite (bind_run (record_events _)) by done. erewrite (bind_run get_kc) by done.
  erewrite (bind_run (range_of _)) by done. simpl.
  destruct (GetTotalReplicas_ok (range (w_tick w1) (sp_ClusterReplicaSpec (kc_Spec (w_kc w1))))) as [n Hn].
  { intros t o Hin%elem_of_range. rewrite Hsp1, Hsp in Hin.
    destruct (ro_spec _ HS t o Hin) as (spec & k & -> & _). by eexists. }
  rewrite Hn. erewrite (bind_run (lift (Ok n))) by done.
  eapply runs_then; [by apply runs_exceeded_limit|]. intros r w2 [-> (Hl2 & Hv2 & Hk2)].
  change (EnableGangScheduling cc) with false. cbv iota beta.
  erewrite (bind_run (mret true)) by done. cbv iota beta.
  apply HP; [rewrite Hl2; simpl; congruence|rewrite Hv2; simpl; congruence|].
  split; rewrite Hk2; simpl; congruence.
Qed.

Lemma list_run {A B} (q : ApiReq A) (f : A → M B) w s1 a :
  serve q (w_srv w) = (s1, inr a) → (api q ≫= f) w = f a (w_set_srv s1 (Call q) w).
Proof using Type. clear. intros H. by rewrite (bind_run _ _ _ _ _ (api_run q w s1 a H)). Qed.

(** A pass over a cluster without limits lists its objects and comes to its general
    case. *)
Lemma pass_reaches (P : World * res unit → Prop) w pods services s2 :
  let kc := w_kc w in
  unlimited kc → lists kc (w_srv w) s2 pods services → replicas_ok (sp_ClusterReplicaSpec (kc_Spec kc)) →
  (∀ w1, w_log w1 = (w_log w ++ list_calls kc)%list → w_srv w1 = s2 → same_cluster kc w1 →
    P (reconcile_general cc s (kc_Status kc) pods services w1)) →
  P (ReconcileKubeCluster cc s w).
Proof using KL RTL.
  clear MarksStatus0 schemas_spec.
  intros kc Hul [Hvalid (s1 & items & svcs & H1 & H2 & -> & ->)] HS HP.
  pose proof (ul_open _ Hul) as Hopen. pose proof (ul_going _ Hul) as Hgoing.
  unfold ReconcileKubeCluster. erewrite (bind_run get_kc) by done. rewrite (bind_run _ _ _ _ _ (KeyFunc_run w)).
  eapply runs_then; [apply runs_ResetExpectations|]. intros errs w1 (Hl1 & Hv1 & Hk1). clear errs.
  set (ns := om_Namespace (kc_Meta kc)) in *. set (sel := cluster_selector kc) in *.
  erewrite (bind_run (ci_GetPodsForCluster (cc_Controller cc))).
  2: { simpl. unfold GetPodsForCluster. erewrite (bind_run get_kc) by done. rewrite Hk1. fold kc ns sel.
       rewrite Hvalid. simpl. by rewrite (list_run _ _ _ s1 items) by by rewrite Hv1. }
  erewrite (bind_run (ci_GetServicesForCluster (cc_Controller cc))).
  2: { simpl. unfold GetServicesForCluster. erewrite (bind_run get_kc) by done. simpl. rewrite Hk1. fold kc ns sel.
       rewrite Hvalid. simpl. by rewrite (list_run _ _ _ s2 svcs). }
  erewrite (bind_run get_kc) by done. cbn [w_kc w_set_srv]. rewrite Hk1. fold kc. rewrite Hopen. cbv zeta. rewrite Hgoing.
  apply active_reaches; [done..|split; simpl; by rewrite Hk1|].
  intros w2 Hl2 Hv2 Hkc2. apply HP; [|by rewrite Hv2|done].
  rewrite Hl2. simpl. by rewrite Hl1, <-app_assoc.
Qed.

(** A whole pass: three reads, and the update of the status. *)
Lemma pass_settled (w : World) (pods : list Pod) (services : list Service) (cm : ConfigMap)
    (calls : list call) (s3 : srv) :
  let kc := w_kc w in
  let S := sp_ClusterReplicaSpec (kc_Spec kc) in
  schemas !! sp_ClusterType (kc_Spec kc) = Some s → unlimited kc →
  reads kc (w_srv w) s3 pods services cm calls →
  config_settled s kc cm → replicas_ok S → cluster_settled S pods services →
  writes_status kc pods (w_log w ++ calls) s3 (ReconcileKubeCluster cc s w).
Proof using MarksStatus0 schemas_spec KL RTL.
  intros kc S Hs Hul [Hvalid (s1 & s2 & items & svcs & H1 & H2 & H3 & Hp & Hv) Howned ->] Hconf HS Hset.
  apply (pass_reaches _ w pods services s2); [done|split; [done|by exists s1, items, svcs]|done|].
  intros w1 Hl1 Hv1 Hkc1.
  replace (w_log w ++ _)%list
    with (w_log w1 ++ [Call (GetConfigMap (om_Namespace (kc_Meta kc)) (om_Name (kc_Meta kc)))])%list
    by (rewrite Hl1, <-app_assoc; done).
  apply (general_settled kc _ _ cm); try done. by rewrite Hv1.
Qed.
End pass.
