(* ===== verification/SteadySchemas.v ===== *)
(** * Settled clusters of the two schemas

    What the slurm and the PBS Pro schema do when the cluster is settled: they look
    through the config map and leave it, and update the status of a type that has been
    counted without failing. With Steady.v this gives the requests of a whole pass of
    the controller that main sets up. *)

From S2P Require Import Prelude K8s Api Names Status Expectations Core World Control.
From S2P Require Import Schema Controller Reconciler PodPlan ServicePlan Converge Settled Steady SchemaLib.
From S2P Require Import Slurm SlurmSpec Pbspro PbsproSpec Main.

(** ** The schemas of the repository *)

Section repository_schemas.
Context {K : K8s} {QF : QuantityFormat} {ES : ExpStore} {AS : ApiServer} {RT : GoRuntime}
  {RTL : GoRuntimeLaws RT} {GR : GoRand}.

Lemma runs_mark_running w : runs mark_running w (λ _, marks w).
Proof using Type. clear. apply runs_get_kc, runs_update_condition. Qed.

Lemma runs_mark_restarting c w : runs (mark_restarting c) w (λ _, marks w).
Proof using Type.
  clear RTL QF GR. apply runs_get_kc, (runs_rel marks); [apply runs_update_condition|].
  intros _ w1 _. by eexists _, tt.
Qed.

Lemma runs_mark_failed msg w : runs (mark_failed msg) w (λ _, marks w).
Proof using Type.
  clear RTL QF GR. apply runs_get_kc, (runs_rel marks); [by eexists _, tt|]. intros _ w1 _.
  apply (runs_rel marks).
  { unfold set_completion. apply runs_get_kc. destruct (st_CompletionTime _); by eexists _, tt. }
  intros _ w2 _. apply (runs_rel marks); [apply runs_update_condition|]. intros _ w3 _. by eexists _, tt.
Qed.

#[local] Hint Resolve runs_mark_running runs_mark_restarting runs_mark_failed : core.

(** The counted type is looked up, the conditions are updated by what is counted. *)
Ltac marks_status :=
  intros rt o w [st Hst]; apply runs_get_kc; rewrite Hst;
  apply (runs_rel marks); [by eexists _, st|]; intros st' w1 _;
  apply (runs_rel marks); [by apply runs_when; intros _|]; intros _ w2 _;
  case_decide; [|by apply runs_ret]; apply runs_get_kc;
  destruct (restarting_condition _); [done|]; case_decide; [by apply runs_ret|done].

#[export] Instance slurm_marks valid ic fuel : MarksStatus (NewSlurmClusterReconciler valid ic fuel).
Proof using Type. clear RTL. marks_status. Qed.
#[export] Instance pbs_marks ic : MarksStatus (NewpbsproClusterReconciler ic).
Proof using Type. clear RTL. marks_status. Qed.

(** The config map of each schema, when it is filled. A slurm cluster has had its ports
    set by the defaults. *)
Definition slurm_config_filled (kc : KubeCluster) (cm : ConfigMap) : Prop :=
  (∃ conf p q, cm_Data cm !! slurmConfKey = Some conf ∧ getSlurmPortsFromConf conf = Ok (p, q)) ∧
  is_Some (cm_Data cm !! configMapReadyKey) ∧
  all_have_ports (sp_ClusterReplicaSpec (kc_Spec kc)).
Definition pbs_config_filled (cm : ConfigMap) : Prop :=
  Forall (λ k, is_Some (cm_Data cm !! k)) pbs_keys.

Lemma pbs_settled ic kc cm : pbs_config_filled cm → config_settled (NewpbsproClusterReconciler ic) kc cm.
Proof using Type.
  clear RTL. intros Hcm w Hm Hs. exists w, cm. split; [by apply filled_again|].
  rewrite Hm, Hs. by split_and!; [..|apply same_shape_refl].
Qed.

(** Ports that are there are not set again. *)
Lemma put_same_template t spec k :
  sp_ClusterReplicaSpec (kc_Spec k) !! t = Some (Some spec) →
  put_template t spec (pt_Spec (r_Template spec)) k = k.
Proof using Type.
  clear. intros Ht. unfold put_template.
  assert (ReplicaSpec_set_Template {| pt_Meta := pt_Meta (r_Template spec); pt_Spec := pt_Spec (r_Template spec) |}
    spec = spec) as -> by by destruct spec as [? [] ?].
  rewrite insert_id by done. by destruct k as [? [] ?].
Qed.

Lemma ports_again p q entries w :
  (∀ t o, (t, o) ∈ entries → specs w !! t = Some o ∧ ∃ s, o = Some s ∧ SlurmSpec.has_ports (pt_Spec (r_Template s))) →
  map_templates (λ ps, setSlurmDefaultPorts ps Slurm.GetDefaultContainerName p q) entries w = (w, Ok tt).
Proof using Type.
  clear RTL. unfold map_templates. induction entries as [|[t o] entries IH]; intros Hin; [done|]. cbn [for_each].
  destruct (Hin t o (list_elem_of_here _ _)) as (Ht & spec & -> & Hp).
  erewrite bind_run; [apply IH; intros t2 o2 H; apply Hin; by right|].
  erewrite (bind_run (lift (deref _))) by done.
  rewrite (bind_run _ _ w w (pt_Spec (r_Template spec))) by (unfold lift; by rewrite setSlurmDefaultPorts_noop).
  erewrite (bind_run get_kc) by done. unfold set_kc. rewrite (put_same_template t spec) by done.
  by destruct w.
Qed.

Lemma slurm_settled valid ic fuel kc cm :
  slurm_config_filled kc cm → config_settled (NewSlurmClusterReconciler valid ic fuel) kc cm.
Proof.
  intros ((conf & p & q & Hconf & Hports) & Hready & Hall) w Hm Hs.
  assert (Slurm.ReconcileConfigMap fuel cm w = (w_next_tick w, Ok cm)) as Hrun.
  { unfold Slurm.ReconcileConfigMap. rewrite Hconf. rewrite Hports.
    rewrite (bind_run _ _ w (w_next_tick w) tt).
    - unfold needReconcileConfigMap. by rewrite (bool_decide_true (is_Some (cm_Data cm !! configMapReadyKey))).
    - erewrite (bind_run (lift (Ok (p, q)))) by done. unfold setSlurmPorts.
      erewrite (bind_run get_kc) by done. erewrite (bind_run (range_of _)) by done.
      apply ports_again. intros t o Hin%elem_of_range. split; [done|]. rewrite Hs in Hin. by apply (Hall t). }
  exists (w_next_tick w), cm. split; [exact Hrun|]. simpl. rewrite Hm, Hs. by split_and!; [..|apply same_shape_refl].
Qed.
End repository_schemas.


(** ** A pass of the controller of main *)

Section main_pass.
Context {K : K8s} {KL : K8sLaws K} {QF : QuantityFormat} {ES : ExpStore} {AS : ApiServer}
  {RT : GoRuntime} {RTL : GoRuntimeLaws RT} {GR : GoRand}.

(** The config map has what its schema looks for. *)
Definition config_filled (kc : KubeCluster) (cm : ConfigMap) : Prop :=
  if decide (sp_ClusterType (kc_Spec kc) = Slurm.ClusterSchemaKind) then slurm_config_filled kc cm
  else pbs_config_filled cm.

(** The schema of a set-up controller is one of the repository's. *)
Lemma main_schema valid lister slurm_init pbs_init fuel kinds es cc t s :
  setupController valid lister slurm_init pbs_init fuel kinds es "" = Ok cc →
  GetSchemaReconciler cc t = Some s →
  ∃ m, cc = cc_set_Schemas m (NewReconciler valid lister GenNonGangSchedulerSetupFunc) ∧ m !! t = Some s ∧
    ∀ t s, m !! t = Some s → SupportedClusterSchemaReconciler valid slurm_init pbs_init fuel !! t = Some s.
Proof.
  intros (m & -> & Hm)%setup_shape Hs. exists m. by split_and!.
Qed.

Lemma filled_config valid slurm_init pbs_init fuel kc cm s :
  SupportedClusterSchemaReconciler valid slurm_init pbs_init fuel !! sp_ClusterType (kc_Spec kc) = Some s →
  config_filled kc cm → MarksStatus s ∧ config_settled s kc cm.
Proof.
  unfold SupportedClusterSchemaReconciler, config_filled.
  intros [[Ht Heq]|[Hne [_ Heq]%lookup_singleton_Some]]%lookup_insert_Some Hcm; subst s.
  - rewrite decide_True in Hcm by done. split; [apply _|by apply slurm_settled].
  - rewrite decide_False in Hcm by done. split; [apply _|by apply pbs_settled].
Qed.

(** C3 (a pass over a settled cluster). Let the controller of main be set up without a
    gang scheduler (with one, the pod group is updated on every pass), and take a
    cluster of an enabled schema
    - that is neither finished nor suspended, with neither a backoff limit nor an active
      deadline, and whose labels are valid;
    - whose types each have a spec and at least one replica, and fewer than 2^31 (with
      none, a pod is created and removed in turn), and names that differ in lower case;
    - each index of whose types has exactly one pod, in range and not to be restarted,
      and at least one service, with all services in range;
    - whose config map is owned by the cluster and filled (for slurm: with a conf that
      gives two ports, the ready key, and the ports in every template; for PBS Pro: with
      its five keys);
    and let the server answer the two lists and the read of the config map. Then a
    reconciliation comes to four requests, whatever was expected before: it lists the
    pods, lists the services, gets the config map, and updates the status, into which the
    pods of every type have been counted. Nothing is created, patched or deleted, and the
    reconciliation ends well exactly when the server takes the status. *)
Theorem settled_pass (valid : gmap string string → bool) (lister : string → option Z)
    (slurm_init pbs_init : string → res (list Container)) (fuel : nat) (kinds es : list string)
    (cc : ClusterController) (s : ClusterSchemaReconciler) (w : World) (pods : list Pod)
    (services : list Service) (cm : ConfigMap) (calls : list call) (s3 : srv) :
  let kc := w_kc w in
  let S := sp_ClusterReplicaSpec (kc_Spec kc) in
  setupController valid lister slurm_init pbs_init fuel kinds es "" = Ok cc →
  GetSchemaReconciler cc (sp_ClusterType (kc_Spec kc)) = Some s → unlimited kc →
  reads valid kc (w_srv w) s3 pods services cm calls →
  config_filled kc cm → replicas_ok S → cluster_settled S pods services →
  writes_status kc pods (w_log w ++ calls) s3 (ReconcileKubeCluster cc s w).
Proof.
  intros kc S Hcc Hsome Hul Hrd Hcm HS Hset. destruct (main_schema _ _ _ _ _ _ _ _ _ _ Hcc Hsome) as (m & -> & Hs & Hsup).
  destruct (filled_config _ _ _ _ kc cm s (Hsup _ _ Hs) Hcm) as [HM Hconf].
  eapply (pass_settled valid lister m s); try done.
  intros t s' Ht%Hsup. by eapply supported_spec.
Qed.
End main_pass.

(** ** A witness: a PBS Pro cluster of three pods *)

Module SampleSteady.
Import Sample SampleRand SampleSlurm SampleReplicas.
#[local] Existing Instances MemServer.runtime gmap_ExpStore.

Definition replicas : gmap string (option ReplicaSpec) :=
  {[ "Server" := Some (replica (Some 1) RestartPolicyNever);
     "Worker" := Some (replica (Some 2) RestartPolicyOnFailure) ]}.
Definition kc : KubeCluster := {|
  kc_Meta := meta;
  kc_Spec := {| sp_ClusterType := "pbspro"; sp_ClusterReplicaSpec := replicas; sp_MainContainer := EmptyString;
    sp_RunPolicy := runPolicy |};
  kc_Status := status |}.

Definition owner : OwnerReference := {|
  or_APIVersion := KubeCluster_GroupVersion; or_Kind := KubeClusterKind; or_Name := "c1"; or_UID := "uid-1";
  or_BlockOwnerDeletion := Some true; or_Controller := Some true |}.
Definition owned (m : ObjectMeta) : ObjectMeta := om_set_OwnerReferences [owner] m.
Definition pod (name rt : string) (index : Z) : Pod :=
  let p := sample_pod name rt index 0 in
  {| pod_Meta := owned (pod_Meta p); pod_Spec := pod_Spec p; pod_Status := pod_Status p |}.
Definition service (rt : ReplicaType) (index : string) : Service := {|
  svc_Meta := owned (om_set_Labels (service_labels kc rt index) ObjectMeta_zero);
  svc_ClusterIP := "None"; svc_Selector := service_labels kc rt index; svc_Ports := [] |}.

Definition pods : list Pod := [pod "c1-server-0" "server" 0; pod "c1-worker-1" "worker" 1; pod "c1-worker-0" "worker" 0].
Definition services : list Service := [service "Server" "0"; service "Worker" "0"; service "Worker" "1"].
Definition cm : ConfigMap := {|
  cm_Meta := owned meta; cm_Data := list_to_map ((λ k, (k, "text")) <$> pbs_keys); cm_BinaryData := ∅ |}.

(** A server that gives these answers and takes every status. *)
#[export] Instance server : ApiServer := {|
  srv := unit;
  serve A q _ := (tt,
    match q in ApiReq T return ApiError + T with
    | ListPods _ _ => inr pods
    | ListServices _ _ => inr services
    | GetConfigMap _ _ => inr cm
    | UpdateKubeClusterStatus k => inr k
    | _ => inl MemServer.not_found
    end) |}.

Definition start : World := {|
  w_srv := tt; w_log := []; w_events := []; w_metrics := ∅; w_exp := ∅; w_kc := kc; w_tick := 0 |}.
Lemma pbs_replicas_cases t o :
  replicas !! t = Some o →
  t = "Server" ∧ o = Some (replica (Some 1) RestartPolicyNever) ∨
  t = "Worker" ∧ o = Some (replica (Some 2) RestartPolicyOnFailure).
Proof.
  unfold replicas. intros [[<- <-]|[_ [<- <-]%lookup_singleton_Some]]%lookup_insert_Some; auto.
Qed.

Lemma pbs_replicas_ok : replicas_ok replicas.
Proof.
  split.
  - intros t o [[_ ->]|[_ ->]]%pbs_replicas_cases; by eexists _, _.
  - intros t t' [o Ho] [o' Ho'] Heq.
    destruct (pbs_replicas_cases t o Ho) as [[-> _]|[-> _]], (pbs_replicas_cases t' o' Ho') as [[-> _]|[-> _]];
      first [reflexivity|discriminate Heq].
Qed.

(** What is left of the lists for each type. *)
Lemma listed :
  KubeClusterControlledPodList pods meta = pods ∧ ConvertServiceList services = services ∧
  of_type pods "Server" = [pod "c1-server-0" "server" 0] ∧
  of_type pods "Worker" = [pod "c1-worker-1" "worker" 1; pod "c1-worker-0" "worker" 0] ∧
  of_type services "Server" = [service "Server" "0"] ∧
  of_type services "Worker" = [service "Worker" "0"; service "Worker" "1"].
Proof. split_and!; by_vm. Qed.

(** Deciding that a type is settled. *)
Definition pod_stays (spec : ReplicaSpec) (n : Z) (p : Pod) : bool :=
  match label_index p with
  | Some i => (0 <=? i) && (i <? n) && negb (leaves spec n i p)
  | None => true
  end.
Definition service_fits (n : Z) (s : Service) : bool :=
  match label_index s with Some i => (0 <=? i) && (i <? n) | None => true end.
Definition settled (spec : ReplicaSpec) (n : Z) (ps : list Pod) (ss : list Service) : bool :=
  forallb (pod_stays spec n) ps && forallb (λ i, Nat.eqb (length (of_index i ps)) 1) (seq 0 (Z.to_nat n)) &&
  forallb (service_fits n) ss && forallb (λ i, negb (Nat.eqb (length (of_index i ss)) 0)) (seq 0 (Z.to_nat n)).

Lemma settled_ok t spec n ps ss : settled spec n (of_type ps t) (of_type ss t) = true → type_settled t spec n ps ss.
Proof.
  unfold settled. rewrite !andb_true_iff, !forallb_forall. intros [[[Hp Hpi] Hs] Hsi]. split; split.
  - intros p i Hin%list_elem_of_In Hi. specialize (Hp p Hin). unfold pod_stays in Hp. rewrite Hi in Hp.
    apply andb_true_iff in Hp as [Hr%andb_true_iff Hl%negb_true_iff]. split; [lia|done].
  - intros i Hi. apply Nat.eqb_eq, Hpi, in_seq. lia.
  - intros s i Hin%list_elem_of_In Hi. specialize (Hs s Hin). unfold service_fits in Hs. rewrite Hi in Hs.
    apply andb_true_iff in Hs as Hr. lia.
  - intros i Hi Hnil. assert (In i (seq 0 (Z.to_nat n))) as Hin by (apply in_seq; lia).
    specialize (Hsi i Hin). by rewrite Hnil in Hsi.
Qed.

Lemma sample_settled : cluster_settled replicas pods services.
Proof.
  intros t spec n [[-> [= ->]]|[-> [= ->]]]%pbs_replicas_cases [= <-]; apply settled_ok; by_vm.
Qed.

Lemma sample_reads :
  reads (λ _, true) kc tt tt pods services cm
    [Call (ListPods "default" (cluster_selector kc)); Call (ListServices "default" (cluster_selector kc));
     Call (GetConfigMap "default" "c1")].
Proof.
  split; [done| |by_vm|done]. exists tt, tt, pods, services. destruct listed as (Hp & Hs & _).
  split_and!; [done..|by symmetry|by symmetry].
Qed.

Lemma sample_filled : config_filled kc cm.
Proof.
  unfold config_filled. rewrite decide_False by done. unfold pbs_config_filled, pbs_keys.
  repeat (apply Forall_cons; split; [exists "text"; by_vm|]). by apply Forall_nil.
Qed.

Definition setup : res ClusterController :=
  setupController (λ _, true) (λ _, None) (λ _, Ok []) (λ _, Ok []) 10 ["slurm"; "pbspro"] ["pbspro"] EmptyString.

Lemma setup_ok : ∃ cc s, setup = Ok cc ∧ GetSchemaReconciler cc "pbspro" = Some s.
Proof.
  destruct (setup_contract (RTL := MemServer.runtime_laws) (λ _, true) (λ _, None) (λ _, Ok []) (λ _, Ok []) 10
    ["slurm"; "pbspro"] ["pbspro"] ["pbspro"] EmptyString) as [Hok Hcc]; [reflexivity..|].
  fold setup in Hok, Hcc. destruct setup as [cc|e|].
  - destruct (Hcc cc eq_refl) as [_ Ht]. destruct (proj2 (Ht "pbspro")) as [s Hs]; [left|]. by exists cc, s.
  - discriminate (proj2 Hok (NoDup_singleton _)).
  - discriminate (proj2 Hok (NoDup_singleton _)).
Qed.

Lemma settled_pass_witness :
  ∃ cc s, setup = Ok cc ∧ GetSchemaReconciler cc "pbspro" = Some s ∧
    length (w_log (ReconcileKubeCluster cc s start).1) = 4%nat ∧
    (ReconcileKubeCluster cc s start).2 = Ok tt.
Proof.
  destruct setup_ok as (cc & s & Hcc & Hs). exists cc, s. split; [exact Hcc|]. split; [exact Hs|].
  destruct (settled_pass (KL := K8s_example_laws) (RTL := MemServer.runtime_laws) (λ _, true) (λ _, None)
    (λ _, Ok []) (λ _, Ok []) 10 ["slurm"; "pbspro"] ["pbspro"] cc s start pods services cm
    [Call (ListPods "default" (cluster_selector kc)); Call (ListServices "default" (cluster_selector kc));
     Call (GetConfigMap "default" "c1")] tt Hcc Hs) as (k & Hl & _ & _ & _ & Hr).
  - by split.
  - exact sample_reads.
  - exact sample_filled.
  - exact pbs_replicas_ok.
  - exact sample_settled.
  - split; [by rewrite Hl|exact Hr].
Defined.
End SampleSteady.
