(* ===== verification/Passes.v ===== *)
(** * Two passes over a cluster

    A pass of ReconcileKubeCluster that ends well has come through the config map, the
    loop over the replica types and the update of the status, and only the loop has
    created pods and services. What it asked for fills the gaps of every type
    (Settled.v), so that the pass after it finds a settled cluster (Steady.v) and comes
    to its reads and the update of the status. *)

From S2P Require Import Prelude K8s Api Names Status Expectations Core World Control.
From S2P Require Import Schema Controller Reconciler PodPlan ServicePlan Converge Settled Steady SchemaLib.
From S2P Require Import Slurm SlurmSpec SlurmNodes Pbspro PbsproSpec Main SteadySchemas.

(** ** Steps that create no pods and services *)

Section barren.
Context {K : K8s} {ES : ExpStore} {AS : ApiServer} {RT : GoRuntime}.

Definition barren (c : call) : Prop := created_by c = None ∧ service_created_by c = None.

Lemma barren_created l : Forall barren l → created l = [] ∧ services_created l = [].
Proof. intros H. split; eapply omap_none, Forall_impl; try exact H; by intros c []. Qed.

Lemma same_shape_trans S1 S2 S3 : same_shape S1 S2 → same_shape S2 S3 → same_shape S1 S3.
Proof.
  intros H12 H23 t. specialize (H12 t). specialize (H23 t).
  destruct (S1 !! t) as [[a|]|], (S2 !! t) as [[b|]|], (S3 !! t) as [[c|]|]; try done.
  destruct H12, H23. split; congruence.
Qed.

Lemma cluster_fits_shape S S' pods services :
  same_shape S S' → cluster_fits S pods services → cluster_fits S' pods services.
Proof.
  intros Hsh Hfit t b n Hb Hn. destruct (same_shape_spec S S' t b Hsh Hb) as (a & Ha & Hra & Hrp).
  destruct (Hfit t a n Ha) as [[Hstay Hone] Hservices]; [congruence|]. split; [|done].
  split; [|done]. intros p i Hp Hi. rewrite (leaves_shape a b) by done. by apply Hstay.
Qed.

(** The replica specs may get other templates. *)
Definition config_rel (w w' : World) : Prop := emits_rel barren w w' ∧ same_shape (specs w) (specs w').

#[export] Instance config_rel_preorder : PreOrder config_rel.
Proof.
  split; [intros w; split; [reflexivity|apply same_shape_refl]|].
  intros w1 w2 w3 [E1 S1] [E2 S2]. split; [by etransitivity|by eapply same_shape_trans].
Qed.

Lemma config_quiet w w' : w_log w' = w_log w → specs w' = specs w → config_rel w w'.
Proof.
  intros Hl Hs. split; [exists []; by rewrite app_nil_r|]. rewrite Hs. apply same_shape_refl.
Qed.

Lemma config_of_quiet {A} (m : M A) : stable quiet_rel m → stable config_rel m.
Proof. intros Hm w. destruct (Hm w) as (Hl & _ & Hs). apply config_quiet; [done|]. unfold specs. by rewrite Hs. Qed.

Lemma config_api {A} (q : ApiReq A) : barren (Call q) → stable config_rel (api q).
Proof.
  intros Hq w. split; [by apply emits_api|]. unfold api.
  destruct (serve q (w_srv w)) as [s [e|a]]; apply same_shape_refl.
Qed.

Lemma config_clear_kc : stable config_rel clear_kc.
Proof. intros w. by apply config_quiet. Qed.

(** The loop that sets the ports of the templates. *)
Lemma config_map_templates f entries w :
  (∀ t b, (t, Some b) ∈ entries → ∃ a, specs w !! t = Some (Some a) ∧
    r_Replicas b = r_Replicas a ∧ r_RestartPolicy b = r_RestartPolicy a) →
  config_rel w (map_templates f entries w).1.
Proof.
  revert w. unfold map_templates. induction entries as [|[t o] entries IH]; intros w Hin; [reflexivity|].
  cbn [for_each]. destruct o as [b|]; [|reflexivity].
  unfold mbind, M_bind, lift, deref, get_kc, set_kc. cbn [fst snd].
  destruct (f (pt_Spec (r_Template b))) as [p|e|]; cbn [fst snd]; [|reflexivity..].
  set (w1 := w_set_kc _ w). destruct (Hin t b (list_elem_of_here _ _)) as (a & Ha & Hra & Hpa).
  assert (config_rel w w1) as H1.
  { split; [exists []; by rewrite app_nil_r|]. intros t'.
    change (specs w1) with (<[t := Some (ReplicaSpec_set_Template
      {| pt_Meta := pt_Meta (r_Template b); pt_Spec := p |} b)]> (specs w)).
    destruct (decide (t = t')) as [<-|Hne].
    - rewrite lookup_insert_eq, Ha. by destruct b.
    - rewrite lookup_insert_ne by done. by destruct (specs w !! t') as [[?|]|]. }
  etransitivity; [exact H1|]. apply IH. intros t2 b2 Hin2.
  destruct (Hin t2 b2) as (a2 & Ha2 & Hr2 & Hp2); [by right|].
  destruct (same_shape_spec _ _ t2 a2 (same_shape_sym _ _ (proj2 H1)) Ha2) as (c & Hc & Hrc & Hpc).
  exists c. split; [done|]. split; congruence.
Qed.

Lemma config_templates {RTL : GoRuntimeLaws RT} f :
  stable config_rel (kcluster ← get_kc; entries ← range_of (sp_ClusterReplicaSpec (kc_Spec kcluster));
                     map_templates f entries).
Proof.
  intros w. unfold mbind, M_bind, get_kc, range_of. cbn [fst snd].
  etransitivity; [|apply (config_map_templates f _ (w_next_tick w))]; [by apply config_quiet|].
  intros t b Hin%elem_of_range. by exists b.
Qed.

(** What a schema does between the lists and the end of a pass. *)
Class BarrenSchema (s : ClusterSchemaReconciler) : Prop := {
  bs_config cm : stable config_rel (sr_ReconcileConfigMap s cm);
  bs_status rt o : stable quiet_rel (sr_UpdateClusterStatus s rt o)
}.
End barren.

Ltac config_auto :=
  repeat first [solve [apply config_of_quiet; quiet_auto] | solve [apply config_api; done]
    | apply config_clear_kc | stable_step].

(** ** The first pass *)

Section first_pass.
Context {K : K8s} {KL : K8sLaws K} {ES : ExpStore} {AS : ApiServer} {RT : GoRuntime}
  {RTL : GoRuntimeLaws RT}.
Context (valid : gmap string string → bool) (lister : string → option Z)
  (schemas : gmap string ClusterSchemaReconciler) (s : ClusterSchemaReconciler).
Context (schemas_spec : ∀ t s, schemas !! t = Some s → SchemaSpec s)
  (schemas_barren : ∀ t s, schemas !! t = Some s → BarrenSchema s).

Let cc : ClusterController := cc_set_Schemas schemas (NewReconciler valid lister GenNonGangSchedulerSetupFunc).

#[local] Instance first_spec : ControllerSpec cc.
Proof using schemas_spec RTL.
  apply NewReconciler_spec; [|done]. right. by left.
Qed.

Lemma config_step : stable config_rel (Controller.ReconcileConfigMap cc).
Proof using schemas_barren.
  unfold Controller.ReconcileConfigMap. simpl. unfold GetConfigMapForCluster, CreateNewConfigMap, UpdateConfigMapInApiServer.
  simpl. unfold RealConfigMapControl_CreateConfigMapWithControllerRef, createConfigMap.
  repeat first [apply (stable_deref config_rel); intros ? ? | solve [config_auto] | stable_step].
  by apply (bs_config (BarrenSchema := schemas_barren _ _ ltac:(eassumption))).
Qed.

(** The update of the status at the end of a pass. *)
Lemma status_step : stable quiet_rel (Reconciler.UpdateClusterStatus FakeWorkQueue schemas).
Proof using schemas_barren.
  unfold Reconciler.UpdateClusterStatus.
  repeat first [apply (stable_deref quiet_rel); intros ? ? | solve [quiet_auto] | stable_step].
  { by intros w. }
  by apply (bs_status (BarrenSchema := schemas_barren _ _ ltac:(eassumption))).
Qed.


Lemma end_step : emits barren (ci_UpdateClusterStatusInApiServer (cc_Controller cc)).
Proof using Type. simpl. unfold UpdateClusterStatusInApiServer, clear_kc. by emits_auto. Qed.

(** A pass that ends well has filled the gaps of every type. *)
Lemma general_fills kc pods services oldStatus w w1 :
  let S := sp_ClusterReplicaSpec (kc_Spec kc) in
  same_cluster kc w → replicas_ok S → cluster_fits S pods services →
  reconcile_general cc s oldStatus pods services w = (w1, Ok tt) →
  ∃ l, w_log w1 = (w_log w ++ l)%list ∧ each_type S (λ t spec n,
    fills t n (of_type pods t) (of_type (created l) t) ∧
    fills t n (of_type services t) (of_type (services_created l) t)).
Proof using schemas_spec schemas_barren KL RTL.
  intros S [_ Hsp] HS Hfit H. unfold reconcile_general in H.
  apply bind_Ok in H as (cm & wa & Ha & H). apply bind_Ok in H as ([] & wb & Hb & H).
  apply bind_Ok in H as ([] & wc & Hc & H). apply bind_Ok in H as (k & wd & Hd & H). injection Hd as <- <-.
  destruct (config_step w) as [(l1 & Hl1 & Hb1) Hsh]. rewrite Ha in Hl1, Hsh. unfold specs in Hsh. rewrite Hsp in Hsh.
  destruct (replicas_fill cc pods services cm wa wb) as (l2 & Hl2 & Hfill);
    [by eapply replicas_ok_shape|by eapply cluster_fits_shape|done|].
  destruct (status_step wb) as (Hl3 & _). change (w_log (Reconciler.UpdateClusterStatus _ _ _).1)
    with (w_log (ci_UpdateClusterStatus (cc_Controller cc) (cc_SchemaReconcilerManager cc) wb).1) in Hl3.
  rewrite Hc in Hl3. simpl in Hl3.
  destruct (end_step wc) as (l4 & Hl4 & Hb4).
  change (ci_UpdateClusterStatusInApiServer (cc_Controller cc) wc = (w1, Ok tt)) in H.
  rewrite H in Hl4. simpl in Hl1, Hl4.
  exists (l1 ++ l2 ++ l4)%list. split; [by rewrite Hl4, Hl3, Hl2, Hl1, <-!app_assoc|].
  destruct (barren_created _ Hb1) as [Hp1 Hs1], (barren_created _ Hb4) as [Hp4 Hs4].
  unfold created, services_created in *. rewrite !omap_app, Hp1, Hs1, Hp4, Hs4, !app_nil_r.
  by apply (each_type_shape _ _ (λ t n, _) (same_shape_sym _ _ Hsh)).
Qed.

Lemma pass_fills w w1 pods services s2 :
  let kc := w_kc w in
  let S := sp_ClusterReplicaSpec (kc_Spec kc) in
  unlimited kc → lists valid kc (w_srv w) s2 pods services → replicas_ok S → cluster_fits S pods services →
  ReconcileKubeCluster cc s w = (w1, Ok tt) →
  ∃ l, w_log w1 = (w_log w ++ l)%list ∧ each_type S (λ t spec n,
    fills t n (of_type pods t) (of_type (created l) t) ∧
    fills t n (of_type services t) (of_type (services_created l) t)).
Proof using schemas_spec schemas_barren KL RTL.
  intros kc S Hul Hlists HS Hfit.
  apply (pass_reaches valid lister schemas s (λ o, o = (w1, Ok tt) → _) w pods services s2); [done..|].
  intros w2 Hl2 _ Hkc2 H.
  destruct (general_fills kc pods services _ w2 w1 Hkc2 HS Hfit H) as (l & Hl & Hfill).
  exists (list_calls kc ++ l)%list. split; [by rewrite Hl, Hl2, app_assoc|done].
Qed.
End first_pass.

(** ** The schemas of the repository *)

Section schemas.
Context {K : K8s} {QF : QuantityFormat} {ES : ExpStore} {AS : ApiServer} {RT : GoRuntime}
  {RTL : GoRuntimeLaws RT} {GR : GoRand}.

Lemma config_ticks {A} (m : M A) : stable ticks_rel m → stable config_rel m.
Proof using Type. clear. intros Hm. by apply config_of_quiet, quiet_ticks. Qed.

#[export] Instance slurm_barren valid ic fuel : BarrenSchema (NewSlurmClusterReconciler valid ic fuel).
Proof.
  split; simpl.
  - intros cm. unfold Slurm.ReconcileConfigMap, fill_configmap, genSlurmConf, createSlurmConf,
      getSlurmPortsFromSpec, getHostNetWorkNodeList, genMungeKey.
    repeat first [apply config_templates
      | apply config_ticks; first [apply ticks_genSlurmRandomPort|apply ticks_RandStr|apply ticks_createSlurmConfNodes]
      | solve [config_auto] | stable_step].
  - intros rt o. unfold Slurm.UpdateClusterStatus, mark_running, mark_restarting, mark_failed, set_completion.
    quiet_auto. by intros w.
Qed.

#[export] Instance pbs_barren ic : BarrenSchema (NewpbsproClusterReconciler ic).
Proof.
  split; simpl.
  - intros cm. unfold Pbspro.ReconcileConfigMap, genPBSServerEntrypoint. config_auto.
  - intros rt o. unfold Pbspro.UpdateClusterStatus, mark_running, mark_restarting, mark_failed, set_completion.
    quiet_auto. by intros w.
Qed.
End schemas.

(** ** Two passes of the controller of main *)

Section two_passes.
Context {K : K8s} {KL : K8sLaws K} {QF : QuantityFormat} {ES : ExpStore} {AS : ApiServer}
  {RT : GoRuntime} {RTL : GoRuntimeLaws RT} {GR : GoRand}.

Lemma supported_barren slurm_init pbs_init valid fuel t s :
  SupportedClusterSchemaReconciler valid slurm_init pbs_init fuel !! t = Some s → BarrenSchema s.
Proof.
  unfold SupportedClusterSchemaReconciler.
  intros [[_ <-]|[_ [_ <-]%lookup_singleton_Some]]%lookup_insert_Some; apply _.
Qed.

(** C2 (two passes settle a cluster). Let the controller of main be set up without a gang
    scheduler (with one, the pod group is updated on every pass), and take a cluster of
    an enabled schema
    - that is neither finished nor suspended, with neither a backoff limit nor an active
      deadline, and whose labels are valid;
    - whose types each have a spec and at least one replica, and fewer than 2^31 (with
      none, a pod is created and removed in turn), and names that differ in lower case;
    - whose pods have indexes in range, at most one pod for each index of each type, and
      are not to be restarted; and whose services have indexes in range.
    Let a reconciliation of it end well, after listing these pods and services. Let then
    what it asked for exist and be listed besides the rest, with the labels it was asked
    for and no new pod failed, the cluster still be of the same type, with the same
    replicas and restart policies, unfinished, not suspended and without limits, and its
    config map be read, owned by the cluster and filled (for slurm: with a conf that gives
    two ports, the ready key, and the ports in every template).
    Then every index of every type has exactly one pod and at least one service; and
    the next reconciliation creates, patches and deletes nothing: it lists the pods and
    the services, gets the config map, and updates the status, into which the pods of
    every type have been counted. *)
Theorem two_passes_settle (valid : gmap string string → bool) (lister : string → option Z)
    (slurm_init pbs_init : string → res (list Container)) (fuel : nat) (kinds es : list string)
    (cc : ClusterController) (s : ClusterSchemaReconciler) (w w1 w' : World)
    (pods newp pods' : list Pod) (services news services' : list Service) (cm : ConfigMap)
    (l calls : list call) (s2 s3 : srv) :
  let kc := w_kc w in
  let kc' := w_kc w' in
  let S := sp_ClusterReplicaSpec (kc_Spec kc) in
  setupController valid lister slurm_init pbs_init fuel kinds es "" = Ok cc →
  GetSchemaReconciler cc (sp_ClusterType (kc_Spec kc)) = Some s →
  replicas_ok S → cluster_fits S pods services →
  unlimited kc → lists valid kc (w_srv w) s2 pods services →
  ReconcileKubeCluster cc s w = (w1, Ok tt) → w_log w1 = (w_log w ++ l)%list →
  Forall2 stored (created l) newp → Forall2 same_labels (services_created l) news →
  pods' ≡ₚ (pods ++ newp)%list → services' ≡ₚ (services ++ news)%list →
  sp_ClusterType (kc_Spec kc') = sp_ClusterType (kc_Spec kc) →
  same_shape S (sp_ClusterReplicaSpec (kc_Spec kc')) →
  unlimited kc' → reads valid kc' (w_srv w') s3 pods' services' cm calls → config_filled kc' cm →
  each_type S (λ t spec n, ∀ i, (i < Z.to_nat n)%nat →
    length (of_index i (of_type pods' t)) = 1%nat ∧ of_index i (of_type services' t) ≠ []) ∧
  writes_status kc' pods' (w_log w' ++ calls) s3 (ReconcileKubeCluster cc s w').
Proof.
  intros kc kc' S Hcc Hs HS Hfit Hul Hlists Hrun Hlog Hp Hv Hpods Hservices Hty Hsh Hul' Hrd Hcm.
  destruct (main_schema _ _ _ _ _ _ _ _ _ _ Hcc Hs) as (m & -> & Hms & Hsup).
  assert (∀ t s, m !! t = Some s → SchemaSpec s) as Hspec by (intros t s' Ht%Hsup; by eapply supported_spec).
  assert (cluster_settled S pods' services') as Hset.
  { destruct (pass_fills valid lister m s) with w w1 pods services s2 as (l' & Hl' & Hfill); try done.
    - intros t s' Ht%Hsup. by eapply supported_barren.
    - rewrite Hlog in Hl'. apply app_inv_head in Hl' as <-. by eapply replicas_settle. }
  split; [intros t spec n Ht Hn i Hi; destruct (Hset t spec n Ht Hn) as [[_ H1] [_ H2]]; auto|].
  destruct (filled_config valid slurm_init pbs_init fuel kc' cm s) as [HM Hconf]; [rewrite Hty; by apply Hsup|done|].
  eapply (pass_settled valid lister m s); try done.
  - fold kc'. by rewrite Hty.
  - by eapply replicas_ok_shape.
  - by eapply cluster_settled_shape.
Qed.
End two_passes.

(** ** A witness: a PBS Pro cluster without pods, and the pass after *)

Module SamplePasses.
Import Sample SampleRand SampleSlurm SampleReplicas.
#[local] Existing Instances MemServer.runtime gmap_ExpStore.

(** A server with the pods and services that were created. *)
#[export] Instance server : ApiServer := {|
  srv := list Pod * list Service;
  serve A q st :=
    match q in ApiReq T return (list Pod * list Service) * (ApiError + T) with
    | ListPods _ _ => (st, inr st.1)
    | ListServices _ _ => (st, inr st.2)
    | GetConfigMap _ _ => (st, inr SampleSteady.cm)
    | CreatePod _ p => ((st.1 ++ [p], st.2)%list, inr p)
    | CreateService _ v => ((st.1, st.2 ++ [v])%list, inr v)
    | UpdateKubeClusterStatus k => (st, inr k)
    | _ => (st, inl MemServer.not_found)
    end |}.

Definition setup : res ClusterController :=
  setupController (λ _, true) (λ _, None) (λ _, Ok [container]) (λ _, Ok [container]) 10
    ["slurm"; "pbspro"] ["pbspro"] EmptyString.
Definition cc : ClusterController :=
  match setup with
  | Ok cc => cc
  | _ => NewReconciler (λ _, true) (λ _, None) GenNonGangSchedulerSetupFunc
  end.
Definition schema : ClusterSchemaReconciler := NewpbsproClusterReconciler (λ _, Ok [container]).

Definition start (st : list Pod * list Service) : World := {|
  w_srv := st; w_log := []; w_events := []; w_metrics := ∅; w_exp := ∅; w_kc := SampleSteady.kc; w_tick := 0 |}.
Definition first : World * res unit := ReconcileKubeCluster cc schema (start ([], [])).
Definition pods : list Pod := created (w_log first.1).
Definition services : list Service := services_created (w_log first.1).
Definition next : World := start (pods, services).

Lemma setup_cc : setup = Ok cc.
Proof.
  unfold cc. assert (is_Ok setup = true) as H by by_vm.
  destruct setup as [c|e|]; [done|discriminate H|discriminate H].
Qed.

Lemma cc_schema : GetSchemaReconciler cc "pbspro" = Some schema.
Proof.
  assert ((if GetSchemaReconciler cc "pbspro" is Some _ then true else false) = true) as H by by_vm.
  destruct (GetSchemaReconciler cc "pbspro") as [s|] eqn:Hs; [clear H|discriminate H].
  destruct (main_schema (λ _, true) (λ _, None) (λ _, Ok [container]) (λ _, Ok [container]) 10
    ["slurm"; "pbspro"] ["pbspro"] cc "pbspro" s setup_cc Hs) as (m & _ & Hm & Hsup).
  f_equal. apply Hsup in Hm. unfold SupportedClusterSchemaReconciler in Hm.
  apply lookup_insert_Some in Hm as [[Ht _]|[_ [_ Heq]%lookup_singleton_Some]]; [discriminate Ht|by symmetry].
Qed.

Lemma first_ok : first = (first.1, Ok tt).
Proof.
  assert (is_Ok first.2 = true) as H by by_vm.
  destruct first as [w [[]|e|]]; [done|discriminate H|discriminate H].
Qed.

Lemma pods_stored : Forall2 stored pods pods.
Proof. apply stored_refl. by_vm. Qed.

Lemma pods_owned : KubeClusterControlledPodList pods meta = pods.
Proof.
  assert (forallb (λ p, IsControlledBy (om_OwnerReferences (pod_Meta p)) (om_UID meta)) pods = true) as H by by_vm.
  revert H. unfold KubeClusterControlledPodList. generalize pods. clear. intros ps H.
  induction ps as [|p ps IH]; [done|]. simpl in H. apply andb_true_iff in H as [Hp H].
  rewrite filter_cons_True by done. f_equal. by apply IH.
Qed.

Definition selector : gmap string string := cluster_selector SampleSteady.kc.

Lemma next_reads :
  reads (λ _, true) SampleSteady.kc (w_srv next) (w_srv next) pods services SampleSteady.cm
    [Call (ListPods "default" selector); Call (ListServices "default" selector); Call (GetConfigMap "default" "c1")].
Proof.
  split; [done| |by_vm|done]. exists (w_srv next), (w_srv next), pods, services.
  split_and!; [done..|symmetry; exact pods_owned|done].
Qed.

Lemma two_passes_settle_witness :
  length pods = 3%nat ∧ length services = 3%nat ∧
  length (w_log (ReconcileKubeCluster cc schema next).1) = 4%nat ∧
  (ReconcileKubeCluster cc schema next).2 = Ok tt.
Proof.
  split; [by_vm|]. split; [by_vm|].
  destruct (two_passes_settle (KL := K8s_example_laws) (RTL := MemServer.runtime_laws) (λ _, true) (λ _, None)
    (λ _, Ok [container]) (λ _, Ok [container]) 10 ["slurm"; "pbspro"] ["pbspro"] cc schema (start ([], []))
    first.1 next [] pods pods [] services services SampleSteady.cm (w_log first.1)
    [Call (ListPods "default" selector); Call (ListServices "default" selector); Call (GetConfigMap "default" "c1")]
    ([], []) (w_srv next)) as (_ & k & Hl & _ & _ & _ & Hr).
  - exact setup_cc.
  - exact cc_schema.
  - exact SampleSteady.pbs_replicas_ok.
  - apply nothing_fits.
  - by split.
  - split; [done|]. by exists ([], []), [], [].
  - exact first_ok.
  - reflexivity.
  - exact pods_stored.
  - apply same_labels_refl.
  - reflexivity.
  - reflexivity.
  - reflexivity.
  - apply same_shape_refl.
  - by split.
  - exact next_reads.
  - exact SampleSteady.sample_filled.
  - split; [by rewrite Hl|exact Hr].
Defined.
End SamplePasses.
