(* ===== verification/ExpectationsConc.v ===== *)
(** * Expectations in shared memory

    expectation.go once more, as the goroutines of the controller run it: the store
    holds pointers to [ControlleeExpectations], whose two counters are read and written
    with sync/atomic, one at a time. A method is a tree of atomic actions, and threads
    interleave between any two of them. Expectations.v has the methods as functions on
    a store of values; here

    - a method run alone does what the function does, on the ledger of Expectations.v;
    - raising and lowering calls of any number of threads add up, whatever the
      interleaving;
    - [SatisfiedExpectations] reads the counters one after the other. Its answer is the
      answer of one of the states it ran through as long as its key is only lowered
      meanwhile, and need not be otherwise.

    client-go's [cache.Store] takes a lock around each of its operations: [PtrStore]
    names them, each one atomic action. *)

From S2P Require Import Prelude K8s Names Expectations.

(** ** The shared memory *)

Class PtrStore := {
  ptr_store : Type;
  ps_put : string → nat → ptr_store → ptr_store;
  ps_del : string → ptr_store → ptr_store;
  ps_get : string → ptr_store → option nat
}.

Class PtrStoreLaws (S : PtrStore) : Prop := {
  ps_get_put k k' p s : ps_get k (ps_put k' p s) = if decide (k' = k) then Some p else ps_get k s;
  ps_get_del k k' s : ps_get k (ps_del k' s) = if decide (k' = k) then None else ps_get k s
}.

Definition gmap_PtrStore : PtrStore := {|
  ptr_store := gmap string nat;
  ps_put k p s := <[k := p]> s;
  ps_del k s := delete k s;
  ps_get k s := s !! k |}.

Lemma gmap_PtrStore_laws : PtrStoreLaws gmap_PtrStore.
Proof. split; simpl; intros; [by rewrite lookup_insert|by rewrite lookup_delete]. Qed.

(** The two fields that are used with sync/atomic. *)
Inductive Counter := FAdd | FDel.
#[export] Instance Counter_eq_dec : EqDecision Counter.
Proof. solve_decision. Defined.

Definition load (f : Counter) (e : ControlleeExpectations) : Z :=
  match f with FAdd => ce_add e | FDel => ce_del e end.
Definition store (f : Counter) (v : Z) (e : ControlleeExpectations) : ControlleeExpectations :=
  match f with
  | FAdd => {| ce_add := v; ce_del := ce_del e; ce_key := ce_key e; ce_timestamp := ce_timestamp e |}
  | FDel => {| ce_add := ce_add e; ce_del := v; ce_key := ce_key e; ce_timestamp := ce_timestamp e |}
  end.

Lemma load_store f g v e : load g (store f v e) = if decide (f = g) then v else load g e.
Proof. by destruct f, g. Qed.
Lemma key_store f v e : ce_key (store f v e) = ce_key e.
Proof. by destruct f. Qed.
Lemma timestamp_store f v e : ce_timestamp (store f v e) = ce_timestamp e.
Proof. by destruct f. Qed.

Section shared.
Context {S : PtrStore}.

(** A pointer is the place of its object in the heap, which only grows. *)
Record Shared := {
  sh_heap : list ControlleeExpectations;
  sh_store : ptr_store;
  sh_clock : Time
}.

Definition nil_object : ControlleeExpectations :=
  {| ce_add := 0; ce_del := 0; ce_key := ""; ce_timestamp := 0 |}.
(** No pointer dangles: the default is never used. *)
Definition object (p : nat) (m : Shared) : ControlleeExpectations := nth p (sh_heap m) nil_object.

(** The atomic actions. [cache.Store] finds the key of an object with [ExpKeyFunc], which
    reads a field that is never written. *)
Inductive action : Type → Type :=
| GetByKey (key : string) : action (option nat)
| StoreAdd (p : nat) : action unit
| StoreDelete (p : nat) : action unit
| New (e : ControlleeExpectations) : action nat
| AddInt64 (f : Counter) (p : nat) (delta : Z) : action Z
| LoadInt64 (f : Counter) (p : nat) : action Z
| Timestamp (p : nat) : action Time
| Now : action Time.

Definition act {B} (a : action B) (m : Shared) : Shared * B :=
  match a in action B return Shared * B with
  | GetByKey key => (m, ps_get key (sh_store m))
  | StoreAdd p =>
      ({| sh_heap := sh_heap m; sh_store := ps_put (ce_key (object p m)) p (sh_store m);
          sh_clock := sh_clock m |}, tt)
  | StoreDelete p =>
      ({| sh_heap := sh_heap m; sh_store := ps_del (ce_key (object p m)) (sh_store m);
          sh_clock := sh_clock m |}, tt)
  | New e =>
      ({| sh_heap := (sh_heap m ++ [e])%list; sh_store := sh_store m; sh_clock := sh_clock m |},
       length (sh_heap m))
  | AddInt64 f p delta =>
      let v := int64 (load f (object p m) + delta) in
      ({| sh_heap := alter (store f v) p (sh_heap m); sh_store := sh_store m; sh_clock := sh_clock m |}, v)
  | LoadInt64 f p => (m, load f (object p m))
  | Timestamp p => (m, ce_timestamp (object p m))
  | Now => (m, sh_clock m)
  end.

(** ** Programs *)

Inductive prog (A : Type) : Type :=
| Ret (a : A)
| Act {B : Type} (a : action B) (k : B → prog A).
#[global] Arguments Ret {A} a.
#[global] Arguments Act {A B} a k.

#[global] Instance prog_ret : MRet prog := @Ret.
#[global] Instance prog_bind : MBind prog := λ A B f,
  fix go m := match m with Ret a => f a | Act a k => Act a (λ b, go (k b)) end.

Definition atomically {B} (a : action B) : prog B := Act a Ret.

(** A thread that is left alone. *)
Fixpoint run {A} (p : prog A) (m : Shared) : Shared * A :=
  match p with
  | Ret a => (m, a)
  | Act a k => let '(m', b) := act a m in run (k b) m'
  end.

Lemma run_prog_bind {A B} (p : prog A) (f : A → prog B) m :
  run (p ≫= f) m = let '(m', a) := run p m in run (f a) m'.
Proof.
  revert m. induction p as [a|C a k IH]; intros m; [done|].
  cbn. destruct (act a m) as [m' b]. apply IH.
Qed.

(** ** expectation.go *)

(** The objects of the store are all pointers to expectations: the type assertion
    holds. *)
Definition GetExpectations (controllerKey : string) : prog (option nat) :=
  atomically (GetByKey controllerKey).

Definition DeleteExpectations (controllerKey : string) : prog unit :=
  exp ← atomically (GetByKey controllerKey);
  match exp with
  | Some exp => atomically (StoreDelete exp)
  | None => mret tt
  end.

Definition Fulfilled (e : nat) : prog bool :=
  add ← atomically (LoadInt64 FAdd e);
  if bool_decide (add ≤ 0) then
    del ← atomically (LoadInt64 FDel e);
    mret (bool_decide (del ≤ 0))
  else mret false.

Definition isExpired (exp : nat) : prog bool :=
  timestamp ← atomically (Timestamp exp);
  now ← atomically Now;
  mret (bool_decide (now - timestamp > ExpectationsTimeout)).

Definition SatisfiedExpectations (controllerKey : string) : prog bool :=
  exp ← GetExpectations controllerKey;
  match exp with
  | Some exp =>
      fulfilled ← Fulfilled exp;
      if fulfilled : bool then mret true
      else
        expired ← isExpired exp;
        if expired : bool then mret true else mret false
  | None => mret true
  end.

Definition SetExpectations (controllerKey : string) (add del : Z) : prog unit :=
  now ← atomically Now;
  exp ← atomically (New {| ce_add := add; ce_del := del; ce_key := controllerKey; ce_timestamp := now |});
  atomically (StoreAdd exp).

Definition ExpectCreations (controllerKey : string) (adds : Z) : prog unit :=
  SetExpectations controllerKey adds 0.
Definition ExpectDeletions (controllerKey : string) (dels : Z) : prog unit :=
  SetExpectations controllerKey 0 dels.

(** [ControlleeExpectations.Add] *)
Definition Add (e : nat) (add del : Z) : prog unit :=
  _ ← atomically (AddInt64 FAdd e add);
  _ ← atomically (AddInt64 FDel e del);
  mret tt.

Definition LowerExpectations (controllerKey : string) (add del : Z) : prog unit :=
  exp ← GetExpectations controllerKey;
  match exp with
  | Some exp => Add exp (int64 (- add)) (int64 (- del))
  | None => mret tt
  end.

Definition RaiseExpectations (controllerKey : string) (add del : Z) : prog unit :=
  exp ← GetExpectations controllerKey;
  match exp with
  | Some exp => Add exp add del
  | None => mret tt
  end.

Definition CreationObserved (controllerKey : string) : prog unit := LowerExpectations controllerKey 1 0.
Definition DeletionObserved (controllerKey : string) : prog unit := LowerExpectations controllerKey 0 1.
Definition SetPreSatisfiedExpectations (controllerKey : string) (satisfied : bool) : prog unit := mret tt.

(** [ControlleeExpectations.GetExpectations] *)
Definition counters (e : nat) : prog (Z * Z) :=
  add ← atomically (LoadInt64 FAdd e);
  del ← atomically (LoadInt64 FDel e);
  mret (add, del).

(** ** Threads *)

(** A call. The time a [Set] is given is the one it reads. *)
Definition call_of (o : exp_op) : prog unit :=
  match o with
  | OpSet _ key add del => SetExpectations key add del
  | OpExpectCreations _ key adds => ExpectCreations key adds
  | OpExpectDeletions _ key dels => ExpectDeletions key dels
  | OpRaise key add del => RaiseExpectations key add del
  | OpLower key add del => LowerExpectations key add del
  | OpCreationObserved key => CreationObserved key
  | OpDeletionObserved key => DeletionObserved key
  | OpDelete key => DeleteExpectations key
  | OpSetPreSatisfied key b => SetPreSatisfiedExpectations key b
  end.

(** A thread makes its calls in order, or asks once and keeps the answer. *)
Fixpoint perform (ops : list exp_op) : prog (option bool) :=
  match ops with
  | [] => mret None
  | o :: ops => _ ← call_of o; perform ops
  end.
Definition ask (key : string) : prog (option bool) := b ← SatisfiedExpectations key; mret (Some b).

(** Any thread may make its next step; time passes in between. *)
Definition Conf : Type := list (prog (option bool)) * Shared.
Definition tick (d : Z) (m : Shared) : Shared :=
  {| sh_heap := sh_heap m; sh_store := sh_store m; sh_clock := sh_clock m + d |}.
Inductive step : Conf → Conf → Prop :=
| step_thread i ts m B (a : action B) k :
    ts !! i = Some (Act a k) → step (ts, m) (<[i := k (act a m).2]> ts, (act a m).1)
| step_clock ts m d : 0 ≤ d → step (ts, m) (ts, tick d m).

Definition finished (t : prog (option bool)) : Prop := match t with Ret _ => True | Act _ _ => False end.

(** A schedule names the threads that make a step, one after the other. *)
Definition step_nth (i : nat) (c : Conf) : Conf :=
  match c.1 !! i with
  | Some (Act a k) => let '(m, b) := act a c.2 in (<[i := k b]> c.1, m)
  | _ => c
  end.
Definition interleave (schedule : list nat) (c : Conf) : Conf := foldl (λ c i, step_nth i c) c schedule.

Lemma step_nth_steps i c : rtc step c (step_nth i c).
Proof.
  destruct c as [ts m]. unfold step_nth. simpl. destruct (ts !! i) as [[|B a k]|] eqn:Hi; [done| |done].
  pose proof (step_thread i ts m B a k Hi) as H. destruct (act a m). by apply rtc_once.
Qed.

Lemma interleave_steps schedule c : rtc step c (interleave schedule c).
Proof.
  unfold interleave. revert c. induction schedule as [|i schedule IH]; intros c; simpl; [done|].
  etrans; [apply step_nth_steps|apply IH].
Qed.

(** A thread that is let run finishes, and so do all of them. *)
Lemma thread_finishes ts m i t :
  ts !! i = Some t →
  rtc step (ts, m) (<[i := Ret (run t m).2]> ts, (run t m).1).
Proof.
  revert ts m. induction t as [a|B a k IH]; intros ts m Hi; simpl.
  - by rewrite list_insert_id.
  - eapply rtc_l; [by apply (step_thread i)|]. destruct (act a m) as [m' b].
    assert (<[i := Ret (run (k b) m').2]> ts = <[i := Ret (run (k b) m').2]> (<[i := k b]> ts)) as ->
      by by rewrite list_insert_insert_eq.
    apply IH. apply list_lookup_insert_eq. by apply lookup_lt_Some in Hi.
Qed.

Lemma threads_finish ts m : ∃ ts' m', rtc step (ts, m) (ts', m') ∧ Forall finished ts'.
Proof.
  cut (∀ done_ m, Forall finished done_ →
    ∃ ts' m', rtc step ((done_ ++ ts)%list, m) (ts', m') ∧ Forall finished ts').
  { intros H. by apply (H []). }
  clear m. induction ts as [|t ts IH]; intros done_ m Hd.
  { exists done_, m. by rewrite app_nil_r. }
  pose proof (thread_finishes (done_ ++ t :: ts) m (length done_) t (list_lookup_middle _ _ _ _ eq_refl)) as Ht.
  rewrite insert_app_r_alt, Nat.sub_diag in Ht by done.
  destruct (IH (done_ ++ [Ret (run t m).2])%list (run t m).1) as (ts' & m' & Hrun & Hts').
  { apply Forall_app. split; [done|]. by constructor. }
  exists ts', m'. split; [|done]. etrans; [exact Ht|]. rewrite <-app_assoc in Hrun. exact Hrun.
Qed.
End shared.

(** ** A call alone *)

#[local] Arguments object : simpl never.
#[local] Arguments Add : simpl never.

Section alone.
Context {S : PtrStore} {SL : PtrStoreLaws S}.
Implicit Types (m : Shared) (l : gmap string entry) (k : string).

(** The object of an entry of the ledger ([entry_obj] of Expectations.v). *)
Definition entry_cell (k : string) (e : entry) : ControlleeExpectations :=
  {| ce_add := int64 (en_add e); ce_del := int64 (en_del e); ce_key := k; ce_timestamp := en_since e |}.

(** The memory represents a ledger: each entry has an object, and nothing else is in the
    store. *)
Definition shared_represents m l : Prop :=
  ∀ k, match ps_get k (sh_store m) with
       | Some p => ∃ e, l !! k = Some e ∧ sh_heap m !! p = Some (entry_cell k e)
       | None => l !! k = None
       end.

Lemma object_lookup m p e : sh_heap m !! p = Some e → object p m = e.
Proof using Type. clear. intros H. unfold object. rewrite nth_lookup, H. done. Qed.

Lemma alter_at {A} (f : A → A) (p : nat) (l : list A) (x : A) :
  l !! p = Some x → alter f p l = <[p := f x]> l.
Proof using Type. clear.
  revert p. induction l as [|y l IH]; intros [|p]; [done..|intros [= ->]; done|].
  intros H. change (y :: alter f p l = y :: <[p := f x]> l). f_equal. by apply IH.
Qed.

(** Both additions, one after the other, are the [ce_Add] of Expectations.v. *)
Lemma run_Add p a d m e :
  sh_heap m !! p = Some e →
  (run (Add p a d) m).1 =
    {| sh_heap := <[p := ce_Add a d e]> (sh_heap m); sh_store := sh_store m; sh_clock := sh_clock m |}.
Proof using Type. clear.
  intros H. unfold Add. cbn. rewrite (object_lookup m p e) by done.
  rewrite (alter_at (store FAdd _) p (sh_heap m) e H).
  assert (<[p := store FAdd (int64 (ce_add e + a)) e]> (sh_heap m) !! p = Some (store FAdd (int64 (ce_add e + a)) e))
    as Hp by (apply list_lookup_insert_eq; by apply lookup_lt_Some in H).
  erewrite (object_lookup _ p) by exact Hp. erewrite (alter_at (store FDel _)) by exact Hp.
  by rewrite list_insert_insert_eq.
Qed.

(** Changing the object of a key, or giving it a new one. *)
Lemma represents_object m l k p e :
  ps_get k (sh_store m) = Some p → l !! k = Some e → shared_represents m l →
  ∀ e', shared_represents
    {| sh_heap := <[p := entry_cell k e']> (sh_heap m); sh_store := sh_store m; sh_clock := sh_clock m |}
    (<[k := e']> l).
Proof using Type. clear.
  intros Hp He Hm e' k'. simpl. pose proof (Hm k') as Hk'. pose proof (Hm k) as Hk. rewrite Hp in Hk.
  destruct Hk as (e1 & He1 & Hc). destruct (ps_get k' (sh_store m)) as [p'|] eqn:Hp'.
  - destruct Hk' as (e2 & He2 & Hc2). destruct (decide (p = p')) as [<-|Hne].
    + assert (k = k') as <- by (rewrite Hc in Hc2; by injection Hc2). exists e'. rewrite lookup_insert_eq.
      split; [done|]. apply list_lookup_insert_eq. by apply lookup_lt_Some in Hc.
    + exists e2. rewrite list_lookup_insert_ne by done. rewrite lookup_insert_ne; [done|]. congruence.
  - rewrite lookup_insert_ne; [done|]. congruence.
Qed.

Lemma represents_new_object m l k e :
  shared_represents m l →
  shared_represents
    {| sh_heap := (sh_heap m ++ [entry_cell k e])%list; sh_store := ps_put k (length (sh_heap m)) (sh_store m);
       sh_clock := sh_clock m |} (<[k := e]> l).
Proof.
  intros Hm k'. simpl. rewrite ps_get_put. case_decide as Hk.
  - subst k'. exists e. rewrite lookup_insert_eq. split; [done|]. by apply list_lookup_middle.
  - rewrite lookup_insert_ne by done. specialize (Hm k').
    destruct (ps_get k' (sh_store m)) as [p|]; [|done]. destruct Hm as (e2 & He2 & Hc). exists e2. split; [done|].
    by apply lookup_app_l_Some.
Qed.

Lemma run_Raise m l k a a' d d' :
  int64 a = int64 a' → int64 d = int64 d' → shared_represents m l →
  shared_represents (run (RaiseExpectations k a d) m).1 (ledger_add k a' d' l).
Proof using Type. clear.
  intros Ha Hd Hm. unfold RaiseExpectations, GetExpectations. rewrite run_prog_bind. cbn. pose proof (Hm k) as Hk.
  destruct (ps_get k (sh_store m)) as [p|] eqn:Hp.
  - destruct Hk as (e & He & Hc). rewrite (run_Add p a d m (entry_cell k e)) by done.
    assert (ce_Add a d (entry_cell k e) = entry_cell k (Entry (en_add e + a') (en_del e + d') (en_since e))) as ->.
    { unfold ce_Add, entry_cell. simpl. by rewrite !int64_add_l, <-(int64_add_r _ a), <-(int64_add_r _ d), Ha, Hd,
        !int64_add_r. }
    assert (ledger_add k a' d' l = <[k := Entry (en_add e + a') (en_del e + d') (en_since e)]> l) as ->.
    { unfold ledger_add. apply map_eq. intros k'. rewrite lookup_alter, lookup_insert. case_decide; [|done].
      subst k'. by rewrite He. }
    by apply (represents_object m l k p e).
  - unfold ledger_add. assert (alter (λ e, Entry (en_add e + a') (en_del e + d') (en_since e)) k l = l) as ->; [|done].
    apply map_eq. intros k'. rewrite lookup_alter. case_decide; [|done]. subst k'. by rewrite Hk.
Qed.

Lemma run_Lower m l k a d :
  shared_represents m l → shared_represents (run (LowerExpectations k a d) m).1 (ledger_add k (- a) (- d) l).
Proof using Type. clear. apply (run_Raise _ _ _ (int64 (- a)) (- a) (int64 (- d)) (- d)); apply int64_id, int64_range. Qed.

Lemma run_Set m l k a d :
  in_int64 a → in_int64 d → shared_represents m l →
  shared_represents (run (SetExpectations k a d) m).1 (<[k := Entry a d (sh_clock m)]> l).
Proof.
  intros Ha Hd Hm. pose proof (represents_new_object m l k (Entry a d (sh_clock m)) Hm) as Hnew.
  unfold entry_cell in Hnew. simpl in Hnew. rewrite !int64_id in Hnew by done.
  cbn. erewrite (object_lookup _ (length (sh_heap m))) by by apply list_lookup_middle. done.
Qed.

Lemma run_Delete m l k :
  shared_represents m l → shared_represents (run (DeleteExpectations k) m).1 (delete k l).
Proof.
  intros Hm. unfold DeleteExpectations. rewrite run_prog_bind. cbn. pose proof (Hm k) as Hk.
  destruct (ps_get k (sh_store m)) as [p|] eqn:Hp.
  - destruct Hk as (e & He & Hc). cbn. rewrite (object_lookup m p _ Hc). simpl.
    intros k'. simpl. rewrite ps_get_del, lookup_delete. case_decide; [done|apply Hm].
  - by rewrite delete_id.
Qed.

(** The time a call is given is the clock of the memory. *)
Definition reads_clock (o : exp_op) (m : Shared) : Prop :=
  match o with
  | OpSet now _ _ _ | OpExpectCreations now _ _ | OpExpectDeletions now _ _ => now = sh_clock m
  | _ => True
  end.

(** A call that is left alone does to the ledger what the function of Expectations.v
    does. *)
Lemma run_call o m l :
  op_in_range o → reads_clock o m → shared_represents m l →
  shared_represents (run (call_of o) m).1 (ledger_exec o l).
Proof.
  assert (in_int64 0) as H0 by (unfold in_int64; lia).
  destruct o; simpl; intros Ho Hc Hm; subst;
    first [by apply run_Raise | by apply run_Lower | by apply run_Set; naive_solver | by apply run_Delete
          | by apply (run_Lower _ _ _ 1 0) | by apply (run_Lower _ _ _ 0 1) | done].
Qed.

(** So does the question. *)
Lemma run_Satisfied m l k :
  shared_represents m l → (∀ e, l !! k = Some e → in_int64 (en_add e) ∧ in_int64 (en_del e)) →
  run (SatisfiedExpectations k) m = (m, from_option (entry_satisfied (sh_clock m)) true (l !! k)).
Proof using Type. clear.
  intros Hm Hb. unfold SatisfiedExpectations, GetExpectations. rewrite run_prog_bind. cbn. pose proof (Hm k) as Hk.
  destruct (ps_get k (sh_store m)) as [p|] eqn:Hp; [|by rewrite Hk].
  destruct Hk as (e & He & Hc). rewrite He. destruct (Hb e He) as [Ha Hd]. unfold entry_satisfied. simpl.
  rewrite (object_lookup m p _ Hc). simpl. rewrite !int64_id by done. rewrite bool_decide_and.
  case_bool_decide; cbn; rewrite ?(object_lookup m p _ Hc); cbn; rewrite ?int64_id by done;
    repeat case_bool_decide; cbn; rewrite ?(object_lookup m p _ Hc); cbn; by repeat case_bool_decide.
Qed.
End alone.

(** ** Calls that interleave *)

Section interleaved.
Context {S : PtrStore}.
Variable st : ptr_store.   (* what the store is, throughout *)
Variable size : nat.       (* of the heap *)

(** What a program still adds to the counters of each object, when it neither makes
    objects nor changes the store. *)
Definition delta : Type := nat → Counter → Z.
Definition add_at (p : nat) (f : Counter) (z : Z) : delta :=
  λ q g, if decide (p = q ∧ f = g) then z else 0.
Lemma add_at_spec p f z q g : add_at p f z q g = if decide (p = q) then if decide (f = g) then z else 0 else 0.
Proof. unfold add_at. repeat case_decide; naive_solver. Qed.

Definition adds_act {B} (a : action B) : (B → delta → Prop) → delta → Prop :=
  match a in action B return (B → delta → Prop) → delta → Prop with
  | GetByKey key => λ R δ, R (ps_get key st) δ
  | AddInt64 f p z => λ R δ, (p < size)%nat ∧ ∀ v, R v (λ q g, δ q g - add_at p f z q g)
  | LoadInt64 _ _ => λ R δ, ∀ v, R v δ
  | Timestamp _ => λ R δ, ∀ v, R v δ
  | Now => λ R δ, ∀ v, R v δ
  | StoreAdd _ => λ _ _, False
  | StoreDelete _ => λ _ _, False
  | New _ => λ _ _, False
  end.
Fixpoint adds {A} (t : prog A) (δ : delta) : Prop :=
  match t with
  | Ret _ => ∀ p f, δ p f = 0
  | Act a k => adds_act a (λ b, adds (k b)) δ
  end.

Lemma adds_act_mono {B} (a : action B) (R R' : B → delta → Prop) δ :
  (∀ b δ, R b δ → R' b δ) → adds_act a R δ → adds_act a R' δ.
Proof. intros H. destruct a; simpl; naive_solver. Qed.

Definition ptrs_valid : Prop := ∀ k p, ps_get k st = Some p → (p < size)%nat.

(** The calls that only move the counters. *)
Definition adjusts (o : exp_op) : bool :=
  match o with
  | OpRaise _ _ _ | OpLower _ _ _ | OpCreationObserved _ | OpDeletionObserved _ | OpSetPreSatisfied _ _ => true
  | _ => false
  end.
Definition amount (o : exp_op) (f : Counter) : Z :=
  match o, f with
  | OpRaise _ a _, FAdd => a
  | OpRaise _ _ d, FDel => d
  | OpLower _ a _, FAdd => int64 (- a)
  | OpLower _ _ d, FDel => int64 (- d)
  | OpCreationObserved _, FAdd => -1
  | OpDeletionObserved _, FDel => -1
  | _, _ => 0
  end.
Definition amounts (ops : list exp_op) : delta := λ p f,
  foldr (λ o z, (if decide (ps_get (op_key o) st = Some p) then amount o f else 0) + z) 0 ops.

(** The two additions of a call, and what comes after. *)
Lemma adds_Add {A} p a d (t : prog A) (δ : delta) :
  (p < size)%nat →
  (∀ δ', (∀ q f, δ' q f = δ q f - add_at p FAdd a q f - add_at p FDel d q f) → adds t δ') →
  adds (Add p a d ≫= λ _, t) δ.
Proof. intros Hp Ht. split; [done|]. intros v. split; [done|]. intros v2. by apply Ht. Qed.

Lemma adds_adjust {A} k a d (t : prog A) (δ : delta) :
  ptrs_valid →
  (∀ δ', (∀ q f, δ' q f = δ q f - if decide (ps_get k st = Some q) then match f with FAdd => a | FDel => d end else 0)
    → adds t δ') →
  adds (RaiseExpectations k a d ≫= λ _, t) δ.
Proof.
  intros Hv Ht. unfold RaiseExpectations, GetExpectations. cbn. destruct (ps_get k st) as [p|] eqn:Hp.
  - apply adds_Add; [by apply (Hv k)|]. intros δ' Hδ. apply Ht. intros q f. rewrite Hδ, !add_at_spec.
    destruct (decide (p = q)) as [->|Hne].
    + rewrite (decide_True (P := Some q = Some q)) by done. destruct f; simpl; lia.
    + rewrite (decide_False (P := Some p = Some q)) by congruence. lia.
  - apply Ht. intros q f. case_decide; [done|lia].
Qed.

Lemma adds_perform ops δ :
  ptrs_valid → forallb adjusts ops = true → (∀ p f, δ p f = amounts ops p f) → adds (perform ops) δ.
Proof.
  assert (int64 (- (1)) = -1) as Hm1 by done. assert (int64 (- 0) = 0) as Hm0 by done.
  intros Hv. revert δ. induction ops as [|o ops IH]; intros δ Hops Hδ; [exact Hδ|].
  simpl in Hops. apply andb_true_iff in Hops as [Ho Hops]. cbn [perform].
  destruct o as [| | |k a d|k a d|k|k| |k b]; try discriminate Ho; cbn [call_of].
  5: { apply IH; [done|]. intros q f. rewrite Hδ. simpl. case_decide; lia. }
  - apply (adds_adjust k a d); [done|]. intros δ' H. apply IH; [done|]. intros q f. rewrite H, Hδ. simpl.
    case_decide; destruct f; lia.
  - apply (adds_adjust k (int64 (- a)) (int64 (- d))); [done|]. intros δ' H. apply IH; [done|]. intros q f.
    rewrite H, Hδ. simpl. case_decide; destruct f; lia.
  - apply (adds_adjust k (int64 (- (1))) (int64 (- 0))); [done|]. intros δ' H. apply IH; [done|]. intros q f.
    rewrite H, Hδ. simpl. case_decide; destruct f; rewrite ?Hm1, ?Hm0; lia.
  - apply (adds_adjust k (int64 (- 0)) (int64 (- (1)))); [done|]. intros δ' H. apply IH; [done|]. intros q f.
    rewrite H, Hδ. simpl. case_decide; destruct f; rewrite ?Hm1, ?Hm0; lia.
Qed.

(** What no such program changes. *)
Definition same_objects (m m' : Shared) : Prop :=
  sh_store m' = sh_store m ∧ length (sh_heap m') = length (sh_heap m) ∧
  ∀ p, ce_key (object p m') = ce_key (object p m) ∧ ce_timestamp (object p m') = ce_timestamp (object p m).

#[local] Instance same_objects_preorder : PreOrder same_objects.
Proof.
  split; [by intros m|]. intros m1 m2 m3 (Hs & Hl & Ho) (Hs' & Hl' & Ho'). split; [congruence|]. split; [congruence|].
  intros p. destruct (Ho p), (Ho' p). split; congruence.
Qed.

Lemma object_alter g q m p s c :
  (q < length (sh_heap m))%nat →
  object p {| sh_heap := alter g q (sh_heap m); sh_store := s; sh_clock := c |} =
    if decide (q = p) then g (object p m) else object p m.
Proof.
  intros Hq. unfold object. simpl. rewrite !nth_lookup. case_decide as Hp.
  - subst. destruct (lookup_lt_is_Some_2 _ _ Hq) as [e He]. by rewrite list_lookup_alter_eq, He.
  - by rewrite list_lookup_alter_ne.
Qed.

Definition in_range (m : Shared) : Prop := ∀ k p f, ps_get k st = Some p → in_int64 (load f (object p m)).

Lemma act_adds {B} (a : action B) R δ m :
  adds_act a R δ → sh_store m = st → length (sh_heap m) = size → in_range m →
  ∃ δ', R (act a m).2 δ' ∧ same_objects m (act a m).1 ∧ in_range (act a m).1 ∧
    ∀ p f x, (p < size)%nat →
      int64 (load f (object p (act a m).1) + (δ' p f + x)) = int64 (load f (object p m) + (δ p f + x)).
Proof.
  intros Ha Hst Hsize Hr. destruct a as [key|p|p|e|f p z|f p|p|]; simpl in Ha |- *; try done;
    try (by exists δ; rewrite ?Hst).
  destruct Ha as [Hp Ha]. assert (p < length (sh_heap m))%nat as Hp' by lia. eexists. split; [apply Ha|].
  split; [|split].
  - split; [done|]. simpl. split; [apply length_alter|]. intros q. rewrite object_alter by done.
    case_decide; [|done]. by rewrite key_store, timestamp_store.
  - intros k q g Hq. rewrite object_alter by done. case_decide; [|by apply (Hr k)]. subst. rewrite load_store.
    case_decide; [apply int64_range|by apply (Hr k)].
  - intros q g x Hq. rewrite object_alter, add_at_spec by done. case_decide; [|f_equal; lia]. subst.
    rewrite load_store. case_decide; [|f_equal; lia]. subst. rewrite int64_add_l. f_equal. lia.
Qed.

(** The sum over all threads. *)
Definition total (δs : list delta) : delta := λ p f, foldr (λ δ z, δ p f + z) 0 δs.

Lemma total_insert δs i δ δ' p f :
  δs !! i = Some δ → total (<[i := δ']> δs) p f = δ' p f + (total δs p f - δ p f).
Proof.
  revert i. induction δs as [|δ1 δs IH]; intros [|i] Hi; [done..|injection Hi as ->; simpl; lia|].
  change (<[Datatypes.S i := δ']> (δ1 :: δs)) with (δ1 :: <[i := δ']> δs). specialize (IH i Hi).
  unfold total in *. simpl in *. lia.
Qed.

(** What the counters are and what is still to be added stays the same, up to the
    wrap-around. *)
Lemma steps_add ts m ts' m' δs :
  rtc step (ts, m) (ts', m') → Forall2 adds ts δs → sh_store m = st → length (sh_heap m) = size → in_range m →
  ∃ δs', Forall2 adds ts' δs' ∧ same_objects m m' ∧ in_range m' ∧
    ∀ p f, (p < size)%nat →
      int64 (load f (object p m') + total δs' p f) = int64 (load f (object p m) + total δs p f).
Proof.
  intros Hrun. remember (ts, m) as c eqn:Hc. remember (ts', m') as c' eqn:Hc'.
  revert ts m ts' m' δs Hc Hc'. induction Hrun as [c|c c1 c2 Hstep _ IH]; intros ts m ts' m' δs -> Hc' Hδ Hst Hsize Hr.
  { injection Hc' as <- <-. by exists δs. }
  inversion Hstep as [i ts1 m1 B a k Hi|ts1 m1 d]; simplify_eq.
  - destruct (Forall2_lookup_l _ _ _ _ _ Hδ Hi) as (δ & Hiδ & Ha).
    destruct (act_adds a _ δ m Ha Hst Hsize Hr) as (δ' & Hk & Hsame & Hr1 & Hadd).
    destruct (IH _ _ ts' m' (<[i := δ']> δs) eq_refl eq_refl) as (δs' & Hts' & Hsame' & Hr' & Hsum);
      [by apply Forall2_insert|by destruct Hsame as [-> _]|by destruct Hsame as (_ & -> & _)|done|].
    exists δs'. split; [done|]. split; [by etrans|]. split; [done|]. intros p f Hp.
    rewrite Hsum, (total_insert δs i δ), Hadd by done. f_equal. lia.
  - by apply (IH ts (tick d m) ts' m' δs).
Qed.

Lemma total_finished ts δs p f : Forall finished ts → Forall2 adds ts δs → total δs p f = 0.
Proof.
  intros Hts Hδ. induction Hδ as [|t δ ts δs Ht _ IH]; [done|]. inversion Hts as [|?? Hf Hfs]; subst.
  destruct t; [|done]. simpl in *. rewrite Ht. by rewrite IH.
Qed.

Lemma total_perform css p f : total (amounts <$> css) p f = amounts (concat css) p f.
Proof.
  induction css as [|ops css IH]; [done|]. unfold total in *. rewrite fmap_cons. cbn [foldr concat].
  rewrite IH. clear IH. unfold amounts.
  induction ops as [|o ops IH]; simpl; [done|]. rewrite <-IH. lia.
Qed.
End interleaved.

(** ** Adding up *)

Section sums.
Context {S : PtrStore} {SL : PtrStoreLaws S}.

(** The ledger after calls that only move the counters. *)
Lemma ledger_adjusted st ops l k p :
  forallb adjusts ops = true → ps_get k st = Some p →
  (∀ k', ps_get k' st = Some p → k' = k) →
  ∀ e, l !! k = Some e →
  ∃ e', ledger_run ops l !! k = Some e' ∧ en_since e' = en_since e ∧
    int64 (en_add e') = int64 (en_add e + amounts st ops p FAdd) ∧
    int64 (en_del e') = int64 (en_del e + amounts st ops p FDel).
Proof.
  intros Hops Hp Hinj. revert l. induction ops as [|o ops IH]; intros l e He.
  { exists e. simpl. by rewrite !Z.add_0_r. }
  simpl in Hops. apply andb_true_iff in Hops as [Ho Hops]. simpl.
  destruct (decide (op_key o = k)) as [Hk|Hk].
  - rewrite !(decide_True (P := ps_get (op_key o) st = Some p)) by by rewrite Hk.
    assert (∃ e1, ledger_exec o l !! k = Some e1 ∧ en_since e1 = en_since e ∧
      (∀ x, int64 (en_add e1 + x) = int64 (en_add e + (amount o FAdd + x))) ∧
      (∀ x, int64 (en_del e1 + x) = int64 (en_del e + (amount o FDel + x)))) as (e1 & He1 & Ht1 & Ha1 & Hd1).
    { destruct o; try discriminate Ho; simpl in Hk |- *; subst; unfold ledger_add; rewrite ?lookup_alter_eq, ?He;
        simpl; eexists; (split; [done|]); (split; [done|]); simpl; split; intros x; try (f_equal; lia).
      all: rewrite (Z.add_comm (int64 _) x), Z.add_assoc, int64_add_r; f_equal; lia. }
    destruct (IH Hops _ e1 He1) as (e' & He' & Ht' & Ha' & Hd'). exists e'. split; [done|].
    split; [congruence|]. by rewrite Ha', Hd', Ha1, Hd1.
  - rewrite !(decide_False (P := ps_get (op_key o) st = Some p)) by (intros H; by apply Hk, Hinj).
    apply IH; [done|]. by rewrite ledger_exec_other.
Qed.

Lemma ledger_adjusted_None ops l k :
  forallb adjusts ops = true → l !! k = None → ledger_run ops l !! k = None.
Proof.
  revert l. induction ops as [|o ops IH]; intros l Hops Hk; [done|].
  simpl in Hops. apply andb_true_iff in Hops as [Ho Hops]. apply IH; [done|].
  destruct o; try discriminate Ho; simpl; unfold ledger_add; try done;
    rewrite lookup_alter; case_decide; subst; by rewrite ?Hk.
Qed.

(** C31 (interleaved calls add up). Any number of threads that raise and lower
    expectations, in any interleaving of the atomic additions, can all come to their
    end, and when they have, the memory is what the calls would have made of it one
    after the other: no addition is lost. *)
Theorem interleaved_calls_add_up (css : list (list exp_op)) (l : gmap string entry) (m : Shared) :
  shared_represents m l → Forall (λ ops, forallb adjusts ops = true) css →
  (∃ ts' m', rtc step (perform <$> css, m) (ts', m') ∧ Forall finished ts') ∧
  ∀ ts' m', rtc step (perform <$> css, m) (ts', m') → Forall finished ts' →
    shared_represents m' (ledger_run (concat css) l).
Proof using Type.
  intros Hm Hcss. split; [apply threads_finish|]. intros ts' m' Hrun Hts'.
  set (st := sh_store m). set (size := length (sh_heap m)).
  assert (ptrs_valid st size) as Hv.
  { intros k p Hp. pose proof (Hm k) as Hk. unfold st in Hp. rewrite Hp in Hk. destruct Hk as (e & _ & Hc).
    by apply lookup_lt_Some in Hc. }
  assert (in_range st m) as Hr.
  { intros k p f Hp. pose proof (Hm k) as Hk. unfold st in Hp. rewrite Hp in Hk. destruct Hk as (e & _ & Hc).
    rewrite (object_lookup m p _ Hc). destruct f; apply int64_range. }
  assert (Forall2 (adds st size) (perform <$> css) (amounts st <$> css)) as Hadds.
  { clear Hrun. induction Hcss as [|ops css Hops _ IH]; constructor; [by apply adds_perform|done]. }
  destruct (steps_add st size _ m ts' m' _ Hrun Hadds eq_refl eq_refl Hr)
    as (δs' & Hδ' & (Hst & Hsize & Hobj) & Hr' & Hsum).
  assert (forallb adjusts (concat css) = true) as Hops.
  { clear -Hcss. induction Hcss as [|ops css Hops _ IH]; [done|]. simpl. rewrite forallb_app, Hops. done. }
  intros k. rewrite Hst. fold st. pose proof (Hm k) as Hk. fold st in Hk.
  destruct (ps_get k st) as [p|] eqn:Hp; [|by apply ledger_adjusted_None].
  destruct Hk as (e & He & Hc).
  destruct (ledger_adjusted st (concat css) l k p Hops Hp) with (e := e) as (e' & He' & Ht' & Ha' & Hd'); [|done|].
  { intros k' Hk'. pose proof (Hm k') as H. fold st in H. rewrite Hk' in H. destruct H as (e2 & _ & Hc2).
    rewrite Hc in Hc2. by injection Hc2. }
  exists e'. split; [done|]. pose proof (Hv k p Hp) as Hlt.
  destruct (lookup_lt_is_Some_2 (sh_heap m') p) as [c Hc']; [lia|]. rewrite Hc'. f_equal.
  pose proof (object_lookup m' p c Hc') as Ho'. pose proof (object_lookup m p _ Hc) as Ho.
  pose proof (Hsum p FAdd Hlt) as Ha. pose proof (Hsum p FDel Hlt) as Hd. destruct (Hobj p) as [Hkey Htime].
  pose proof (Hr' k p FAdd Hp) as Hra. pose proof (Hr' k p FDel Hp) as Hrd.
  rewrite (total_finished st size ts' δs') in Ha, Hd by done.
  rewrite total_perform, Ho, Ho' in Ha, Hd. rewrite Ho' in Hra, Hrd, Hkey, Htime. rewrite Ho in Hkey, Htime.
  simpl in *. rewrite Z.add_0_r, int64_add_l, int64_id in Ha, Hd by done.
  destruct c as [ca cd ck ct]. simpl in *. unfold entry_cell. by rewrite Ha', Hd', Ha, Hd, Hkey, Htime, Ht'.
Qed.
End sums.

(** ** A question among calls that only lower its key *)

Section question.
Context {S : PtrStore} {SL : PtrStoreLaws S}.
Variable k : string.   (* the key that is asked about *)

(** What a thread knows: the keys of the objects it has pointers to. *)
Definition keys : Type := gmap nat string.

(** The thread lowers counters of objects of [k] by [δ] at most, and changes neither
    them nor what is stored under [k] otherwise. *)
Definition lowers_act {B} (a : action B) (K : keys) :
    (B → keys → (Counter → Z) → Prop) → (Counter → Z) → Prop :=
  match a in action B return (B → keys → (Counter → Z) → Prop) → (Counter → Z) → Prop with
  | GetByKey key => λ R δ, ∀ r, R r (match r with Some q => <[q := key]> K | None => K end) δ
  | StoreAdd q => λ R δ, ∃ key, K !! q = Some key ∧ key ≠ k ∧ R tt K δ
  | StoreDelete q => λ R δ, ∃ key, K !! q = Some key ∧ key ≠ k ∧ R tt K δ
  | New e => λ R δ, ∀ q, R q (<[q := ce_key e]> K) δ
  | AddInt64 f q z => λ R δ, ∃ key, K !! q = Some key ∧ ∀ v,
      if decide (key = k) then z ≤ 0 ∧ R v K (λ g, δ g + if decide (f = g) then z else 0) else R v K δ
  | LoadInt64 _ _ => λ R δ, ∀ v, R v K δ
  | Timestamp _ => λ R δ, ∀ v, R v K δ
  | Now => λ R δ, ∀ v, R v K δ
  end.
Fixpoint lowers {A} (t : prog A) (K : keys) (δ : Counter → Z) : Prop :=
  match t with
  | Ret _ => ∀ f, 0 ≤ δ f
  | Act a c => lowers_act a K (λ b, lowers (c b)) δ
  end.

Lemma lowers_nonneg {A} (t : prog A) K δ : lowers t K δ → ∀ f, 0 ≤ δ f.
Proof using Type.
  revert K δ. induction t as [a|B a c IH]; intros K δ Ht f; [apply Ht|].
  destruct a as [key|q|q|e|g q z|g q|q|]; simpl in Ht.
  - by apply (IH None K), (Ht None).
  - destruct Ht as (key & _ & _ & Ht). by apply (IH tt K).
  - destruct Ht as (key & _ & _ & Ht). by apply (IH tt K).
  - by apply (IH 0%nat _ _ (Ht 0%nat)).
  - destruct Ht as (key & _ & Ht). specialize (Ht 0). case_decide; [|by apply (IH 0 K)].
    destruct Ht as [Hz Ht]. specialize (IH 0 K _ Ht f). simpl in IH. case_decide; lia.
  - by apply (IH 0 K), Ht.
  - by apply (IH 0 K), Ht.
  - by apply (IH 0 K), Ht.
Qed.

(** *** The calls *)

(** Calls about other keys, and observations of [k]. *)
Definition only_lowers (o : exp_op) : Prop :=
  op_key o ≠ k ∨
  match o with
  | OpLower _ a d => 0 ≤ a ≤ 9223372036854775807 ∧ 0 ≤ d ≤ 9223372036854775807
  | OpCreationObserved _ | OpDeletionObserved _ | OpSetPreSatisfied _ _ => True
  | _ => False
  end.
Definition lowering (o : exp_op) (f : Counter) : Z :=
  if decide (op_key o = k) then
    match o, f with
    | OpLower _ a _, FAdd => a
    | OpLower _ _ d, FDel => d
    | OpCreationObserved _, FAdd => 1
    | OpDeletionObserved _, FDel => 1
    | _, _ => 0
    end
  else 0.
Definition lowerings (ops : list exp_op) (f : Counter) : Z := foldr (λ o z, lowering o f + z) 0 ops.

Lemma lowers_Add {A} p key a d (t : prog A) K δ :
  K !! p = Some key → (key = k → a ≤ 0 ∧ d ≤ 0) →
  (∀ δ', (∀ f, δ' f = δ f + if decide (key = k) then match f with FAdd => a | FDel => d end else 0) →
     lowers t K δ') →
  lowers (Add p a d ≫= λ _, t) K δ.
Proof using Type.
  intros Hp Hk Ht. exists key. split; [done|]. intros v. case_decide as Hd.
  - destruct (Hk Hd). split; [done|]. exists key. split; [done|]. intros v2. rewrite decide_True by done.
    split; [done|]. apply Ht. intros []; simpl; lia.
  - exists key. split; [done|]. intros v2. rewrite decide_False by done. apply Ht. intros []; lia.
Qed.

Lemma lowers_adjust {A} key a d (t : prog A) K δ :
  (key = k → a ≤ 0 ∧ d ≤ 0) →
  (∀ K' δ', (∀ f, δ f + (if decide (key = k) then match f with FAdd => a | FDel => d end else 0) ≤ δ' f) →
     lowers t K' δ') →
  lowers (RaiseExpectations key a d ≫= λ _, t) K δ.
Proof using Type.
  intros Hk Ht. intros [q|].
  - apply (lowers_Add q key); [apply lookup_insert_eq|done|]. intros δ' H. apply Ht. intros f. by rewrite H.
  - apply Ht. intros f. case_decide as Hd; [|lia]. destruct (Hk Hd). destruct f; lia.
Qed.

Lemma lowers_Set {A} key a d (t : prog A) K δ :
  key ≠ k → (∀ K', lowers t K' δ) → lowers (SetExpectations key a d ≫= λ _, t) K δ.
Proof using Type. intros Hk Ht now q. exists key. split; [apply lookup_insert_eq|]. split; [done|]. apply Ht. Qed.

Lemma lowers_Delete {A} key (t : prog A) K δ :
  key ≠ k → (∀ K', lowers t K' δ) → lowers (DeleteExpectations key ≫= λ _, t) K δ.
Proof using Type.
  intros Hk Ht [q|]; [|apply Ht]. exists key. split; [apply lookup_insert_eq|]. split; [done|]. apply Ht.
Qed.

Lemma lowers_perform ops K δ :
  Forall only_lowers ops → (∀ f, lowerings ops f ≤ δ f) → lowers (perform ops) K δ.
Proof using Type.
  assert (int64 (- (1)) = -1) as Hm1 by done. assert (int64 (- 0) = 0) as Hm0 by done.
  intros Hops. revert K δ. induction Hops as [|o ops Ho _ IH]; intros K δ Hδ; [exact Hδ|].
  simpl in Hδ. unfold lowering in Hδ. cbn [perform].
  destruct o as [now key a d|now key a|now key d|key a d|key a d|key|key|key|key b]; cbn [call_of];
    unfold only_lowers in Ho; simpl in Ho, Hδ.
  1-3: assert (key ≠ k) as Hne by naive_solver; apply lowers_Set; [done|]; intros K'; apply IH; intros f;
    specialize (Hδ f); rewrite decide_False in Hδ by done; lia.
  - assert (key ≠ k) as Hne by naive_solver. apply lowers_adjust; [done|]. intros K' δ' H. apply IH. intros f.
    specialize (Hδ f). specialize (H f). rewrite decide_False in Hδ, H by done. lia.
  - apply (lowers_adjust key (int64 (- a)) (int64 (- d))).
    + intros Hk. destruct Ho as [Ho|[Ha Hd]]; [done|]. rewrite !int64_id by (unfold in_int64; lia). lia.
    + intros K' δ' H. apply IH. intros f. specialize (Hδ f). specialize (H f). case_decide as Hk; [|lia].
      destruct Ho as [Ho|[Ha Hd]]; [done|]. rewrite !int64_id in H by (unfold in_int64; lia). destruct f; lia.
  - apply (lowers_adjust key (int64 (- (1))) (int64 (- 0))); rewrite Hm1, Hm0; [done|].
    intros K' δ' H. apply IH. intros f. specialize (Hδ f). specialize (H f). case_decide; destruct f; lia.
  - apply (lowers_adjust key (int64 (- 0)) (int64 (- (1)))); rewrite Hm1, Hm0; [done|].
    intros K' δ' H. apply IH. intros f. specialize (Hδ f). specialize (H f). case_decide; destruct f; lia.
  - assert (key ≠ k) as Hne by naive_solver. apply lowers_Delete; [done|]. intros K'. apply IH. intros f. specialize (Hδ f).
    rewrite decide_False in Hδ by done. lia.
  - apply IH. intros f. specialize (Hδ f). case_decide; lia.
Qed.

(** *** What the threads keep *)

(** Pointers do not dangle, and objects are stored under their own keys. *)
Definition store_ok (m : Shared) : Prop :=
  ∀ key p, ps_get key (sh_store m) = Some p → (p < length (sh_heap m))%nat ∧ ce_key (object p m) = key.
Definition knows (K : keys) (m : Shared) : Prop :=
  ∀ p key, K !! p = Some key → (p < length (sh_heap m))%nat ∧ ce_key (object p m) = key.

(** The objects stay, with their keys. *)
Definition grows (m m' : Shared) : Prop :=
  (length (sh_heap m) ≤ length (sh_heap m'))%nat ∧
  ∀ p, (p < length (sh_heap m))%nat → ce_key (object p m') = ce_key (object p m).

Lemma knows_grows K m m' : grows m m' → knows K m → knows K m'.
Proof using Type. intros [Hl Hk] HK p key Hp. destruct (HK p key Hp) as [Hlt <-]. split; [lia|by apply Hk]. Qed.

Lemma knows_insert K m p key :
  knows K m → (p < length (sh_heap m))%nat → ce_key (object p m) = key → knows (<[p := key]> K) m.
Proof using Type. intros HK Hp Hkey q key' [[<- <-]|[_ Hq]]%lookup_insert_Some; [done|by apply HK]. Qed.

(** From one state to a later one, for the one that asks: what is stored under [k] is the
    same object, with counters that are no higher; the clock does not go back. *)
Definition lowered (m m' : Shared) : Prop :=
  ps_get k (sh_store m') = ps_get k (sh_store m) ∧ sh_clock m ≤ sh_clock m' ∧
  ∀ p, ps_get k (sh_store m) = Some p →
    ce_timestamp (object p m') = ce_timestamp (object p m) ∧ ∀ f, load f (object p m') ≤ load f (object p m).

#[local] Instance lowered_preorder : PreOrder lowered.
Proof using Type.
  split; [intros m; by split_and!|]. intros m1 m2 m3 (Hs & Hc & Ho) (Hs' & Hc' & Ho').
  split; [congruence|]. split; [lia|]. intros p Hp. rewrite <-Hs in Hp. destruct (Ho' p Hp) as [Ht' Hf'].
  rewrite Hs in Hp. destruct (Ho p Hp) as [Ht Hf]. split; [congruence|]. intros f. specialize (Hf f). specialize (Hf' f).
  lia.
Qed.

(** The counters of [k] can be lowered by [δ] without an underflow. *)
Definition enough (m : Shared) (δ : Counter → Z) : Prop :=
  ∀ p f, ps_get k (sh_store m) = Some p → in_int64 (load f (object p m)) ∧ in_int64 (load f (object p m) - δ f).

Lemma object_app p m e s c :
  (p < length (sh_heap m))%nat →
  object p {| sh_heap := (sh_heap m ++ [e])%list; sh_store := s; sh_clock := c |} = object p m.
Proof using Type. intros Hp. unfold object. simpl. by rewrite app_nth1. Qed.

(** The store changes under other keys. *)
Lemma store_changes m s δ :
  ps_get k s = ps_get k (sh_store m) → enough m δ →
  let m' := {| sh_heap := sh_heap m; sh_store := s; sh_clock := sh_clock m |} in
  grows m m' ∧ lowered m m' ∧ enough m' δ.
Proof using Type.
  intros Hs He m'. split; [done|]. split; [by split_and!|]. intros p f Hp. simpl in Hp. rewrite Hs in Hp. by apply He.
Qed.

(** An addition to an object of [key]. *)
Lemma addition_lowers f q z key m (δ δ' : Counter → Z) :
  (q < length (sh_heap m))%nat → ce_key (object q m) = key → store_ok m → enough m δ →
  (∀ g, 0 ≤ δ' g) →
  (if decide (key = k) then z ≤ 0 ∧ ∀ g, δ' g = δ g + (if decide (f = g) then z else 0) else ∀ g, δ' g = δ g) →
  let m' := (act (AddInt64 f q z) m).1 in
  store_ok m' ∧ grows m m' ∧ lowered m m' ∧ enough m' δ'.
Proof using Type.
  intros Hq Hkey Hm He Hnn Hz m'.
  assert (∀ p, ce_key (object p m') = ce_key (object p m) ∧ ce_timestamp (object p m') = ce_timestamp (object p m))
    as Hobj.
  { intros p. unfold m'. simpl. rewrite object_alter by done. destruct (decide (q = p)); [|done].
    by rewrite key_store, timestamp_store. }
  assert (length (sh_heap m') = length (sh_heap m)) as Hlen by apply length_alter.
  assert (∀ p g, ps_get k (sh_store m) = Some p →
    load g (object p m') ≤ load g (object p m) ∧
    in_int64 (load g (object p m')) ∧ in_int64 (load g (object p m') - δ' g)) as Hload.
  { intros p g Hp. destruct (Hm k p Hp) as [_ Hpk]. destruct (He p g Hp) as [Hin Hlow]. specialize (Hnn g).
    unfold m'. simpl. rewrite object_alter by done. destruct (decide (q = p)) as [->|Hqp].
    - rewrite load_store. assert (key = k) as Hk by congruence. rewrite decide_True in Hz by done.
      destruct Hz as [Hz Hδ]. rewrite Hδ in Hnn |- *. case_decide; [subst g|]; [|rewrite Z.add_0_r; split_and!; [lia|done..]].
      rewrite int64_id by (unfold in_int64 in *; lia). unfold in_int64 in *. lia.
    - split; [lia|]. split; [done|]. case_decide; [destruct Hz as [Hz Hδ]|rename Hz into Hδ]; rewrite Hδ in Hnn |- *;
        unfold in_int64 in *; [|lia]. case_decide; lia. }
  split; [|split; [|split]].
  - intros key' p Hp. destruct (Hm key' p Hp). by rewrite Hlen, (proj1 (Hobj p)).
  - split; [by rewrite Hlen|]. intros p _. apply Hobj.
  - split; [done|]. split; [done|]. intros p Hp. split; [apply Hobj|]. intros g. by apply Hload.
  - intros p g Hp. by apply Hload.
Qed.

Lemma act_lowers {B} (a : action B) (c : B → prog (option bool)) K δ δo m :
  lowers_act a K (λ b, lowers (c b)) δ → knows K m → store_ok m →
  enough m (λ f, δ f + δo f) → (∀ f, 0 ≤ δo f) →
  let m' := (act a m).1 in
  ∃ K' δ', lowers (c (act a m).2) K' δ' ∧ knows K' m' ∧ store_ok m' ∧ grows m m' ∧ lowered m m' ∧
    enough m' (λ f, δ' f + δo f).
Proof using SL.
  intros Ha HK Hm He Hδo m'. destruct a as [key|q|q|e|g q z|g q|q|]; simpl in Ha, m'.
  - exists (match ps_get key (sh_store m) with Some q => <[q := key]> K | None => K end), δ.
    split; [apply Ha|]. split; [|done]. destruct (ps_get key (sh_store m)) as [q|] eqn:Hq; [|done].
    destruct (Hm key q Hq). by apply knows_insert.
  - destruct Ha as (key & Hq & Hk & Ha). destruct (HK q key Hq) as [Hlt Hkey]. exists K, δ. split; [done|].
    split; [exact HK|]. split.
    + intros key' p. simpl. rewrite ps_get_put. case_decide; [|apply Hm]. intros [= <-]. done.
    + apply store_changes; [|done]. rewrite ps_get_put, Hkey. by rewrite decide_False.
  - destruct Ha as (key & Hq & Hk & Ha). destruct (HK q key Hq) as [Hlt Hkey]. exists K, δ. split; [done|].
    split; [exact HK|]. split.
    + intros key' p. simpl. rewrite ps_get_del. case_decide; [done|apply Hm].
    + apply store_changes; [|done]. rewrite ps_get_del, Hkey. by rewrite decide_False.
  - assert (grows m m') as Hg.
    { split; [unfold m'; simpl; rewrite length_app; lia|]. intros p Hp. unfold m'. simpl. by rewrite object_app. }
    exists (<[length (sh_heap m) := ce_key e]> K), δ. split; [apply Ha|]. split.
    { apply knows_insert; [by eapply knows_grows|unfold m'; simpl; rewrite length_app; simpl; lia|].
      unfold object. simpl. by rewrite nth_middle. }
    split; [|split; [done|split]].
    + intros key p Hp. destruct (Hm key p Hp) as [Hlt <-]. destruct Hg as [Hl Hkey]. split; [lia|by apply Hkey].
    + split; [done|]. split; [done|]. intros p Hp. destruct (Hm k p Hp). unfold m'. simpl. by rewrite object_app.
    + intros p f Hp. destruct (Hm k p Hp). unfold m'. simpl. rewrite object_app by done. by apply He.
  - destruct Ha as (key & Hq & Ha). destruct (HK q key Hq) as [Hlt Hkey].
    set (δ' := λ f, if decide (key = k) then δ f + (if decide (g = f) then z else 0) else δ f).
    assert (lowers (c (act (AddInt64 g q z) m).2) K δ') as Hc.
    { specialize (Ha (act (AddInt64 g q z) m).2). unfold δ'. by destruct (decide (key = k)); [apply Ha|]. }
    exists K, δ'. split; [done|].
    destruct (addition_lowers g q z key m (λ f, δ f + δo f) (λ f, δ' f + δo f)) as (Hm' & Hg & Hl & He'); try done.
    { intros f. pose proof (lowers_nonneg _ _ _ Hc f). specialize (Hδo f). lia. }
    { unfold δ'. specialize (Ha 0). case_decide; [|done]. split; [apply Ha|]. intros f. lia. }
    split_and!; try done. by eapply knows_grows.
  - exists K, δ. split; [apply Ha|]. by split_and!.
  - exists K, δ. split; [apply Ha|]. by split_and!.
  - exists K, δ. split; [apply Ha|]. by split_and!.
Qed.

(** *** The threads around the one that asks *)

Definition pending (xs : list (keys * (Counter → Z))) (f : Counter) : Z := foldr (λ x z, x.2 f + z) 0 xs.

Lemma pending_insert xs i x x' f : xs !! i = Some x → pending (<[i := x']> xs) f = x'.2 f + (pending xs f - x.2 f).
Proof using Type.
  revert i. induction xs as [|x1 xs IH]; intros [|i] Hi; [done..|injection Hi as ->; simpl; lia|].
  change (<[Datatypes.S i := x']> (x1 :: xs)) with (x1 :: <[i := x']> xs). specialize (IH i Hi). simpl in *. lia.
Qed.

Lemma pending_rest xs i x f : (∀ y, y ∈ xs → 0 ≤ y.2 f) → xs !! i = Some x → 0 ≤ pending xs f - x.2 f.
Proof using Type.
  revert i. induction xs as [|x1 xs IH]; intros [|i] Hxs Hi; [done..| |].
  - injection Hi as ->. simpl. assert (0 ≤ pending xs f); [|lia]. clear IH.
    induction xs as [|y xs IH]; simpl; [done|]. assert (0 ≤ y.2 f) by (apply Hxs; right; left).
    assert (0 ≤ pending xs f); [|lia]. apply IH. intros z Hz. apply Hxs. apply elem_of_cons in Hz as [->|Hz]; [left|by right; right].
  - assert (0 ≤ pending xs f - x.2 f) by (apply (IH i); [intros y Hy; apply Hxs; by right|done]).
    assert (0 ≤ x1.2 f) by (apply Hxs; left). simpl. lia.
Qed.

Definition calm (ts : list (prog (option bool))) (m : Shared) : Prop :=
  ∃ xs, Forall2 (λ t x, lowers t x.1 x.2 ∧ knows x.1 m) ts xs ∧ store_ok m ∧ enough m (pending xs).

Lemma calm_step i ts m B (a : action B) c :
  calm ts m → ts !! i = Some (Act a c) →
  calm (<[i := c (act a m).2]> ts) (act a m).1 ∧ lowered m (act a m).1.
Proof using SL.
  intros (xs & Hxs & Hm & He) Hi. destruct (Forall2_lookup_l _ _ _ _ _ Hxs Hi) as ([K δ] & Hx & Ha & HK).
  simpl in Ha, HK.
  assert (∀ f, 0 ≤ pending xs f - δ f) as Hrest.
  { intros f. apply (pending_rest xs i (K, δ)); [|done]. intros y Hy.
    apply list_elem_of_lookup_1 in Hy as [j Hj]. destruct (Forall2_lookup_r _ _ _ _ _ Hxs Hj) as (t & _ & Ht & _).
    by eapply lowers_nonneg. }
  destruct (act_lowers a c K δ (λ f, pending xs f - δ f) m) as (K' & δ' & Hc & HK' & Hm' & Hg & Hl & He'); try done.
  { intros p f Hp. destruct (He p f Hp). replace (δ f + (pending xs f - δ f)) with (pending xs f) by lia. done. }
  split; [|done]. exists (<[i := (K', δ')]> xs). split; [|split; [done|]].
  - apply Forall2_insert; [|done]. eapply Forall2_impl; [exact Hxs|]. intros t x [Ht Hk]. split; [done|].
    by eapply knows_grows.
  - intros p f Hp. rewrite (pending_insert xs i (K, δ)) by done. by apply He'.
Qed.

Lemma calm_tick ts m d : 0 ≤ d → calm ts m → calm ts (tick d m) ∧ lowered m (tick d m).
Proof using Type. intros Hd Hc. split; [exact Hc|]. split; [done|]. split; [simpl; lia|done]. Qed.

(** *** The question *)

(** What is left of the question from each of its points on. *)
Definition told (b : bool) : prog (option bool) := mret (Some b).
Definition or_expired (e : nat) (fulfilled : bool) : prog bool :=
  if fulfilled then mret true else expired ← isExpired e; if expired : bool then mret true else mret false.
Definition when_known (e : nat) (fulfilled : bool) : prog (option bool) := or_expired e fulfilled ≫= told.
Definition first_load (e : nat) : prog (option bool) := (Fulfilled e ≫= or_expired e) ≫= told.
Definition second_load (e : nat) : prog (option bool) :=
  ((del ← atomically (LoadInt64 FDel e); mret (bool_decide (del ≤ 0))) ≫= or_expired e) ≫= told.
Definition clock_read (e : nat) (timestamp : Time) : prog (option bool) :=
  now ← atomically Now;
  expired ← (if bool_decide (now - timestamp > ExpectationsTimeout) then mret true else mret false); told expired.

Definition answers (m : Shared) (b : bool) : Prop := run (SatisfiedExpectations k) m = (m, b).
Definition unfulfilled (p : nat) (m : Shared) : Prop := 0 < load FAdd (object p m) ∨ 0 < load FDel (object p m).

Lemma answers_object m p :
  ps_get k (sh_store m) = Some p →
  answers m (bool_decide (load FAdd (object p m) ≤ 0) && bool_decide (load FDel (object p m) ≤ 0) ||
             bool_decide (sh_clock m - ce_timestamp (object p m) > ExpectationsTimeout)).
Proof using Type.
  intros Hp. unfold answers, SatisfiedExpectations, GetExpectations. rewrite run_prog_bind. cbn. rewrite Hp. cbn.
  repeat (case_bool_decide; cbn); done.
Qed.
Lemma answers_None m : ps_get k (sh_store m) = None → answers m true.
Proof using Type. intros Hp. unfold answers, SatisfiedExpectations, GetExpectations. rewrite run_prog_bind. cbn. by rewrite Hp. Qed.

(** How far the question has come. [Past] are the states it has seen. *)
Inductive stage (Past : Shared → Prop) (m : Shared) : prog (option bool) → Prop :=
| at_start : stage Past m (ask k)
| at_first p : ps_get k (sh_store m) = Some p → stage Past m (first_load p)
| at_second p :
    ps_get k (sh_store m) = Some p → load FAdd (object p m) ≤ 0 → stage Past m (second_load p)
| at_expiry p m1 :
    ps_get k (sh_store m) = Some p → Past m1 → lowered m1 m → unfulfilled p m1 → stage Past m (when_known p false)
| at_clock p m1 :
    ps_get k (sh_store m) = Some p → Past m1 → lowered m1 m → unfulfilled p m1 →
    stage Past m (clock_read p (ce_timestamp (object p m)))
| at_end b m1 : Past m1 → answers m1 b → stage Past m (told b).

Lemma stage_lowered (Past Past' : Shared → Prop) m m' t :
  lowered m m' → (∀ m1, Past m1 → Past' m1) → stage Past m t → stage Past' m' t.
Proof using Type.
  intros Hl HP. pose proof Hl as (Hs & Hc & Ho).
  intros [|p Hp|p Hp Ha|p m1 Hp Hm1 Hl1 Hu|p m1 Hp Hm1 Hl1 Hu|b m1 Hm1 Hb].
  - apply at_start.
  - apply at_first. congruence.
  - apply at_second; [congruence|]. destruct (Ho p Hp) as [_ Hf]. specialize (Hf FAdd). lia.
  - apply (at_expiry _ _ p m1); [congruence|by apply HP|by etrans|done].
  - destruct (Ho p Hp) as [<- _]. apply (at_clock _ _ p m1); [congruence|by apply HP|by etrans|done].
  - apply (at_end _ _ b m1); [by apply HP|done].
Qed.

(** One more step of the question. It writes nothing. *)
Definition next (t : prog (option bool)) (m : Shared) : Conf :=
  match t with Ret _ => ([t], m) | Act a c => ([c (act a m).2], (act a m).1) end.

#[local] Arguments load : simpl never.
Lemma stage_next (Past Past' : Shared → Prop) m t :
  (∀ m1, Past m1 → Past' m1) → Past' m → stage Past m t → ∃ t', next t m = ([t'], m) ∧ stage Past' m t'.
Proof using Type.
  intros HP Hm [|p Hp|p Hp Ha|p m1 Hp Hm1 Hl1 Hu|p m1 Hp Hm1 Hl1 Hu|b m1 Hm1 Hb].
  - destruct (ps_get k (sh_store m)) as [p|] eqn:Hp; eexists; (split; [cbn; rewrite Hp; reflexivity|]).
    + by apply (at_first _ _ p).
    + apply (at_end _ _ true m); [done|]. by apply answers_None.
  - destruct (bool_decide (load FAdd (object p m) ≤ 0)) eqn:Ha; eexists; (split; [cbn; rewrite Ha; reflexivity|]).
    + apply (at_second _ _ p); [done|]. by apply bool_decide_eq_true in Ha.
    + apply (at_expiry _ _ p m); [done..|]. apply bool_decide_eq_false in Ha. left. lia.
  - destruct (bool_decide (load FDel (object p m) ≤ 0)) eqn:Hd; eexists; (split; [cbn; rewrite Hd; reflexivity|]).
    + apply (at_end _ _ true m); [done|]. pose proof (answers_object m p Hp) as H.
      by rewrite Hd, bool_decide_true in H.
    + apply (at_expiry _ _ p m); [done..|]. apply bool_decide_eq_false in Hd. right. lia.
  - eexists. split; [reflexivity|]. apply (at_clock _ _ p m1); [done|by apply HP|done..].
  - destruct (bool_decide (sh_clock m - ce_timestamp (object p m) > ExpectationsTimeout)) eqn:Hx; eexists;
      (split; [cbn; rewrite Hx; reflexivity|]).
    + apply (at_end _ _ true m); [done|]. pose proof (answers_object m p Hp) as H. by rewrite Hx, orb_true_r in H.
    + apply (at_end _ _ false m1); [by apply HP|]. destruct Hl1 as (Hs & Hc & Ho). rewrite Hs in Hp.
      destruct (Ho p Hp) as [Ht _]. pose proof (answers_object m1 p Hp) as H. rewrite <-Ht in H.
      apply bool_decide_eq_false in Hx. rewrite (bool_decide_false (sh_clock m1 - _ > _)) in H by lia.
      rewrite orb_false_r in H. destruct Hu as [Hu|Hu].
      * by rewrite (bool_decide_false (load FAdd _ ≤ 0)) in H by lia.
      * by rewrite (bool_decide_false (load FDel _ ≤ 0)), andb_false_r in H by lia.
  - exists (told b). split; [done|]. apply (at_end _ _ b m1); [by apply HP|done].
Qed.

(** *** Together *)

Definition seen (start c : Conf) (m1 : Shared) : Prop := ∃ ts, rtc step start (ts, m1) ∧ rtc step (ts, m1) c.

Lemma question_runs t0 ts0 m0 c :
  stage (seen (t0 :: ts0, m0) (t0 :: ts0, m0)) m0 t0 → calm ts0 m0 → rtc step (t0 :: ts0, m0) c →
  ∃ t ts, c.1 = t :: ts ∧ calm ts c.2 ∧ stage (seen (t0 :: ts0, m0) c) c.2 t.
Proof using SL.
  intros Hstage Hcalm Hrun. set (start := (t0 :: ts0, m0)) in *.
  revert c Hrun. apply rtc_ind_r; [by exists t0, ts0|]. intros c c' Hrun Hstep (t & ts & Hc & Hts & Ht).
  assert (∀ m1, seen start c m1 → seen start c' m1) as Hseen.
  { intros m1 (ts1 & H1 & H2). exists ts1. split; [done|]. by eapply rtc_r. }
  assert (seen start c' c.2) as Hnow.
  { destruct c as [c1 c2]. exists c1. split; [exact Hrun|exact (rtc_once _ _ Hstep)]. }
  destruct Hstep as [i ts1 m B a f Hi|ts1 m d Hd]; simpl in Hc, Hts, Ht, Hnow |- *; subst ts1.
  - destruct i as [|i].
    + injection Hi as ->. destruct (stage_next _ _ m _ Hseen Hnow Ht) as (t' & Hnext & Ht').
      simpl in Hnext. injection Hnext as Hf Hm. rewrite Hf, Hm in Ht' |- *. by exists t', ts.
    + destruct (calm_step i ts m B a f Hts Hi) as [Hts' Hl]. exists t, (<[i := f (act a m).2]> ts).
      split; [done|]. split; [done|]. by eapply stage_lowered.
  - destruct (calm_tick ts m d Hd Hts) as [Hts' Hl]. exists t, ts. split; [done|]. split; [done|].
    by eapply stage_lowered.
Qed.

(** C30 (the answer was right at some moment). While other threads make any calls about
    other keys, and about this one only calls that lower its expectations,
    [SatisfiedExpectations] answers what it would have answered, had it run alone, in one
    of the states since it was called: that it reads the two counters and the clock one
    after the other does not show. *)
Theorem SatisfiedExpectations_linearizable (css : list (list exp_op)) (l : gmap string entry) (m m' : Shared)
    (ts' : list (prog (option bool))) (b : bool) :
  shared_represents m l → Forall (Forall only_lowers) css →
  (∀ e, l !! k = Some e → in_int64 (en_add e) ∧ in_int64 (en_del e) ∧
     in_int64 (en_add e - lowerings (concat css) FAdd) ∧ in_int64 (en_del e - lowerings (concat css) FDel)) →
  rtc step (ask k :: (perform <$> css), m) (mret (Some b) :: ts', m') →
  ∃ ts m1, rtc step (ask k :: (perform <$> css), m) (ts, m1) ∧ rtc step (ts, m1) (mret (Some b) :: ts', m') ∧
    run (SatisfiedExpectations k) m1 = (m1, b).
Proof using SL.
  intros Hm Hcss Hin Hrun.
  assert (calm (perform <$> css) m) as Hcalm.
  { exists ((λ ops, (∅, lowerings ops)) <$> css). split; [|split].
    - apply Forall2_fmap, Forall_Forall2_diag. eapply Forall_impl; [exact Hcss|]. intros ops Hops. split; [|done].
      by apply lowers_perform.
    - intros key p Hp. pose proof (Hm key) as Hk. rewrite Hp in Hk. destruct Hk as (e & _ & Hc).
      split; [by apply lookup_lt_Some in Hc|]. by rewrite (object_lookup m p _ Hc).
    - intros p f Hp. pose proof (Hm k) as Hk. rewrite Hp in Hk. destruct Hk as (e & He & Hc).
      destruct (Hin e He) as (Ha & Hd & Hla & Hld). rewrite (object_lookup m p _ Hc).
      assert (pending ((λ ops, (∅, lowerings ops)) <$> css) f = lowerings (concat css) f) as ->.
      { clear. induction css as [|ops css IH]; [done|]. rewrite fmap_cons. cbn [pending foldr concat snd].
        fold (pending ((λ ops, ((∅ : keys), lowerings ops)) <$> css) f). rewrite IH. clear. unfold lowerings.
        induction ops as [|o ops IH]; simpl; [done|]. rewrite <-IH. lia. }
      destruct f; unfold load; simpl; by rewrite int64_id. }
  destruct (question_runs (ask k) (perform <$> css) m _ (at_start _ m) Hcalm Hrun) as (t & ts & Hc & _ & Ht).
  simpl in Hc, Ht. injection Hc as <- <-.
  inversion Ht as [|p|p|p m1|p m1|b' m1 (ts1 & H1 & H2) Hb Heq]; subst. by exists ts1, m1.
Qed.
End question.

(** ** Witnesses *)

Module SampleThreads.
#[local] Existing Instances gmap_PtrStore gmap_PtrStore_laws.

Definition ledger (add del : Z) : gmap string entry := {[ "pods" := Entry add del 0 ]}.
Definition memory (add del : Z) : Shared :=
  {| sh_heap := [entry_cell "pods" (Entry add del 0)]; sh_store := {[ "pods" := 0%nat ]}; sh_clock := 0 |}.

Lemma memory_represents add del : shared_represents (memory add del) (ledger add del).
Proof.
  intros k. unfold memory, ledger. simpl. destruct (decide (k = "pods")) as [->|Hk].
  - exists (Entry add del 0). by rewrite lookup_singleton_eq.
  - by rewrite !lookup_singleton_ne.
Qed.

(** A reconciliation that creates two pods, and the event of one of them, while a pod is
    deleted. *)
Definition calls : list (list exp_op) :=
  [ [OpRaise "pods" 1 0; OpRaise "pods" 1 0]; [OpCreationObserved "pods"]; [OpRaise "pods" 0 1] ].
Definition turns : list nat := [0; 1; 2; 0; 1; 0; 2; 1; 2; 0; 0; 0]%nat.
Definition after_turns : Conf := interleave turns (perform <$> calls, memory 0 0).

Lemma interleaved_calls_add_up_witness :
  after_turns.1 = [Ret None; Ret None; Ret None] ∧
  shared_represents after_turns.2 (ledger_run (concat calls) (ledger 0 0)).
Proof.
  assert (after_turns.1 = [Ret None; Ret None; Ret None]) as Hts by by_vm. split; [exact Hts|].
  destruct (interleaved_calls_add_up calls (ledger 0 0) (memory 0 0)) as [_ Hadd].
  - apply memory_represents.
  - repeat constructor.
  - apply (Hadd after_turns.1).
    + rewrite <-surjective_pairing. unfold after_turns. apply interleave_steps.
    + rewrite Hts. repeat constructor.
Defined.

(** The last creation is observed, and another key is set, while the question runs. *)
Definition others : list (list exp_op) := [ [OpCreationObserved "pods"]; [OpSet 0 "services" 3 0] ].
Definition question_turns : list nat := [0; 1; 2; 0; 2; 1; 0; 0; 2; 1]%nat.
Definition asked : Conf := interleave question_turns (ask "pods" :: (perform <$> others), memory 1 0).

Lemma SatisfiedExpectations_linearizable_witness :
  ∃ m1, run (SatisfiedExpectations "pods") m1 = (m1, false).
Proof.
  assert (asked.1 = [mret (Some false); Ret None; Ret None]) as Hts by by_vm.
  destruct (SatisfiedExpectations_linearizable "pods" others (ledger 1 0) (memory 1 0) asked.2
    [Ret None; Ret None] false) as (ts & m1 & _ & _ & Hm1).
  - apply memory_represents.
  - constructor; [constructor; [by right|constructor]|]. constructor; [|constructor].
    constructor; [by left|constructor].
  - intros e He. unfold ledger in He. rewrite lookup_singleton_eq in He. injection He as <-.
    assert (lowerings "pods" (concat others) FAdd = 1) as -> by by_vm.
    assert (lowerings "pods" (concat others) FDel = 0) as -> by by_vm. unfold in_int64. simpl. lia.
  - rewrite <-Hts, <-surjective_pairing. unfold asked. apply interleave_steps.
  - by exists m1.
Defined.

(** When the key is raised meanwhile, the answer can be one that no state of the run would
    have given: a creation and then no deletion is awaited, and at no moment nothing. *)
Definition raised : list (list exp_op) := [ [OpRaise "pods" 1 0; OpDeletionObserved "pods"] ].
Definition torn_turns : list nat := [0; 0; 1; 1; 1; 1; 1; 1; 0]%nat.
Definition torn (n : nat) : Conf := interleave (take n torn_turns) (ask "pods" :: (perform <$> raised), memory 0 1).
Example torn_answer :
  (torn 9).1 = [mret (Some true); Ret None] ∧
  (λ n, (run (SatisfiedExpectations "pods") (torn n).2).2) <$> seq 0 10 = replicate 10 false.
Proof. split; by_vm. Qed.
End SampleThreads.
