(* ===== verification/Listers.v ===== *)
(** * Listers

    pkg/client/listers: what the informers' caches hold, listed and got by name. The
    indexer of client-go, which holds the objects under their keys, is a parameter:
    [IndexerLaws] says what its documentation promises of one that holds KubeClusters. *)

From S2P Require Import Prelude K8s Api Names Informers.

(** The objects of an indexer are of interface type. *)
Inductive object `{K : K8s} := OKubeCluster (k : KubeCluster) | OOther.

(** What [ListAll] and [ListAllByNamespace] call their function with, in order, before
    they return; [errors.NewNotFound] of a resource and a name. *)
Class Indexer `{K : K8s} := {
  indexer : Type;
  Selector : Type;
  Everything : Selector;
  ListAll : indexer → Selector → list object * option error;
  ListAllByNamespace : indexer → string → Selector → list object * option error;
  GetByKey : indexer → string → error + option object;
  NewNotFound : string → string → ApiError
}.

Section listers.
Context {K : K8s} {I : Indexer}.

(** [ret = append(ret, m.( *KubeCluster))] *)
Fixpoint append_all (ret : list KubeCluster) (ms : list object) : res (list KubeCluster) :=
  match ms with
  | [] => Ok ret
  | OKubeCluster k :: ms => append_all (ret ++ [k])%list ms
  | OOther :: _ => Panic
  end.

Record kubeClusterLister := { kl_indexer : indexer }.
Definition NewKubeClusterLister (i : indexer) : kubeClusterLister := {| kl_indexer := i |}.

(** The list and the error are both returned. *)
Definition lister_List (s : kubeClusterLister) (selector : Selector) : res (list KubeCluster * option error) :=
  let '(ms, err) := ListAll (kl_indexer s) selector in
  let! ret := append_all [] ms in Ok (ret, err).

Record kubeClusterNamespaceLister := { kn_indexer : indexer; kn_namespace : string }.
Definition lister_KubeClusters (s : kubeClusterLister) (namespace : string) : kubeClusterNamespaceLister :=
  {| kn_indexer := kl_indexer s; kn_namespace := namespace |}.

Definition namespace_List (s : kubeClusterNamespaceLister) (selector : Selector) :
    res (list KubeCluster * option error) :=
  let '(ms, err) := ListAllByNamespace (kn_indexer s) (kn_namespace s) selector in
  let! ret := append_all [] ms in Ok (ret, err).

Definition namespace_Get (s : kubeClusterNamespaceLister) (name : string) : res KubeCluster :=
  match GetByKey (kn_indexer s) (kn_namespace s +:+ "/" +:+ name) with
  | inl err => Err err
  | inr None => Err (EApi (NewNotFound "kubecluster" name))
  | inr (Some (OKubeCluster k)) => Ok k
  | inr (Some OOther) => Panic
  end.

(** informers/externalversions/kubecluster.org/v1alpha1/kubecluster.go: the lister of an
    informer, which asking for it makes when it is the first to. *)
Definition Lister {Client ListOptions : Type}
    (GetIndexer : SharedIndexInformer (Client := Client) (ListOptions := ListOptions) → indexer)
    (i : kubeClusterInformer (ListOptions := ListOptions))
    (f : sharedInformerFactory (Client := Client) (ListOptions := ListOptions)) :
    sharedInformerFactory (Client := Client) (ListOptions := ListOptions) * kubeClusterLister :=
  let '(f, informer) := Informer i f in (f, NewKubeClusterLister (GetIndexer informer)).
End listers.

(** An indexer of KubeClusters holds each under its key, lists what a selector matches, of
    one namespace or of all, and finds by the key. *)
Class IndexerLaws `{K : K8s} (I : Indexer) (contents : indexer → gmap string KubeCluster)
    (matches : Selector → KubeCluster → bool) : Prop := {
  il_keys i key k : contents i !! key = Some k → MetaNamespaceKeyFunc (kc_Meta k) = Some key;
  il_Everything k : matches Everything k = true;
  il_ListAll i sel : ∃ l, ListAll i sel = (OKubeCluster <$> l, None) ∧
    ∀ k, k ∈ l ↔ matches sel k = true ∧ ∃ key, contents i !! key = Some k;
  il_ListAllByNamespace i ns sel : ∃ l, ListAllByNamespace i ns sel = (OKubeCluster <$> l, None) ∧
    ∀ k, k ∈ l ↔ (ns = "" ∨ om_Namespace (kc_Meta k) = ns) ∧ matches sel k = true ∧
      ∃ key, contents i !! key = Some k;
  il_GetByKey i key : GetByKey i key = inr (OKubeCluster <$> contents i !! key)
}.

Section lists.
Context {K : K8s} {KL : K8sLaws K} {I : Indexer} (contents : indexer → gmap string KubeCluster)
  (matches : Selector → KubeCluster → bool) {IL : IndexerLaws I contents matches}.

Lemma append_all_clusters ret l : append_all ret (OKubeCluster <$> l) = Ok (ret ++ l)%list.
Proof using Type.
  clear. revert ret. induction l as [|k l IH]; intros ret; simpl; [by rewrite app_nil_r|].
  rewrite IH. by rewrite <-app_assoc.
Qed.

(** The lister of a namespace lists what the lister of all lists of that namespace. *)
Lemma namespace_List_filters i ns sel :
  ns ≠ "" →
  ∃ all some, lister_List (NewKubeClusterLister i) sel = Ok (all, None) ∧
    namespace_List (lister_KubeClusters (NewKubeClusterLister i) ns) sel = Ok (some, None) ∧
    ∀ k, k ∈ some ↔ k ∈ all ∧ om_Namespace (kc_Meta k) = ns.
Proof using IL.
  intros Hns. destruct (il_ListAll i sel) as (all & Hall & Hin), (il_ListAllByNamespace i ns sel) as (some & Hsome & Hin').
  exists all, some. unfold lister_List, namespace_List. simpl. rewrite Hall, Hsome, !append_all_clusters. simpl.
  split_and!; [done..|]. intros k. rewrite Hin, Hin'. naive_solver.
Qed.

(** Names of the API server have no slash. *)
Definition plain_names (i : indexer) : Prop :=
  ∀ key k, contents i !! key = Some k →
    has_char slash (om_Namespace (kc_Meta k)) = false ∧ has_char slash (om_Name (kc_Meta k)) = false.

(** Getting by name finds the KubeCluster of that name among those that are listed, and
    says NotFound exactly when there is none. *)
Lemma namespace_Get_finds i ns name :
  ns ≠ "" → has_char slash name = false → plain_names i →
  let s := lister_KubeClusters (NewKubeClusterLister i) ns in
  ∃ l, namespace_List s Everything = Ok (l, None) ∧
    match namespace_Get s name with
    | Ok k => k ∈ l ∧ ∀ k', k' ∈ l → om_Name (kc_Meta k') = name → k' = k
    | Err e => e = EApi (NewNotFound "kubecluster" name) ∧ ∀ k, k ∈ l → om_Name (kc_Meta k) ≠ name
    | Panic => False
    end.
Proof using KL IL.
  intros Hns Hslash Hplain s. destruct (il_ListAllByNamespace i ns Everything) as (l & Hl & Hin). exists l.
  split; [unfold namespace_List; simpl; by rewrite Hl, append_all_clusters|].
  assert (∀ k, k ∈ l → om_Name (kc_Meta k) = name → contents i !! (ns +:+ "/" +:+ name) = Some k) as Hkey.
  { intros k ([?|Hk] & _ & key & Hc)%Hin Hname; [done|]. pose proof (il_keys i key k Hc) as Hm.
    rewrite MetaNamespaceKeyFunc_spec, decide_False, Hk, Hname in Hm by congruence. 
    assert (ns +:+ "/" +:+ name = key) as -> by by injection Hm. done. }
  assert (namespace_Get s name =
    match contents i !! (ns +:+ "/" +:+ name) with
    | Some k => Ok k
    | None => Err (EApi (NewNotFound "kubecluster" name))
    end) as ->.
  { unfold namespace_Get, s. simpl. rewrite il_GetByKey. by destruct (contents i !! _). }
  destruct (contents i !! (ns +:+ "/" +:+ name)) as [k|] eqn:Hk; simpl.
  - split; [|intros k' Hk' Hn; specialize (Hkey k' Hk' Hn); congruence].
    apply Hin. split; [|split; [apply il_Everything|by eexists]]. right.
    pose proof (il_keys i _ k Hk) as Hm. destruct (Hplain _ k Hk) as [Hpn Hpm].
    rewrite MetaNamespaceKeyFunc_spec in Hm. case_decide as Hz; injection Hm as Hm.
    + exfalso. assert (has_char slash (om_Name (kc_Meta k)) = true) as H; [|congruence].
      rewrite Hm, has_char_app. apply orb_true_iff. by right.
    + apply (string_split_last slash) in Hm as [Hn _]; [done|exact Hpm|exact Hslash].
  - split; [done|]. intros k' Hk' Hn. specialize (Hkey k' Hk' Hn). congruence.
Qed.
End lists.
