(* ===== verification/Clientset.v ===== *)
(** * Making clients

    clientset.go and kubecluster.org_client.go of pkg/client/clientset/versioned, which
    make the generated clients from a configuration of client-go, and the client of
    pkg/util/k8sutil/client.go. What client-go makes of a configuration is a parameter,
    the class [RestLibrary]; of the configuration, the fields that are read or set are
    written out. *)

From S2P Require Import Prelude.

(** [rest.Config]. The rate, a float32, is compared to zero and passed on. *)
Record GroupVersion := { gv_Group : string; gv_Version : string }.
Class RestTypes := {
  Rate : Type;
  rate_positive : Rate → bool;
  RateLimiter : Type;
  NegotiatedSerializer : Type;
  OtherConfig : Type
}.
Record Config `{RestTypes} := {
  rc_UserAgent : string;
  rc_RateLimiter : option RateLimiter;
  rc_QPS : Rate;
  rc_Burst : Z;
  rc_GroupVersion : option GroupVersion;
  rc_APIPath : string;
  rc_ContentType : string;
  rc_NegotiatedSerializer : option NegotiatedSerializer;
  rc_other : OtherConfig
}.

Section updates.
Context {T : RestTypes}.
Implicit Types c : Config.
Definition rc_set_UserAgent (v : string) c : Config := {|
  rc_UserAgent := v; rc_RateLimiter := rc_RateLimiter c; rc_QPS := rc_QPS c; rc_Burst := rc_Burst c;
  rc_GroupVersion := rc_GroupVersion c; rc_APIPath := rc_APIPath c; rc_ContentType := rc_ContentType c;
  rc_NegotiatedSerializer := rc_NegotiatedSerializer c; rc_other := rc_other c |}.
Definition rc_set_RateLimiter (v : option RateLimiter) c : Config := {|
  rc_UserAgent := rc_UserAgent c; rc_RateLimiter := v; rc_QPS := rc_QPS c; rc_Burst := rc_Burst c;
  rc_GroupVersion := rc_GroupVersion c; rc_APIPath := rc_APIPath c; rc_ContentType := rc_ContentType c;
  rc_NegotiatedSerializer := rc_NegotiatedSerializer c; rc_other := rc_other c |}.
Definition rc_set_API (gv : GroupVersion) (path content : string) (s : NegotiatedSerializer) c : Config := {|
  rc_UserAgent := rc_UserAgent c; rc_RateLimiter := rc_RateLimiter c; rc_QPS := rc_QPS c;
  rc_Burst := rc_Burst c; rc_GroupVersion := Some gv; rc_APIPath := path; rc_ContentType := content;
  rc_NegotiatedSerializer := Some s; rc_other := rc_other c |}.
End updates.

Class RestLibrary `{T : RestTypes} := {
  HTTPClient : Type;
  RESTClient : Type;
  DiscoveryClient : Type;
  DefaultKubernetesUserAgent : string;
  ContentTypeJSON : string;
  NewTokenBucketRateLimiter : Rate → Z → RateLimiter;
  HTTPClientFor : Config → result string HTTPClient;
  RESTClientFor : Config → result string RESTClient;
  RESTClientForConfigAndClient : Config → HTTPClient → result string RESTClient;
  NewDiscoveryClientForConfigAndClient : Config → HTTPClient → result string DiscoveryClient;
  NewDiscoveryClient : RESTClient → DiscoveryClient;
  (** [scheme.Codecs.WithoutConversion()], and the factory of k8sutil *)
  Codecs_WithoutConversion : NegotiatedSerializer;
  WithoutConversionCodecFactory : NegotiatedSerializer
}.

Definition SchemeGroupVersion : GroupVersion :=
  {| gv_Group := "kubecluster.org"; gv_Version := "v1alpha1" |}.

(** [panic(err)] *)
Definition or_die {A} (r : result string A) : result string A := match r with Ok a => Ok a | _ => Panic end.

(** ** kubecluster.org_client.go *)

Module V1alpha1.
Section client.
Context {T : RestTypes} {L : RestLibrary}.

Record KubeclusterV1alpha1Client := { kv_restClient : RESTClient }.

(** It sets the fields of a copy, and has no error to return. *)
Definition setConfigDefaults (config : Config) : Config :=
  let config := rc_set_API SchemeGroupVersion "/apis" (rc_ContentType config) Codecs_WithoutConversion config in
  if decide (rc_UserAgent config = "") then rc_set_UserAgent DefaultKubernetesUserAgent config else config.

Definition NewForConfigAndClient (c : Config) (h : HTTPClient) : result string KubeclusterV1alpha1Client :=
  let config := setConfigDefaults c in
  let! client := RESTClientForConfigAndClient config h in Ok {| kv_restClient := client |}.

Definition NewForConfig (c : Config) : result string KubeclusterV1alpha1Client :=
  let config := setConfigDefaults c in
  let! httpClient := HTTPClientFor config in
  NewForConfigAndClient config httpClient.

Definition NewForConfigOrDie (c : Config) : result string KubeclusterV1alpha1Client := or_die (NewForConfig c).

Definition New (c : RESTClient) : KubeclusterV1alpha1Client := {| kv_restClient := c |}.

(** Of the nil client, nil. *)
Definition RESTClient_ (c : option KubeclusterV1alpha1Client) : option RESTClient := kv_restClient <$> c.

Lemma setConfigDefaults_idemp c : setConfigDefaults (setConfigDefaults c) = setConfigDefaults c.
Proof.
  unfold setConfigDefaults. simpl. destruct (decide (rc_UserAgent c = "")) as [Hc|Hc]; simpl.
  - by destruct (decide (DefaultKubernetesUserAgent = "")).
  - by rewrite decide_False.
Qed.
End client.
End V1alpha1.

(** ** clientset.go *)

Section clientset.
Context {T : RestTypes} {L : RestLibrary}.

Record Clientset := {
  cs_DiscoveryClient : DiscoveryClient;
  cs_kubeclusterV1alpha1 : V1alpha1.KubeclusterV1alpha1Client
}.

Definition Discovery (c : option Clientset) : option DiscoveryClient := cs_DiscoveryClient <$> c.

Definition burst_error : string :=
  "burst is required to be greater than 0 when RateLimiter is not set and QPS is set to greater than 0".

(** The limiter that a rate asks for, which both clients then have. *)
Definition limited (c : Config) : result string Config :=
  match rc_RateLimiter c with
  | Some _ => Ok c
  | None =>
      if rate_positive (rc_QPS c) then
        if bool_decide (rc_Burst c ≤ 0) then Err burst_error
        else Ok (rc_set_RateLimiter (Some (NewTokenBucketRateLimiter (rc_QPS c) (rc_Burst c))) c)
      else Ok c
  end.

Definition NewForConfigAndClient (c : Config) (httpClient : HTTPClient) : result string Clientset :=
  let! configShallowCopy := limited c in
  let! v1alpha1 := V1alpha1.NewForConfigAndClient configShallowCopy httpClient in
  let! discovery := NewDiscoveryClientForConfigAndClient configShallowCopy httpClient in
  Ok {| cs_DiscoveryClient := discovery; cs_kubeclusterV1alpha1 := v1alpha1 |}.

Definition NewForConfig (c : Config) : result string Clientset :=
  let configShallowCopy :=
    if decide (rc_UserAgent c = "") then rc_set_UserAgent DefaultKubernetesUserAgent c else c in
  let! httpClient := HTTPClientFor configShallowCopy in
  NewForConfigAndClient configShallowCopy httpClient.

Definition NewForConfigOrDie (c : Config) : result string Clientset := or_die (NewForConfig c).

Definition New (c : RESTClient) : Clientset :=
  {| cs_DiscoveryClient := NewDiscoveryClient c; cs_kubeclusterV1alpha1 := V1alpha1.New c |}.

(** ** pkg/util/k8sutil/client.go *)

(** [config] is what GetClusterConfig gives (Clients.v). *)
Definition NewCRDRestClient (version : GroupVersion) (config : result string Config) : result string RESTClient :=
  let! config := config in
  RESTClientFor (rc_set_API version "/apis" ContentTypeJSON WithoutConversionCodecFactory config).

(** pkg/util/k8sutil/k8sutil.go. [log.Fatal] ends the process, as a panic does. *)
Definition MustNewKubeClient {C} (cfg : result string Config) (kubernetes_NewForConfig : Config → result string C) :
    result string C :=
  let! cfg := or_die cfg in or_die (kubernetes_NewForConfig cfg).

(** ** What the clients are made with *)

(** A user agent, once set, is kept; the limiter, once there, is not replaced: both
    clients of a clientset send through one http client and one limiter. *)
Lemma limited_limits c c' :
  limited c = Ok c' →
  (rate_positive (rc_QPS c) = true → is_Some (rc_RateLimiter c')) ∧
  (∀ l, rc_RateLimiter c = Some l → c' = c) ∧
  rc_UserAgent c' = rc_UserAgent c ∧ limited c' = Ok c'.
Proof.
  unfold limited. destruct (rc_RateLimiter c) as [l|] eqn:Hl.
  - intros [= <-]. rewrite Hl. by split_and!.
  - destruct (rate_positive (rc_QPS c)) eqn:Hr; [case_bool_decide; [done|]|]; intros [= <-]; simpl.
    + by split_and!.
    + rewrite Hl, Hr. by split_and!.
Qed.

Lemma NewForConfigAndClient_spec c h :
  match NewForConfigAndClient c h with
  | Ok cs => ∃ c', limited c = Ok c' ∧
      V1alpha1.NewForConfigAndClient c' h = Ok (cs_kubeclusterV1alpha1 cs) ∧
      NewDiscoveryClientForConfigAndClient c' h = Ok (cs_DiscoveryClient cs)
  | Err e =>
      (e = burst_error ∧ rc_RateLimiter c = None ∧ rate_positive (rc_QPS c) = true ∧ rc_Burst c ≤ 0) ∨
      ∃ c', limited c = Ok c' ∧
        (V1alpha1.NewForConfigAndClient c' h = Err e ∨ NewDiscoveryClientForConfigAndClient c' h = Err e)
  | Panic => ∃ c', limited c = Ok c' ∧
      (V1alpha1.NewForConfigAndClient c' h = Panic ∨ NewDiscoveryClientForConfigAndClient c' h = Panic)
  end.
Proof.
  unfold NewForConfigAndClient. destruct (limited c) as [c'|e|] eqn:Hl; simpl.
  - destruct (V1alpha1.NewForConfigAndClient c' h) as [v|e|] eqn:Hv; simpl; [|by eauto..].
    destruct (NewDiscoveryClientForConfigAndClient c' h) as [d|e|] eqn:Hd; simpl; by eauto.
  - left. unfold limited in Hl. destruct (rc_RateLimiter c); [done|].
    destruct (rate_positive (rc_QPS c)); [|done]. case_bool_decide; [|done]. by injection Hl as <-.
  - unfold limited in Hl. destruct (rc_RateLimiter c); [done|].
    destruct (rate_positive (rc_QPS c)); [|done]. by case_bool_decide.
Qed.

(** The comment on NewForConfig: making the http client first makes the same clientset.
    This needs a user agent in the configuration, since the http client is made with it. *)
Lemma NewForConfig_with_client c :
  rc_UserAgent c ≠ "" →
  NewForConfig c = (let! httpClient := HTTPClientFor c in NewForConfigAndClient c httpClient).
Proof. intros Hc. unfold NewForConfig. by rewrite decide_False. Qed.

Lemma V1alpha1_NewForConfig_with_client c :
  V1alpha1.NewForConfig c =
    (let! httpClient := HTTPClientFor (V1alpha1.setConfigDefaults c) in V1alpha1.NewForConfigAndClient c httpClient).
Proof.
  unfold V1alpha1.NewForConfig. destruct (HTTPClientFor _); simpl; [|done..].
  unfold V1alpha1.NewForConfigAndClient. by rewrite V1alpha1.setConfigDefaults_idemp.
Qed.
End clientset.
