(* ===== verification/Counters.v ===== *)
(** * The registration of the counters

    The counters of pkg/common/metric.go, pkg/metrics/metrics.go and of
    pkg/controller/ctrlcommon, which Schema.v and Controller.v increment, are
    registered when the program starts: promauto registers each in the default
    registry of prometheus as its variable is initialised, and the two [init] functions
    register the vectors once more with controller-runtime. A registration that fails
    panics. The registry is a parameter. *)

From S2P Require Import Prelude.

(** [prometheus.CounterOpts], and the variable labels of a vector. *)
Record Counter := { c_Name : string; c_Help : string; c_labels : list string }.

Class Registry := {
  registry : Type;
  (** [Register]; [None] is its error. *)
  r_Register : Counter → registry → option registry;
  r_registered : registry → list string
}.

(** A counter is refused when there is one of its name. *)
Class RegistryLaws (R : Registry) : Prop := {
  r_Register_new c r : c_Name c ∉ r_registered r → is_Some (r_Register c r);
  r_Register_names c r r' : r_Register c r = Some r' → r_registered r' = c_Name c :: r_registered r
}.

(** ** The counters *)

(** pkg/common/metric.go *)
Module Common.
Definition clustersCreatedCount : Counter := {|
  c_Name := "training_operator_clusters_created_total"; c_Help := "Counts number of clusters created";
  c_labels := ["cluster_namespace"; "cluster_type"] |}.
Definition clustersDeletedCount : Counter := {|
  c_Name := "training_operator_clusters_deleted_total"; c_Help := "Counts number of clusters deleted";
  c_labels := ["cluster_namespace"; "cluster_type"] |}.
Definition clustersFailedCount : Counter := {|
  c_Name := "training_operator_clusters_failed_total"; c_Help := "Counts number of clusters failed";
  c_labels := ["cluster_namespace"; "cluster_type"] |}.
Definition clustersRestartedCount : Counter := {|
  c_Name := "training_operator_clusters_restarted_total"; c_Help := "Counts number of clusters restarted";
  c_labels := ["cluster_namespace"; "cluster_type"] |}.
Definition init_counters : list Counter :=
  [clustersCreatedCount; clustersDeletedCount; clustersFailedCount; clustersRestartedCount].
End Common.

(** pkg/metrics/metrics.go *)
Module Metrics.
Definition clusterCreatedCount : Counter := {|
  c_Name := "kubeclusters_created_total"; c_Help := "Counts number of clusters created";
  c_labels := ["cluster_namespace"; "cluster_type"] |}.
Definition clustersDeletedCount : Counter := {|
  c_Name := "kubeclusters_deleted_total"; c_Help := "Counts number of clusters deleted";
  c_labels := ["cluster_namespace"; "cluster_type"] |}.
Definition clustersSuccessfulCount : Counter := {|
  c_Name := "kubeclusters_successful_total"; c_Help := "Counts number of clusters successful";
  c_labels := ["cluster_namespace"; "cluster_type"] |}.
Definition clustersFailedCount : Counter := {|
  c_Name := "kubeclusters_failed_total"; c_Help := "Counts number of clusters failed";
  c_labels := ["cluster_namespace"; "cluster_schema"] |}.
Definition clustersRestartedCount : Counter := {|
  c_Name := "kubeclusters_restarted_total"; c_Help := "Counts number of clusters restarted";
  c_labels := ["cluster_namespace"; "cluster_type"] |}.
Definition init_counters : list Counter :=
  [clusterCreatedCount; clustersDeletedCount; clustersSuccessfulCount; clustersFailedCount; clustersRestartedCount].
End Metrics.

(** pkg/controller/ctrlcommon *)
Module Ctrlcommon.
Definition createdPDBCount : Counter := {|
  c_Name := "created_pod_disruption_policies_total";
  c_Help := "The total number of created pod disruption policies"; c_labels := [] |}.
Definition deletedPDBCount : Counter := {|
  c_Name := "deleted_pod_disruption_policies_total";
  c_Help := "The total number of deleted pod disruption policies"; c_labels := [] |}.
Definition createdPodGroupsCount : Counter := {|
  c_Name := "created_pod_groups_total"; c_Help := "The total number of created pod groups"; c_labels := [] |}.
Definition deletedPodGroupsCount : Counter := {|
  c_Name := "deleted_pod_groups_total"; c_Help := "The total number of deleted pod groups"; c_labels := [] |}.
Definition createdPodsCount : Counter := {|
  c_Name := "created_pods_total"; c_Help := "The total number of created pods"; c_labels := [] |}.
Definition failedPodsCount : Counter := {|
  c_Name := "failed_pods_total"; c_Help := "The total number of failed pods"; c_labels := [] |}.
Definition succeededServiceCreationCount : Counter := {|
  c_Name := "succeeded_service_creation_total"; c_Help := "The total number of succeeded service creation";
  c_labels := [] |}.
Definition failedServiceCreationCount : Counter := {|
  c_Name := "failed_service_creation_total"; c_Help := "The total number of failed service creation";
  c_labels := [] |}.
Definition succeededConfigMapCreationCount : Counter := {|
  c_Name := "succeeded_configmap_creation_total"; c_Help := "The total number of succeeded configmap creation";
  c_labels := [] |}.
Definition failedConfigMapCreationCount : Counter := {|
  c_Name := "failed_configmap_creation_total"; c_Help := "The total number of failed configmap creation";
  c_labels := [] |}.
Definition counters : list Counter :=
  [createdPDBCount; deletedPDBCount; createdPodGroupsCount; deletedPodGroupsCount; createdPodsCount;
   failedPodsCount; succeededServiceCreationCount; failedServiceCreationCount; succeededConfigMapCreationCount;
   failedConfigMapCreationCount].
End Ctrlcommon.

Definition promauto_counters : list Counter :=
  (Common.init_counters ++ Metrics.init_counters ++ Ctrlcommon.counters)%list.

Section registration.
Context {R : Registry} {RL : RegistryLaws R}.

(** [MustRegister], of counters one after the other. *)
Fixpoint MustRegister (cs : list Counter) (r : registry) : result string registry :=
  match cs with
  | [] => Ok r
  | c :: cs => match r_Register c r with Some r => MustRegister cs r | None => Panic end
  end.

Lemma MustRegister_new cs r :
  NoDup (c_Name <$> cs) → (∀ n, n ∈ (c_Name <$> cs) → n ∉ r_registered r) →
  ∃ r', MustRegister cs r = Ok r' ∧ (r_registered r') ≡ₚ ((c_Name <$> cs) ++ r_registered r)%list.
Proof.
  revert r. induction cs as [|c cs IH]; intros r Hnd Hnew; simpl; [by exists r|].
  apply NoDup_cons in Hnd as [Hc Hnd]. destruct (r_Register_new c r) as [r1 Hr1]; [apply Hnew; left|].
  rewrite Hr1. pose proof (r_Register_names c r r1 Hr1) as Hn.
  destruct (IH r1 Hnd) as (r' & Hr' & Hp).
  - intros n Hin. rewrite Hn. intros [->|Hin']%elem_of_cons; [done|]. by apply (Hnew n); [right|].
  - exists r'. split; [done|]. rewrite Hp, Hn. change ((c_Name <$> c :: cs) ++ r_registered r)%list
      with (c_Name c :: ((c_Name <$> cs) ++ r_registered r))%list. by rewrite Permutation_middle.
Qed.

Lemma promauto_names : NoDup (c_Name <$> promauto_counters).
Proof using Type. clear. apply (bool_decide_unpack _). by vm_compute. Qed.

(** In whatever order the packages are initialised, every counter is registered with
    prometheus, the vectors with controller-runtime as well, and nothing panics, as long
    as the registries have none of these names from elsewhere. *)
Lemma registration_succeeds order inits (prometheus runtime : registry) :
  let vectors := (Common.init_counters ++ Metrics.init_counters)%list in
  order ≡ₚ promauto_counters → inits ≡ₚ vectors →
  (∀ n, n ∈ (c_Name <$> promauto_counters) → n ∉ r_registered prometheus ∧ n ∉ r_registered runtime) →
  (∃ r, MustRegister order prometheus = Ok r ∧
     r_registered r ≡ₚ ((c_Name <$> promauto_counters) ++ r_registered prometheus)%list) ∧
  (∃ r, MustRegister inits runtime = Ok r ∧ r_registered r ≡ₚ ((c_Name <$> vectors) ++ r_registered runtime)%list).
Proof.
  intros vectors Ho Hi Hnew. pose proof promauto_names as Hnd.
  assert (∀ n, n ∈ (c_Name <$> vectors) → n ∈ (c_Name <$> promauto_counters)) as Hvec.
  { intros n. unfold promauto_counters. rewrite (assoc_L (++)), (fmap_app c_Name vectors), elem_of_app. auto. }
  assert (NoDup (c_Name <$> vectors)) as Hndv.
  { unfold promauto_counters in Hnd. rewrite (assoc_L (++)), fmap_app in Hnd. by apply NoDup_app in Hnd as [Hnd _]. }
  split.
  - destruct (MustRegister_new order prometheus) as (r & Hr & Hp); [by rewrite Ho| |].
    + intros n. rewrite Ho. apply Hnew.
    + exists r. split; [done|]. by rewrite Hp, Ho.
  - destruct (MustRegister_new inits runtime) as (r & Hr & Hp); [by rewrite Hi| |].
    + intros n. rewrite Hi. intros Hn. by apply Hnew, Hvec.
    + exists r. split; [done|]. by rewrite Hp, Hi.
Qed.
End registration.
